(* ===== verification/_CoqProject ===== *)
-Q . S2P
Prelude.v
Types.v
Mbedtls.v
Rand.v
Text.v
Regex.v
Aead.v
AeadStream.v
AeadSpec.v
Address.v
AddressSpec.v
Dns.v
DnsFacts.v
DnsSpec.v
Lwip.v
Tcp.v
TcpDest.v
TcpInv.v
TcpFacts.v
TcpRun.v
TcpSpec.v
TcpLimits.v
TcpFrame.v
Udp.v
UdpFacts.v
UdpFrame.v
UdpRun.v
UdpSpec.v
Config.v
ConfigSpec.v
Runtime.v
RuntimeFacts.v
RuntimeSpec.v
TunBuilder.v
TunSpec.v
OpenVpn.v
ScanSpec.v
OpenVpnSpec.v
Inbound.v
InboundSpec.v
Manager.v
ManagerSpec.v
Node.v
NodeSpec.v
Plane.v
PlaneSpec.v
Sync.v
SyncFacts.v
Locking.v
LockingSpec.v
