(* ===== verification/Prelude.v ===== *)
(** * ovpn2ss: a verification of the relay

    ovpn2ss opens an OpenVPN tunnel per configured instance, runs lwIP on top
    of it in user space, and offers each tunnel as a Shadowsocks server: a
    client's TCP connections and UDP datagrams are decrypted and carried on
    through the tunnel, answers go back encrypted.  This development models
    the program's own C++ code (everything under [src/src] and
    [src/include/ovpn2ss]) and proves what makes it correct, and where it is
    not.

    ** The program and the files that model it

    Each component has a file with its state as a record and one definition
    per method, handler or callback, named as in the code; a [Facts], [Inv] or
    [Run] file with its invariant and the lemmas on the operations; and a
    [Spec] file with its properties, marked [C1] to [C40], and witnesses.

    - [Prelude] (this file): bytes, machine integers, outcomes of C++ code, the
      state monad with exceptions and undefined behaviour, record update, the
      shared tactics and hint databases.  [Types]: [InstanceConfig.h] and
      [PacketBuffer.h].  [Text]: number formatting of the C++ library.
    - [Aead], [AeadStream], [AeadSpec]: [ShadowsocksAead.cpp], keys, salts,
      nonces, TCP chunks, UDP packets; [Mbedtls] is the interface to mbedTLS.
      [Address], [AddressSpec]: its address codec.
    - [Tcp], [TcpDest], [TcpInv], [TcpFacts], [TcpRun], [TcpSpec],
      [TcpLimits], [TcpFrame]: [TcpRelaySession.cpp], one object per client
      connection, with the ownership of the object by socket operations and by
      itself; [TcpDest] has where a session connects to.
    - [Udp], [UdpFacts], [UdpFrame], [UdpRun], [UdpSpec]:
      [UdpRelaySession.cpp], with its mappings on a heap and lwIP's callback
      arguments as pointers into it, against an interface of the stack and of
      the resolver.
    - [Dns], [DnsFacts], [DnsSpec]: the DNS codec of [LwipRuntime.cpp];
      [Runtime], [RuntimeFacts], [RuntimeSpec]: the rest of it, interface,
      packet paths, resolver; [Rand]: its random numbers for lwIP.  [Lwip] is
      the interface to lwIP.
    - [TunBuilder], [TunSpec]: [OpenVpnTunBuilder.cpp], on top of [Runtime].
    - [OpenVpn], [ScanSpec], [OpenVpnSpec]: [OpenVpnClient.cpp], on top of
      [TunBuilder]: profile scan, memory tun, core client, connecting thread.
      [Regex]: the part of [std::regex] that the scan uses, a backtracking
      matcher with the search for successive matches.
    - [Config], [ConfigSpec]: [load_json_config] of
      [MultiInstanceManager.cpp].
    - [Inbound], [InboundSpec]: [ShadowsocksInbound.cpp], against the interface
      [UdpService] that [InboundSpec] shows [Udp] to implement.
    - [Manager], [ManagerSpec]: the rest of [MultiInstanceManager.cpp] and
      [main.cpp]: instances, composed of the models of their members, with
      their event loops.
    - [Node], [NodeSpec]: the relay of [Udp] on the runtime of [Runtime], which
      is both its stack and its resolver: one lwIP, the queries and mappings
      side by side, and the functions the runtime posts run the relay's
      handlers.  [Plane], [PlaneSpec]: the node with any number of TCP
      sessions, each the model of [Tcp] on the same stack and resolver: the
      data plane of an instance.
    - [Sync], [SyncFacts], [Locking], [LockingSpec]: the threads of the
      program, for any number of instances.  [Sync] is a small language of
      accesses to shared fields, scoped locks (recursive or not), thread
      creation and joins, with its interleaving semantics; [Locking] has a term
      of it for every function that locks or touches a shared field, composed
      as the code calls them.

    ** How code becomes definitions

    Code that mutates an object is a computation in the monad [M S] over the
    state [S] it works on; it returns, throws or is undefined ([Ub]: an access
    outside a span, through a dangling pointer, or to a destroyed object), and
    a throw keeps the effects so far.  Asynchronous operations are counters or
    lists of what is outstanding; their handlers, lwIP's callbacks and posted
    functions are definitions of their own that an event runs.  A run is any
    sequence of enabled events, so the theorems hold for every interleaving
    of handlers; a handler itself runs to its end, as on an [io_context] with
    one thread and under lwIP's lock.  Calls on the outside are logged in the
    state, and properties speak about the log.  Integers are [Z] with their
    wrap-around written out where the code can reach it.

    ** What the theorems show

    - Streams: what one end of a session encrypts the other decrypts, under
      any fragmentation; the relay hands lwIP exactly the client's payload, on
      a connection to the client's target and no other, and the client exactly
      what lwIP delivered; the receive window and the queue
      counts are conserved.
    - Memory and protocol safety: no reachable event order makes a handler
      touch something destroyed, call lwIP out of turn or loop for ever, but
      for the findings; the tables of mappings, queries, pcbs and callbacks
      stay in one-to-one correspondence; what stops releases everything.
    - Codecs: addresses, DNS messages and configurations are accepted exactly
      when their grammar or contract says so, and round trips; the profile
      scan finds exactly the cipher directives it is meant to find, by an
      equivalence of its expression with a scan without backtracking.
    - Tunnel: a staged configuration is applied as described; packets cross
      the memory tun once, in order and only while it is connected; the
      connecting thread ends, and what it does is, action by action, what its
      reference schedule says.
    - Composition: the inbound of an instance is started exactly while the
      tunnel is up as far as the loop has been told; the program, from
      [main]'s first line to its last, exits with the code its way out says
      and leaves no listener, client or query behind, as long as the loops'
      threads live and get through their queues while [stop] waits; sessions,
      relay and resolver on one stack leave each other alone, every name is
      resolved once, and a datagram or a connection for a domain goes to the
      address the name server answers.  The resolver numbers its queries with
      16 bits and does not check that a number is free: the runs record
      whether every number drawn was free, as it is for the first 65536, and
      these theorems are about the runs in which it was ([C40] is about the
      others).
    - Threads: locks are taken in the order lwIP's lock, [impl_mutex_],
      openvpn3's core, [handler_mutex_], so no interleaving deadlocks, and
      the fields kept apart by locks, by their thread or by a join are free of
      data races.  The threads are skeletons whose conditions are open, so
      nothing is stated about the fields that nothing keeps apart.
    - Findings: theorems that exhibit the runs in which the code misbehaves
      (nonce reuse, use after free, lost queries, an unbounded queue, a
      thread that dies, and others listed in [PROJECT.json]).

    ** Fuel

    Loops that are not structural carry fuel, and running out is [Ub] or
    [None], so that totality theorems cover it: the DNS loops have the length
    of the packet, the chunk loop that of the buffer, a repetition of a
    regular expression and the search for matches that of the text (each step
    takes a character or is the last), the connecting thread
    the number of times it is told to go on, its sleep the delay over 200 ms.

    ** Parameters

    Third-party code is a class with the laws its documentation gives, each
    with a concrete instance used by the witnesses: mbedTLS ([Mbedtls]), lwIP
    ([TcpNet], [UdpNet]), address texts ([MakeAddress], [IpText], [IpPrint],
    [ClientAddress]).  asio's sockets, timers and queues and openvpn3's threads
    are the events.  The JSON parser, the file system and [eval_config] are
    arguments.

    ** Not modelled

    - Preemption inside a handler, in the models of the components: OpenVPN's
      threads and an instance's loop interleave there by whole calls.  [Sync]
      and [Locking] justify this for the fields that are free of races; they
      keep of each function its locks, its accesses to the fields named there
      and its calls, and drop its data.  lwIP calls a callback wherever it is
      called, openvpn3 makes its calls on the connecting thread, and what
      constructors do before a thread exists is left out.
    - Logging; [OPENVPN_LOG] macros; the copy of a packet into openvpn3's
      buffer type; the build without openvpn3, in which the client does
      nothing.
    - Exceptions of [eval_config] and of memory allocation, except that the
      start of an instance may throw at its members or at its thread.
    - Vendored code: lwIP, asio, json.hpp, mbedTLS, openvpn3. *)
From Stdlib Require Export Init.Byte ZArith Lia.
From Stdlib Require Strings.Byte Strings.String.
From stdpp Require Export base numbers list gmap strings.
From stdpp Require Import options.


(** Every file of the development computes on [Z]; lengths are [nat]. *)
#[global] Open Scope Z_scope.

(* ------------------------------------------------------------------ *)
(** ** Bytes: [std::byte], [unsigned char] and [char] *)

Abbreviation bytes := (list byte).

Definition byte_to_Z (b : byte) : Z := Z.of_N (Byte.to_N b).
Definition byte_of_Z (z : Z) : byte :=
  default x00 (Byte.of_N (Z.to_N (z mod 256))).

(** A string literal as the [char] sequence a [std::string] holds. *)
Definition str (s : string) : bytes := String.list_byte_of_string s.

#[global] Instance byte_eq_dec : EqDecision byte := Byte.byte_eq_dec.
#[global] Program Instance byte_countable : Countable byte :=
  inj_countable Byte.to_N Byte.of_N _.
Next Obligation. intros b. apply Byte.of_to_N. Qed.

Lemma byte_to_Z_range b : 0 <= byte_to_Z b < 256.
Proof. unfold byte_to_Z. pose proof (Strings.Byte.to_N_bounded b). lia. Qed.

Lemma byte_of_Z_to_Z b : byte_of_Z (byte_to_Z b) = b.
Proof.
  unfold byte_of_Z. rewrite Z.mod_small by apply byte_to_Z_range.
  unfold byte_to_Z. by rewrite N2Z.id, Byte.of_to_N.
Qed.

Lemma byte_to_Z_of_Z z : byte_to_Z (byte_of_Z z) = z mod 256.
Proof.
  unfold byte_of_Z. pose proof (Z.mod_pos_bound z 256 eq_refl).
  destruct (Byte.of_N (Z.to_N (z mod 256))) as [b|] eqn:E; simpl.
  - unfold byte_to_Z. rewrite (Byte.to_of_N _ E). lia.
  - apply Byte.of_N_None_iff in E. lia.
Qed.

#[global] Instance byte_to_Z_inj : Inj (=) (=) byte_to_Z.
Proof. intros a b E. by rewrite <- (byte_of_Z_to_Z a), E, byte_of_Z_to_Z. Qed.

Lemma byte_to_Z_of_small z : 0 <= z < 256 -> byte_to_Z (byte_of_Z z) = z.
Proof. intros. by rewrite byte_to_Z_of_Z, Z.mod_small. Qed.

(** A finite check over the 256 bytes proves a decidable fact of every byte. *)
Definition all_bytes : bytes := byte_of_Z <$> seqZ 0 256.

Lemma all_bytes_complete b : b ∈ all_bytes.
Proof.
  unfold all_bytes. apply list_elem_of_fmap. exists (byte_to_Z b).
  split; [by rewrite byte_of_Z_to_Z|].
  apply elem_of_seqZ. pose proof (byte_to_Z_range b). lia.
Qed.

Lemma byte_forallb (f : byte -> bool) :
  forallb f all_bytes = true -> forall b, f b = true.
Proof.
  intros H b. rewrite forallb_forall in H.
  apply H, list_elem_of_In, all_bytes_complete.
Qed.

Lemma byte_decide (P : byte -> Prop) `{!forall b, Decision (P b)} :
  forallb (fun b => bool_decide (P b)) all_bytes = true -> forall b, P b.
Proof. intros Hall b. by apply (bool_decide_eq_true (P b)), (byte_forallb _ Hall). Qed.

(** Prove a decidable [forall b : byte, P b] by running through all of them. *)
Ltac check_all_bytes :=
  match goal with |- forall b, @?P b => apply (byte_decide P) end;
  vm_compute; reflexivity.

(* ------------------------------------------------------------------ *)
(** ** Fixed-width integers *)

Definition u8 (z : Z) : Z := z mod 2 ^ 8.
Definition u16 (z : Z) : Z := z mod 2 ^ 16.
Definition u32 (z : Z) : Z := z mod 2 ^ 32.

Lemma u16_range z : 0 <= u16 z < 65536.
Proof. apply Z.mod_pos_bound. lia. Qed.
Lemma u16_small z : 0 <= z < 65536 -> u16 z = z.
Proof. intros. by apply Z.mod_small. Qed.

(** Big-endian 16-bit fields. *)
Definition be16 (z : Z) : bytes := [byte_of_Z (Z.shiftr z 8); byte_of_Z (Z.land z 0xff)].
Definition of_be16 (hi lo : byte) : Z :=
  Z.lor (Z.shiftl (byte_to_Z hi) 8) (byte_to_Z lo).

(** Or-ing into vacated low bits adds. *)
Lemma lor_shiftl_add k hi lo :
  0 <= k -> 0 <= lo < 2 ^ k -> Z.lor (Z.shiftl hi k) lo = hi * 2 ^ k + lo.
Proof.
  intros Hk Hlo. pose proof (Z.add_lor_land (Z.shiftl hi k) lo) as E.
  replace (Z.land _ _) with 0 in E; [rewrite Z.shiftl_mul_pow2 in * by lia; lia|].
  symmetry. apply Z.bits_inj_iff'. intros n Hn. rewrite Z.land_spec, Z.bits_0.
  destruct (Z.ltb_spec n k); [by rewrite Z.shiftl_spec_low by lia|].
  destruct (Z.eq_dec lo 0) as [->|]; [by rewrite Z.bits_0, andb_false_r|].
  rewrite (Z.bits_above_log2 lo); [apply andb_false_r|lia|].
  apply Z.lt_le_trans with k; [|lia]. apply Z.log2_lt_pow2; lia.
Qed.

Lemma of_be16_sum hi lo : of_be16 hi lo = byte_to_Z hi * 256 + byte_to_Z lo.
Proof. apply (lor_shiftl_add 8); [lia|apply byte_to_Z_range]. Qed.

Lemma of_be16_range hi lo : 0 <= of_be16 hi lo < 65536.
Proof.
  rewrite of_be16_sum. pose proof (byte_to_Z_range hi).
  pose proof (byte_to_Z_range lo). lia.
Qed.

Lemma be16_unfold z :
  be16 z = [byte_of_Z (z / 256); byte_of_Z (z mod 256)].
Proof.
  unfold be16. rewrite Z.shiftr_div_pow2 by lia.
  change 0xff with (Z.ones 8). by rewrite Z.land_ones by lia.
Qed.

Lemma of_be16_be16 z hi lo : be16 z = [hi; lo] -> of_be16 hi lo = u16 z.
Proof.
  rewrite be16_unfold. intros [= <- <-]. rewrite of_be16_sum, !byte_to_Z_of_Z.
  unfold u16. change (2 ^ 16) with (256 * 256).
  rewrite Z.rem_mul_r by lia. rewrite (Z.mod_small (z mod 256)); [lia|].
  apply Z.mod_pos_bound. lia.
Qed.

Lemma be16_of_be16 hi lo : be16 (of_be16 hi lo) = [hi; lo].
Proof.
  rewrite be16_unfold, of_be16_sum. pose proof (byte_to_Z_range lo).
  rewrite <- (Z.div_unique_pos _ 256 (byte_to_Z hi) (byte_to_Z lo)) by lia.
  rewrite <- (Z.mod_unique_pos _ 256 (byte_to_Z hi) (byte_to_Z lo)) by lia.
  by rewrite !byte_of_Z_to_Z.
Qed.

Lemma be16_length z : length (be16 z) = 2%nat.
Proof. done. Qed.

(* ------------------------------------------------------------------ *)
(** ** Outcomes of C++ code

    A call returns a value, throws, or has undefined behaviour (an access
    outside a [std::span]).  [Ub] is kept apart from [Exn] so that memory
    safety is a theorem and not a convention of the model. *)

Inductive exn :=
| runtime_error (what : bytes)
| type_error (what : bytes)
| system_error (what : bytes).

Inductive outcome (A : Type) :=
| Ret (a : A)
| Exn (e : exn)
| Ub.
Arguments Ret {A} a.
Arguments Exn {A} e.
Arguments Ub {A}.

#[global] Instance exn_eq_dec : EqDecision exn.
Proof. solve_decision. Defined.
#[global] Instance outcome_eq_dec {A} `{EqDecision A} : EqDecision (outcome A).
Proof. solve_decision. Defined.

#[global] Instance outcome_ret : MRet outcome := @Ret.
#[global] Instance outcome_bind : MBind outcome := fun A B f m =>
  match m with Ret a => f a | Exn e => Exn e | Ub => Ub end.

Definition throw {A} (what : string) : outcome A := Exn (runtime_error (str what)).

(** [std::span] accessors; each is undefined outside the span. *)
Definition span_at (v : bytes) (i : nat) : outcome byte :=
  match v !! i with Some b => Ret b | None => Ub end.
Definition subspan (v : bytes) (off : nat) : outcome bytes :=
  if decide (off <= length v)%nat then Ret (drop off v) else Ub.
Definition span_first (v : bytes) (n : nat) : outcome bytes :=
  if decide (n <= length v)%nat then Ret (take n v) else Ub.
Definition subspan_n (v : bytes) (off n : nat) : outcome bytes :=
  if decide (off + n <= length v)%nat then Ret (take n (drop off v)) else Ub.

(** Stateful code keeps the state it had reached when it throws. *)
Definition M (S A : Type) : Type := S -> S * outcome A.

#[global] Instance M_ret {S} : MRet (M S) := fun A a s => (s, Ret a).
#[global] Instance M_bind {S} : MBind (M S) := fun A B f m s =>
  match m s with
  | (s', Ret a) => f a s'
  | (s', Exn e) => (s', Exn e)
  | (s', Ub) => (s', Ub)
  end.

Definition lift {S A} (o : outcome A) : M S A := fun s => (s, o).
Definition get {S} : M S S := fun s => (s, Ret s).
Definition put {S} (s' : S) : M S unit := fun _ => (s', Ret tt).
Definition modify {S} (f : S -> S) : M S unit := fun s => (f s, Ret tt).
(** [try { m } catch (...) { h }]: the effects of [m] up to the throw stay. *)
Definition try_catch {S A} (m h : M S A) : M S A := fun s =>
  match m s with
  | (s', Exn _) => h s'
  | r => r
  end.
(** Run code on a part of the state. *)
Definition zoom {S T A} (rd : T -> S) (wr : S -> T -> T) (m : M S A) : M T A := fun t =>
  let '(s', r) := m (rd t) in (wr s' t, r).

(** [for (auto& a : l) { f(a); }] *)
Fixpoint each {S A} (f : A -> M S unit) (l : list A) : M S unit :=
  match l with [] => mret tt | a :: l => _ ← f a; each f l end.

(** The value of a run that returns, and that it is one. *)
Definition ret_value {A} (d : A) (o : outcome A) : A := match o with Ret a => a | _ => d end.
Definition is_ret_b {A} (o : outcome A) : bool := match o with Ret _ => true | _ => false end.

Lemma ret_eta {S T A} (d : A) (x : (S * T) * outcome A) :
  is_ret_b (snd x) = true -> x = ((fst (fst x), snd (fst x)), Ret (ret_value d (snd x))).
Proof. by destruct x as [[? ?] [?|?|]]. Qed.

Definition no_ub {A} (o : outcome A) : Prop := o <> Ub.

Lemma bind_Ret_inv {A B} (m : outcome A) (f : A -> outcome B) b :
  m ≫= f = Ret b <-> exists a, m = Ret a /\ f a = Ret b.
Proof.
  split; [|by intros (a & -> & ?)].
  destruct m; simpl; [eauto|done|done].
Qed.

Lemma no_ub_bind {A B} (m : outcome A) (f : A -> outcome B) :
  no_ub m -> (forall a, m = Ret a -> no_ub (f a)) -> no_ub (m ≫= f).
Proof. unfold no_ub. destruct m; naive_solver. Qed.

Lemma M_bind_Ret {S A B} (m : M S A) (f : A -> M S B) s s' a :
  m s = (s', Ret a) -> (m ≫= f) s = f a s'.
Proof. unfold mbind, M_bind. by intros ->. Qed.

Lemma M_bind_Exn {S A B} (m : M S A) (f : A -> M S B) s s' e :
  m s = (s', Exn e) -> (m ≫= f) s = (s', Exn e).
Proof. unfold mbind, M_bind. by intros ->. Qed.

Lemma span_at_Ret v i b : span_at v i = Ret b <-> v !! i = Some b.
Proof. unfold span_at. destruct (v !! i); naive_solver. Qed.
Lemma subspan_le v off : (off <= length v)%nat -> subspan v off = Ret (drop off v).
Proof. intros. unfold subspan. by rewrite decide_True. Qed.
Lemma span_first_le v n : (n <= length v)%nat -> span_first v n = Ret (take n v).
Proof. intros. unfold span_first. by rewrite decide_True. Qed.
Lemma subspan_n_le v off n :
  (off + n <= length v)%nat -> subspan_n v off n = Ret (take n (drop off v)).
Proof. intros. unfold subspan_n. by rewrite decide_True. Qed.
Lemma span_at_lt v i : (i < length v)%nat -> exists b, span_at v i = Ret b.
Proof.
  intros H. destruct (lookup_lt_is_Some_2 v i H) as [b Hb].
  exists b. by apply span_at_Ret.
Qed.

Lemma drop_prefix {A} (l1 l2 l : list A) n :
  l = l1 ++ l2 -> n = length l1 -> drop n l = l2.
Proof. intros -> ->. by rewrite drop_app_length. Qed.

(** Invariants of stateful code, whatever it returns. *)
Definition preserves {S A} (P : S -> Prop) (m : M S A) : Prop := forall s, P s -> P (fst (m s)).

Section Preserves.
Context {S : Type} (P : S -> Prop).

Lemma preserves_ret {A} (a : A) : preserves P (mret a).
Proof. by intros s. Qed.
Lemma preserves_lift {A} (r : outcome A) : preserves P (lift r).
Proof. by intros s. Qed.
Lemma preserves_get : preserves P get.
Proof. by intros s. Qed.
Lemma preserves_bind {A B} (m : M S A) (f : A -> M S B) :
  preserves P m -> (forall a, preserves P (f a)) -> preserves P (m ≫= f).
Proof.
  intros Hm Hf s Hs. unfold mbind, M_bind. specialize (Hm s Hs). destruct (m s) as [s' [a|e|]]; [|done..].
  by apply Hf.
Qed.
Lemma preserves_try {A} (m h : M S A) : preserves P m -> preserves P h -> preserves P (try_catch m h).
Proof.
  intros Hm Hh s Hs. unfold try_catch. specialize (Hm s Hs). destruct (m s) as [s' [a|e|]]; [done| |done].
  by apply Hh.
Qed.

Lemma preserves_modify (f : S -> S) : (forall s, P s -> P (f s)) -> preserves P (modify f).
Proof. intros Hf s Hs. by apply Hf. Qed.
Lemma preserves_each {A} (f : A -> M S unit) l : (forall a, preserves P (f a)) -> preserves P (each f l).
Proof.
  intros Hf. induction l as [|a l IH]; cbn [each]; [apply preserves_ret|by apply preserves_bind].
Qed.

End Preserves.

Create HintDb keep.
#[export] Hint Resolve preserves_ret preserves_lift preserves_get preserves_bind preserves_try
  preserves_each : keep.
#[export] Hint Extern 2 (preserves _ (if ?b then _ else _)) => destruct b : keep.
#[export] Hint Extern 2 (preserves _ (match ?b with _ => _ end)) => destruct b : keep.

(** Erasing the keys of a list from a map. *)
Lemma foldl_delete_lookup {A} (ids : list nat) (h : gmap nat A) j :
  foldl (fun h id => delete id h) h ids !! j = if decide (j ∈ ids) then None else h !! j.
Proof.
  revert h. induction ids as [|i ids IH]; intros h; cbn [foldl].
  - by rewrite decide_False by set_solver.
  - rewrite IH. destruct (decide (j ∈ ids)).
    + by rewrite decide_True by set_solver.
    + destruct (decide (j = i)) as [->|].
      * rewrite decide_True by set_solver. apply lookup_delete_eq.
      * rewrite decide_False by set_solver. by apply lookup_delete_ne.
Qed.

(* ------------------------------------------------------------------ *)
(** ** Record update

    [s.[f := v]] is [s] with field [f] replaced; a record supports it once its
    [Eta] instance rebuilds it from its projections. *)

Class Eta (R : Type) := eta : R -> R.
Class FieldUpdate {R T : Type} (field : R -> T) := update : (T -> T) -> R -> R.

Ltac solve_field_update :=
  lazymatch goal with
  | |- @FieldUpdate ?R ?T ?p =>
      let e := eval hnf in (_ : Eta R) in
      exact (fun (upd__ : T -> T) (rec__ : R) =>
        ltac:(let b := eval cbv beta in (e rec__) in
              let b := eval pattern (p rec__) in b in
              lazymatch b with
              | ?F _ => let x := eval cbv beta in (F (upd__ (p rec__))) in exact x
              end))
  end.
#[global] Hint Extern 0 (FieldUpdate _) => solve_field_update : typeclass_instances.

Notation "s .[ f := v ]" := (update (field := f) (fun _ => v) s)
  (at level 1, left associativity, format "s .[ f  :=  v ]").

(* ------------------------------------------------------------------ *)
(** ** Specifications of stateful code

    [spec P m Q E]: from a state with [P], [m] never runs into undefined
    behaviour; it returns with [Q], or throws with [E]. *)

Definition spec {S A} (P : S -> Prop) (m : M S A) (Q : A -> S -> Prop) (E : S -> Prop) : Prop :=
  forall s, P s ->
  match m s with
  | (s', Ret a) => Q a s'
  | (s', Exn _) => E s'
  | (_, Ub) => False
  end.

Section Spec.
Context {S : Type}.
Implicit Types (P E : S -> Prop).

Lemma spec_ret {A} (Q : A -> S -> Prop) E a : spec (Q a) (mret a) Q E.
Proof. by intros s. Qed.

Lemma spec_bind {A B} P (Q : A -> S -> Prop) (R : B -> S -> Prop) E m f :
  spec P m Q E -> (forall a, spec (Q a) (f a) R E) -> spec P (m ≫= f) R E.
Proof.
  intros Hm Hf s Hs. unfold mbind, M_bind. specialize (Hm s Hs).
  destruct (m s) as [s' [a|e|]]; [by apply Hf|done|done].
Qed.

Lemma spec_conseq {A} P P' (Q Q' : A -> S -> Prop) E E' m :
  spec P m Q E -> (forall s, P' s -> P s) -> (forall a s, Q a s -> Q' a s) ->
  (forall s, E s -> E' s) -> spec P' m Q' E'.
Proof.
  intros Hm HP HQ HE s Hs. specialize (Hm s (HP s Hs)).
  destruct (m s) as [s' [a|e|]]; auto.
Qed.

Lemma spec_try {A} P (Q : A -> S -> Prop) E E' (m h : M S A) :
  spec P m Q E' -> spec E' h Q E -> spec P (try_catch m h) Q E.
Proof.
  intros Hm Hh s Hs. unfold try_catch. specialize (Hm s Hs).
  destruct (m s) as [s' [a|e|]]; [done|by apply Hh|done].
Qed.

End Spec.

Create HintDb ovpn.
Create Rewrite HintDb len.
#[export] Hint Rewrite @length_app @length_cons @length_take @length_drop
  @length_replicate @length_fmap be16_length : len.

(** Arithmetic on lengths of byte sequences. *)
Ltac len := autorewrite with len in *; cbn [length] in *; lia.

(** Reduce binds whose first computation is already a value. *)
Ltac bstep := cbn [mbind outcome_bind mret outcome_ret].

(** Unfold the monads and run the straight-line part of a definition. *)
Ltac mrun :=
  unfold lift, get, put, modify, try_catch, zoom, throw in *;
  unfold mbind, M_bind, outcome_bind, mret, M_ret, outcome_ret in *; simpl in *.
