(* ===== verification/Types.v ===== *)
(** * Shared data of ovpn2ss

    The structs of [include/ovpn2ss/InstanceConfig.h], the buffer of
    [include/ovpn2ss/PacketBuffer.h] and the IP address type of lwIP the
    program passes around ([ip_addr_t]). *)
From S2P Require Import Prelude.

(* ------------------------------------------------------------------ *)
(** ** InstanceConfig.h *)

Record ShadowsocksConfig := mkShadowsocksConfig {
  listen_host : bytes;
  tcp_port : Z;
  udp_port : Z;
  method : bytes;
  password : bytes
}.

Record InstanceConfig := mkInstanceConfig {
  ic_name : bytes;
  ovpn_path : bytes;
  shadowsocks : ShadowsocksConfig;
  udp_enabled : bool;
  vpn_username : bytes;
  vpn_password : bytes
}.

Record ManagerConfig := mkManagerConfig {
  json_path : bytes;
  instances : list InstanceConfig
}.

Record TunAddress := mkTunAddress {
  ta_address : bytes;
  ta_gateway : bytes;
  prefix_length : Z;
  ta_ipv6 : bool;
  net30 : bool
}.

Record TunConfig := mkTunConfig {
  addresses : list TunAddress;
  ipv4_dns : list bytes;
  ipv6_dns : list bytes;
  mtu : Z
}.

(** [TunConfig{}]: the member initialisers. *)
Definition default_TunConfig : TunConfig := mkTunConfig [] [] [] 1500.

(** [enum class AddressType : std::uint8_t].  A [static_cast] from a byte may
    produce a value that no enumerator names: [AddrUnnamed]. *)
Inductive AddressType :=
| Ipv4
| Domain
| Ipv6
| AddrUnnamed (raw : byte).

#[global] Instance AddressType_eq_dec : EqDecision AddressType.
Proof. solve_decision. Defined.

Definition address_type_of_byte (b : byte) : AddressType :=
  if byte_to_Z b =? 1 then Ipv4
  else if byte_to_Z b =? 3 then Domain
  else if byte_to_Z b =? 4 then Ipv6
  else AddrUnnamed b.

Definition byte_of_address_type (t : AddressType) : byte :=
  match t with
  | Ipv4 => x01 | Domain => x03 | Ipv6 => x04 | AddrUnnamed b => b
  end.

Record TargetAddress := mkTargetAddress {
  ta_type : AddressType;
  host : bytes;
  port : Z
}.

#[global] Instance TargetAddress_eq_dec : EqDecision TargetAddress.
Proof. solve_decision. Defined.

Lemma address_type_of_byte_inv b : byte_of_address_type (address_type_of_byte b) = b.
Proof. by destruct b. Qed.

(* ------------------------------------------------------------------ *)
(** ** PacketBuffer.h

    The class wraps one [std::vector<std::byte>]; its operations act on that
    vector. *)
Module PacketBuffer.

Abbreviation t := bytes.

Definition with_size (size : nat) : t := replicate size x00.
Definition size (d : t) : nat := length d.
Definition empty (d : t) : bool := bool_decide (d = []).
Definition resize (n : nat) (d : t) : t := take n d ++ replicate (n - length d) x00.
Definition clear (d : t) : t := [].
Definition append (d : t) (bs : bytes) : t := d ++ bs.
(** [release] moves the vector out and leaves the buffer empty. *)
Definition release (d : t) : bytes * t := (d, []).

Lemma append_size d bs : size (append d bs) = (size d + length bs)%nat.
Proof. apply length_app. Qed.

Lemma resize_size n d : size (resize n d) = n.
Proof. unfold size, resize. rewrite length_app, length_take, length_replicate. lia. Qed.

Lemma resize_prefix n d i :
  (i < n)%nat -> (i < size d)%nat -> resize n d !! i = d !! i.
Proof.
  unfold resize, size. intros. rewrite lookup_app_l.
  - by rewrite lookup_take_lt.
  - rewrite length_take. lia.
Qed.

End PacketBuffer.

(* ------------------------------------------------------------------ *)
(** ** [ip_addr_t]

    The address words are kept as lwIP stores them: a [u32_t] whose bytes in
    memory are the address in network order.  The targets are little-endian,
    so [lwip_htonl] swaps. *)

Inductive ip_addr_t :=
| IP4 (addr : Z)
| IP6 (addr0 addr1 addr2 addr3 : Z).

#[global] Instance ip_addr_t_eq_dec : EqDecision ip_addr_t.
Proof. solve_decision. Defined.

(** The bytes of a stored word, in memory order. *)
Definition le32 (w : Z) : bytes :=
  [byte_of_Z w; byte_of_Z (Z.shiftr w 8); byte_of_Z (Z.shiftr w 16); byte_of_Z (Z.shiftr w 24)].
Definition of_le32 (a b c d : byte) : Z :=
  byte_to_Z a + byte_to_Z b * 2 ^ 8 + byte_to_Z c * 2 ^ 16 + byte_to_Z d * 2 ^ 24.

(** [LWIP_MAKEU32] and [lwip_htonl] on a little-endian host. *)
Definition LWIP_MAKEU32 (a b c d : byte) : Z :=
  byte_to_Z a * 2 ^ 24 + byte_to_Z b * 2 ^ 16 + byte_to_Z c * 2 ^ 8 + byte_to_Z d.
Definition lwip_htonl (w : Z) : Z :=
  match le32 w with
  | [a; b; c; d] => LWIP_MAKEU32 a b c d
  | _ => 0
  end.

(** The address as it goes on the wire. *)
Definition ip_network_bytes (ip : ip_addr_t) : bytes :=
  match ip with
  | IP4 w => le32 w
  | IP6 w0 w1 w2 w3 => le32 w0 ++ le32 w1 ++ le32 w2 ++ le32 w3
  end.

Definition IP_IS_V6 (ip : ip_addr_t) : bool :=
  match ip with IP6 _ _ _ _ => true | IP4 _ => false end.

Lemma le32_of_le32 a b c d : le32 (of_le32 a b c d) = [a; b; c; d].
Proof.
  unfold le32, of_le32. rewrite !Z.shiftr_div_pow2 by lia.
  pose proof (byte_to_Z_range a); pose proof (byte_to_Z_range b);
    pose proof (byte_to_Z_range c); pose proof (byte_to_Z_range d).
  set (w := byte_to_Z a + _ + _ + _).
  assert (forall x z, z mod 256 = byte_to_Z x -> byte_of_Z z = x) as Hb.
  { intros x z E. apply (inj byte_to_Z). by rewrite byte_to_Z_of_Z. }
  f_equal; [|f_equal; [|f_equal; [|f_equal]]]; apply Hb; unfold w;
    symmetry; Z.div_mod_to_equations; lia.
Qed.

Lemma MAKEU32_rev a b c d : LWIP_MAKEU32 a b c d = of_le32 d c b a.
Proof. unfold LWIP_MAKEU32, of_le32. lia. Qed.

Lemma htonl_MAKEU32 a b c d : lwip_htonl (LWIP_MAKEU32 a b c d) = of_le32 a b c d.
Proof.
  unfold lwip_htonl. rewrite MAKEU32_rev, le32_of_le32. by rewrite MAKEU32_rev.
Qed.
