(* ===== verification/Mbedtls.v ===== *)
(** * The mbedTLS interface

    mbedTLS is linked from the system and is not part of the repository: its
    functions are the fields of the class [Mbedtls], and what the program
    relies on of them are the laws of [MbedtlsLaws], all taken from the
    library's documentation.  [None] stands for a non-zero return code.
    [toy_mbedtls] is a concrete instance of both classes. *)
From S2P Require Import Prelude Types.

Class Mbedtls := {
  (** [mbedtls_md5_starts]/[_update]/[_finish] on the concatenated input. *)
  md5 : bytes -> bytes;
  (** [mbedtls_hkdf (SHA1, salt, ikm, info, okm_len)]. *)
  hkdf_sha1 : bytes -> bytes -> bytes -> nat -> option bytes;
  (** [mbedtls_chachapoly_*]. *)
  chachapoly_context : Type;
  chachapoly_setkey : bytes -> option chachapoly_context;
  (** context, nonce, additional data, input: ciphertext and tag *)
  chachapoly_encrypt_and_tag :
    chachapoly_context -> bytes -> bytes -> bytes -> option (bytes * bytes);
  (** context, nonce, additional data, tag, input: plaintext *)
  chachapoly_auth_decrypt :
    chachapoly_context -> bytes -> bytes -> bytes -> bytes -> option bytes;
  (** the entropy source and the CTR_DRBG seeded from it *)
  entropy : Type;
  ctr_drbg : Type;
  ctr_drbg_seed : entropy -> bytes -> option ctr_drbg * entropy;
  ctr_drbg_random : ctr_drbg -> nat -> option bytes * ctr_drbg
}.

Class MbedtlsLaws `{!Mbedtls} : Prop := {
  md5_length x : length (md5 x) = 16%nat;
  hkdf_length salt ikm info n out :
    hkdf_sha1 salt ikm info n = Some out -> length out = n;
  (** HKDF only rejects an output longer than 255 hash blocks. *)
  hkdf_total salt ikm info n :
    (n <= 255 * 20)%nat -> is_Some (hkdf_sha1 salt ikm info n);
  setkey_total key : length key = 32%nat -> is_Some (chachapoly_setkey key);
  encrypt_total ctx nonce ad input :
    length nonce = 12%nat -> is_Some (chachapoly_encrypt_and_tag ctx nonce ad input);
  encrypt_lengths ctx nonce ad input ct tag :
    chachapoly_encrypt_and_tag ctx nonce ad input = Some (ct, tag) ->
    length ct = length input /\ length tag = 16%nat;
  decrypt_length ctx nonce ad tag input pt :
    chachapoly_auth_decrypt ctx nonce ad tag input = Some pt -> length pt = length input;
  (** Decryption inverts encryption under the same key and nonce. *)
  decrypt_encrypt ctx nonce ad input ct tag :
    chachapoly_encrypt_and_tag ctx nonce ad input = Some (ct, tag) ->
    chachapoly_auth_decrypt ctx nonce ad tag ct = Some input;
  random_length g n out g' :
    ctr_drbg_random g n = (Some out, g') -> length out = n
}.

(* ------------------------------------------------------------------ *)
(** ** A concrete instance

    A toy cipher whose tag binds key and nonce, so that decrypting under
    another key or nonce fails as with the real one. *)
Module Toy.

Definition pad (n : nat) (x : bytes) : bytes := take n (x ++ replicate n x00).
Definition sum (x : bytes) : Z := foldr (fun b z => byte_to_Z b + z) 0 x.

Definition md5 (x : bytes) : bytes :=
  pad 16 (be16 (Z.of_nat (length x)) ++ be16 (sum x) ++ x).

Definition hkdf_sha1 (salt ikm info : bytes) (n : nat) : option bytes :=
  if decide (n <= 255 * 20)%nat then Some (pad n (salt ++ ikm ++ info)) else None.

Definition context : Type := bytes.
Definition setkey (key : bytes) : option context :=
  if decide (length key = 32)%nat then Some key else None.

Definition tag_of (ctx : context) (nonce input : bytes) : bytes :=
  pad 12 nonce ++ be16 (sum ctx) ++ be16 (sum input).

Definition encrypt_and_tag (ctx : context) (nonce ad input : bytes) : option (bytes * bytes) :=
  if decide (length nonce = 12)%nat then Some (input, tag_of ctx nonce input) else None.

Definition auth_decrypt (ctx : context) (nonce ad tag input : bytes) : option bytes :=
  if decide (tag = tag_of ctx nonce input) then Some input else None.

Definition random (g : Z) (n : nat) : option bytes * Z :=
  (Some ((fun i => byte_of_Z (g * 37 + i)) <$> seqZ 0 (Z.of_nat n)), g + 1).

Lemma pad_length n x : length (pad n x) = n.
Proof. unfold pad. len. Qed.

End Toy.

Definition toy_mbedtls : Mbedtls := {|
  md5 := Toy.md5;
  hkdf_sha1 := Toy.hkdf_sha1;
  chachapoly_context := Toy.context;
  chachapoly_setkey := Toy.setkey;
  chachapoly_encrypt_and_tag := Toy.encrypt_and_tag;
  chachapoly_auth_decrypt := Toy.auth_decrypt;
  entropy := Z;
  ctr_drbg := Z;
  ctr_drbg_seed e _ := (Some e, e + 1);
  ctr_drbg_random := Toy.random
|}.

Lemma toy_mbedtls_laws : @MbedtlsLaws toy_mbedtls.
Proof.
  split.
  - intros x. apply Toy.pad_length.
  - cbn; unfold Toy.hkdf_sha1. intros. case_decide; simplify_eq. apply Toy.pad_length.
  - cbn; unfold Toy.hkdf_sha1. intros. by rewrite decide_True.
  - cbn; unfold Toy.setkey. intros. by rewrite decide_True.
  - cbn; unfold Toy.encrypt_and_tag. intros. by rewrite decide_True.
  - cbn; unfold Toy.encrypt_and_tag, Toy.tag_of. intros. case_decide; simplify_eq.
    rewrite !length_app, Toy.pad_length. done.
  - cbn; unfold Toy.auth_decrypt. intros. case_decide; simplify_eq. done.
  - cbn; unfold Toy.encrypt_and_tag, Toy.auth_decrypt. intros. case_decide; simplify_eq.
    by rewrite decide_True.
  - cbn; unfold Toy.random. intros. simplify_eq. rewrite length_fmap, length_seqZ. lia.
Qed.
