(* ===== verification/Rand.v ===== *)
(** * The random numbers offered to lwIP

    [ovpn2ss_lwip_rand] of [src/LwipRuntime.cpp]: a CTR_DRBG per thread, made
    by the first call.  Its constructor does not throw as that of [Csprng]
    does (Aead.v): it records that the seeding failed, and the function ends
    the program when there is no number to return. *)
From S2P Require Import Prelude Types Mbedtls.

(** An [unsigned int] written byte by byte into the memory of a little-endian
    host. *)
Definition le_uint (b : bytes) : Z := foldr (fun x z => byte_to_Z x + 256 * z) 0 b.

Section Rand.
Context `{!Mbedtls}.

(** [ctr_drbg] after [mbedtls_ctr_drbg_init], or after a failed seeding, holds
    no generator. *)
Record RandContext := mkRandContext { drbg : option ctr_drbg; initialized : bool }.

(** [RandContext()] *)
Definition RandContext_ctor (source : entropy) : RandContext * entropy :=
  match ctr_drbg_seed source (str "ovpn2ss-lwip-rand") with
  | (None, e) => (mkRandContext None false, e)
  | (Some g, e) => (mkRandContext (Some g) true, e)
  end.

(** The calling thread: [static thread_local RandContext rng], absent until
    control first passes its declaration, and the entropy source. *)
Record RandThread := mkRandThread { rand_ctx : option RandContext; rand_source : entropy }.

Inductive rand_outcome := Number (out : Z) | Terminate.

Definition ovpn2ss_lwip_rand (t : RandThread) : RandThread * rand_outcome :=
  let '(c, e) := match rand_ctx t with
                 | Some c => (c, rand_source t)
                 | None => RandContext_ctor (rand_source t)
                 end in
  match initialized c, drbg c with
  | true, Some g =>
      match ctr_drbg_random g 4 with
      | (Some out, g') => (mkRandThread (Some (mkRandContext (Some g') true)) e, Number (le_uint out))
      | (None, g') => (mkRandThread (Some (mkRandContext (Some g') true)) e, Terminate)
      end
  | _, _ => (mkRandThread (Some c) e, Terminate)
  end.

(** [n] calls of a thread, until one ends the program. *)
Fixpoint rand_calls (n : nat) (t : RandThread) : RandThread * list Z * bool :=
  match n with
  | O => (t, [], true)
  | S n =>
      match ovpn2ss_lwip_rand t with
      | (t, Terminate) => (t, [], false)
      | (t, Number z) => let '(t, zs, ok) := rand_calls n t in (t, z :: zs, ok)
      end
  end.

(** The generator of a thread that has drawn before. *)
Definition seeded (t : RandThread) (g : ctr_drbg) : Prop :=
  rand_ctx t = Some (mkRandContext (Some g) true).

(** [n] numbers drawn from a generator. *)
Fixpoint draws (n : nat) (g : ctr_drbg) : ctr_drbg * list Z * bool :=
  match n with
  | O => (g, [], true)
  | S n =>
      match ctr_drbg_random g 4 with
      | (None, g) => (g, [], false)
      | (Some out, g) => let '(g, zs, ok) := draws n g in (g, le_uint out :: zs, ok)
      end
  end.

Lemma le_uint_range b : 0 <= le_uint b < 256 ^ Z.of_nat (length b).
Proof.
  induction b as [|x b IH]; [cbn; lia|].
  cbn [le_uint foldr length]. rewrite Nat2Z.inj_succ, Z.pow_succ_r by lia.
  pose proof (byte_to_Z_range x). unfold le_uint in IH. lia.
Qed.

Lemma rand_seeded t g :
  seeded t g ->
  ovpn2ss_lwip_rand t =
    (mkRandThread (Some (mkRandContext (Some (snd (ctr_drbg_random g 4))) true)) (rand_source t),
     match fst (ctr_drbg_random g 4) with Some out => Number (le_uint out) | None => Terminate end).
Proof. unfold seeded, ovpn2ss_lwip_rand. intros ->. cbn. by destruct (ctr_drbg_random g 4) as [[|] ?]. Qed.

Lemma rand_calls_seeded n t g :
  seeded t g ->
  let '(g', zs, ok) := draws n g in
  rand_calls n t = (mkRandThread (Some (mkRandContext (Some g') true)) (rand_source t), zs, ok).
Proof.
  revert t g. induction n as [|n IH]; intros t g Hs.
  - cbn. destruct t. unfold seeded in Hs. cbn in *. by rewrite Hs.
  - cbn [draws rand_calls]. rewrite (rand_seeded t g Hs).
    destruct (ctr_drbg_random g 4) as [[out|] g']; cbn [fst snd]; [|done].
    specialize (IH (mkRandThread (Some (mkRandContext (Some g') true)) (rand_source t)) g' eq_refl).
    destruct (draws n g') as [[g2 zs] ok]. by rewrite IH.
Qed.

(** What a thread draws: its first call seeds a generator with the entropy of
    that moment, the only entropy the thread ever takes, and the numbers are
    those of this generator; a thread whose seeding fails returns no number,
    and the program ends. *)
Theorem lwip_rand_stream n source :
  (0 < n)%nat ->
  match ctr_drbg_seed source (str "ovpn2ss-lwip-rand") with
  | (None, e) => rand_calls n (mkRandThread None source) = (mkRandThread (Some (mkRandContext None false)) e, [], false)
  | (Some g, e) =>
      let '(g', zs, ok) := draws n g in
      rand_calls n (mkRandThread None source) = (mkRandThread (Some (mkRandContext (Some g') true)) e, zs, ok)
  end.
Proof.
  destruct n as [|n]; [lia|]. intros _.
  destruct (ctr_drbg_seed source _) as [[g|] e] eqn:Es.
  - pose proof (rand_calls_seeded (S n) (mkRandThread (Some (mkRandContext (Some g) true)) e) g eq_refl) as Hc.
    destruct (draws (S n) g) as [[g' zs] ok]. etransitivity; [|exact Hc]. cbn [rand_calls].
    assert (ovpn2ss_lwip_rand (mkRandThread None source) =
            ovpn2ss_lwip_rand (mkRandThread (Some (mkRandContext (Some g) true)) e)) as ->; [|done].
    unfold ovpn2ss_lwip_rand. cbn [rand_ctx rand_source]. unfold RandContext_ctor. by rewrite Es.
  - cbn [rand_calls]. unfold ovpn2ss_lwip_rand. cbn [rand_ctx rand_source]. unfold RandContext_ctor. by rewrite Es.
Qed.

(** Every number fills an [unsigned int]. *)
Theorem lwip_rand_range `{!MbedtlsLaws} n t t' zs ok :
  rand_calls n t = (t', zs, ok) -> Forall (fun z => 0 <= z < 2 ^ 32) zs.
Proof.
  revert t t' zs ok. induction n as [|n IH]; intros t t' zs ok; cbn [rand_calls]; [by intros [= _ <- _]|].
  destruct (ovpn2ss_lwip_rand t) as [t1 [z|]] eqn:Er; [|by intros [= _ <- _]].
  destruct (rand_calls n t1) as [[t2 zs2] ok2] eqn:E2. intros [= _ <- _]. constructor; [|by eapply IH].
  unfold ovpn2ss_lwip_rand in Er.
  destruct (match rand_ctx t with Some _ => _ | None => _ end) as [c e].
  destruct (initialized c), (drbg c) as [g|]; try discriminate.
  destruct (ctr_drbg_random g 4) as [[out|] g'] eqn:Eg; simplify_eq.
  pose proof (le_uint_range out) as Hz. rewrite (random_length _ _ _ _ Eg) in Hz. exact Hz.
Qed.
End Rand.

#[local] Existing Instance toy_mbedtls.

Example lwip_rand_stream_example :
  snd (fst (rand_calls 3 (mkRandThread None (7 : Z)))) = [100992003; 724183336; 1347374669] /\
  rand_source (fst (fst (rand_calls 3 (mkRandThread None (7 : Z))))) = (8 : Z).
Proof. vm_compute. split; reflexivity. Qed.
