(* ===== verification/Text.v ===== *)
(** * Text formats of the C and C++ libraries

    What the program uses of [std::to_string], [operator<<] on integers and
    [snprintf], as functions to [char] sequences, with the inverse readings
    that show they lose nothing. *)
From S2P Require Import Prelude.

Definition ch (c : string) : byte := hd x00 (str c).

Definition digit (d : Z) : byte := byte_of_Z (48 + d).
Definition is_digit (c : byte) : bool := (48 <=? byte_to_Z c) && (byte_to_Z c <=? 57).

(** Decimal text of a non-negative integer below [10 ^ fuel]. *)
Fixpoint digits (fuel : nat) (n : Z) : bytes :=
  match fuel with
  | O => []
  | S fuel => if n <? 10 then [digit n] else digits fuel (n / 10) ++ [digit (n mod 10)]
  end.
(** [std::to_string] and [os << n] on unsigned values of up to 64 bits. *)
Definition to_string (n : Z) : bytes := digits 20 n.

#[global] Arguments to_string : simpl never.

(** The number a decimal text stands for. *)
Definition dec_value (t : bytes) : Z :=
  fold_left (fun v c => v * 10 + (byte_to_Z c - 48)) t 0.

(** [%02x] of a byte. *)
Definition hex_digit (n : Z) : byte := if n <? 10 then byte_of_Z (48 + n) else byte_of_Z (87 + n).
Definition hex2 (b : byte) : bytes := [hex_digit (byte_to_Z b / 16); hex_digit (byte_to_Z b mod 16)].

(** The text of an IPv4 address as [parse_ss_address] builds it. *)
Definition dotted (a b c d : byte) : bytes :=
  to_string (byte_to_Z a) ++ str "." ++ to_string (byte_to_Z b) ++ str "." ++
  to_string (byte_to_Z c) ++ str "." ++ to_string (byte_to_Z d).

(** The [snprintf] format of eight groups of four hex digits. *)
Fixpoint v6_text (bs : bytes) : bytes :=
  match bs with
  | [a; b] => hex2 a ++ hex2 b
  | a :: b :: rest => hex2 a ++ hex2 b ++ str ":" ++ v6_text rest
  | _ => []
  end.

(** The fields of a text between separators. *)
Fixpoint split_on (sep : byte) (s : bytes) : list bytes :=
  match s with
  | [] => [[]]
  | c :: s =>
      if decide (c = sep) then [] :: split_on sep s
      else match split_on sep s with
           | f :: fs => (c :: f) :: fs
           | [] => [[c]]
           end
  end.

(** [std::string::c_str] read as a C string: up to the first NUL. *)
Fixpoint c_str (s : bytes) : bytes :=
  match s with
  | [] => []
  | c :: s => if decide (c = x00) then [] else c :: c_str s
  end.

(* ------------------------------------------------------------------ *)

Lemma is_digit_range c : is_digit c = true <-> 48 <= byte_to_Z c <= 57.
Proof. unfold is_digit. rewrite andb_true_iff, !Z.leb_le. done. Qed.

Lemma digit_value d : 0 <= d < 10 -> byte_to_Z (digit d) = 48 + d.
Proof. intros. unfold digit. apply byte_to_Z_of_small. lia. Qed.

Lemma digits_spec fuel n :
  0 <= n < 10 ^ Z.of_nat fuel -> (0 < fuel)%nat ->
  dec_value (digits fuel n) = n /\ forallb is_digit (digits fuel n) = true /\
  digits fuel n <> [].
Proof.
  revert n. induction fuel as [|fuel IH]; intros n Hn Hf; [lia|]. cbn [digits].
  destruct (Z.ltb_spec n 10).
  { unfold dec_value. simpl. rewrite digit_value by lia.
    split; [lia|]. split; [|done]. rewrite andb_true_r. apply is_digit_range.
    rewrite digit_value; lia. }
  assert (0 <= n mod 10 < 10) as Hm by (apply Z.mod_pos_bound; lia).
  assert (0 <= n / 10 < 10 ^ Z.of_nat fuel) as Hd.
  { split; [apply Z.div_pos; lia|]. apply Z.div_lt_upper_bound; [lia|].
    rewrite <- Z.pow_succ_r by lia. rewrite <- Nat2Z.inj_succ. lia. }
  destruct fuel as [|fuel]; [simpl in Hd; Z.div_mod_to_equations; lia|].
  destruct (IH (n / 10) Hd) as (Hv & Hall & Hne); [lia|].
  split; [|split].
  - unfold dec_value in *. rewrite fold_left_app, Hv. simpl. rewrite digit_value by lia.
    pose proof (Z.div_mod n 10). lia.
  - rewrite forallb_app, Hall. simpl. rewrite andb_true_r. apply is_digit_range.
    rewrite digit_value; lia.
  - intros [? ?]%app_eq_nil. done.
Qed.

Lemma to_string_value n : 0 <= n < 10 ^ 20 -> dec_value (to_string n) = n.
Proof. intros. apply (digits_spec 20); [done|lia]. Qed.

Lemma to_string_digits n : 0 <= n < 10 ^ 20 -> forallb is_digit (to_string n) = true.
Proof. intros. apply (digits_spec 20); [done|lia]. Qed.

Lemma to_string_inj n m :
  0 <= n < 10 ^ 20 -> 0 <= m < 10 ^ 20 -> to_string n = to_string m -> n = m.
Proof. intros Hn Hm E. rewrite <- (to_string_value n), E; [|done]. by apply to_string_value. Qed.

Lemma v6_text_cons a b c rest :
  v6_text (a :: b :: c :: rest) = hex2 a ++ hex2 b ++ str ":" ++ v6_text (c :: rest).
Proof. done. Qed.

Lemma v6_text_length bs :
  length bs = 16%nat -> length (v6_text bs) = 39%nat.
Proof.
  intros H. do 16 (destruct bs as [|? bs]; [done|]). by destruct bs.
Qed.

Lemma split_on_field sep f rest :
  sep ∉ f -> split_on sep (f ++ sep :: rest) = f :: split_on sep rest.
Proof.
  induction f as [|c f IH]; intros Hf; simpl.
  - by rewrite decide_True.
  - rewrite decide_False by set_solver. rewrite IH by set_solver. done.
Qed.

Lemma split_on_last sep f : sep ∉ f -> split_on sep f = [f].
Proof.
  induction f as [|c f IH]; intros Hf; simpl; [done|].
  rewrite decide_False by set_solver. by rewrite IH by set_solver.
Qed.

(** Text around the first or the last separator. *)
Lemma first_sep_inj (sep : byte) a a' b b' :
  sep ∉ a -> sep ∉ a' -> a ++ sep :: b = a' ++ sep :: b' -> a = a' /\ b = b'.
Proof.
  revert a'. induction a as [|x a IH]; intros [|x' a'] Ha Ha' E; simplify_eq/=; [set_solver..|].
  destruct (IH a') as [-> ->]; [set_solver..|done|done].
Qed.

Lemma last_sep_inj (sep : byte) a a' b b' :
  sep ∉ b -> sep ∉ b' -> a ++ sep :: b = a' ++ sep :: b' -> a = a' /\ b = b'.
Proof.
  intros Hb Hb' E. apply (f_equal reverse) in E.
  rewrite !reverse_app, !reverse_cons, <- !app_assoc in E. cbn [app] in E.
  apply first_sep_inj in E as [Eb Ea]; [|by rewrite elem_of_reverse..].
  split; by apply (inj reverse).
Qed.

Lemma to_string_no (c : byte) n : 0 <= n < 10 ^ 20 -> is_digit c = false -> c ∉ to_string n.
Proof.
  intros Hn Hc Hin. pose proof (to_string_digits n Hn) as Hall.
  rewrite forallb_forall in Hall. apply list_elem_of_In, Hall in Hin. congruence.
Qed.
