(* ===== verification/Regex.v ===== *)
(** * Regular expressions of the C++ library

    What the program uses of [std::regex] with the ECMAScript grammar, [icase]
    and [multiline]: character classes, sequence, greedy repetition, one
    capture group and the line anchor, matched by backtracking in the order the
    grammar prescribes; [std::regex_search], which tries each position from
    the left; and [std::sregex_iterator], which searches on behind each match. *)
From S2P Require Import Prelude.

(** Characters: [\s] of the C locale, line terminators, and lower case. *)
Definition is_space (c : byte) : bool :=
  bool_decide (c = x20) || ((9 <=? byte_to_Z c) && (byte_to_Z c <=? 13)).
Definition is_newline (c : byte) : bool := bool_decide (c = x0a) || bool_decide (c = x0d).
Definition lower (c : byte) : byte :=
  if (65 <=? byte_to_Z c) && (byte_to_Z c <=? 90) then byte_of_Z (byte_to_Z c + 32) else c.

Inductive regex :=
| RClass (p : byte -> bool)      (* one character *)
| RBol                           (* [^] *)
| REmpty
| RSeq (a b : regex)
| ROpt (a : regex)               (* [a?] *)
| RStar (a : regex)              (* [a*] *)
| RGroup (a : regex).            (* [(a)] *)

Declare Scope regex_scope.
Delimit Scope regex_scope with re.
Infix "·" := RSeq (at level 41, right associativity) : regex_scope.

(** [a+], and a text compared without case. *)
Definition RPlus (a : regex) : regex := RSeq a (RStar a).
Fixpoint RText (s : bytes) : regex :=
  match s with
  | [] => REmpty
  | c :: s => RSeq (RClass (fun d => bool_decide (lower c = lower d))) (RText s)
  end.

(** A position: the character in front of it, and what is behind. *)
Definition pos : Type := option byte * bytes.
Definition at_bol (p : pos) : bool := match p.1 with Some c => is_newline c | None => true end.

(** What the group has captured, and where the match ends. *)
Definition result : Type := option bytes * pos.

(** Try [a] up to [fuel] times, as often as possible first; an iteration
    that takes nothing fails. *)
Fixpoint star_loop (body : pos -> option bytes -> (pos -> option bytes -> option result) -> option result)
    (k : pos -> option bytes -> option result) (fuel : nat) (p : pos) (cap : option bytes) : option result :=
  match fuel with
  | O => k p cap
  | S fuel =>
      match body p cap (fun p' cap' =>
              if (length p'.2 <? length p.2)%nat then star_loop body k fuel p' cap' else None) with
      | Some r => Some r
      | None => k p cap
      end
  end.

(** Match [r] at [p] and go on with [k], trying the alternatives in order. *)
Fixpoint rmatch (r : regex) (p : pos) (cap : option bytes) (k : pos -> option bytes -> option result)
  : option result :=
  match r with
  | RClass f =>
      match p.2 with
      | c :: s => if f c then k (Some c, s) cap else None
      | [] => None
      end
  | RBol => if at_bol p then k p cap else None
  | REmpty => k p cap
  | RSeq a b => rmatch a p cap (fun p cap => rmatch b p cap k)
  | ROpt a =>
      match rmatch a p cap (fun p' cap' => if (length p'.2 <? length p.2)%nat then k p' cap' else None) with
      | Some r => Some r
      | None => k p cap
      end
  | RStar a => star_loop (rmatch a) k (length p.2) p cap
  | RGroup a => rmatch a p cap (fun p' _ => k p' (Some (take (length p.2 - length p'.2) p.2)))
  end.
Definition match_at (r : regex) (p : pos) : option result := rmatch r p None (fun p cap => Some (cap, p)).

(** [std::regex_search] *)
Fixpoint search_from (r : regex) (prev : option byte) (s : bytes) : option result :=
  match match_at r (prev, s) with
  | Some m => Some m
  | None => match s with [] => None | c :: s => search_from r (Some c) s end
  end.

(** [std::sregex_iterator], for expressions that match no empty text: the
    captured texts. *)
Fixpoint matches_from (r : regex) (fuel : nat) (p : pos) : list bytes :=
  match fuel with
  | O => []
  | S fuel =>
      match search_from r p.1 p.2 with
      | Some (cap, p') => default [] cap :: matches_from r fuel p'
      | None => []
      end
  end.
Definition regex_matches (r : regex) (s : bytes) : list bytes := matches_from r (S (length s)) (None, s).

(** The matcher's equations. *)
Lemma rmatch_seq a b p cap k : rmatch (RSeq a b) p cap k = rmatch a p cap (fun p cap => rmatch b p cap k).
Proof. done. Qed.
Lemma rmatch_class f p cap k :
  rmatch (RClass f) p cap k = match p.2 with c :: s => if f c then k (Some c, s) cap else None | [] => None end.
Proof. done. Qed.
Lemma rmatch_star a p cap k : rmatch (RStar a) p cap k = star_loop (rmatch a) k (length p.2) p cap.
Proof. done. Qed.
Lemma rmatch_group a p cap k :
  rmatch (RGroup a) p cap k = rmatch a p cap (fun p' _ => k p' (Some (take (length p.2 - length p'.2) p.2))).
Proof. done. Qed.
Lemma rmatch_opt a p cap k :
  rmatch (ROpt a) p cap k =
    match rmatch a p cap (fun p' cap' => if (length p'.2 <? length p.2)%nat then k p' cap' else None) with
    | Some r => Some r
    | None => k p cap
    end.
Proof. done. Qed.
Lemma rmatch_bol p cap k : rmatch RBol p cap k = if at_bol p then k p cap else None.
Proof. done. Qed.
