(* ===== verification/Aead.v ===== *)
(** * Shadowsocks AEAD sessions

    [src/ShadowsocksAead.cpp] and [include/ovpn2ss/ShadowsocksAead.h] without
    the address codec: key derivation, the salted sessions, the chunked TCP
    framing and the UDP packets. *)
From S2P Require Import Prelude Types Mbedtls.

Definition KeySize : nat := 32.
Definition SaltSize : nat := 32.
Definition TagSize : nat := 16.
Definition NonceSize : nat := 12.
(** The largest plain chunk, [0x3fff]. *)
Definition MaxChunk : nat := Z.to_nat 0x3fff.

(* ------------------------------------------------------------------ *)
(** ** Nonces *)

(** [const auto next = static_cast<unsigned char>(b) + 1]: the sum is an [int],
    so it is never zero and the loop always breaks on the first byte. *)
Fixpoint increment_nonce (nonce : bytes) : bytes :=
  match nonce with
  | [] => []
  | b :: rest =>
      let next := byte_to_Z b + 1 in
      if negb (next =? 0) then byte_of_Z next :: rest
      else byte_of_Z next :: increment_nonce rest
  end.

(** [read_be16] and [append_be16]. *)
Definition read_be16 (v : bytes) : outcome Z :=
  hi ← span_at v 0; lo ← span_at v 1; Ret (of_be16 hi lo).
Definition append_be16 (out : bytes) (value : Z) : bytes :=
  PacketBuffer.append out (be16 value).

(* ------------------------------------------------------------------ *)
(** ** The session *)

Record Session := mkSession {
  master_key_ : bytes;
  send_key_ : bytes;
  recv_key_ : bytes;
  send_nonce_ : bytes;
  recv_nonce_ : bytes;
  have_recv_key_ : bool;
  sent_salt_ : bool
}.

Definition zeros (n : nat) : bytes := replicate n x00.

(** [ShadowsocksAeadSession(master_key)] *)
Definition new_session (master_key : bytes) : Session :=
  mkSession master_key (zeros KeySize) (zeros KeySize) (zeros NonceSize)
    (zeros NonceSize) false false.

Definition set_send_nonce (n : bytes) (s : Session) : Session :=
  mkSession (master_key_ s) (send_key_ s) (recv_key_ s) n (recv_nonce_ s)
    (have_recv_key_ s) (sent_salt_ s).
Definition set_recv_nonce (n : bytes) (s : Session) : Session :=
  mkSession (master_key_ s) (send_key_ s) (recv_key_ s) (send_nonce_ s) n
    (have_recv_key_ s) (sent_salt_ s).

Section Aead.
Context `{!Mbedtls}.

(** The [static thread_local Csprng rng] of the calling thread: absent until
    its first use, and after a constructor that threw. *)
Record Csprng := mkCsprng { rng : option ctr_drbg; source : entropy }.

Definition csprng_construct : M Csprng ctr_drbg := fun w =>
  match rng w with
  | Some g => (w, Ret g)
  | None =>
      match ctr_drbg_seed (source w) (str "ovpn2ss-shadowsocks-aead") with
      | (Some g, e) => (mkCsprng (Some g) e, Ret g)
      | (None, e) => (mkCsprng None e, throw "mbedTLS CTR_DRBG seed failed")
      end
  end.

(** [Csprng::fill]: nothing is drawn for an empty span. *)
Definition csprng_fill (g : ctr_drbg) (n : nat) : M Csprng bytes := fun w =>
  if decide (n = 0)%nat then (w, Ret [])
  else match ctr_drbg_random g n with
       | (Some out, g') => (mkCsprng (Some g') (source w), Ret out)
       | (None, g') => (mkCsprng (Some g') (source w), throw "mbedTLS CTR_DRBG random failed")
       end.

Definition random_bytes (n : nat) : M Csprng bytes :=
  g ← csprng_construct; csprng_fill g n.

(** [evp_bytes_to_key]: one iteration of the loop, then the loop, run while
    [produced < key.size()].  Each iteration adds [min 16 (32 - produced)]
    bytes, so two suffice and the fuel of 32 is never the bound. *)
Definition evp_step (pw : bytes) (st : bytes * bytes * nat) : bytes * bytes * nat :=
  let '(key, digest, produced) := st in
  let digest' := md5 ((if decide (produced = 0)%nat then [] else digest) ++ pw) in
  let n := Nat.min (length digest') (KeySize - produced) in
  (take produced key ++ take n digest' ++ drop (produced + n) key, digest', (produced + n)%nat).

Fixpoint evp_loop (fuel : nat) (pw : bytes) (st : bytes * bytes * nat) : bytes :=
  let '(key, _, produced) := st in
  match fuel with
  | O => key
  | S fuel => if decide (produced < KeySize)%nat then evp_loop fuel pw (evp_step pw st) else key
  end.

Definition evp_bytes_to_key (pw : bytes) : bytes :=
  evp_loop KeySize pw (zeros KeySize, zeros 16, 0%nat).

(** [derive_subkey]: HKDF-SHA1 with the fixed info string. *)
Definition derive_subkey (master salt : bytes) : outcome bytes :=
  match hkdf_sha1 salt master (str "ss-subkey") KeySize with
  | Some out => Ret out
  | None => throw "mbedTLS HKDF failed"
  end.

(** [crypt]: ciphertext, tag and the incremented nonce. *)
Definition crypt (key nonce input : bytes) : outcome (bytes * bytes * bytes) :=
  match ctx ← chachapoly_setkey key; chachapoly_encrypt_and_tag ctx nonce [] input with
  | Some (output, tag) => Ret (output, tag, increment_nonce nonce)
  | None => throw "mbedTLS chachapoly encrypt failed"
  end.

(** [decrypt]: [None] for [false]; the nonce only moves on success. *)
Definition decrypt (key nonce input tag : bytes) : option (bytes * bytes) :=
  match ctx ← chachapoly_setkey key; chachapoly_auth_decrypt ctx nonce [] tag input with
  | Some output => Some (output, increment_nonce nonce)
  | None => None
  end.

(** [client_salt] *)
Definition client_salt : M (Session * Csprng) bytes :=
  salt ← zoom snd (fun w t => (fst t, w)) (random_bytes SaltSize);
  '(s, w) ← get;
  key ← lift (derive_subkey (master_key_ s) salt);
  _ ← put (mkSession (master_key_ s) key (recv_key_ s) (zeros NonceSize) (recv_nonce_ s)
             (have_recv_key_ s) true, w);
  mret salt.

(** [set_client_salt] *)
Definition set_client_salt (salt : bytes) : M Session unit :=
  if negb (length salt =? SaltSize)%nat
  then lift (throw "invalid Shadowsocks AEAD salt size")
  else
    s ← get;
    key ← lift (derive_subkey (master_key_ s) salt);
    put (mkSession (master_key_ s) (send_key_ s) key (send_nonce_ s) (zeros NonceSize)
           true (sent_salt_ s)).

(** One [crypt] of a session: the nonce member is updated in place. *)
Definition crypt_send (input : bytes) : M Session (bytes * bytes) := fun s =>
  match crypt (send_key_ s) (send_nonce_ s) input with
  | Ret (ct, tag, nonce) => (set_send_nonce nonce s, Ret (ct, tag))
  | Exn e => (s, Exn e)
  | Ub => (s, Ub)
  end.

(** [encrypt_tcp_chunk] *)
Definition encrypt_tcp_chunk (plain : bytes) : M Session bytes :=
  s ← get;
  if negb (sent_salt_ s) then lift (throw "send salt not initialized")
  else if (MaxChunk <? length plain)%nat
  then lift (throw "Shadowsocks AEAD TCP chunk too large")
  else
    let len_plain := be16 (Z.of_nat (length plain)) in
    '(len_cipher, len_tag) ← crypt_send len_plain;
    let out := PacketBuffer.append (PacketBuffer.append [] len_cipher) len_tag in
    '(payload_cipher, payload_tag) ← crypt_send plain;
    mret (PacketBuffer.append (PacketBuffer.append out payload_cipher) payload_tag).

(** The body of [decrypt_tcp_chunk] after its first guard: the plain chunk,
    the nonce to commit and the remaining view, or [None] for a short stream. *)
Definition open_chunk (key nonce stream : bytes) : outcome (option (bytes * bytes * bytes)) :=
  len_cipher ← span_first stream 2;
  len_tag ← subspan_n stream 2 TagSize;
  match decrypt key nonce len_cipher len_tag with
  | None => throw "invalid Shadowsocks AEAD TCP length tag"
  | Some (len_plain, nonce1) =>
      len ← read_be16 len_plain;
      let payload_len := Z.to_nat (Z.land len 0x3fff) in
      let need := (2 + TagSize + payload_len + TagSize)%nat in
      if (length stream <? need)%nat then Ret None
      else
        payload ← subspan_n stream (2 + TagSize) payload_len;
        payload_tag ← subspan_n stream (2 + TagSize + payload_len) TagSize;
        match decrypt key nonce1 payload payload_tag with
        | None => throw "invalid Shadowsocks AEAD TCP payload tag"
        | Some (plain, nonce2) =>
            rest ← subspan stream need;
            Ret (Some (plain, nonce2, rest))
        end
  end.

(** [decrypt_tcp_chunk]; the state is the session and the caller's view. *)
Definition decrypt_tcp_chunk : M (Session * bytes) (option bytes) := fun '(s, stream) =>
  if negb (have_recv_key_ s) || (length stream <? 2 + TagSize)%nat
  then ((s, stream), Ret None)
  else match open_chunk (recv_key_ s) (recv_nonce_ s) stream with
       | Ret None => ((s, stream), Ret None)
       | Ret (Some (plain, nonce, rest)) => ((set_recv_nonce nonce s, rest), Ret (Some plain))
       | Exn e => ((s, stream), Exn e)
       | Ub => ((s, stream), Ub)
       end.

(** [encrypt_udp_packet] *)
Definition encrypt_udp_packet (plain : bytes) : M (Session * Csprng) bytes :=
  salt ← client_salt;
  let out := PacketBuffer.append [] salt in
  '(cipher, tag) ← zoom fst (fun s t => (s, snd t)) (crypt_send plain);
  mret (PacketBuffer.append (PacketBuffer.append out cipher) tag).

(** [decrypt_udp_packet]; no member changes. *)
Definition decrypt_udp_packet (s : Session) (encrypted : bytes) : outcome (option bytes) :=
  if (length encrypted <? SaltSize + TagSize)%nat then Ret None
  else
    salt ← span_first encrypted SaltSize;
    key ← derive_subkey (master_key_ s) salt;
    let nonce := zeros NonceSize in
    let body_len := (length encrypted - SaltSize - TagSize)%nat in
    body ← subspan_n encrypted SaltSize body_len;
    tag ← subspan_n encrypted (SaltSize + body_len) TagSize;
    match decrypt key nonce body tag with
    | None => Ret None
    | Some (plain, _) => Ret (Some plain)
    end.

(** [ShadowsocksAeadFactory]: its only member is the master key. *)
Record AeadFactory := mkAeadFactory { factory_master_key_ : bytes }.
Definition new_factory (pw : bytes) : AeadFactory := mkAeadFactory (evp_bytes_to_key pw).
Definition make_session (f : AeadFactory) : Session := new_session (factory_master_key_ f).

End Aead.
Arguments Csprng {_}.
