(* ===== verification/AeadStream.v ===== *)
(** * Correctness of the AEAD session

    Lemmas and theorems about [Aead]: key derivation, framing, the chunk
    stream under any fragmentation, UDP packets, and the nonce sequence. *)
From S2P Require Import Prelude Types Mbedtls Aead.

(* ------------------------------------------------------------------ *)
(** ** The receive loop

    [while (auto chunk = decrypt_tcp_chunk(view))] as the TCP relay runs it:
    the chunks it yields, the session and view it ends in, and how it ended.
    A chunk takes at least 34 bytes, so the view's length bounds the loop. *)
Section Drain.
Context `{!Mbedtls}.

Fixpoint drain (fuel : nat) (st : Session * bytes)
  : list bytes * (Session * bytes) * outcome unit :=
  match fuel with
  | O => ([], st, Ret tt)
  | S fuel =>
      match decrypt_tcp_chunk st with
      | (st', Ret (Some p)) =>
          let '(ps, st'', r) := drain fuel st' in (p :: ps, st'', r)
      | (st', Ret None) => ([], st', Ret tt)
      | (st', Exn e) => ([], st', Exn e)
      | (st', Ub) => ([], st', Ub)
      end
  end.

Definition drain_all (st : Session * bytes) := drain (S (length (snd st))) st.

(** Bytes that arrive are appended to the buffer and drained; the first
    failure ends the session. *)
Fixpoint feed (st : Session * bytes) (frags : list bytes)
  : list bytes * (Session * bytes) * outcome unit :=
  match frags with
  | [] => ([], st, Ret tt)
  | f :: frags =>
      match drain_all (fst st, snd st ++ f) with
      | (ps, st', Ret _) =>
          let '(qs, st'', r) := feed st' frags in (ps ++ qs, st'', r)
      | res => res
      end
  end.

(** The sender: one [encrypt_tcp_chunk] per plain chunk. *)
Fixpoint encrypt_chunks (plains : list bytes) : M Session (list bytes) :=
  match plains with
  | [] => mret []
  | p :: plains =>
      c ← encrypt_tcp_chunk p;
      cs ← encrypt_chunks plains;
      mret (c :: cs)
  end.

End Drain.

(* ------------------------------------------------------------------ *)
(** ** Well-formed sessions *)

(** The fixed sizes of the [std::array] members. *)
Definition session_wf (s : Session) : Prop :=
  length (master_key_ s) = KeySize /\ length (send_key_ s) = KeySize /\
  length (recv_key_ s) = KeySize /\ length (send_nonce_ s) = NonceSize /\
  length (recv_nonce_ s) = NonceSize.

(** The sending half of [s] matches the receiving half of [r]. *)
Definition linked (s r : Session) : Prop :=
  send_key_ s = recv_key_ r /\ send_nonce_ s = recv_nonce_ r /\
  sent_salt_ s = true /\ have_recv_key_ r = true.

Lemma increment_nonce_length n : length (increment_nonce n) = length n.
Proof. induction n as [|b n IH]; simpl; [done|]. case_match; simpl; auto. Qed.

Lemma new_session_wf k : length k = KeySize -> session_wf (new_session k).
Proof. done. Qed.

Lemma read_be16_be16 z : read_be16 (be16 z) = Ret (u16 z).
Proof. unfold read_be16. simpl. f_equal. by apply of_be16_be16. Qed.

Lemma read_be16_two a b : read_be16 [a; b] = Ret (of_be16 a b).
Proof. done. Qed.

Section Facts.
Context `{!Mbedtls, !MbedtlsLaws}.
Implicit Types (s r : Session) (v w : bytes).

(* ------------------------------------------------------------------ *)
(** ** One encryption, one decryption *)

Lemma crypt_Ret key nonce input :
  length key = KeySize -> length nonce = NonceSize ->
  exists ct tag, crypt key nonce input = Ret (ct, tag, increment_nonce nonce) /\
    length ct = length input /\ length tag = TagSize /\
    decrypt key nonce ct tag = Some (input, increment_nonce nonce).
Proof.
  intros Hk Hn. destruct (setkey_total key Hk) as [ctx Hctx].
  destruct (encrypt_total ctx nonce [] input Hn) as [[ct tag] He].
  exists ct, tag. unfold crypt, decrypt. rewrite Hctx. simpl. rewrite He.
  destruct (encrypt_lengths _ _ _ _ _ _ He) as [-> ->].
  by rewrite (decrypt_encrypt _ _ _ _ _ _ He).
Qed.

Lemma decrypt_Some key nonce input tag p n :
  decrypt key nonce input tag = Some (p, n) ->
  length p = length input /\ n = increment_nonce nonce.
Proof.
  unfold decrypt. destruct (chachapoly_setkey key); simpl; [|done].
  destruct (chachapoly_auth_decrypt _ _ _ _ _) eqn:E; [|done].
  intros [= <- <-]. split; [|done]. by eapply decrypt_length.
Qed.

Lemma derive_subkey_Ret master salt :
  exists k, derive_subkey master salt = Ret k /\ length k = KeySize.
Proof.
  unfold derive_subkey.
  destruct (hkdf_total salt master (str "ss-subkey") KeySize) as [k Hk];
    [unfold KeySize; lia|].
  exists k. rewrite Hk. split; [done|]. by eapply hkdf_length.
Qed.

(* ------------------------------------------------------------------ *)
(** ** Opening a chunk *)

Lemma take2_shape (v : bytes) : (2 <= length v)%nat -> exists a b, take 2 v = [a; b].
Proof. destruct v as [|a [|b v]]; simpl; [lia|lia|]. eauto. Qed.

(** The payload length a decrypted length field stands for. *)
Definition field_length (len_plain : bytes) : nat :=
  match len_plain with
  | [a; b] => Z.to_nat (Z.land (of_be16 a b) 0x3fff)
  | _ => 0%nat
  end.

(** [open_chunk] on a view that holds the length field, without the checks
    that cannot fail. *)
Lemma open_chunk_unfold key nonce v :
  (2 + TagSize <= length v)%nat ->
  open_chunk key nonce v =
  match decrypt key nonce (take 2 v) (take TagSize (drop 2 v)) with
  | None => throw "invalid Shadowsocks AEAD TCP length tag"
  | Some (len_plain, nonce1) =>
      let n := field_length len_plain in
      let need := (2 + TagSize + n + TagSize)%nat in
      if (length v <? need)%nat then Ret None
      else match decrypt key nonce1 (take n (drop (2 + TagSize) v))
                   (take TagSize (drop (2 + TagSize + n) v)) with
           | None => throw "invalid Shadowsocks AEAD TCP payload tag"
           | Some (plain, nonce2) => Ret (Some (plain, nonce2, drop need v))
           end
  end.
Proof.
  intros Hv. unfold open_chunk. unfold TagSize in *.
  rewrite span_first_le, subspan_n_le by lia. bstep.
  destruct (decrypt key nonce (take 2 v) _) as [[lp n1]|] eqn:E; [|done].
  destruct (decrypt_Some _ _ _ _ _ _ E) as [Hlen ->].
  destruct (take2_shape v) as (x & y & Hxy); [lia|]. rewrite Hxy in Hlen.
  destruct lp as [|a [|b [|]]]; simpl in Hlen; try lia.
  rewrite read_be16_two. bstep. cbv zeta. unfold field_length.
  set (n := Z.to_nat (Z.land (of_be16 a b) 16383)).
  destruct (Nat.ltb_spec (length v) (2 + 16 + n + 16)); [done|].
  rewrite !subspan_n_le by lia. bstep.
  destruct (decrypt key _ _ _) as [[plain n2]|]; [|done].
  by rewrite subspan_le by lia.
Qed.

Lemma open_chunk_no_ub key nonce v :
  (2 + TagSize <= length v)%nat -> no_ub (open_chunk key nonce v).
Proof.
  intros Hv. rewrite open_chunk_unfold by done. unfold no_ub.
  repeat (case_match; try done).
Qed.

Lemma open_chunk_length key nonce v p n rest :
  (2 + TagSize <= length v)%nat ->
  open_chunk key nonce v = Ret (Some (p, n, rest)) ->
  (length v = 34 + length p + length rest)%nat /\
  n = increment_nonce (increment_nonce nonce).
Proof.
  intros Hv. rewrite open_chunk_unfold by done.
  destruct (decrypt key nonce _ _) as [[lp n1]|] eqn:E1; [|done].
  apply decrypt_Some in E1 as [_ ->]. cbv zeta. unfold TagSize in *.
  set (k := field_length lp).
  destruct (Nat.ltb_spec (length v) (2 + 16 + k + 16)) as [|Hk]; [done|].
  destruct (decrypt key _ _ _) as [[p2 n2]|] eqn:E2; [|done].
  intros [= -> -> <-]. apply decrypt_Some in E2 as [-> ->].
  split; [len|done].
Qed.

(** More bytes on the stream do not change a chunk, or a failure, that the
    bytes already there determine. *)
Lemma open_chunk_app key nonce v w :
  (2 + TagSize <= length v)%nat ->
  match open_chunk key nonce v with
  | Ret None => True
  | Ret (Some (p, n, rest)) => open_chunk key nonce (v ++ w) = Ret (Some (p, n, rest ++ w))
  | Exn e => open_chunk key nonce (v ++ w) = Exn e
  | Ub => False
  end.
Proof.
  intros Hv. pose proof (open_chunk_no_ub key nonce v Hv).
  rewrite !open_chunk_unfold in * by (rewrite ?length_app; lia).
  unfold TagSize in *.
  rewrite take_app_le, (drop_app_le v w 2), (take_app_le (drop 2 v)) by len.
  destruct (decrypt key nonce _ _) as [[lp n1]|] eqn:E1; [|done]. cbv zeta in *.
  set (k := field_length lp) in *.
  destruct (Nat.ltb_spec (length v) (2 + 16 + k + 16)) as [|Hk]; [done|].
  destruct (Nat.ltb_spec (length (v ++ w)) (2 + 16 + k + 16)) as [|_]; [len|].
  rewrite !drop_app_le, !take_app_le by len.
  by destruct (decrypt key n1 _ _) as [[p2 n2]|] eqn:E2.
Qed.

(* ------------------------------------------------------------------ *)
(** ** [decrypt_tcp_chunk] and the receive loop *)

(** What one call can do: nothing, one chunk off the front of the view, or a
    failure with the session untouched. *)
Lemma decrypt_tcp_chunk_cases s v :
  match decrypt_tcp_chunk (s, v) with
  | (st, Ret None) => st = (s, v)
  | ((s', v'), Ret (Some p)) =>
      have_recv_key_ s = true /\ (2 + TagSize <= length v)%nat /\
      s' = set_recv_nonce (increment_nonce (increment_nonce (recv_nonce_ s))) s /\
      open_chunk (recv_key_ s) (recv_nonce_ s) v = Ret (Some (p, recv_nonce_ s', v')) /\
      (length v = 34 + length p + length v')%nat
  | (st, Exn e) =>
      st = (s, v) /\ have_recv_key_ s = true /\ (2 + TagSize <= length v)%nat /\
      open_chunk (recv_key_ s) (recv_nonce_ s) v = Exn e
  | (_, Ub) => False
  end.
Proof.
  unfold decrypt_tcp_chunk.
  destruct (have_recv_key_ s) eqn:Hh; [|done]. cbn [negb orb].
  destruct (Nat.ltb_spec (length v) (2 + TagSize)) as [|Hv]; [done|].
  pose proof (open_chunk_no_ub (recv_key_ s) (recv_nonce_ s) v Hv).
  destruct (open_chunk _ _ v) as [[[[p n] rest]|]|e|] eqn:E; [|done..].
  destruct (open_chunk_length _ _ _ _ _ _ Hv E) as [Hl ->]. done.
Qed.

Lemma decrypt_tcp_chunk_app s v w :
  match decrypt_tcp_chunk (s, v) with
  | (_, Ret None) => True
  | ((s', v'), Ret (Some p)) => decrypt_tcp_chunk (s, v ++ w) = ((s', v' ++ w), Ret (Some p))
  | (_, Exn e) => decrypt_tcp_chunk (s, v ++ w) = ((s, v ++ w), Exn e)
  | (_, Ub) => False
  end.
Proof.
  unfold decrypt_tcp_chunk.
  destruct (have_recv_key_ s) eqn:Hh; [|done]. cbn [negb orb].
  destruct (Nat.ltb_spec (length v) (2 + TagSize)) as [|Hv]; [done|].
  destruct (Nat.ltb_spec (length (v ++ w)) (2 + TagSize)) as [|_]; [len|].
  pose proof (open_chunk_app (recv_key_ s) (recv_nonce_ s) v w Hv) as Ha.
  by destruct (open_chunk _ _ v) as [[[[p n] rest]|]|e|]; rewrite ?Ha.
Qed.

(** The loop does not depend on its fuel once that exceeds the view. *)
Lemma drain_fuel n m s v :
  (length v < n)%nat -> (length v < m)%nat -> drain n (s, v) = drain m (s, v).
Proof.
  revert m s v. induction n as [|n IH]; intros [|m] s v Hn Hm; [lia..|]. cbn [drain].
  pose proof (decrypt_tcp_chunk_cases s v) as Hc.
  destruct (decrypt_tcp_chunk (s, v)) as [[s' v'] [[p|]|e|]]; [|done..].
  destruct Hc as (_ & _ & _ & _ & Hl). rewrite (IH m); [done|lia|lia].
Qed.

Lemma drain_all_unfold s v :
  drain_all (s, v) =
  match decrypt_tcp_chunk (s, v) with
  | (st', Ret (Some p)) => let '(ps, st'', r) := drain_all st' in (p :: ps, st'', r)
  | (st', Ret None) => ([], st', Ret tt)
  | (st', Exn e) => ([], st', Exn e)
  | (st', Ub) => ([], st', Ub)
  end.
Proof.
  unfold drain_all. cbn [drain snd].
  pose proof (decrypt_tcp_chunk_cases s v) as Hc.
  destruct (decrypt_tcp_chunk (s, v)) as [[s' v'] [[p|]|e|]]; [|done..].
  destruct Hc as (_ & _ & _ & _ & Hl). cbn [snd].
  by rewrite (drain_fuel (length v) (S (length v'))) by lia.
Qed.

Lemma drain_all_nil s : drain_all (s, []) = ([], (s, []), Ret tt).
Proof. unfold drain_all. simpl. by destruct (have_recv_key_ s). Qed.

Lemma drain_all_app s v w :
  match drain_all (s, v) with
  | (ps, (s', v'), Ret _) =>
      drain_all (s, v ++ w) =
      let '(qs, st, r) := drain_all (s', v' ++ w) in (ps ++ qs, st, r)
  | (ps, (s', v'), Exn e) => drain_all (s, v ++ w) = (ps, (s', v' ++ w), Exn e)
  | (_, _, Ub) => False
  end.
Proof.
  revert s. induction v as [v IH] using (induction_ltof1 _ (@length byte)).
  unfold ltof in IH. intros s. rewrite (drain_all_unfold s v).
  pose proof (decrypt_tcp_chunk_cases s v) as Hc.
  pose proof (decrypt_tcp_chunk_app s v w) as Ha.
  destruct (decrypt_tcp_chunk (s, v)) as [[s' v'] [[p|]|e|]]; [| |by destruct Hc as [[= -> ->] _]; rewrite drain_all_unfold, Ha|done].
  - destruct Hc as (_ & _ & _ & _ & Hl). specialize (IH v' ltac:(lia) s').
    rewrite (drain_all_unfold s (v ++ w)), Ha.
    destruct (drain_all (s', v')) as [[ps [s2 v2]] [[]|e|]]; rewrite ?IH; [|done..].
    by destruct (drain_all (s2, v2 ++ w)) as [[qs st] r'].
  - injection Hc as -> ->. by destruct (drain_all (s, v ++ w)) as [[qs st] r'].
Qed.

(** A drained view is quiescent: the loop would yield nothing more. *)
Lemma drain_all_done s v ps st u :
  drain_all (s, v) = (ps, st, Ret u) -> drain_all st = ([], st, Ret tt).
Proof.
  revert s ps. induction v as [v IH] using (induction_ltof1 _ (@length byte)).
  unfold ltof in IH. intros s ps. rewrite drain_all_unfold.
  pose proof (decrypt_tcp_chunk_cases s v) as Hc.
  destruct (decrypt_tcp_chunk (s, v)) as [[s' v'] [[p|]|e|]] eqn:E; [| |done..].
  - destruct Hc as (_ & _ & _ & _ & Hl).
    destruct (drain_all (s', v')) as [[qs st2] r2] eqn:E2. intros [= _ -> ->].
    by eapply IH; [|exact E2]; lia.
  - injection Hc as -> ->. intros [= _ <- _]. by rewrite drain_all_unfold, E.
Qed.

(** How the network splits the stream does not matter. *)
Lemma feed_drain frags s buf :
  drain_all (s, buf) = ([], (s, buf), Ret tt) ->
  match feed (s, buf) frags with
  | (ps, st, Ret _) => drain_all (s, buf ++ concat frags) = (ps, st, Ret tt)
  | (ps, (s', v'), Exn e) =>
      exists v'', drain_all (s, buf ++ concat frags) = (ps, (s', v''), Exn e)
  | (_, _, Ub) => False
  end.
Proof.
  revert s buf. induction frags as [|f frags IH]; intros s buf Hq; cbn [feed concat].
  { by rewrite app_nil_r. }
  cbn [fst snd]. rewrite app_assoc.
  pose proof (drain_all_app s (buf ++ f) (concat frags)) as Ha.
  destruct (drain_all (s, buf ++ f)) as [[ps [s' v']] [u|e|]] eqn:E; [|by eauto|done].
  specialize (IH s' v' (drain_all_done _ _ _ _ _ E)).
  destruct (feed (s', v') frags) as [[qs [s2 v2]] [u2|e|]]; [by rewrite Ha, IH| |done].
  destruct IH as [v'' IH]. exists v''. by rewrite Ha, IH.
Qed.

(* ------------------------------------------------------------------ *)
(** ** The sender *)

Lemma feed_snoc st fs f ps s' v' :
  feed st fs = (ps, (s', v'), Ret tt) ->
  feed st (fs ++ [f]) =
  let '(qs, st'', r) := drain_all (s', v' ++ f) in (ps ++ qs, st'', r).
Proof.
  revert st ps. induction fs as [|g fs IH]; intros st ps; cbn [feed app].
  - intros [= <- ->]. cbn [fst snd]. destruct (drain_all _) as [[qs st''] [[]|e|]]; [|done..].
    by rewrite app_nil_r.
  - destruct (drain_all (fst st, snd st ++ g)) as [[qs st1] [[]|e|]]; [|by intros [=]..].
    destruct (feed st1 fs) as [[qs1 st2] r1] eqn:E. intros [= <- -> ->].
    rewrite (IH _ _ E). destruct (drain_all (s', v' ++ f)) as [[qs2 st3] r3]. by rewrite app_assoc.
Qed.

Lemma field_length_be16 n :
  (n <= MaxChunk)%nat -> field_length (be16 (Z.of_nat n)) = n.
Proof.
  unfold MaxChunk. intros Hle. unfold field_length, be16 at 1.
  rewrite (of_be16_be16 (Z.of_nat n)), u16_small by (done || lia).
  change 0x3fff with (Z.ones 14). rewrite Z.land_ones, Z.mod_small by lia. lia.
Qed.

Lemma field_length_le lp : (field_length lp <= MaxChunk)%nat.
Proof.
  assert (forall x, Z.land x 0x3fff = x mod 16384) as Hland
    by (intros x; apply (Z.land_ones x 14); lia).
  unfold field_length, MaxChunk. destruct lp as [|a [|b [|]]]; try lia.
  rewrite Hland. pose proof (Z.mod_pos_bound (of_be16 a b) 16384). lia.
Qed.

Lemma open_chunk_max key nonce v p n rest :
  (2 + TagSize <= length v)%nat ->
  open_chunk key nonce v = Ret (Some (p, n, rest)) ->
  (length p <= MaxChunk)%nat /\
  exists front, v = front ++ rest /\ length front = (2 + TagSize + length p + TagSize)%nat.
Proof.
  intros Hv Ho. rewrite open_chunk_unfold in Ho by done.
  destruct (decrypt _ _ _ _) as [[lp n1]|]; [|done]. cbv zeta in Ho. unfold TagSize in *.
  assert (field_length lp <= MaxChunk)%nat as Hmax by apply field_length_le.
  destruct (Nat.ltb_spec (length v) (2 + 16 + field_length lp + 16)); [done|].
  destruct (decrypt _ _ _ _) as [[p2 n2]|] eqn:E2; [|done]. injection Ho as <- _ <-.
  apply decrypt_Some in E2 as [Hp _].
  assert (length p2 = field_length lp) as Hpl by (rewrite Hp; len).
  rewrite Hpl. split; [done|].
  exists (take (2 + 16 + field_length lp + 16) v). rewrite take_drop. split; [done|].
  rewrite length_take. lia.
Qed.

Lemma encrypt_tcp_chunk_Ret s p :
  session_wf s -> sent_salt_ s = true -> (length p <= MaxChunk)%nat ->
  exists c,
    encrypt_tcp_chunk p s =
      (set_send_nonce (increment_nonce (increment_nonce (send_nonce_ s))) s, Ret c) /\
    length c = (34 + length p)%nat /\
    forall r w, linked s r ->
      decrypt_tcp_chunk (r, c ++ w) =
      ((set_recv_nonce (increment_nonce (increment_nonce (recv_nonce_ r))) r, w),
       Ret (Some p)).
Proof.
  intros (_ & Hk & _ & Hn & _) Hs Hp. unfold encrypt_tcp_chunk.
  unfold mbind, M_bind, get, lift. rewrite Hs. cbn [negb].
  destruct (Nat.ltb_spec MaxChunk (length p)) as [|_]; [lia|].
  unfold crypt_send.
  destruct (crypt_Ret (send_key_ s) (send_nonce_ s) (be16 (Z.of_nat (length p))) Hk Hn)
    as (c1 & t1 & -> & Hc1 & Ht1 & Hd1). cbn [send_key_ send_nonce_ set_send_nonce].
  destruct (crypt_Ret (send_key_ s) (increment_nonce (send_nonce_ s)) p Hk)
    as (c2 & t2 & -> & Hc2 & Ht2 & Hd2); [by rewrite increment_nonce_length|].
  eexists. split; [done|]. unfold PacketBuffer.append. rewrite app_nil_l.
  unfold TagSize in *. split; [len|].
  intros r w (Ekey & Enonce & _ & Hr). unfold decrypt_tcp_chunk. rewrite Hr. cbn [negb orb].
  destruct (Nat.ltb_spec (length ((((c1 ++ t1) ++ c2) ++ t2) ++ w)) (2 + TagSize)) as [|_];
    [unfold TagSize in *; len|].
  rewrite open_chunk_unfold by (unfold TagSize; len). unfold TagSize.
  rewrite <- !app_assoc. rewrite <- Ekey, <- Enonce.
  rewrite (take_app_length' c1), (drop_app_length' c1), (take_app_length' t1), Hd1 by done.
  cbv zeta. rewrite field_length_be16 by done.
  destruct (Nat.ltb_spec (length (c1 ++ t1 ++ c2 ++ t2 ++ w)) (2 + 16 + length p + 16)) as [|_];
    [len|].
  rewrite (drop_prefix (c1 ++ t1) (c2 ++ t2 ++ w) _ (2 + 16)),
    (drop_prefix (c1 ++ t1 ++ c2) (t2 ++ w) _ (2 + 16 + length p)),
    (drop_prefix (c1 ++ t1 ++ c2 ++ t2) w _ (2 + 16 + length p + 16))
    by (rewrite <- ?app_assoc; first [done | len]).
  by rewrite (take_app_length' c2), (take_app_length' t2), Hd2 by done.
Qed.

Lemma encrypt_chunks_snoc acc d s s' cs s'' c :
  encrypt_chunks acc s = (s', Ret cs) -> encrypt_tcp_chunk d s' = (s'', Ret c) ->
  encrypt_chunks (acc ++ [d]) s = (s'', Ret (cs ++ [c])).
Proof.
  revert s cs. induction acc as [|p acc IH]; intros s cs; cbn [encrypt_chunks app].
  - intros [= -> <-] Hd. unfold mbind, M_bind, mret, M_ret. by rewrite Hd.
  - unfold mbind, M_bind, mret, M_ret.
    destruct (encrypt_tcp_chunk p s) as [s1 [c1|e|]]; [|done..].
    destruct (encrypt_chunks acc s1) as [s2 [cs1|e|]] eqn:E; [|done..].
    intros [= -> <-] Hd. by rewrite (IH _ _ E Hd).
Qed.

Lemma set_send_nonce_wf s n :
  session_wf s -> length n = NonceSize -> session_wf (set_send_nonce n s).
Proof. unfold session_wf. simpl. tauto. Qed.

Lemma linked_advance s r n :
  linked s r -> linked (set_send_nonce n s) (set_recv_nonce n r).
Proof. unfold linked. simpl. tauto. Qed.

Lemma increment_twice_length n : length (increment_nonce (increment_nonce n)) = length n.
Proof. by rewrite !increment_nonce_length. Qed.

(** Encrypting a run of chunks succeeds, and whatever follows them on the
    stream, the receiver's loop yields exactly them first. *)
Lemma encrypt_chunks_Ret plains s :
  session_wf s -> sent_salt_ s = true ->
  Forall (fun p => length p <= MaxChunk)%nat plains ->
  exists cs s',
    encrypt_chunks plains s = (s', Ret cs) /\ session_wf s' /\ sent_salt_ s' = true /\
    length (concat cs) = sum_list_with (fun p => 34 + length p)%nat plains /\
    forall r, linked s r ->
      exists r', linked s' r' /\ forall w,
        drain_all (r, concat cs ++ w) =
        let '(qs, st, res) := drain_all (r', w) in (plains ++ qs, st, res).
Proof.
  revert s. induction plains as [|p plains IH]; intros s Hwf Hs Hall.
  { exists [], s. do 4 (split; [done|]). intros r Hl. exists r. split; [done|].
    intros w. simpl. by destruct (drain_all (r, w)) as [[? ?] ?]. }
  apply Forall_cons in Hall as [Hp Hall].
  destruct (encrypt_tcp_chunk_Ret s p Hwf Hs Hp) as (c & He & Hc & Hd).
  set (s1 := set_send_nonce _ s) in *.
  destruct (IH s1) as (cs & s' & Hes & Hwf' & Hs' & Hlen & Hdr); [|done|done|].
  { apply set_send_nonce_wf; [done|]. rewrite increment_twice_length. apply Hwf. }
  exists (c :: cs), s'. split.
  { cbn [encrypt_chunks]. unfold mbind, M_bind. by rewrite He, Hes. }
  do 2 (split; [done|]). split; [cbn [concat sum_list_with]; rewrite length_app; lia|].
  intros r Hl.
  destruct (Hdr (set_recv_nonce (increment_nonce (increment_nonce (recv_nonce_ r))) r))
    as (r' & Hl' & Hw).
  { assert (recv_nonce_ r = send_nonce_ s) as -> by (by destruct Hl as (_ & -> & _)).
    by apply linked_advance. }
  exists r'. split; [done|]. intros w. cbn [concat]. rewrite <- app_assoc.
  rewrite drain_all_unfold, Hd by done. rewrite Hw.
  by destruct (drain_all (r', w)) as [[qs st] res].
Qed.

(* ------------------------------------------------------------------ *)
(** ** Salts *)

Lemma client_salt_inv s rg s' rg' salt :
  client_salt (s, rg) = ((s', rg'), Ret salt) ->
  exists k, derive_subkey (master_key_ s) salt = Ret k /\ length salt = SaltSize /\
    s' = mkSession (master_key_ s) k (recv_key_ s) (zeros NonceSize) (recv_nonce_ s)
           (have_recv_key_ s) true.
Proof.
  unfold client_salt, zoom, random_bytes, csprng_fill, mbind, M_bind, get, lift, put, mret,
    M_ret. cbn [fst snd].
  destruct (csprng_construct rg) as [rg1 [g|e|]]; [|done..].
  destruct (decide _) as [[=]|_].
  destruct (ctr_drbg_random g SaltSize) as [[out|] g'] eqn:Er; cbn [fst snd]; [|done].
  destruct (derive_subkey (master_key_ s) out) as [k|e|] eqn:Ed; [|done..].
  intros [= <- <- <-]. exists k. apply random_length in Er. done.
Qed.

(** Every way [client_salt] ends. *)
Lemma client_salt_cases s rg :
  match client_salt (s, rg) with
  | ((s', _), Ret salt) => exists k, derive_subkey (master_key_ s) salt = Ret k /\
      length k = KeySize /\ length salt = SaltSize /\
      s' = mkSession (master_key_ s) k (recv_key_ s) (zeros NonceSize) (recv_nonce_ s)
             (have_recv_key_ s) true
  | ((s', _), Exn _) => s' = s
  | (_, Ub) => False
  end.
Proof.
  destruct (client_salt (s, rg)) as [[s' rg'] [salt|e|]] eqn:E.
  { apply client_salt_inv in E as (k & Hk & Hl & ->). exists k.
    destruct (derive_subkey_Ret (master_key_ s) salt) as (k' & Hk' & Hkl).
    rewrite Hk in Hk'. by injection Hk' as <-. }
  all: revert E; unfold client_salt, zoom, random_bytes, csprng_fill, mbind, M_bind, get, lift,
    put, mret, M_ret; cbn [fst snd];
    destruct (csprng_construct rg) as [rg1 [g|e'|]] eqn:Ec; try (by intros [= <- _]);
    try (destruct (decide _) as [[=]|_]);
    try (destruct (ctr_drbg_random g SaltSize) as [[out|] g'] eqn:Er; cbn [fst snd]);
    try (by intros [= <- _]);
    try (destruct (derive_subkey_Ret (master_key_ s) out) as (k & -> & _); done).
  revert Ec. unfold csprng_construct. destruct (rng rg); [done|].
  by destruct (ctr_drbg_seed _ _) as [[]].
Qed.

Lemma set_client_salt_Ret s salt :
  length salt = SaltSize ->
  exists k, derive_subkey (master_key_ s) salt = Ret k /\ length k = KeySize /\
    set_client_salt salt s =
      (mkSession (master_key_ s) (send_key_ s) k (send_nonce_ s) (zeros NonceSize)
         true (sent_salt_ s), Ret tt).
Proof.
  intros Hl. destruct (derive_subkey_Ret (master_key_ s) salt) as (k & Hk & Hkl).
  exists k. split_and!; [done|done|]. unfold set_client_salt. rewrite Hl, Nat.eqb_refl.
  unfold mbind, M_bind, get, lift, put. cbn [negb]. by rewrite Hk.
Qed.

(** Two sessions of the same master key are linked by a salt exchange. *)
Lemma salt_links key rg s rg' salt :
  length key = KeySize ->
  client_salt (new_session key, rg) = ((s, rg'), Ret salt) ->
  exists r, set_client_salt salt (new_session key) = (r, Ret tt) /\
    linked s r /\ session_wf s /\ session_wf r.
Proof.
  intros Hkey (k & Hk & Hsalt & ->)%client_salt_inv.
  destruct (set_client_salt_Ret (new_session key) salt Hsalt) as (k' & Hk' & Hl & ->).
  simpl in *. rewrite Hk in Hk'. injection Hk' as ->.
  eexists. split; [done|]. unfold linked, session_wf. simpl. by rewrite Hkey, Hl.
Qed.

(* ------------------------------------------------------------------ *)
(** ** Key derivation from the password *)

Lemma evp_first_step pw :
  evp_step pw (zeros KeySize, zeros 16, 0%nat) = (md5 pw ++ zeros 16, md5 pw, 16%nat).
Proof.
  unfold evp_step. rewrite decide_True, app_nil_l, md5_length by done.
  change (Nat.min 16 (KeySize - 0)) with 16%nat.
  by rewrite take_ge by (by rewrite md5_length).
Qed.

Lemma evp_second_step pw :
  evp_step pw (md5 pw ++ zeros 16, md5 pw, 16%nat) =
  (md5 pw ++ md5 (md5 pw ++ pw), md5 (md5 pw ++ pw), KeySize).
Proof.
  unfold evp_step. rewrite decide_False, md5_length by done.
  change (Nat.min 16 (KeySize - 16)) with 16%nat.
  rewrite take_app_length', (take_ge (md5 (_ ++ _))) by (by rewrite md5_length).
  rewrite (drop_ge (md5 pw ++ zeros 16)), app_nil_r by (rewrite length_app, md5_length; done).
  done.
Qed.

(** The two-block reference value of OpenSSL's [EVP_BytesToKey] with MD5. *)
Lemma evp_bytes_to_key_eq pw : evp_bytes_to_key pw = md5 pw ++ md5 (md5 pw ++ pw).
Proof.
  unfold evp_bytes_to_key. change KeySize with (S (S 30)) at 1. cbn [evp_loop].
  rewrite decide_True by (unfold KeySize; lia). rewrite evp_first_step.
  rewrite decide_True by (unfold KeySize; lia). rewrite evp_second_step.
  cbn [evp_loop]. by rewrite decide_False by lia.
Qed.

Lemma master_key_length pw : length (factory_master_key_ (new_factory pw)) = KeySize.
Proof. simpl. rewrite evp_bytes_to_key_eq, length_app, !md5_length. done. Qed.

(* ------------------------------------------------------------------ *)
(** ** The nonce sequence *)

Lemma increment_nonce_first b rest :
  increment_nonce (b :: rest) = byte_of_Z (byte_to_Z b + 1) :: rest.
Proof.
  simpl. pose proof (byte_to_Z_range b).
  destruct (Z.eqb_spec (byte_to_Z b + 1) 0); [lia|done].
Qed.

Lemma increment_nonce_iter k b rest :
  Nat.iter k increment_nonce (b :: rest) = byte_of_Z (byte_to_Z b + Z.of_nat k) :: rest.
Proof.
  induction k as [|k IH]; simpl Nat.iter.
  { by rewrite Z.add_0_r, byte_of_Z_to_Z. }
  rewrite IH, increment_nonce_first. f_equal. apply (inj byte_to_Z).
  rewrite !byte_to_Z_of_Z, Zplus_mod_idemp_l. f_equal. lia.
Qed.

Lemma encrypt_chunks_nonce plains s s' cs :
  session_wf s -> sent_salt_ s = true ->
  Forall (fun p => length p <= MaxChunk)%nat plains ->
  encrypt_chunks plains s = (s', Ret cs) ->
  s' = set_send_nonce (Nat.iter (2 * length plains) increment_nonce (send_nonce_ s)) s.
Proof.
  revert s cs. induction plains as [|p plains IH]; intros s cs Hwf Hs Hall.
  { intros [= <- <-]. by destruct s. }
  apply Forall_cons in Hall as [Hp Hall].
  destruct (encrypt_tcp_chunk_Ret s p Hwf Hs Hp) as (c & He & _).
  cbn [encrypt_chunks]. unfold mbind, M_bind. rewrite He.
  set (s1 := set_send_nonce _ s).
  destruct (encrypt_chunks plains s1) as [s2 [cs2|e|]] eqn:E; [|done..].
  intros [= <- _]. apply IH in E as ->; [|apply set_send_nonce_wf|done|done].
  - cbn [length]. replace (2 * S (length plains))%nat with (S (S (2 * length plains))) by lia.
    by rewrite !Nat.iter_succ_r.
  - done.
  - rewrite increment_twice_length. apply Hwf.
Qed.

(** 256 increments bring the nonce back. *)
Lemma nonce_period s :
  session_wf s -> set_send_nonce (Nat.iter (2 * 128) increment_nonce (send_nonce_ s)) s = s.
Proof.
  intros (_ & _ & _ & Hn & _). destruct s as [mk sk rk [|b rest] rn h st]; [done|].
  cbn [send_nonce_]. rewrite increment_nonce_iter.
  assert (byte_of_Z (byte_to_Z b + Z.of_nat (2 * 128)) = b) as ->; [|done].
  apply (inj byte_to_Z). rewrite byte_to_Z_of_Z.
  change (Z.of_nat (2 * 128)) with (1 * 256). rewrite Z_mod_plus_full.
  apply Z.mod_small, byte_to_Z_range.
Qed.

(* ------------------------------------------------------------------ *)
(** ** UDP packets *)

(** Encryption only fails when the salt cannot be drawn; what it returns
    decrypts in every session with the same master key. *)
Lemma encrypt_udp_packet_cases plain s rg :
  match encrypt_udp_packet plain (s, rg) with
  | (_, Ret ct) => length ct = (SaltSize + length plain + TagSize)%nat /\
      forall r, master_key_ r = master_key_ s -> decrypt_udp_packet r ct = Ret (Some plain)
  | (_, Exn _) => is_ret_b (snd (client_salt (s, rg))) = false
  | (_, Ub) => False
  end.
Proof.
  unfold encrypt_udp_packet, mbind, M_bind. pose proof (client_salt_cases s rg) as Hc.
  destruct (client_salt (s, rg)) as [[s1 rg1] [salt|e|]]; [|done..].
  destruct Hc as (k & Hk & Hkl & Hsalt & ->).
  unfold zoom, crypt_send. cbn [fst snd send_key_ send_nonce_].
  destruct (crypt_Ret k (zeros NonceSize) plain Hkl eq_refl) as (c & t & -> & Hc & Ht & Hd).
  cbn [mret M_ret]. unfold PacketBuffer.append. rewrite ?app_nil_l.
  unfold SaltSize, TagSize in *. split; [len|]. intros r Hr.
  unfold decrypt_udp_packet. rewrite Hr. unfold SaltSize, TagSize.
  destruct (Nat.ltb_spec (length ((salt ++ c) ++ t)) (32 + 16)); [len|].
  rewrite span_first_le by len. bstep.
  rewrite <- app_assoc, (take_app_length' salt), Hk by done. bstep. cbv zeta.
  replace (length (salt ++ c ++ t) - 32 - 16)%nat with (length c) by len.
  rewrite !subspan_n_le by len. bstep.
  rewrite (drop_app_length' salt), (take_app_length' c) by done.
  rewrite (drop_prefix (salt ++ c) t) by (rewrite <- ?app_assoc; first [done|len]).
  rewrite (take_ge t), Hd by lia. done.
Qed.

Lemma decrypt_udp_packet_cases (r : Session) (d : bytes) :
  exists res, decrypt_udp_packet r d = Ret res /\
    forall p, res = Some p -> (length d = length p + SaltSize + TagSize)%nat.
Proof.
  unfold decrypt_udp_packet, SaltSize, TagSize.
  destruct (Nat.ltb_spec (length d) (32 + 16)); [by eexists|].
  rewrite span_first_le by lia. bstep.
  destruct (derive_subkey_Ret (master_key_ r) (take 32 d)) as (k & -> & _). bstep. cbv zeta.
  rewrite !subspan_n_le by lia. bstep.
  destruct (decrypt _ _ _ _) as [[p n]|] eqn:E; [|by eexists].
  eexists. split; [done|]. intros ? [= <-]. apply decrypt_Some in E as [-> _]. len.
Qed.

End Facts.
