(* ===== verification/AeadSpec.v ===== *)
(** * What the AEAD session promises

    The properties of [src/ShadowsocksAead.cpp], each a short consequence of
    [AeadStream]. *)
From S2P Require Import Prelude Types Mbedtls Aead AeadStream.

(** Two runs of the receive loop agree: same chunks, same session, same way
    of ending, and the same unread bytes unless the session failed. *)
Definition same_run (a b : list bytes * (Session * bytes) * outcome unit) : Prop :=
  let '(ps, (s, v), o) := a in
  let '(qs, (r, w), o') := b in
  ps = qs /\ s = r /\ o = o' /\ (o = Ret tt -> v = w).

(** A session of the client side that has drawn its salt, and a fresh server
    session of the same password. *)
Definition toy_factory : AeadFactory := @new_factory toy_mbedtls (str "password").
Definition toy_rng : @Csprng toy_mbedtls := @mkCsprng toy_mbedtls None (5 : Z).
Definition toy_client : (Session * @Csprng toy_mbedtls) * outcome bytes :=
  @client_salt toy_mbedtls (make_session toy_factory, toy_rng).
Definition toy_salt : bytes := ret_value [] (snd toy_client).
Definition toy_sender : Session := fst (fst toy_client).

Section Spec.
Context `{!Mbedtls, !MbedtlsLaws}.

(** C1.  A client and a server session made from the same password, where the
    server has installed the salt the client drew: every sequence of chunks of
    at most 0x3fff bytes encrypts without an error, and whatever way the
    resulting byte stream is split on its way, the server's receive loop
    yields exactly those chunks, in order, and leaves nothing in its buffer. *)
Theorem tcp_session_roundtrip pw rg rg' salt (s : Session) (plains : list bytes) :
  client_salt (make_session (new_factory pw), rg) = ((s, rg'), Ret salt) ->
  Forall (fun p => length p <= MaxChunk)%nat plains ->
  exists r cs s' r',
    set_client_salt salt (make_session (new_factory pw)) = (r, Ret tt) /\
    encrypt_chunks plains s = (s', Ret cs) /\
    linked s' r' /\
    forall frags, concat frags = concat cs ->
      feed (r, []) frags = (plains, (r', []), Ret tt).
Proof.
  intros Hc Hall.
  destruct (salt_links _ _ _ _ _ (master_key_length pw) Hc) as (r & Hr & Hl & Hwf & Hwfr).
  destruct (encrypt_chunks_Ret plains s Hwf) as (cs & s' & He & _ & _ & _ & Hd);
    [apply Hl|done|].
  destruct (Hd r Hl) as (r' & Hl' & Hw). exists r, cs, s', r'.
  do 3 (split; [done|]). intros frags Hf.
  pose proof (feed_drain frags r [] (drain_all_nil r)) as Hfd. rewrite Hf, app_nil_l in Hfd.
  specialize (Hw []). rewrite app_nil_r, drain_all_nil, app_nil_r in Hw. rewrite Hw in Hfd.
  destruct (feed (r, []) frags) as [[ps [s2 v2]] [[]|e|]]; [congruence|by destruct Hfd|done].
Qed.

(** C5.  The receive loop does not depend on how the stream is fragmented:
    feeding the fragments one by one runs as draining their concatenation. *)
Theorem feed_fragmentation (s : Session) (frags : list bytes) :
  same_run (feed (s, []) frags) (drain_all (s, concat frags)).
Proof.
  pose proof (feed_drain frags s [] (drain_all_nil s)) as Hf. rewrite app_nil_l in Hf.
  destruct (feed (s, []) frags) as [[ps [s2 v2]] [[]|e|]]; [by rewrite Hf| |done].
  by destruct Hf as [v'' ->].
Qed.

(** [decrypt_tcp_chunk] never reads outside the view.  It either waits
    for more bytes, or fails, in both cases with session and view untouched,
    or takes one chunk: the view loses 2 + 16 + n + 16 bytes for n bytes of
    plain text, and of the session only the receive nonce moves, by two. *)
Theorem decrypt_tcp_chunk_effect (s : Session) (v : bytes) :
  let '((s', v'), res) := decrypt_tcp_chunk (s, v) in
  match res with
  | Ret None | Exn _ => s' = s /\ v' = v
  | Ret (Some p) =>
      s' = set_recv_nonce (increment_nonce (increment_nonce (recv_nonce_ s))) s /\
      (exists front, v = front ++ v' /\ length front = (2 + TagSize + length p + TagSize)%nat) /\
      (length p <= MaxChunk)%nat
  | Ub => False
  end.
Proof.
  pose proof (decrypt_tcp_chunk_cases s v) as Hc.
  destruct (decrypt_tcp_chunk (s, v)) as [[s' v'] [[p|]|e|]]; [|by simplify_eq|by destruct Hc as [[= -> ->] _]|done].
  destruct Hc as (_ & Hv & Hs & Ho & Hl). split; [done|].
  by apply open_chunk_max in Ho as [? ?].
Qed.

(** Every branch of [encrypt_tcp_chunk]: without a drawn salt or with a
    chunk above 0x3fff bytes it throws and changes nothing; otherwise it
    yields plain length + 34 bytes and moves only the send nonce, by two. *)
Theorem encrypt_tcp_chunk_effect (s : Session) (p : bytes) :
  session_wf s ->
  if negb (sent_salt_ s) then encrypt_tcp_chunk p s = (s, throw "send salt not initialized")
  else if (MaxChunk <? length p)%nat
  then encrypt_tcp_chunk p s = (s, throw "Shadowsocks AEAD TCP chunk too large")
  else exists c,
    encrypt_tcp_chunk p s =
      (set_send_nonce (increment_nonce (increment_nonce (send_nonce_ s))) s, Ret c) /\
    length c = (length p + 34)%nat.
Proof.
  intros Hwf. destruct (sent_salt_ s) eqn:Hs; cbn [negb].
  - destruct (Nat.ltb_spec MaxChunk (length p)).
    + unfold encrypt_tcp_chunk, mbind, M_bind, get, lift. rewrite Hs. cbn [negb].
      destruct (Nat.ltb_spec MaxChunk (length p)); [done|lia].
    + destruct (encrypt_tcp_chunk_Ret s p Hwf Hs) as (c & -> & Hc & _); [done|].
      exists c. split; [done|lia].
  - unfold encrypt_tcp_chunk, mbind, M_bind, get, lift. by rewrite Hs.
Qed.

(** A UDP packet encrypted under a password decrypts, in any session of
    the same password and whatever that session's own keys are, to the plain
    text it was made from; on the wire it is the salt and 16 bytes longer. *)
Theorem udp_packet_roundtrip pw rg (s r : Session) plain st rg' ct :
  master_key_ s = factory_master_key_ (new_factory pw) ->
  master_key_ r = factory_master_key_ (new_factory pw) ->
  encrypt_udp_packet plain (s, rg) = ((st, rg'), Ret ct) ->
  length ct = (SaltSize + length plain + TagSize)%nat /\
  decrypt_udp_packet r ct = Ret (Some plain).
Proof.
  intros Hs Hr He. pose proof (encrypt_udp_packet_cases plain s rg) as Hc.
  rewrite He in Hc. destruct Hc as [Hl Hd]. split; [done|]. apply Hd. congruence.
Qed.

(** A UDP datagram from the network never makes [decrypt_udp_packet]
    throw or read out of bounds, and what is accepted is 48 bytes shorter
    than the datagram. *)
Theorem decrypt_udp_packet_total (r : Session) (d : bytes) :
  exists res, decrypt_udp_packet r d = Ret res /\
    forall p, res = Some p -> (length d = length p + SaltSize + TagSize)%nat.
Proof. exact (decrypt_udp_packet_cases r d). Qed.

(** C37.  The master key is the MD5-based EVP_BytesToKey value of the password:
    MD5(pw) followed by MD5(MD5(pw) pw), 32 bytes, and every session of the
    factory starts from it with no key installed in either direction. *)
Theorem master_key_reference pw :
  factory_master_key_ (new_factory pw) = md5 pw ++ md5 (md5 pw ++ pw) /\
  session_wf (make_session (new_factory pw)) /\
  have_recv_key_ (make_session (new_factory pw)) = false /\
  sent_salt_ (make_session (new_factory pw)) = false.
Proof.
  split; [apply evp_bytes_to_key_eq|]. split; [|done].
  apply new_session_wf, master_key_length.
Qed.

(** C38.  The nonce is not the 96-bit counter the AEAD framing needs: the carry
    of [increment_nonce] is lost, so after any 128 chunks a sender is back at
    the key and nonce of its first one.  The next chunk reuses them, and a
    receiver accepts the whole recorded stream a second time. *)
Theorem nonce_reuse_after_128_chunks (s : Session) (plains : list bytes) s' cs :
  session_wf s -> sent_salt_ s = true -> length plains = 128%nat ->
  Forall (fun p => length p <= MaxChunk)%nat plains ->
  encrypt_chunks plains s = (s', Ret cs) ->
  s' = s /\
  forall r, linked s r ->
    exists r', drain_all (r, concat cs ++ concat cs) = (plains ++ plains, (r', []), Ret tt).
Proof.
  intros Hwf Hs Hlen Hall He.
  assert (s' = s) as ->.
  { rewrite (encrypt_chunks_nonce _ _ _ _ Hwf Hs Hall He), Hlen. by apply nonce_period. }
  split; [reflexivity|]. intros r Hl.
  destruct (encrypt_chunks_Ret plains s Hwf Hs Hall) as (cs' & s2 & He' & _ & _ & _ & Hd).
  rewrite He in He'. injection He' as <- <-.
  destruct (Hd r Hl) as (r1 & Hl1 & Hw1). destruct (Hd r1 Hl1) as (r2 & _ & Hw2).
  exists r2. rewrite Hw1. specialize (Hw2 []). rewrite app_nil_r in Hw2. rewrite Hw2.
  rewrite drain_all_nil, app_nil_r. done.
Qed.

End Spec.

(* ------------------------------------------------------------------ *)
(** ** Witnesses: the properties at a concrete session *)

Abbreviation toy_plains := [str "hello"; []; str "world"].
Abbreviation toy_server := (make_session toy_factory).

Lemma tcp_session_roundtrip_witness :
  exists r cs s' r',
    @set_client_salt toy_mbedtls toy_salt toy_server = (r, Ret tt) /\
    @encrypt_chunks toy_mbedtls toy_plains toy_sender = (s', Ret cs) /\
    linked s' r' /\
    forall frags, concat frags = concat cs ->
      @feed toy_mbedtls (r, []) frags = (toy_plains, (r', []), Ret tt).
Proof.
  apply (@tcp_session_roundtrip toy_mbedtls toy_mbedtls_laws (str "password") toy_rng
           (snd (fst toy_client)) toy_salt toy_sender toy_plains).
  - apply (ret_eta [] toy_client). vm_compute. reflexivity.
  - rewrite !Forall_cons, Forall_nil.
    split_and!; try exact I; apply Nat.leb_le; vm_compute; reflexivity.
Defined.

Lemma feed_fragmentation_witness :
  same_run (@feed toy_mbedtls (toy_server, []) [str "ab"; str "c"])
    (@drain_all toy_mbedtls (toy_server, str "abc")).
Proof.
  apply (@feed_fragmentation toy_mbedtls toy_mbedtls_laws toy_server [str "ab"; str "c"]).
Defined.

Lemma decrypt_tcp_chunk_effect_witness :
  @decrypt_tcp_chunk toy_mbedtls (toy_server, str "short") = ((toy_server, str "short"), Ret None) /\
  (toy_server = toy_server /\ str "short" = str "short").
Proof.
  split; [reflexivity|].
  exact (@decrypt_tcp_chunk_effect toy_mbedtls toy_mbedtls_laws toy_server (str "short")).
Defined.

Lemma encrypt_tcp_chunk_effect_witness :
  exists c,
    @encrypt_tcp_chunk toy_mbedtls (str "hello") toy_sender =
      (set_send_nonce (increment_nonce (increment_nonce (send_nonce_ toy_sender))) toy_sender,
       Ret c) /\
    length c = 39%nat.
Proof.
  apply (@encrypt_tcp_chunk_effect toy_mbedtls toy_mbedtls_laws toy_sender (str "hello")).
  repeat split; reflexivity.
Defined.

Definition toy_udp : (Session * @Csprng toy_mbedtls) * outcome bytes :=
  @encrypt_udp_packet toy_mbedtls (str "packet") (toy_server, toy_rng).
Definition toy_datagram : bytes := ret_value [] (snd toy_udp).

Lemma udp_packet_roundtrip_witness :
  length toy_datagram = 54%nat /\
  @decrypt_udp_packet toy_mbedtls toy_server toy_datagram = Ret (Some (str "packet")).
Proof.
  apply (@udp_packet_roundtrip toy_mbedtls toy_mbedtls_laws (str "password") toy_rng
           toy_server toy_server (str "packet") (fst (fst toy_udp)) (snd (fst toy_udp))).
  - reflexivity.
  - reflexivity.
  - apply (ret_eta [] toy_udp). vm_compute. reflexivity.
Defined.

Lemma decrypt_udp_packet_total_witness :
  exists res, @decrypt_udp_packet toy_mbedtls toy_server (str "junk") = Ret res /\
    forall p, res = Some p -> (4 = length p + SaltSize + TagSize)%nat.
Proof.
  exact (@decrypt_udp_packet_total toy_mbedtls toy_mbedtls_laws toy_server (str "junk")).
Defined.

Lemma master_key_reference_witness :
  factory_master_key_ toy_factory =
    Toy.md5 (str "password") ++ Toy.md5 (Toy.md5 (str "password") ++ str "password") /\
  session_wf toy_server /\ have_recv_key_ toy_server = false /\ sent_salt_ toy_server = false.
Proof. exact (@master_key_reference toy_mbedtls toy_mbedtls_laws (str "password")). Defined.

Definition toy_128 : Session * outcome (list bytes) :=
  @encrypt_chunks toy_mbedtls (replicate 128 (str "x")) toy_sender.

Lemma nonce_reuse_after_128_chunks_witness :
  fst toy_128 = toy_sender.
Proof.
  apply (@nonce_reuse_after_128_chunks toy_mbedtls toy_mbedtls_laws toy_sender
           (replicate 128 (str "x")) (fst toy_128)
           (match snd toy_128 with Ret cs => cs | _ => [] end)).
  - repeat split; reflexivity.
  - reflexivity.
  - reflexivity.
  - apply Forall_replicate, Nat.leb_le. vm_compute. reflexivity.
  - vm_compute. reflexivity.
Defined.
