(* ===== verification/Address.v ===== *)
(** * The Shadowsocks address codec

    [parse_ss_address] and [encode_ss_address] of [src/ShadowsocksAead.cpp],
    against the wire grammar of Shadowsocks addresses.  The text-to-address
    conversion of the encoder is [asio::ip::make_address_v4]/[_v6], which ends
    in the C library's [inet_pton]: an interface here. *)
From S2P Require Import Prelude Types Text Aead.

(** [make_address_v4(host, ec)] and [make_address_v6(host, ec)] with
    [to_bytes()]; [None] when [ec] is set. *)
Class MakeAddress := {
  make_address_v4 : bytes -> option bytes;
  make_address_v6 : bytes -> option bytes
}.

(** What [inet_pton] documents: dotted decimal and eight groups of four hex
    digits are read as the bytes they show, and results have the family's
    size. *)
Class MakeAddressLaws `{!MakeAddress} : Prop := {
  make_v4_dotted a b c d : make_address_v4 (dotted a b c d) = Some [a; b; c; d];
  make_v6_text bs : length bs = 16%nat -> make_address_v6 (v6_text bs) = Some bs;
  make_v4_length t bs : make_address_v4 t = Some bs -> length bs = 4%nat;
  make_v6_length t bs : make_address_v6 t = Some bs -> length bs = 16%nat
}.

(* ------------------------------------------------------------------ *)
(** ** [parse_ss_address]: the state is the caller's span *)

(** The common tail: the port, big endian. *)
Definition parse_port (t : AddressType) (h : bytes) : M bytes (option TargetAddress) :=
  v ← get;
  if (length v <? 2)%nat then mret None
  else
    two ← lift (span_first v 2);
    p ← lift (read_be16 two);
    rest ← lift (subspan v 2);
    _ ← put rest;
    mret (Some (mkTargetAddress t h p)).

Definition parse_ipv4 : M bytes (option TargetAddress) :=
  v ← get;
  if (length v <? 6)%nat then mret None
  else
    a ← lift (span_at v 0); b ← lift (span_at v 1);
    c ← lift (span_at v 2); d ← lift (span_at v 3);
    rest ← lift (subspan v 4);
    _ ← put rest;
    parse_port Ipv4 (dotted a b c d).

Definition parse_domain : M bytes (option TargetAddress) :=
  v ← get;
  if decide (v = []) then mret None
  else
    l ← lift (span_at v 0);
    let len := Z.to_nat (byte_to_Z l) in
    v1 ← lift (subspan v 1);
    _ ← put v1;
    if (length v1 <? len + 2)%nat then mret None
    else
      h ← lift (span_first v1 len);
      rest ← lift (subspan v1 len);
      _ ← put rest;
      parse_port Domain h.

Definition parse_ipv6 : M bytes (option TargetAddress) :=
  v ← get;
  if (length v <? 18)%nat then mret None
  else
    addr ← lift (span_first v 16);
    rest ← lift (subspan v 16);
    _ ← put rest;
    parse_port Ipv6 (v6_text addr).

Definition parse_ss_address : M bytes (option TargetAddress) :=
  v ← get;
  if decide (v = []) then mret None
  else
    b ← lift (span_at v 0);
    v1 ← lift (subspan v 1);
    _ ← put v1;
    match address_type_of_byte b with
    | Ipv4 => parse_ipv4
    | Domain => parse_domain
    | Ipv6 => parse_ipv6
    | AddrUnnamed _ => mret None
    end.

(** [encode_ss_address] *)
Definition encode_ss_address `{!MakeAddress} (target : TargetAddress) : outcome bytes :=
  let out := PacketBuffer.append [] [byte_of_address_type (ta_type target)] in
  body ← match ta_type target with
         | Domain =>
             if (255 <? length (host target))%nat then throw "domain too long"
             else Ret (PacketBuffer.append
                         (PacketBuffer.append out [byte_of_Z (Z.of_nat (length (host target)))])
                         (host target))
         | Ipv4 =>
             match make_address_v4 (host target) with
             | None => throw "invalid IPv4 address"
             | Some bs => Ret (PacketBuffer.append out bs)
             end
         | Ipv6 =>
             match make_address_v6 (host target) with
             | None => throw "invalid IPv6 address"
             | Some bs => Ret (PacketBuffer.append out bs)
             end
         | AddrUnnamed _ => throw "invalid Shadowsocks address type"
         end;
  Ret (append_be16 body (port target)).

(* ------------------------------------------------------------------ *)
(** ** The wire grammar *)

(** [ss_wire t w]: the bytes [w] are the address [t]. *)
Inductive ss_wire : TargetAddress -> bytes -> Prop :=
| wire_ipv4 a b c d hi lo :
    ss_wire (mkTargetAddress Ipv4 (dotted a b c d) (of_be16 hi lo)) [x01; a; b; c; d; hi; lo]
| wire_domain l h hi lo :
    length h = Z.to_nat (byte_to_Z l) ->
    ss_wire (mkTargetAddress Domain h (of_be16 hi lo)) (x03 :: l :: h ++ [hi; lo])
| wire_ipv6 bs hi lo :
    length bs = 16%nat ->
    ss_wire (mkTargetAddress Ipv6 (v6_text bs) (of_be16 hi lo)) (x04 :: bs ++ [hi; lo]).

Lemma parse_port_short t h v : (length v < 2)%nat -> parse_port t h v = (v, Ret None).
Proof.
  intros. unfold parse_port, mbind, M_bind, get, mret, M_ret.
  destruct (Nat.ltb_spec (length v) 2); [done|lia].
Qed.

Lemma parse_port_cons t h hi lo rest :
  parse_port t h (hi :: lo :: rest) =
  (rest, Ret (Some (mkTargetAddress t h (of_be16 hi lo)))).
Proof. unfold parse_port. mrun. by rewrite ?drop_0. Qed.

Lemma parse_ipv4_cons a b c d hi lo rest :
  parse_ipv4 (a :: b :: c :: d :: hi :: lo :: rest) =
  (rest, Ret (Some (mkTargetAddress Ipv4 (dotted a b c d) (of_be16 hi lo)))).
Proof.
  unfold parse_ipv4, mbind, M_bind, get, lift, put. cbn [length Nat.ltb Nat.leb span_at lookup].
  cbn. rewrite ?drop_0. apply parse_port_cons.
Qed.

Lemma parse_domain_app l h hi lo rest :
  length h = Z.to_nat (byte_to_Z l) ->
  parse_domain (l :: h ++ hi :: lo :: rest) =
  (rest, Ret (Some (mkTargetAddress Domain h (of_be16 hi lo)))).
Proof.
  intros Hl. unfold parse_domain, mbind, M_bind, get, lift, put. rewrite decide_False by done.
  cbn [span_at lookup list_lookup]. cbv zeta. rewrite subspan_le by (simpl; lia).
  cbn [drop]. rewrite ?drop_0, <- Hl.
  destruct (Nat.ltb_spec (length (h ++ hi :: lo :: rest)) (length h + 2)); [len|].
  rewrite span_first_le, subspan_le by len.
  rewrite take_app_length, drop_app_length. apply parse_port_cons.
Qed.

Lemma parse_ipv6_app bs hi lo rest :
  length bs = 16%nat ->
  parse_ipv6 (bs ++ hi :: lo :: rest) =
  (rest, Ret (Some (mkTargetAddress Ipv6 (v6_text bs) (of_be16 hi lo)))).
Proof.
  intros Hl. unfold parse_ipv6, mbind, M_bind, get, lift, put.
  destruct (Nat.ltb_spec (length (bs ++ hi :: lo :: rest)) 18); [len|].
  rewrite span_first_le, subspan_le by len. rewrite <- Hl.
  rewrite take_app_length, drop_app_length. apply parse_port_cons.
Qed.

(** Every address of the grammar is parsed, and nothing after it is touched. *)
Lemma parse_wire t w rest : ss_wire t w -> parse_ss_address (w ++ rest) = (rest, Ret (Some t)).
Proof.
  intros H. destruct H as [a b c d hi lo|l h hi lo Hl|bs hi lo Hl];
    unfold parse_ss_address, mbind, M_bind, get, lift, put;
    rewrite decide_False by done; cbn [span_at lookup list_lookup app];
    rewrite subspan_le by (simpl; lia); cbn [drop]; rewrite ?drop_0;
    cbn [address_type_of_byte byte_to_Z Z.eqb].
  - apply parse_ipv4_cons.
  - rewrite <- app_assoc. by apply parse_domain_app.
  - rewrite <- app_assoc. by apply parse_ipv6_app.
Qed.

(** Each branch either has all its bytes or answers [nullopt]. *)
Lemma parse_ipv4_cases v :
  (exists a b c d hi lo rest, v = a :: b :: c :: d :: hi :: lo :: rest) \/
  parse_ipv4 v = (v, Ret None).
Proof.
  destruct (Nat.ltb_spec (length v) 6) as [Hl|Hl].
  - right. unfold parse_ipv4, mbind, M_bind, get.
    destruct (Nat.ltb_spec (length v) 6); [done|lia].
  - left. do 6 (destruct v as [|? v]; [simpl in Hl; lia|]). eauto 10.
Qed.

Lemma parse_domain_cases v :
  (exists l h hi lo rest, v = l :: h ++ hi :: lo :: rest /\ length h = Z.to_nat (byte_to_Z l)) \/
  exists v', parse_domain v = (v', Ret None).
Proof.
  destruct v as [|l v]; [by right; exists []|].
  set (n := Z.to_nat (byte_to_Z l)).
  destruct (Nat.ltb_spec (length v) (n + 2)) as [Hl|Hl].
  - right. exists v. unfold parse_domain, mbind, M_bind, get, lift, put.
    rewrite decide_False by done. cbn [span_at lookup list_lookup]. cbv zeta.
    rewrite subspan_le by (simpl; lia). cbn [drop]. rewrite ?drop_0. fold n.
    destruct (Nat.ltb_spec (length v) (n + 2)); [done|lia].
  - left. destruct (drop n v) as [|hi [|lo rest]] eqn:E;
      [apply (f_equal length) in E; len..|].
    exists l, (take n v), hi, lo, rest. rewrite <- E, take_drop. split; [done|len].
Qed.

Lemma parse_ipv6_cases v :
  (exists bs hi lo rest, v = bs ++ hi :: lo :: rest /\ length bs = 16%nat) \/
  parse_ipv6 v = (v, Ret None).
Proof.
  destruct (Nat.ltb_spec (length v) 18) as [Hl|Hl].
  - right. unfold parse_ipv6, mbind, M_bind, get.
    destruct (Nat.ltb_spec (length v) 18); [done|lia].
  - left. destruct (drop 16 v) as [|hi [|lo rest]] eqn:E;
      [apply (f_equal length) in E; len..|].
    exists (take 16 v), hi, lo, rest. rewrite <- E, take_drop. split; [done|len].
Qed.

Lemma address_type_of_byte_named b :
  match address_type_of_byte b with
  | Ipv4 => b = x01 | Domain => b = x03 | Ipv6 => b = x04 | AddrUnnamed c => c = b
  end.
Proof. by destruct b. Qed.

(** The parser either finds an address of the grammar or answers [nullopt]. *)
Lemma parse_ss_address_cases v :
  (exists t w rest, ss_wire t w /\ v = w ++ rest) \/
  exists v', parse_ss_address v = (v', Ret None).
Proof.
  destruct v as [|b v]; [by right; exists []|].
  assert (parse_ss_address (b :: v) =
    match address_type_of_byte b with
    | Ipv4 => parse_ipv4 | Domain => parse_domain | Ipv6 => parse_ipv6
    | AddrUnnamed _ => mret None
    end v) as ->.
  { unfold parse_ss_address, mbind, M_bind, get, lift, put.
    rewrite decide_False by done. cbn [span_at lookup list_lookup].
    rewrite subspan_le by (simpl; lia). cbn [drop]. by rewrite ?drop_0. }
  pose proof (address_type_of_byte_named b) as Hb.
  destruct (address_type_of_byte b) as [| | |c]; [subst b..|by right; exists v].
  - destruct (parse_ipv4_cases v) as [(a & b' & c & d & hi & lo & rest & ->)| ->]; [left|eauto].
    eexists _, [_; _; _; _; _; _; _], rest. split; [constructor|done].
  - destruct (parse_domain_cases v) as [(l & h & hi & lo & rest & -> & Hl)|Hn]; [left|by right].
    exists (mkTargetAddress Domain h (of_be16 hi lo)), (x03 :: l :: h ++ [hi; lo]), rest.
    split; [by constructor|]. cbn [app]. by rewrite <- app_assoc.
  - destruct (parse_ipv6_cases v) as [(bs & hi & lo & rest & -> & Hl)| ->]; [left|eauto].
    exists (mkTargetAddress Ipv6 (v6_text bs) (of_be16 hi lo)), (x04 :: bs ++ [hi; lo]), rest.
    split; [by constructor|]. cbn [app]. by rewrite <- app_assoc.
Qed.

(** The grammar is prefix-free and determines the address. *)
Lemma ss_wire_unique t1 t2 w1 w2 r1 r2 :
  ss_wire t1 w1 -> ss_wire t2 w2 -> w1 ++ r1 = w2 ++ r2 -> t1 = t2 /\ w1 = w2 /\ r1 = r2.
Proof.
  intros H1 H2 E. pose proof (parse_wire _ _ r1 H1) as P1. rewrite E, (parse_wire _ _ r2 H2) in P1.
  injection P1 as -> ->. split; [done|]. split; [|done]. by apply app_inv_tail in E.
Qed.

(** The encoder writes the grammar's bytes. *)
Lemma encode_wire `{!MakeAddress, !MakeAddressLaws} t w :
  ss_wire t w -> encode_ss_address t = Ret w.
Proof.
  intros Hw. destruct Hw as [a b c d hi lo|l h hi lo Hl|bs hi lo Hl];
    unfold encode_ss_address, append_be16, PacketBuffer.append; cbn [ta_type host port].
  - rewrite make_v4_dotted. bstep. by rewrite be16_of_be16.
  - pose proof (byte_to_Z_range l).
    destruct (Nat.ltb_spec 255 (length h)); [lia|]. bstep.
    rewrite be16_of_be16, Hl, Z2Nat.id, byte_of_Z_to_Z by lia. done.
  - rewrite make_v6_text by done. bstep. by rewrite be16_of_be16.
Qed.

(** Whatever the encoder accepts is an address of the grammar, of the same
    type and port, and of the same host when that is a domain. *)
Lemma encode_inv `{!MakeAddress, !MakeAddressLaws} t w :
  0 <= port t < 65536 -> encode_ss_address t = Ret w ->
  exists t', ss_wire t' w /\ ta_type t' = ta_type t /\ port t' = port t /\
    (ta_type t = Domain -> t' = t).
Proof.
  intros Hp. destruct t as [ty h p]. cbn [port] in Hp.
  unfold encode_ss_address, append_be16, PacketBuffer.append. cbn [ta_type host port].
  destruct (be16 p) as [|hi [|lo [|]]] eqn:Ebe; try done.
  pose proof (of_be16_be16 _ _ _ Ebe) as Eport. rewrite u16_small in Eport by done.
  destruct ty as [| | |raw].
  - destruct (make_address_v4 h) as [bs|] eqn:E; [|done]. bstep. intros [= <-].
    pose proof (make_v4_length _ _ E) as Hl. do 4 (destruct bs as [|? bs]; [done|]).
    destruct bs; [|done]. eexists. split; [constructor|]. simpl. by rewrite Eport.
  - destruct (Nat.ltb_spec 255 (length h)); [done|]. bstep. intros [= <-].
    exists (mkTargetAddress Domain h p). split; [|done]. rewrite <- Eport. constructor.
    rewrite byte_to_Z_of_small; lia.
  - destruct (make_address_v6 h) as [bs|] eqn:E; [|done]. bstep. intros [= <-].
    pose proof (make_v6_length _ _ E) as Hl.
    exists (mkTargetAddress Ipv6 (v6_text bs) (of_be16 hi lo)). split; [by constructor|].
    simpl. by rewrite Eport.
  - done.
Qed.
