(* ===== verification/AddressSpec.v ===== *)
(** * What the address codec promises

    The parser is the wire grammar, the encoder its inverse.  [Pton] reads the
    two text forms the program produces and instantiates the interface to
    [make_address_v4]/[_v6]. *)
From S2P Require Import Prelude Types Text Aead Address.

(* ------------------------------------------------------------------ *)
(** ** A concrete [MakeAddress] *)
Module Pton.

Definition octet (f : bytes) : option byte :=
  if forallb is_digit f && negb (bool_decide (f = [])) && (length f <=? 3)%nat &&
     (dec_value f <? 256)
  then Some (byte_of_Z (dec_value f)) else None.

Definition pton4 (s : bytes) : option bytes :=
  match split_on (ch ".") s with
  | [a; b; c; d] => a ← octet a; b ← octet b; c ← octet c; d ← octet d; Some [a; b; c; d]
  | _ => None
  end.

Definition unhex (c : byte) : option Z :=
  let n := byte_to_Z c in
  if (48 <=? n) && (n <=? 57) then Some (n - 48)
  else if (97 <=? n) && (n <=? 102) then Some (n - 87) else None.

Definition unhex2 (x y : byte) : option byte :=
  h ← unhex x; l ← unhex y; Some (byte_of_Z (h * 16 + l)).

Fixpoint groups (s : bytes) : option bytes :=
  match s with
  | a :: b :: c :: d :: rest =>
      x ← unhex2 a b; y ← unhex2 c d;
      match rest with
      | [] => Some [x; y]
      | sep :: rest => if decide (sep = ch ":") then (fun t => x :: y :: t) <$> groups rest else None
      end
  | _ => None
  end.

Definition pton6 (s : bytes) : option bytes :=
  bs ← groups s; if decide (length bs = 16)%nat then Some bs else None.

Lemma unhex2_hex2 b :
  unhex2 (hex_digit (byte_to_Z b / 16)) (hex_digit (byte_to_Z b mod 16)) = Some b.
Proof. revert b. check_all_bytes. Qed.

Lemma octet_to_string b : octet (to_string (byte_to_Z b)) = Some b.
Proof. revert b. check_all_bytes. Qed.

Lemma dot_not_digit b : ch "." ∉ to_string (byte_to_Z b).
Proof.
  intros Hin. pose proof (byte_to_Z_range b).
  assert (forallb is_digit (to_string (byte_to_Z b)) = true) as Hall
    by (apply to_string_digits; lia).
  rewrite forallb_forall in Hall. apply list_elem_of_In, Hall in Hin. done.
Qed.

Lemma pton4_dotted a b c d : pton4 (dotted a b c d) = Some [a; b; c; d].
Proof.
  unfold pton4, dotted. change (str ".") with [ch "."]. cbn [app].
  rewrite !split_on_field, split_on_last by apply dot_not_digit.
  by rewrite !octet_to_string.
Qed.

Lemma groups_v6_text a b rest :
  groups (v6_text (a :: b :: rest)) =
  match rest with
  | [] => Some [a; b]
  | _ :: _ => (fun t => a :: b :: t) <$> groups (v6_text rest)
  end.
Proof.
  destruct rest as [|c rest]; [|rewrite v6_text_cons]; cbn [app hex2 v6_text groups str];
    by rewrite !unhex2_hex2.
Qed.

Lemma pton6_text bs : length bs = 16%nat -> pton6 (v6_text bs) = Some bs.
Proof.
  intros Hl. unfold pton6. do 16 (destruct bs as [|? bs]; [done|]). destruct bs; [|done].
  by rewrite !groups_v6_text.
Qed.

End Pton.

Definition pton_make_address : MakeAddress :=
  {| make_address_v4 := Pton.pton4; make_address_v6 := Pton.pton6 |}.

Lemma pton_make_address_laws : @MakeAddressLaws pton_make_address.
Proof.
  split; cbn.
  - apply Pton.pton4_dotted.
  - apply Pton.pton6_text.
  - intros t bs. unfold Pton.pton4.
    destruct (split_on _ t) as [|a [|b [|c [|d [|]]]]]; try done.
    destruct (Pton.octet a), (Pton.octet b), (Pton.octet c), (Pton.octet d); simpl; naive_solver.
  - intros t bs. unfold Pton.pton6. destruct (Pton.groups t) as [x|]; simpl; [|done].
    case_decide; naive_solver.
Qed.

(* ------------------------------------------------------------------ *)
(** ** The properties *)

(** C30.  [parse_ss_address] is the wire grammar: it never throws and never
    reads outside the span, it returns an address and the remaining bytes
    exactly when the input starts with that address' encoding, and [nullopt]
    otherwise. *)
Theorem parse_ss_address_grammar v :
  (exists v' o, parse_ss_address v = (v', Ret o)) /\
  forall t rest,
    parse_ss_address v = (rest, Ret (Some t)) <-> exists w, ss_wire t w /\ v = w ++ rest.
Proof.
  destruct (parse_ss_address_cases v) as [(t & w & rest & Hw & ->)|[v' Hn]].
  - rewrite (parse_wire t w rest Hw). split; [eauto|]. intros t' rest'. split.
    + intros [= <- <-]. eauto.
    + intros (w' & Hw' & E). destruct (ss_wire_unique _ _ _ _ _ _ Hw Hw' E) as (-> & _ & ->). done.
  - rewrite Hn. split; [eauto|]. intros t rest. split; [done|].
    intros (w & Hw & ->). by rewrite (parse_wire t w rest Hw) in Hn.
Qed.

Section Spec.
Context `{!MakeAddress, !MakeAddressLaws}.

(** Parsing loses nothing: encoding the parsed address gives back the
    bytes the parser consumed. *)
Theorem parse_then_encode v rest t :
  parse_ss_address v = (rest, Ret (Some t)) ->
  exists w, encode_ss_address t = Ret w /\ v = w ++ rest.
Proof.
  intros Hp. destruct (parse_ss_address_cases v) as [(t' & w & rest' & Hw & ->)|[v' Hn]].
  - rewrite (parse_wire _ _ _ Hw) in Hp. injection Hp as <- <-.
    exists w. split; [by apply encode_wire|done].
  - by rewrite Hn in Hp.
Qed.

(** C31.  What the encoder writes is parsed back, whatever follows it: the
    same type and port, the same host for a domain, and for an IP address the
    text form that encodes to the same bytes again. *)
Theorem encode_then_parse t w rest :
  0 <= port t < 65536 ->
  encode_ss_address t = Ret w ->
  exists t', parse_ss_address (w ++ rest) = (rest, Ret (Some t')) /\
    ta_type t' = ta_type t /\ port t' = port t /\ (ta_type t = Domain -> t' = t) /\
    encode_ss_address t' = Ret w.
Proof.
  intros Hp He. destruct (encode_inv t w Hp He) as (t' & Hw & Ht & Hport & Hd).
  exists t'. split; [by apply parse_wire|]. do 3 (split; [done|]). by apply encode_wire.
Qed.

End Spec.

Abbreviation sample_target := (mkTargetAddress Ipv4 (str "192.0.2.1") 53).
Abbreviation sample_wire := [x01; xc0; x00; x02; x01; x00; x35].

Lemma parse_then_encode_witness :
  exists w, @encode_ss_address pton_make_address sample_target = Ret w /\
    sample_wire ++ [xff] = w ++ [xff].
Proof.
  apply (@parse_then_encode pton_make_address pton_make_address_laws (sample_wire ++ [xff])).
  vm_compute. reflexivity.
Defined.

Lemma encode_then_parse_witness :
  exists t', parse_ss_address (sample_wire ++ [xff]) = ([xff], Ret (Some t')) /\
    ta_type t' = Ipv4 /\ port t' = 53 /\ (Ipv4 = Domain -> t' = sample_target) /\
    @encode_ss_address pton_make_address t' = Ret sample_wire.
Proof.
  apply (@encode_then_parse pton_make_address pton_make_address_laws sample_target sample_wire).
  - simpl. lia.
  - vm_compute. reflexivity.
Defined.
