(* ===== verification/Dns.v ===== *)
(** * The DNS codec of the lwIP runtime

    The query builder and response parser in the anonymous namespace of
    [src/LwipRuntime.cpp].  Offsets are [std::size_t] values that stay far
    below their range.  A loop that ran out of fuel would answer [Ub], so the
    theorem that no [Ub] occurs also shows termination. *)
From S2P Require Import Prelude Types Text.

Definition DnsPort : Z := 53.
Definition DnsTypeA : Z := 1.
Definition DnsTypeAaaa : Z := 28.
Definition DnsClassIn : Z := 1.

Definition append_u16 (out : bytes) (value : Z) : bytes :=
  (out ++ [byte_of_Z (Z.shiftr value 8)]) ++ [byte_of_Z (Z.land value 0xff)].

Definition read_u16 (v : bytes) (offset : nat) : outcome Z :=
  hi ← span_at v offset; lo ← span_at v (offset + 1); Ret (of_be16 hi lo).

Definition read_u32 (v : bytes) (offset : nat) : outcome Z :=
  hi ← read_u16 v offset; lo ← read_u16 v (offset + 2);
  Ret (Z.lor (Z.shiftl hi 16) lo).

(** [skip_dns_name(packet, offset)]: the new offset and the result. *)
Fixpoint skip_loop (fuel : nat) (v : bytes) (jumps offset : nat) : nat * outcome bool :=
  match fuel with
  | O => (offset, Ub)
  | S fuel =>
      if negb (offset <? length v)%nat then (offset, Ret false)
      else match span_at v offset with
           | Ret b =>
               let len := byte_to_Z b in
               if Z.land len 0xc0 =? 0xc0 then
                 if (length v <=? offset + 1)%nat then (offset, Ret false)
                 else ((offset + 2)%nat, Ret true)
               else if negb (Z.land len 0xc0 =? 0) then (offset, Ret false)
               else
                 let offset := (offset + 1)%nat in
                 if len =? 0 then (offset, Ret true)
                 else if (length v <? offset + Z.to_nat len)%nat then (offset, Ret false)
                 else if (255 <? jumps + 1)%nat then (offset, Ret false)
                 else skip_loop fuel v (jumps + 1) (offset + Z.to_nat len)
           | _ => (offset, Ub)
           end
  end.

Definition skip_dns_name (v : bytes) (offset : nat) : nat * outcome bool :=
  skip_loop (S (length v)) v 0 offset.

(** [host.find('.', start)] on the suffix at [start]: the label before the
    dot, and what follows the dot if there is one. *)
Fixpoint find_dot (s : bytes) : bytes * option bytes :=
  match s with
  | [] => ([], None)
  | c :: s =>
      if decide (c = ch ".") then ([], Some s)
      else let '(label, rest) := find_dot s in (c :: label, rest)
  end.

(** The label loop of [make_dns_query] on the suffix at [start]. *)
Fixpoint label_loop (fuel : nat) (out rest : bytes) : outcome bytes :=
  match fuel with
  | O => Ub
  | S fuel =>
      if decide (rest = []) then Ret out
      else
        let '(label, after) := find_dot rest in
        let len := length label in
        if (len =? 0)%nat || (63 <? len)%nat then throw "invalid DNS label"
        else
          let out := (out ++ [byte_of_Z (Z.of_nat len)]) ++ label in
          match after with
          | None => Ret out
          | Some rest' => label_loop fuel out rest'
          end
  end.

Definition make_dns_query (id : Z) (host : bytes) (qtype : Z) : outcome bytes :=
  let out := append_u16 [] id in
  let out := append_u16 out 0x0100 in
  let out := append_u16 out 1 in
  let out := append_u16 out 0 in
  let out := append_u16 out 0 in
  let out := append_u16 out 0 in
  out ← label_loop (S (length host)) out host;
  Ret (append_u16 (append_u16 (out ++ [x00]) qtype) DnsClassIn).

(** The question loop: [None] for [return std::nullopt]. *)
Fixpoint skip_questions (count : nat) (v : bytes) (offset : nat) : outcome (option nat) :=
  match count with
  | O => Ret (Some offset)
  | S count =>
      match skip_dns_name v offset with
      | (offset, Ret true) =>
          if (length v <? offset + 4)%nat then Ret None
          else skip_questions count v (offset + 4)
      | (_, Ret false) => Ret None
      | (_, Exn e) => Exn e
      | (_, Ub) => Ub
      end
  end.

(** [IP_ADDR4] and [IP_ADDR6]; the latter stores its words as they are. *)
Definition IP_ADDR4 (a b c d : byte) : ip_addr_t := IP4 (lwip_htonl (LWIP_MAKEU32 a b c d)).
Definition IP_ADDR6 (i0 i1 i2 i3 : Z) : ip_addr_t := IP6 i0 i1 i2 i3.

(** The body for one matching record; [None] when the loop goes on. *)
Definition record_address (v : bytes) (offset : nat) (type rdlen : Z)
  : outcome (option ip_addr_t) :=
  if (type =? DnsTypeA) && (rdlen =? 4) then
    a ← span_at v offset; b ← span_at v (offset + 1);
    c ← span_at v (offset + 2); d ← span_at v (offset + 3);
    Ret (Some (IP_ADDR4 a b c d))
  else if (type =? DnsTypeAaaa) && (rdlen =? 16) then
    w0 ← read_u32 v offset; w1 ← read_u32 v (offset + 4);
    w2 ← read_u32 v (offset + 8); w3 ← read_u32 v (offset + 12);
    Ret (Some (IP_ADDR6 w0 w1 w2 w3))
  else Ret None.

Fixpoint scan_answers (count : nat) (v : bytes) (qtype : Z) (offset : nat)
  : outcome (option ip_addr_t) :=
  match count with
  | O => Ret None
  | S count =>
      match skip_dns_name v offset with
      | (offset, Ret true) =>
          if (length v <? offset + 10)%nat then Ret None
          else
            type ← read_u16 v offset;
            klass ← read_u16 v (offset + 2);
            rdlen ← read_u16 v (offset + 8);
            let offset := (offset + 10)%nat in
            if (length v <? offset + Z.to_nat rdlen)%nat then Ret None
            else
              found ← (if (klass =? DnsClassIn) && (type =? qtype)
                       then record_address v offset type rdlen else Ret None);
              match found with
              | Some ip => Ret (Some ip)
              | None => scan_answers count v qtype (offset + Z.to_nat rdlen)
              end
      | (_, Ret false) => Ret None
      | (_, Exn e) => Exn e
      | (_, Ub) => Ub
      end
  end.

Definition parse_dns_response (packet : bytes) (id qtype : Z) : outcome (option ip_addr_t) :=
  if (length packet <? 12)%nat then Ret None
  else
    pid ← read_u16 packet 0;
    if negb (pid =? id) then Ret None
    else
      flags ← read_u16 packet 2;
      if (Z.land flags 0x8000 =? 0) || negb (Z.land flags 0x000f =? 0) then Ret None
      else
        qdcount ← read_u16 packet 4;
        ancount ← read_u16 packet 6;
        q ← skip_questions (Z.to_nat qdcount) packet 12;
        match q with
        | None => Ret None
        | Some offset => scan_answers (Z.to_nat ancount) packet qtype offset
        end.
