(* ===== verification/DnsFacts.v ===== *)
(** * Correctness of the DNS codec *)
From S2P Require Import Prelude Types Text Dns.

(* ------------------------------------------------------------------ *)
(** ** Reads inside the packet *)

Lemma read_u16_in v off :
  (off + 1 < length v)%nat -> exists z, read_u16 v off = Ret z /\ 0 <= z < 65536.
Proof.
  intros H. unfold read_u16. destruct (span_at_lt v off) as [hi ->]; [lia|].
  destruct (span_at_lt v (off + 1)) as [lo ->]; [lia|]. bstep.
  eexists. split; [done|apply of_be16_range].
Qed.

Lemma read_u32_in v off : (off + 3 < length v)%nat -> exists z, read_u32 v off = Ret z.
Proof.
  intros H. unfold read_u32. destruct (read_u16_in v off) as (hi & -> & _); [lia|].
  destruct (read_u16_in v (off + 2)) as (lo & -> & _); [lia|]. by eexists.
Qed.

Lemma skip_loop_total fuel v j off :
  (length v < off + fuel)%nat -> (0 < fuel)%nat ->
  exists off' b, skip_loop fuel v j off = (off', Ret b) /\
    (b = true -> off < off' <= length v)%nat.
Proof.
  revert j off. induction fuel as [|fuel IH]; intros j off Hf Hpos; [lia|]. cbn [skip_loop].
  destruct (Nat.ltb_spec off (length v)) as [Hlt|]; cbn [negb]; [|by eexists _, _].
  destruct (span_at_lt v off Hlt) as [b ->]. cbv zeta. pose proof (byte_to_Z_range b).
  destruct (_ =? 0xc0).
  { destruct (Nat.leb_spec (length v) (off + 1)); eexists _, _; (split; [done|]); [done|lia]. }
  destruct (_ =? 0); cbn [negb]; [|by eexists _, _].
  destruct (Z.eqb_spec (byte_to_Z b) 0); [eexists _, _; split; [done|lia]|].
  destruct (Nat.ltb_spec (length v) (off + 1 + Z.to_nat (byte_to_Z b))); [by eexists _, _|].
  destruct (Nat.ltb_spec 255 (j + 1)); [by eexists _, _|].
  destruct (IH (j + 1)%nat (off + 1 + Z.to_nat (byte_to_Z b))%nat) as (off' & r & -> & Hr);
    [lia|lia|].
  eexists _, _. split; [done|]. intros E. specialize (Hr E). lia.
Qed.

Lemma skip_dns_name_total v off :
  exists off' b, skip_dns_name v off = (off', Ret b) /\ (b = true -> off < off' <= length v)%nat.
Proof. apply skip_loop_total; lia. Qed.

Lemma skip_questions_total n v off :
  exists r, skip_questions n v off = Ret r.
Proof.
  revert off. induction n as [|n IH]; intros off; cbn [skip_questions]; [by eexists|].
  destruct (skip_dns_name_total v off) as (off' & b & -> & _).
  destruct b; [|by eexists]. case_match; [by eexists|apply IH].
Qed.

Lemma record_address_total v off type rdlen :
  (off + Z.to_nat rdlen <= length v)%nat -> exists r, record_address v off type rdlen = Ret r.
Proof.
  intros Hl. unfold record_address.
  destruct ((type =? DnsTypeA) && (rdlen =? 4)) eqn:E1.
  { apply andb_true_iff in E1 as [_ ->%Z.eqb_eq].
    destruct (span_at_lt v off) as [a ->]; [lia|].
    destruct (span_at_lt v (off + 1)) as [b ->]; [lia|].
    destruct (span_at_lt v (off + 2)) as [c ->]; [lia|].
    destruct (span_at_lt v (off + 3)) as [d ->]; [lia|]. by eexists. }
  destruct ((type =? DnsTypeAaaa) && (rdlen =? 16)) eqn:E2; [|by eexists].
  apply andb_true_iff in E2 as [_ ->%Z.eqb_eq].
  destruct (read_u32_in v off) as [w0 ->]; [lia|].
  destruct (read_u32_in v (off + 4)) as [w1 ->]; [lia|].
  destruct (read_u32_in v (off + 8)) as [w2 ->]; [lia|].
  destruct (read_u32_in v (off + 12)) as [w3 ->]; [lia|]. by eexists.
Qed.

Lemma scan_answers_total n v qtype off : exists r, scan_answers n v qtype off = Ret r.
Proof.
  revert off. induction n as [|n IH]; intros off; cbn [scan_answers]; [by eexists|].
  destruct (skip_dns_name_total v off) as (off' & b & -> & _).
  destruct b; [|by eexists].
  destruct (Nat.ltb_spec (length v) (off' + 10)); [by eexists|].
  destruct (read_u16_in v off') as (ty & -> & _); [lia|].
  destruct (read_u16_in v (off' + 2)) as (kl & -> & _); [lia|].
  destruct (read_u16_in v (off' + 8)) as (rd & -> & Hrd); [lia|]. bstep. cbv zeta.
  destruct (Nat.ltb_spec (length v) (off' + 10 + Z.to_nat rd)); [by eexists|].
  assert (exists r, (if (kl =? DnsClassIn) && (ty =? qtype)
                     then record_address v (off' + 10) ty rd else Ret None) = Ret r) as [r ->].
  { case_match; [by apply record_address_total|by eexists]. }
  bstep. destruct r; [by eexists|apply IH].
Qed.

Lemma parse_dns_response_total v id qtype : exists r, parse_dns_response v id qtype = Ret r.
Proof.
  unfold parse_dns_response. destruct (Nat.ltb_spec (length v) 12); [by eexists|].
  destruct (read_u16_in v 0) as (pid & -> & _); [lia|]. bstep.
  destruct (negb _); [by eexists|].
  destruct (read_u16_in v 2) as (fl & -> & _); [lia|]. bstep.
  destruct (_ || _); [by eexists|].
  destruct (read_u16_in v 4) as (qd & -> & _); [lia|]. bstep.
  destruct (read_u16_in v 6) as (an & -> & _); [lia|]. bstep.
  destruct (skip_questions_total (Z.to_nat qd) v 12) as [[off|] ->]; bstep; [|by eexists].
  apply scan_answers_total.
Qed.

(* ------------------------------------------------------------------ *)
(** ** Names on the wire *)

(** [dns_name k w]: the bytes [w] are a name of [k] labels, ended by the root
    label or by a compression pointer. *)
Inductive dns_name : nat -> bytes -> Prop :=
| name_root : dns_name 0 [x00]
| name_pointer hi lo : 192 <= byte_to_Z hi -> dns_name 0 [hi; lo]
| name_label l lab k w :
    1 <= byte_to_Z l <= 63 -> length lab = Z.to_nat (byte_to_Z l) ->
    dns_name k w -> dns_name (S k) (l :: lab ++ w).

Lemma land_pointer b : 192 <= byte_to_Z b -> (Z.land (byte_to_Z b) 0xc0 =? 0xc0) = true.
Proof. revert b. check_all_bytes. Qed.

Lemma land_label b : byte_to_Z b <= 63 ->
  (Z.land (byte_to_Z b) 0xc0 =? 0xc0) = false /\ (Z.land (byte_to_Z b) 0xc0 =? 0) = true.
Proof. revert b. check_all_bytes. Qed.

Lemma lookup_mid {A} (pre : list A) x post : (pre ++ x :: post) !! length pre = Some x.
Proof. by rewrite lookup_app_r, Nat.sub_diag by lia. Qed.

Lemma span_at_mid pre x post : span_at (pre ++ x :: post) (length pre) = Ret x.
Proof. apply span_at_Ret, lookup_mid. Qed.

(** Skipping a name moves the offset just past it. *)
Lemma skip_loop_name k w :
  dns_name k w -> forall fuel pre post j,
  (j + k <= 255)%nat -> (k < fuel)%nat ->
  skip_loop fuel (pre ++ w ++ post) j (length pre) = ((length pre + length w)%nat, Ret true).
Proof.
  induction 1 as [|hi lo Hhi|l lab k w Hl Hlab Hw IH]; intros fuel pre post j Hj Hf;
    (destruct fuel as [|fuel]; [lia|]); cbn [skip_loop app];
    (match goal with |- context [(length pre <? ?n)%nat] =>
       destruct (Nat.ltb_spec (length pre) n) as [_|]; [|len] end);
    cbn [negb]; rewrite span_at_mid; cbv zeta.
  - done.
  - rewrite land_pointer by done.
    destruct (Nat.leb_spec (length (pre ++ hi :: lo :: post)) (length pre + 1)); [len|done].
  - destruct (land_label l) as [-> ->]; [lia|]. cbn [negb].
    destruct (Z.eqb_spec (byte_to_Z l) 0); [lia|]. rewrite <- Hlab.
    destruct (Nat.ltb_spec (length (pre ++ l :: (lab ++ w) ++ post)) (length pre + 1 + length lab));
      [len|].
    destruct (Nat.ltb_spec 255 (j + 1)); [lia|].
    replace (pre ++ l :: (lab ++ w) ++ post) with ((pre ++ l :: lab) ++ w ++ post)
      by (rewrite <- !app_assoc; done).
    replace (length pre + 1 + length lab)%nat with (length (pre ++ l :: lab)) by len.
    rewrite IH by lia. f_equal. len.
Qed.

Lemma dns_name_length k w : dns_name k w -> (k < length w)%nat.
Proof. induction 1; simpl; rewrite ?length_app; lia. Qed.

Lemma skip_dns_name_at k w pre post :
  dns_name k w -> (k <= 255)%nat ->
  skip_dns_name (pre ++ w ++ post) (length pre) = ((length pre + length w)%nat, Ret true).
Proof.
  intros Hw Hk. unfold skip_dns_name. apply (skip_loop_name k); [done|lia|].
  pose proof (dns_name_length k w Hw). len.
Qed.

(* ------------------------------------------------------------------ *)
(** ** Resource records *)

Record rr := mkRr {
  rr_name : bytes; rr_type : Z; rr_class : Z; rr_ttl : bytes; rr_data : bytes
}.

Definition rr_wire (r : rr) : bytes :=
  rr_name r ++ be16 (rr_type r) ++ be16 (rr_class r) ++ rr_ttl r ++
  be16 (Z.of_nat (length (rr_data r))) ++ rr_data r.

Definition name_ok (w : bytes) : Prop := exists k, dns_name k w /\ (k <= 255)%nat.

Definition rr_ok (r : rr) : Prop :=
  name_ok (rr_name r) /\ 0 <= rr_type r < 65536 /\ 0 <= rr_class r < 65536 /\
  length (rr_ttl r) = 4%nat /\ Z.of_nat (length (rr_data r)) < 65536.

(** The record answers a question of type [qtype]. *)
Definition rr_answers (qtype : Z) (r : rr) : bool :=
  (rr_class r =? DnsClassIn) && (rr_type r =? qtype) &&
  (((rr_type r =? DnsTypeA) && (length (rr_data r) =? 4)%nat) ||
   ((rr_type r =? DnsTypeAaaa) && (length (rr_data r) =? 16)%nat)).

(** The address the code makes of the record's data. *)
Definition data_address (data : bytes) : option ip_addr_t :=
  match data with
  | [a; b; c; d] => Some (IP_ADDR4 a b c d)
  | [a0; a1; a2; a3; b0; b1; b2; b3; c0; c1; c2; c3; d0; d1; d2; d3] =>
      Some (IP_ADDR6 (LWIP_MAKEU32 a0 a1 a2 a3) (LWIP_MAKEU32 b0 b1 b2 b3)
                     (LWIP_MAKEU32 c0 c1 c2 c3) (LWIP_MAKEU32 d0 d1 d2 d3))
  | _ => None
  end.

Lemma read_u16_at v off pre z post :
  v = pre ++ be16 z ++ post -> off = length pre -> 0 <= z < 65536 -> read_u16 v off = Ret z.
Proof.
  intros -> -> Hz. unfold read_u16. destruct (be16 z) as [|hi [|lo [|]]] eqn:E; try done.
  cbn [app]. rewrite span_at_mid. bstep.
  replace (pre ++ hi :: lo :: post) with ((pre ++ [hi]) ++ lo :: post)
    by (by rewrite <- app_assoc).
  replace (length pre + 1)%nat with (length (pre ++ [hi])) by len. rewrite span_at_mid. bstep.
  by rewrite (of_be16_be16 z), u16_small.
Qed.

Lemma span_at_off v off pre x post :
  v = pre ++ x :: post -> off = length pre -> span_at v off = Ret x.
Proof. intros -> ->. apply span_at_mid. Qed.

Lemma read_u32_at v off pre a b c d post :
  v = pre ++ a :: b :: c :: d :: post -> off = length pre ->
  read_u32 v off = Ret (LWIP_MAKEU32 a b c d).
Proof.
  intros -> ->. unfold read_u32.
  assert (forall x y, 0 <= of_be16 x y < 65536) as Hr by apply of_be16_range.
  rewrite (read_u16_at _ (length pre) pre (of_be16 a b) (c :: d :: post))
    by (rewrite ?be16_of_be16; done).
  rewrite (read_u16_at _ _ (pre ++ [a; b]) (of_be16 c d) post)
    by (rewrite ?be16_of_be16, <- ?app_assoc; done || len).
  bstep. f_equal. rewrite lor_shiftl_add by (try apply Hr; lia).
  rewrite !of_be16_sum. unfold LWIP_MAKEU32. lia.
Qed.

Lemma record_address_at pre data post ty :
  record_address (pre ++ data ++ post) (length pre) ty (Z.of_nat (length data)) =
  if ((ty =? DnsTypeA) && (length data =? 4)%nat) ||
     ((ty =? DnsTypeAaaa) && (length data =? 16)%nat)
  then Ret (data_address data) else Ret None.
Proof.
  unfold record_address.
  assert (forall n : nat, (Z.of_nat (length data) =? Z.of_nat n) = (length data =? n)%nat) as Hn.
  { intros n. destruct (Nat.eqb_spec (length data) n); [apply Z.eqb_eq|apply Z.eqb_neq]; lia. }
  rewrite (Hn 4%nat : (_ =? 4) = _), (Hn 16%nat : (_ =? 16) = _).
  destruct ((ty =? DnsTypeA) && (length data =? 4)%nat) eqn:E1; cbn [orb].
  { apply andb_true_iff in E1 as [_ E1%Nat.eqb_eq].
    destruct data as [|a [|b [|c [|d [|]]]]]; try done. cbn [app].
    rewrite (span_at_off _ (length pre) pre a (b :: c :: d :: post)),
      (span_at_off _ (length pre + 1) (pre ++ [a]) b (c :: d :: post)),
      (span_at_off _ (length pre + 2) (pre ++ [a; b]) c (d :: post)),
      (span_at_off _ (length pre + 3) (pre ++ [a; b; c]) d post)
      by (rewrite <- ?app_assoc; first [done | len]). done. }
  destruct ((ty =? DnsTypeAaaa) && (length data =? 16)%nat) eqn:E2; [|done].
  apply andb_true_iff in E2 as [_ E2%Nat.eqb_eq].
  destruct data as [|a0 [|a1 [|a2 [|a3 [|b0 [|b1 [|b2 [|b3 [|c0 [|c1 [|c2 [|c3 [|d0 [|d1 [|d2
    [|d3 [|]]]]]]]]]]]]]]]]]; try done. cbn [app].
  rewrite
    (read_u32_at _ (length pre) pre a0 a1 a2 a3
       (b0 :: b1 :: b2 :: b3 :: c0 :: c1 :: c2 :: c3 :: d0 :: d1 :: d2 :: d3 :: post)),
    (read_u32_at _ (length pre + 4) (pre ++ [a0; a1; a2; a3]) b0 b1 b2 b3
       (c0 :: c1 :: c2 :: c3 :: d0 :: d1 :: d2 :: d3 :: post)),
    (read_u32_at _ (length pre + 8) (pre ++ [a0; a1; a2; a3; b0; b1; b2; b3]) c0 c1 c2 c3
       (d0 :: d1 :: d2 :: d3 :: post)),
    (read_u32_at _ (length pre + 12)
       (pre ++ [a0; a1; a2; a3; b0; b1; b2; b3; c0; c1; c2; c3]) d0 d1 d2 d3 post)
    by (rewrite <- ?app_assoc; first [done | len]). done.
Qed.

Lemma data_address_Some data ty :
  ((ty =? DnsTypeA) && (length data =? 4)%nat) ||
  ((ty =? DnsTypeAaaa) && (length data =? 16)%nat) = true ->
  exists ip, data_address data = Some ip.
Proof.
  rewrite orb_true_iff, !andb_true_iff, !Nat.eqb_eq. intros [[_ Hl]|[_ Hl]].
  - destruct data as [|a [|b [|c [|d [|]]]]]; try done. by eexists.
  - destruct data as [|a0 [|a1 [|a2 [|a3 [|b0 [|b1 [|b2 [|b3 [|c0 [|c1 [|c2 [|c3 [|d0 [|d1 [|d2
      [|d3 [|]]]]]]]]]]]]]]]]]; try done. by eexists.
Qed.

(** The address [ip] that stands for the data of a record, by its bytes in
    lwIP's memory, which are those that go on the wire.  For an A record they
    are the data; for an AAAA record the code turns each word of the data
    around, because [IP_ADDR6] takes words in network order and [read_u32]
    gives them in host order. *)
Fixpoint words_reversed (data : bytes) : bytes :=
  match data with
  | a :: b :: c :: d :: rest => d :: c :: b :: a :: words_reversed rest
  | _ => data
  end.
Definition carries (qtype : Z) (data : bytes) (ip : ip_addr_t) : Prop :=
  IP_IS_V6 ip = (qtype =? DnsTypeAaaa) /\
  ip_network_bytes ip = if qtype =? DnsTypeAaaa then words_reversed data else data.

Lemma data_address_carries qtype data ip :
  qtype = DnsTypeA /\ length data = 4%nat \/ qtype = DnsTypeAaaa /\ length data = 16%nat ->
  data_address data = Some ip -> carries qtype data ip.
Proof.
  intros [[-> Hl]|[-> Hl]].
  - destruct data as [|a [|b [|c [|d [|]]]]]; try done. intros [= <-]. split; [done|].
    unfold IP_ADDR4. rewrite htonl_MAKEU32. cbn. by rewrite le32_of_le32.
  - destruct data as [|a0 [|a1 [|a2 [|a3 [|b0 [|b1 [|b2 [|b3 [|c0 [|c1 [|c2 [|c3 [|d0 [|d1 [|d2
      [|d3 [|]]]]]]]]]]]]]]]]]; try done. intros [= <-]. split; [done|].
    unfold IP_ADDR6. rewrite !MAKEU32_rev. cbn [ip_network_bytes]. by rewrite !le32_of_le32.
Qed.

(** One record: its address if it answers, else the scan goes on behind it. *)
Lemma scan_record n r pre post qtype :
  rr_ok r -> qtype = DnsTypeA \/ qtype = DnsTypeAaaa ->
  scan_answers (S n) (pre ++ rr_wire r ++ post) qtype (length pre) =
  if rr_answers qtype r then Ret (data_address (rr_data r))
  else scan_answers n (pre ++ rr_wire r ++ post) qtype (length (pre ++ rr_wire r)).
Proof.
  intros ((k & Hname & Hk) & Hty & Hcl & Httl & Hdata) Hq.
  destruct r as [nm ty cl ttl data]. unfold rr_wire. cbn [rr_name rr_type rr_class rr_ttl rr_data] in *.
  set (rd := Z.of_nat (length data)) in *.
  set (v := pre ++ _ ++ post).
  assert (v = pre ++ nm ++ be16 ty ++ be16 cl ++ ttl ++ be16 rd ++ data ++ post) as Ev
    by (unfold v; by rewrite <- !app_assoc).
  set (off := (length pre + length nm)%nat).
  cbn [scan_answers].
  assert (skip_dns_name v (length pre) = (off, Ret true)) as -> by (rewrite Ev; by eapply skip_dns_name_at).
  destruct (Nat.ltb_spec (length v) (off + 10)); [rewrite Ev in *; unfold off in *; len|].
  rewrite (read_u16_at v off (pre ++ nm) ty (be16 cl ++ ttl ++ be16 rd ++ data ++ post)),
    (read_u16_at v (off + 2) (pre ++ nm ++ be16 ty) cl (ttl ++ be16 rd ++ data ++ post)),
    (read_u16_at v (off + 8) (pre ++ nm ++ be16 ty ++ be16 cl ++ ttl) rd (data ++ post))
    by (rewrite ?Ev, <- ?app_assoc; unfold off, rd; first [done | len | lia]).
  bstep. cbv zeta.
  destruct (Nat.ltb_spec (length v) (off + 10 + Z.to_nat rd));
    [rewrite Ev in *; unfold off, rd in *; len|].
  replace (off + 10)%nat with (length (pre ++ nm ++ be16 ty ++ be16 cl ++ ttl ++ be16 rd))
    by (unfold off; len).
  assert (record_address v (length (pre ++ nm ++ be16 ty ++ be16 cl ++ ttl ++ be16 rd)) ty rd =
    if ((ty =? DnsTypeA) && (length data =? 4)%nat) ||
       ((ty =? DnsTypeAaaa) && (length data =? 16)%nat)
    then Ret (data_address data) else Ret None) as ->.
  { rewrite <- (record_address_at (pre ++ nm ++ be16 ty ++ be16 cl ++ ttl ++ be16 rd) data post ty).
    by rewrite Ev, <- !app_assoc. }
  unfold rr_answers. cbn [rr_class rr_type rr_data].
  replace (length (pre ++ nm ++ be16 ty ++ be16 cl ++ ttl ++ be16 rd) + Z.to_nat rd)%nat with
    (length (pre ++ nm ++ be16 ty ++ be16 cl ++ ttl ++ be16 rd ++ data)) by (unfold rd; len).
  destruct ((cl =? DnsClassIn) && (ty =? qtype)); cbn [andb]; [|done].
  destruct (_ || _) eqn:E; bstep; [|done]. by destruct (data_address_Some data ty E) as [ip ->].
Qed.

Definition rrs_wire (rs : list rr) : bytes := concat (rr_wire <$> rs).

Lemma rrs_wire_cons r rs : rrs_wire (r :: rs) = rr_wire r ++ rrs_wire rs.
Proof. done. Qed.

(** The first record that answers decides. *)
Lemma scan_records rs n pre post qtype :
  Forall rr_ok rs -> qtype = DnsTypeA \/ qtype = DnsTypeAaaa ->
  scan_answers (length rs + n) (pre ++ rrs_wire rs ++ post) qtype (length pre) =
  match List.find (rr_answers qtype) rs with
  | Some r => Ret (data_address (rr_data r))
  | None => scan_answers n (pre ++ rrs_wire rs ++ post) qtype (length (pre ++ rrs_wire rs))
  end.
Proof.
  intros Hall Hq. revert pre. induction Hall as [|r rs Hr Hall IH]; intros pre.
  { cbn. by rewrite app_nil_r. }
  cbn [length List.find Nat.add]. rewrite rrs_wire_cons, <- app_assoc, scan_record by done.
  destruct (rr_answers qtype r); [done|].
  replace (pre ++ rr_wire r ++ rrs_wire rs ++ post)
    with ((pre ++ rr_wire r) ++ rrs_wire rs ++ post) by (by rewrite <- app_assoc).
  rewrite IH. by rewrite (app_assoc pre).
Qed.

(** Questions: a name and four bytes of type and class. *)
Definition question_ok (q : bytes * bytes) : Prop := name_ok (fst q) /\ length (snd q) = 4%nat.
Definition questions_wire (qs : list (bytes * bytes)) : bytes :=
  concat ((fun q => fst q ++ snd q) <$> qs).

Lemma questions_wire_cons q qs :
  questions_wire (q :: qs) = (fst q ++ snd q) ++ questions_wire qs.
Proof. done. Qed.

Lemma skip_questions_at qs pre post :
  Forall question_ok qs ->
  skip_questions (length qs) (pre ++ questions_wire qs ++ post) (length pre) =
  Ret (Some (length (pre ++ questions_wire qs))).
Proof.
  intros Hall. revert pre. induction Hall as [|[nm tail] qs Hq Hall IH]; intros pre.
  { cbn. by rewrite app_nil_r. }
  destruct Hq as [(k & Hname & Hk) Htail]. cbn [fst snd] in *.
  cbn [length skip_questions]. rewrite questions_wire_cons. cbn [fst snd].
  rewrite <- !app_assoc, (skip_dns_name_at k) by done.
  destruct (Nat.ltb_spec (length (pre ++ nm ++ tail ++ questions_wire qs ++ post))
              (length pre + length nm + 4)); [len|].
  replace (length pre + length nm + 4)%nat with (length (pre ++ nm ++ tail)) by len.
  replace (pre ++ nm ++ tail ++ questions_wire qs ++ post)
    with ((pre ++ nm ++ tail) ++ questions_wire qs ++ post) by (by rewrite <- !app_assoc).
  rewrite IH. by rewrite <- !app_assoc.
Qed.

(** A DNS message; [counts] are the authority and additional counts. *)
Definition dns_message (id flags : Z) (counts : bytes) (qs : list (bytes * bytes))
    (rs : list rr) (tail : bytes) : bytes :=
  be16 id ++ be16 flags ++ be16 (Z.of_nat (length qs)) ++ be16 (Z.of_nat (length rs)) ++
  counts ++ questions_wire qs ++ rrs_wire rs ++ tail.

(** A response without an error code. *)
Definition flags_ok (flags : Z) : bool :=
  negb (Z.land flags 0x8000 =? 0) && (Z.land flags 0x000f =? 0).

Lemma parse_dns_message id flags counts qs rs tail qtype :
  0 <= id < 65536 -> 0 <= flags < 65536 -> length counts = 4%nat ->
  Z.of_nat (length qs) < 65536 -> Z.of_nat (length rs) < 65536 ->
  Forall question_ok qs -> Forall rr_ok rs -> qtype = DnsTypeA \/ qtype = DnsTypeAaaa ->
  parse_dns_response (dns_message id flags counts qs rs tail) id qtype =
  Ret (if flags_ok flags
       then r ← List.find (rr_answers qtype) rs; data_address (rr_data r) else None).
Proof.
  intros Hid Hfl Hc Hqs Hrs Hqok Hrok Hq.
  set (v := dns_message id flags counts qs rs tail).
  set (h := be16 id ++ be16 flags ++ be16 (Z.of_nat (length qs)) ++
            be16 (Z.of_nat (length rs)) ++ counts).
  assert (v = h ++ questions_wire qs ++ rrs_wire rs ++ tail) as Ev
    by (unfold v, h, dns_message; by rewrite <- !app_assoc).
  assert (length h = 12%nat) as Hh by (unfold h; len).
  unfold parse_dns_response.
  destruct (Nat.ltb_spec (length v) 12); [rewrite Ev in *; len|].
  set (z1 := be16 id) in *. set (z2 := be16 flags) in *.
  set (z3 := be16 (Z.of_nat (length qs))) in *. set (z4 := be16 (Z.of_nat (length rs))) in *.
  rewrite (read_u16_at v 0 [] id (z2 ++ z3 ++ z4 ++ counts ++ questions_wire qs ++ rrs_wire rs ++ tail)),
    (read_u16_at v 2 z1 flags (z3 ++ z4 ++ counts ++ questions_wire qs ++ rrs_wire rs ++ tail)),
    (read_u16_at v 4 (z1 ++ z2) (Z.of_nat (length qs)) (z4 ++ counts ++ questions_wire qs ++ rrs_wire rs ++ tail)),
    (read_u16_at v 6 (z1 ++ z2 ++ z3) (Z.of_nat (length rs)) (counts ++ questions_wire qs ++ rrs_wire rs ++ tail))
    by (first [done | lia | by rewrite <- ?app_assoc]).
  bstep. rewrite Z.eqb_refl. cbn [negb].
  unfold flags_ok. destruct (Z.land flags 32768 =? 0); cbn [orb negb andb]; [done|].
  destruct (Z.land flags 15 =? 0); cbn [negb]; [|done].
  rewrite !Nat2Z.id, Ev, <- Hh, skip_questions_at by done. bstep.
  rewrite (app_assoc h). rewrite <- (Nat.add_0_r (length rs)), scan_records by done.
  by destruct (List.find (rr_answers qtype) rs).
Qed.

(* ------------------------------------------------------------------ *)
(** ** Where an address comes from *)

(** A record header of class IN and type [qtype] at [off], its data, of the
    length the type demands, behind it and inside the packet. *)
Definition record_at (v : bytes) (qtype : Z) (off : nat) (data : bytes) : Prop :=
  (12 <= off)%nat /\ read_u16 v off = Ret qtype /\ read_u16 v (off + 2) = Ret DnsClassIn /\
  read_u16 v (off + 8) = Ret (Z.of_nat (length data)) /\
  (qtype = DnsTypeA /\ length data = 4%nat \/ qtype = DnsTypeAaaa /\ length data = 16%nat) /\
  exists pre post, v = pre ++ data ++ post /\ length pre = (off + 10)%nat.

(** The data a record holds, cut out of the packet. *)
Lemma data_split (v : bytes) off n :
  (off + n <= length v)%nat ->
  exists pre data post, v = pre ++ data ++ post /\ length pre = off /\ length data = n.
Proof.
  intros Hl. exists (take off v), (take n (drop off v)), (drop n (drop off v)).
  rewrite !take_drop. rewrite !length_take, length_drop. split; [done|lia].
Qed.

Lemma record_address_source v off ty rdlen ip :
  (off + Z.to_nat rdlen <= length v)%nat -> 0 <= rdlen ->
  record_address v off ty rdlen = Ret (Some ip) ->
  exists pre data post, v = pre ++ data ++ post /\ length pre = off /\
    Z.of_nat (length data) = rdlen /\ data_address data = Some ip /\
    (ty = DnsTypeA /\ length data = 4%nat \/ ty = DnsTypeAaaa /\ length data = 16%nat).
Proof.
  intros Hl Hpos Hr. destruct (data_split v off (Z.to_nat rdlen) Hl) as (pre & data & post & Ev & Hp & Hd).
  exists pre, data, post. assert (Z.of_nat (length data) = rdlen) as Hlen by lia.
  rewrite <- Hlen, <- Hp, Ev, record_address_at in Hr. destruct (_ || _) eqn:E; [|done].
  injection Hr as Hr. do 4 (split; [done|]).
  apply orb_true_iff in E as [[->%Z.eqb_eq ?%Nat.eqb_eq]%andb_true_iff
    |[->%Z.eqb_eq ?%Nat.eqb_eq]%andb_true_iff]; auto.
Qed.

Lemma scan_answers_source n v qtype off ip :
  (12 <= off)%nat -> scan_answers n v qtype off = Ret (Some ip) ->
  exists o data, record_at v qtype o data /\ data_address data = Some ip.
Proof.
  revert off. induction n as [|n IH]; intros off Hoff; cbn [scan_answers]; [done|].
  destruct (skip_dns_name_total v off) as (off' & b & -> & Hb).
  destruct b; [|done]. specialize (Hb eq_refl).
  destruct (Nat.ltb_spec (length v) (off' + 10)); [done|].
  destruct (read_u16_in v off') as (ty & Ety & _); [lia|].
  destruct (read_u16_in v (off' + 2)) as (kl & Ekl & _); [lia|].
  destruct (read_u16_in v (off' + 8)) as (rd & Erd & Hrd); [lia|].
  rewrite Ety, Ekl, Erd. bstep. cbv zeta.
  destruct (Nat.ltb_spec (length v) (off' + 10 + Z.to_nat rd)); [done|].
  destruct ((kl =? DnsClassIn) && (ty =? qtype)) eqn:E; bstep; [|apply IH; lia].
  apply andb_true_iff in E as [->%Z.eqb_eq ->%Z.eqb_eq].
  destruct (record_address_total v (off' + 10) qtype rd) as [r Er]; [lia|]. rewrite Er. bstep.
  destruct r as [ip'|]; [|apply IH; lia]. intros [= ->].
  apply record_address_source in Er as (pre & data & post & Ev & Hp & Hd & Ha & Ht); [|lia|lia].
  exists off', data. unfold record_at. rewrite Hd. split_and!; try done; [lia|by exists pre, post].
Qed.

Lemma skip_questions_le n v off off' :
  skip_questions n v off = Ret (Some off') -> (off <= off')%nat.
Proof.
  revert off. induction n as [|n IH]; intros off; cbn [skip_questions]; [by intros [= ->]|].
  destruct (skip_dns_name_total v off) as (o & b & -> & Hb). destruct b; [|done].
  specialize (Hb eq_refl). case_match; [done|]. intros ?%IH. lia.
Qed.

Lemma parse_dns_response_source v id qtype ip :
  parse_dns_response v id qtype = Ret (Some ip) ->
  read_u16 v 0 = Ret id /\
  (exists flags, read_u16 v 2 = Ret flags /\ flags_ok flags = true) /\
  exists off data, record_at v qtype off data /\ data_address data = Some ip.
Proof.
  unfold parse_dns_response. destruct (Nat.ltb_spec (length v) 12); [done|].
  destruct (read_u16_in v 0) as (pid & -> & _); [lia|]. bstep.
  destruct (Z.eqb_spec pid id) as [->|]; cbn [negb]; [|done].
  destruct (read_u16_in v 2) as (fl & -> & _); [lia|]. bstep.
  destruct (_ || _) eqn:Efl; [done|].
  destruct (read_u16_in v 4) as (qd & -> & _); [lia|]. bstep.
  destruct (read_u16_in v 6) as (an & -> & _); [lia|]. bstep.
  destruct (skip_questions _ v 12) as [[off|]| |] eqn:Eq; bstep; try done.
  apply skip_questions_le in Eq. intros Hs. split; [done|]. split.
  - exists fl. split; [done|]. apply orb_false_iff in Efl as [E1 E2]. unfold flags_ok.
    rewrite E1. by destruct (Z.land fl 15 =? 0).
  - by apply scan_answers_source in Hs.
Qed.

(* ------------------------------------------------------------------ *)
(** ** Queries *)

(** The labels of a host name: its fields between dots, without the empty
    last field of a name that ends in a dot (or is empty). *)
Fixpoint drop_last_empty (ls : list bytes) : list bytes :=
  match ls with
  | [] => []
  | [l] => if decide (l = []) then [] else [l]
  | l :: ls => l :: drop_last_empty ls
  end.
Definition query_labels (host : bytes) : list bytes := drop_last_empty (split_on (ch ".") host).

Definition label_ok (l : bytes) : bool := (1 <=? length l)%nat && (length l <=? 63)%nat.
Definition label_wire (l : bytes) : bytes := byte_of_Z (Z.of_nat (length l)) :: l.
Definition labels_wire (ls : list bytes) : bytes := concat (label_wire <$> ls).

Lemma labels_wire_cons l ls : labels_wire (l :: ls) = label_wire l ++ labels_wire ls.
Proof. done. Qed.

Lemma split_on_nonempty sep s : split_on sep s <> [].
Proof. destruct s as [|c s]; simpl; [done|]. case_decide; [done|]. by destruct (split_on sep s). Qed.

(** [find_dot] takes the first field. *)
Lemma find_dot_split s :
  split_on (ch ".") s =
  match find_dot s with
  | (l, None) => [l]
  | (l, Some rest) => l :: split_on (ch ".") rest
  end.
Proof.
  induction s as [|c s IH]; [done|]. cbn [split_on find_dot]. case_decide; [done|].
  rewrite IH. by destruct (find_dot s) as [l [rest|]].
Qed.

Lemma find_dot_length s l rest : find_dot s = (l, Some rest) -> (length rest < length s)%nat.
Proof.
  revert l. induction s as [|c s IH]; intros l; cbn [find_dot]; [done|]. case_decide.
  - intros [= _ ->]. simpl. lia.
  - destruct (find_dot s) as [l' [r|]]; intros [= _ ->]. specialize (IH l' eq_refl). simpl. lia.
Qed.

(** The label loop writes the labels, or rejects one of a bad length. *)
Lemma label_loop_spec fuel out s :
  (length s < fuel)%nat ->
  label_loop fuel out s =
  if forallb label_ok (query_labels s) then Ret (out ++ labels_wire (query_labels s))
  else throw "invalid DNS label".
Proof.
  revert out s. induction fuel as [|fuel IH]; intros out s Hf; [lia|]. cbn [label_loop].
  destruct (decide (s = [])) as [->|Hs]; [cbn; by rewrite app_nil_r|].
  unfold query_labels. rewrite find_dot_split. destruct (find_dot s) as [l after] eqn:E.
  assert (label_ok l = negb ((length l =? 0)%nat || (63 <? length l)%nat)) as Hok.
  { unfold label_ok. destruct (Nat.eqb_spec (length l) 0), (Nat.ltb_spec 63 (length l)),
      (Nat.leb_spec 1 (length l)), (Nat.leb_spec (length l) 63); cbn; lia || done. }
  destruct after as [rest|].
  - destruct (split_on (ch ".") rest) as [|f fs] eqn:Er; [by apply split_on_nonempty in Er|].
    change (drop_last_empty (l :: f :: fs)) with (l :: drop_last_empty (f :: fs)). rewrite <- Er.
    change (drop_last_empty (split_on (ch ".") rest)) with (query_labels rest).
    cbn [forallb]. rewrite Hok, labels_wire_cons. destruct (_ || _); cbn [negb andb]; [done|].
    rewrite IH by (apply find_dot_length in E; lia).
    unfold label_wire. by rewrite <- !app_assoc.
  - cbn [drop_last_empty]. case_decide as Hl.
    { subst l. destruct s as [|c s]; [done|]. cbn [find_dot] in E. case_decide; [done|].
      by destruct (find_dot s). }
    cbn [forallb]. rewrite Hok, labels_wire_cons. cbn [labels_wire fmap list_fmap concat].
    destruct (_ || _); cbn [negb andb]; [done|].
    unfold label_wire. by rewrite app_nil_r, <- !app_assoc.
Qed.

Lemma append_u16_be16 out z : append_u16 out z = out ++ be16 z.
Proof. unfold append_u16. rewrite <- app_assoc. reflexivity. Qed.

(** The header of a query, and the whole query. *)
Definition query_header (id : Z) : bytes :=
  be16 id ++ be16 0x0100 ++ be16 1 ++ be16 0 ++ be16 0 ++ be16 0.
Definition question_name (host : bytes) : bytes := labels_wire (query_labels host) ++ [x00].
Definition question_tail (qtype : Z) : bytes := be16 qtype ++ be16 DnsClassIn.

Lemma make_dns_query_labels id host qtype :
  make_dns_query id host qtype =
  if forallb label_ok (query_labels host)
  then Ret (query_header id ++ question_name host ++ question_tail qtype)
  else throw "invalid DNS label".
Proof.
  unfold make_dns_query. rewrite !append_u16_be16, label_loop_spec by lia.
  destruct (forallb _ _); [|done]. bstep. f_equal. rewrite !append_u16_be16.
  unfold query_header, question_name, question_tail. cbn [app]. by rewrite <- !app_assoc.
Qed.

Lemma labels_name ls :
  forallb label_ok ls = true -> dns_name (length ls) (labels_wire ls ++ [x00]).
Proof.
  induction ls as [|l ls IH]; cbn [forallb length]; [constructor|].
  intros [Hl Hls]%andb_true_iff. apply andb_true_iff in Hl as [H1%Nat.leb_le H2%Nat.leb_le].
  rewrite labels_wire_cons. unfold label_wire. cbn [app]. rewrite <- app_assoc.
  constructor; rewrite ?byte_to_Z_of_small by lia; [lia|lia|by apply IH].
Qed.

Lemma length_labels_wire_cons l ls :
  length (labels_wire (l :: ls)) = S (length l + length (labels_wire ls)).
Proof. rewrite labels_wire_cons. unfold label_wire. len. Qed.

(** A length byte stands for the dot behind each field. *)
Lemma split_on_bytes sep s : length (labels_wire (split_on sep s)) = S (length s).
Proof.
  induction s as [|c s IH]; [done|]. cbn [split_on length]. case_decide.
  - by rewrite length_labels_wire_cons, IH.
  - destruct (split_on sep s) as [|f fs] eqn:E; [by apply split_on_nonempty in E|].
    rewrite length_labels_wire_cons in *. cbn [length]. lia.
Qed.

Lemma drop_last_empty_bytes ls :
  (length (labels_wire (drop_last_empty ls)) <= length (labels_wire ls))%nat.
Proof.
  induction ls as [|l [|l' ls] IH]; [done|cbn [drop_last_empty]; case_decide; [cbn; lia|done]|].
  change (drop_last_empty (l :: l' :: ls)) with (l :: drop_last_empty (l' :: ls)).
  rewrite (length_labels_wire_cons l), (length_labels_wire_cons l (l' :: ls)). lia.
Qed.

(** A query is a little longer than its host. *)
Lemma make_dns_query_length id host qtype q :
  make_dns_query id host qtype = Ret q -> (length q <= length host + 18)%nat.
Proof.
  rewrite make_dns_query_labels. destruct (forallb _ _); [|done]. intros [= <-].
  pose proof (drop_last_empty_bytes (split_on (ch ".") host)) as Hl. rewrite split_on_bytes in Hl.
  change (labels_wire (drop_last_empty _)) with (labels_wire (query_labels host)) in Hl.
  unfold question_name, question_tail, query_header, be16. len.
Qed.

Lemma query_labels_bytes host :
  (length (labels_wire (query_labels host)) <= S (length host))%nat.
Proof. unfold query_labels. rewrite drop_last_empty_bytes, split_on_bytes. lia. Qed.

Lemma labels_count ls :
  forallb label_ok ls = true -> (2 * length ls <= length (labels_wire ls))%nat.
Proof.
  induction ls as [|l ls IH]; [done|]. cbn [forallb].
  intros [[Hl%Nat.leb_le _]%andb_true_iff Hls]%andb_true_iff. specialize (IH Hls).
  rewrite length_labels_wire_cons. cbn [length]. lia.
Qed.

(** The name of a query is one the parser skips. *)
Lemma question_name_ok host :
  forallb label_ok (query_labels host) = true -> (length host <= 255)%nat ->
  name_ok (question_name host).
Proof.
  intros Hok Hl. eexists. split; [by apply labels_name|].
  apply labels_count in Hok. pose proof (query_labels_bytes host). lia.
Qed.
