(* ===== verification/DnsSpec.v ===== *)
(** * The DNS codec: properties

    Totality and safety on arbitrary packets, correctness on well-formed
    messages, the query builder, and the round trip of a query and its
    answer. *)
From S2P Require Import Prelude Types Text Dns DnsFacts.

(** C32.  Any bytes may arrive on the DNS port: [parse_dns_response] terminates
    without a throw or an access outside the packet, and an address it returns
    belongs to a packet with the query's id, the response bit and no error
    code, and comes from a record of class IN and the queried type that lies
    inside the packet behind the header: its bytes are the data of an A record,
    and the data of an AAAA record with the bytes of each word turned around. *)
Theorem parse_dns_response_sound v id qtype :
  exists r, parse_dns_response v id qtype = Ret r /\
    forall ip, r = Some ip ->
      read_u16 v 0 = Ret id /\
      (exists flags, read_u16 v 2 = Ret flags /\ flags_ok flags = true) /\
      exists off data, record_at v qtype off data /\ carries qtype data ip.
Proof.
  destruct (parse_dns_response_total v id qtype) as [r Hr]. exists r. split; [done|].
  intros ip ->. destruct (parse_dns_response_source v id qtype ip Hr) as (Hid & Hf & off & data & Hrec & Ha).
  split_and!; [done|done|]. exists off, data. split; [done|].
  apply data_address_carries; [apply Hrec|done].
Qed.

(** C33.  On a well-formed message the parser gives an address for the first
    answer record of class IN and the queried type with data of the right
    length, whatever other records precede it, and its bytes are the data of
    an A record, and the data of an AAAA record with the bytes of each word
    turned around; without such a record, or with flags that are not those of a
    successful response, it gives nothing. *)
Theorem parse_dns_response_first_answer id flags counts qs rs tail qtype :
  0 <= id < 65536 -> 0 <= flags < 65536 -> length counts = 4%nat ->
  Z.of_nat (length qs) < 65536 -> Z.of_nat (length rs) < 65536 ->
  Forall question_ok qs -> Forall rr_ok rs -> qtype = DnsTypeA \/ qtype = DnsTypeAaaa ->
  exists res, parse_dns_response (dns_message id flags counts qs rs tail) id qtype = Ret res /\
    match (if flags_ok flags then List.find (rr_answers qtype) rs else None) with
    | Some r => exists ip, res = Some ip /\ carries qtype (rr_data r) ip
    | None => res = None
    end.
Proof.
  intros Hid Hfl Hc Hq Hr Hqs Hrs Hty. eexists. split; [by apply parse_dns_message|].
  destruct (flags_ok flags); [|done]. destruct (List.find _ rs) as [r|] eqn:Ef; [|done].
  apply List.find_some in Ef as [_ Ha]. unfold rr_answers in Ha. apply andb_true_iff in Ha as [[_ Et%Z.eqb_eq]%andb_true_iff Hl].
  rewrite Et in Hl. destruct (data_address_Some _ _ Hl) as [ip Hip]. exists ip. split; [done|].
  apply data_address_carries; [|done].
  apply orb_true_iff in Hl as [[?%Z.eqb_eq ?%Nat.eqb_eq]%andb_true_iff|[?%Z.eqb_eq ?%Nat.eqb_eq]%andb_true_iff]; auto.
Qed.

(** [make_dns_query] writes the header, the host's labels with their
    length bytes, the root label, type and class, at most 18 bytes more than
    the host; it throws exactly when a label is empty or longer than 63
    bytes.  A trailing dot is allowed. *)
Theorem make_dns_query_format id host qtype :
  make_dns_query id host qtype =
    (if forallb label_ok (query_labels host)
     then Ret (query_header id ++ question_name host ++ question_tail qtype)
     else throw "invalid DNS label") /\
  (length (query_header id ++ question_name host ++ question_tail qtype) <=
   18 + length host)%nat.
Proof.
  split; [apply make_dns_query_labels|].
  pose proof (query_labels_bytes host). unfold query_header, question_name, question_tail. len.
Qed.

(** A server's answer to a query: its question repeated and one record whose
    name points back at the question. *)
Definition answer_record (qtype : Z) (data : bytes) : rr :=
  mkRr [xc0; x0c] qtype DnsClassIn [x00; x00; x00; x3c] data.
Definition answer_to (id : Z) (host : bytes) (qtype : Z) (data : bytes) : bytes :=
  dns_message id 0x8180 [x00; x00; x00; x00] [(question_name host, question_tail qtype)]
    [answer_record qtype data] [].

Lemma answer_record_ok qtype data :
  0 <= qtype < 65536 -> Z.of_nat (length data) < 65536 -> rr_ok (answer_record qtype data).
Proof.
  intros Hq Hd. unfold rr_ok, answer_record.
  cbn [rr_name rr_type rr_class rr_ttl rr_data]. split; [|done].
  exists 0%nat. split; [by constructor|lia].
Qed.

Lemma parse_answer_to id host qtype data q :
  0 <= id < 65536 -> qtype = DnsTypeA \/ qtype = DnsTypeAaaa -> (length host <= 255)%nat ->
  Z.of_nat (length data) < 65536 -> make_dns_query id host qtype = Ret q ->
  parse_dns_response (answer_to id host qtype data) id qtype =
  Ret (if rr_answers qtype (answer_record qtype data) then data_address data else None).
Proof.
  intros Hid Hq Hh Hd Hm. rewrite make_dns_query_labels in Hm.
  destruct (forallb _ _) eqn:Hok; [|done].
  unfold answer_to. rewrite parse_dns_message; [|done|lia|done|done|done| | |done].
  - change (flags_ok 0x8180) with true. cbn [List.find]. by destruct (rr_answers _ _).
  - apply Forall_singleton. split; [by apply question_name_ok|done].
  - apply Forall_singleton. apply answer_record_ok; [unfold DnsTypeA, DnsTypeAaaa in *|]; lia.
Qed.

(** Query and answer round trip: when the query for a host could be
    made, the server's answer with the A record [a.b.c.d] resolves the host
    to the address whose network bytes are exactly those. *)
Theorem dns_a_roundtrip id host q a b c d :
  0 <= id < 65536 -> (length host <= 255)%nat -> make_dns_query id host DnsTypeA = Ret q ->
  exists ip, parse_dns_response (answer_to id host DnsTypeA [a; b; c; d]) id DnsTypeA =
    Ret (Some ip) /\ ip_network_bytes ip = [a; b; c; d] /\ IP_IS_V6 ip = false.
Proof.
  intros Hid Hh Hm. exists (IP_ADDR4 a b c d). split.
  - rewrite (parse_answer_to id host DnsTypeA _ q); auto; cbn; lia.
  - unfold IP_ADDR4. rewrite htonl_MAKEU32. cbn. by rewrite le32_of_le32.
Qed.

(** An AAAA answer resolves the host to an IPv6 address whose words are
    stored in host order: on the wire each four bytes of the record come out
    reversed.  [IP_ADDR6] takes words in network order, and [read_u32] gives
    them in host order. *)
Theorem dns_aaaa_words_reversed id host q a0 a1 a2 a3 b0 b1 b2 b3 c0 c1 c2 c3 d0 d1 d2 d3 :
  0 <= id < 65536 -> (length host <= 255)%nat -> make_dns_query id host DnsTypeAaaa = Ret q ->
  exists ip,
    parse_dns_response (answer_to id host DnsTypeAaaa
      [a0; a1; a2; a3; b0; b1; b2; b3; c0; c1; c2; c3; d0; d1; d2; d3]) id DnsTypeAaaa =
      Ret (Some ip) /\ IP_IS_V6 ip = true /\
    ip_network_bytes ip = [a3; a2; a1; a0; b3; b2; b1; b0; c3; c2; c1; c0; d3; d2; d1; d0].
Proof.
  intros Hid Hh Hm. eexists. split; [|split].
  - rewrite (parse_answer_to id host DnsTypeAaaa _ q); [reflexivity|done|auto|done|cbn; lia|done].
  - done.
  - unfold IP_ADDR6. rewrite !MAKEU32_rev. cbn [ip_network_bytes].
    by rewrite !le32_of_le32.
Qed.

(* ------------------------------------------------------------------ *)
(** ** Witnesses *)

Abbreviation sample_host := (str "a.bc.").

Lemma parse_dns_response_first_answer_witness :
  exists res, parse_dns_response (dns_message 7 0x8180 [x00; x00; x00; x00] []
      [answer_record 5 [x00]; answer_record DnsTypeA [x0a; x00; x00; x01]] [xff]) 7 DnsTypeA = Ret res /\
    exists ip, res = Some ip /\ carries DnsTypeA [x0a; x00; x00; x01] ip.
Proof.
  apply (parse_dns_response_first_answer 7 0x8180 [x00; x00; x00; x00] []
    [answer_record 5 [x00]; answer_record DnsTypeA [x0a; x00; x00; x01]] [xff] DnsTypeA);
    try (cbn; lia); [by apply Forall_nil|].
  apply Forall_cons. split; [|apply Forall_singleton]; apply answer_record_ok; unfold DnsTypeA; cbn; lia.
Defined.

Lemma dns_a_roundtrip_witness :
  exists ip, parse_dns_response (answer_to 7 sample_host DnsTypeA [x0a; x00; x00; x01]) 7 DnsTypeA =
    Ret (Some ip) /\ ip_network_bytes ip = [x0a; x00; x00; x01] /\ IP_IS_V6 ip = false.
Proof.
  apply (dns_a_roundtrip 7 sample_host
    (query_header 7 ++ question_name sample_host ++ question_tail DnsTypeA)); [lia|cbn; lia|].
  vm_compute. reflexivity.
Defined.

Lemma dns_aaaa_words_reversed_witness :
  exists ip,
    parse_dns_response (answer_to 7 sample_host DnsTypeAaaa
      [x20; x01; x0d; xb8; x00; x00; x00; x00; x00; x00; x00; x00; x00; x00; x00; x01])
      7 DnsTypeAaaa = Ret (Some ip) /\ IP_IS_V6 ip = true /\
    ip_network_bytes ip =
      [xb8; x0d; x01; x20; x00; x00; x00; x00; x00; x00; x00; x00; x01; x00; x00; x00].
Proof.
  apply (dns_aaaa_words_reversed 7 sample_host
    (query_header 7 ++ question_name sample_host ++ question_tail DnsTypeAaaa)); [lia|cbn; lia|].
  vm_compute. reflexivity.
Defined.
