(* ===== verification/Lwip.v ===== *)
(** * The interface to lwIP

    The relay sessions drive lwIP's raw API and [LwipRuntime]'s name
    resolution.  Both are reached through the class below, so that what is
    proved of a session holds for every behaviour of the stack: each function
    may answer anything its C type allows and may change the stack's state. *)
From S2P Require Import Prelude Types Text.

(** [err_t] *)
Definition ERR_OK : Z := 0.
Definition ERR_MEM : Z := -1.
Definition ERR_BUF : Z := -2.
Definition ERR_TIMEOUT : Z := -3.
Definition ERR_RTE : Z := -4.
Definition ERR_VAL : Z := -6.

(** [enum tcp_state] *)
Inductive tcp_state :=
| CLOSED | LISTEN | SYN_SENT | SYN_RCVD | ESTABLISHED | FIN_WAIT_1 | FIN_WAIT_2
| CLOSE_WAIT | CLOSING | LAST_ACK | TIME_WAIT.

(** [TCP_MSS], [TCP_SND_BUF] and [TCP_SND_QUEUELEN] of [third_party/lwipopts.h]. *)
Definition TCP_MSS : Z := 1360.
Definition TCP_SND_BUF : Z := 32 * TCP_MSS.
Definition TCP_SND_QUEUELEN : Z := 8 * TCP_SND_BUF / TCP_MSS.

(** [ipaddr_aton] on a C string. *)
Class IpText := { ipaddr_aton : bytes -> option ip_addr_t }.

(** What a TCP relay session uses of lwIP and of [LwipRuntime].  [net] is the
    state of the stack; queries do not change it. *)
Class TcpNet := {
  net : Type;
  pcb : Type;
  pcb_eq_dec :: EqDecision pcb;
  tcp_new_pcb : net -> option pcb * net;
  tcp_callbacks : pcb -> bool -> net -> net;
  tcp_connect : pcb -> ip_addr_t -> Z -> net -> Z * net;
  tcp_sndbuf : pcb -> net -> Z;
  tcp_sndqueuelen : pcb -> net -> Z;
  tcp_state_of : pcb -> net -> tcp_state;
  tcp_write : pcb -> bytes -> net -> Z * net;
  tcp_output : pcb -> net -> net;
  tcp_recved : pcb -> Z -> net -> net;
  tcp_shutdown_tx : pcb -> net -> Z * net;
  tcp_close : pcb -> net -> Z * net;
  tcp_abort : pcb -> net -> net;
  (** [LwipRuntime::async_resolve] has its handler run later, or throws. *)
  async_resolve : bytes -> net -> net * option exn
}.

(** lwIP's UDP API, for the UDP relay and the name resolution.  [net] is again
    the state of the stack; [pbuf_alloc] tells whether the pool had a buffer
    of that length, which the code fills, sends and frees. *)
Class UdpNet := {
  unet : Type;
  upcb : Type;
  upcb_eq_dec :: EqDecision upcb;
  upcb_countable :: Countable upcb;
  udp_new : unet -> option upcb * unet;
  udp_remove : upcb -> unet -> unet;
  udp_recv : upcb -> bool -> unet -> unet;
  pbuf_alloc : Z -> unet -> bool * unet;
  udp_sendto : upcb -> bytes -> ip_addr_t -> Z -> unet -> Z * unet
}.

(** What lwIP promises of UDP pcbs: [udp_new] returns one that is not in use,
    [udp_remove] ends its use, nothing else starts or ends one. *)
Class UdpNetLaws `{!UdpNet} := {
  live : unet -> gset upcb;
  udp_new_some n u n' : udp_new n = (Some u, n') -> (u ∉ live n) /\ live n' = {[u]} ∪ live n;
  udp_new_none n n' : udp_new n = (None, n') -> live n' = live n;
  udp_remove_live u n : live (udp_remove u n) = live n ∖ {[u]};
  udp_recv_live u b n : live (udp_recv u b n) = live n;
  pbuf_alloc_live z n : live (snd (pbuf_alloc z n)) = live n;
  udp_sendto_live u d ip port n : live (snd (udp_sendto u d ip port n)) = live n
}.

(** The result of an asynchronous socket operation, as its handler tells the
    error codes apart. *)
Inductive io_result (A : Type) :=
| IoOk (a : A)
| IoEof
| IoConnectionReset
| IoError.
Arguments IoOk {A} a.
Arguments IoEof {A}.
Arguments IoConnectionReset {A}.
Arguments IoError {A}.

(* ------------------------------------------------------------------ *)
(** ** A concrete stack for UDP

    The state of the stack is the list of its pcbs; it accepts everything. *)
Definition toy_udp : UdpNet := {|
  unet := list nat;
  upcb := nat;
  upcb_eq_dec := _;
  upcb_countable := _;
  udp_new := fun n => let u := S (max_list n) in (Some u, u :: n);
  udp_remove := fun u n => filter (fun v => v <> u) n;
  udp_recv := fun _ _ n => n;
  pbuf_alloc := fun _ n => (true, n);
  udp_sendto := fun _ _ _ _ n => (ERR_OK, n)
|}.

Definition toy_udp_laws : @UdpNetLaws toy_udp.
Proof.
  refine {| live := fun n : @unet toy_udp => (list_to_set n : gset nat) |}; cbn.
  - intros n u n' [= <- <-]. split; [|by rewrite list_to_set_cons].
    rewrite elem_of_list_to_set. intros Hin%max_list_elem_of_le. lia.
  - done.
  - intros u n. apply set_eq. intros v.
    rewrite elem_of_difference, !elem_of_list_to_set, elem_of_singleton, list_elem_of_filter. tauto.
  - done.
  - done.
  - done.
Defined.
