(* ===== verification/Tcp.v ===== *)
(** * TCP relay sessions

    [src/TcpRelaySession.cpp]: one object per accepted client connection.  It
    is driven by completions of its socket operations, by the answer of a name
    resolution and by lwIP's callbacks; each of these is a definition that
    runs to its end, as the code does.  [World] is the object, the operations
    it has outstanding, lwIP and a log of all calls it makes outside.

    The object is reference counted: the handlers of outstanding socket
    operations and [active_self_] own it, lwIP's callbacks only hold a raw
    pointer.  When the last owner goes the object is destroyed, and every
    later access is [Ub]. *)
From S2P Require Import Prelude Types Mbedtls Text Aead Address Lwip.

Definition ClientQueueHighWater : Z := Z.shiftl 1 20.
Definition ClientQueueLowWater : Z := Z.shiftl 256 10.
Definition LwipSndLowWater : Z := 8 * TCP_MSS.
Definition LwipSndQueueHighWater : Z := TCP_SND_QUEUELEN * 3 / 4.

Section Tcp.
Context `{!Mbedtls, !IpText, !TcpNet}.

(** [parse_lwip_ip] *)
Definition parse_lwip_ip (host : bytes) : outcome ip_addr_t :=
  match ipaddr_aton (c_str host) with
  | Some ip => Ret ip
  | None => Exn (runtime_error (str "invalid target IP: " ++ host))
  end.

(* ------------------------------------------------------------------ *)
(** ** State *)

Record TcpRelaySession := mkTcpRelaySession {
  crypto_ : Session;
  active_self_ : bool;
  pcb_ : option pcb;
  encrypted_in_ : bytes;
  pending_lwip_ : list bytes;
  pending_client_ : list bytes;
  client_queue_bytes_ : Z;
  deferred_tcp_recved_ : Z;
  got_target_ : bool;
  sent_response_salt_ : bool;
  client_read_paused_ : bool;
  writing_client_ : bool;
  client_eof_ : bool;
  remote_eof_ : bool;
  closing_ : bool
}.

#[export] Instance TcpRelaySession_eta : Eta TcpRelaySession := fun s =>
  mkTcpRelaySession (crypto_ s) (active_self_ s) (pcb_ s) (encrypted_in_ s) (pending_lwip_ s)
    (pending_client_ s) (client_queue_bytes_ s) (deferred_tcp_recved_ s) (got_target_ s)
    (sent_response_salt_ s) (client_read_paused_ s) (writing_client_ s) (client_eof_ s)
    (remote_eof_ s) (closing_ s).

(** The constructor. *)
Definition new_tcp_session (f : AeadFactory) : TcpRelaySession :=
  mkTcpRelaySession (make_session f) false None [] [] [] 0 0
    false false false false false false false.

(** The calls a session makes, with the answers it got. *)
Inductive call :=
| SetNoDelay | ReadSalt | ReadSome | WriteSome (data : bytes)
| ShutdownSend | ShutdownBoth | CloseSocket
| TcpNew (r : option pcb) | TcpAttach (p : pcb) | TcpDetach (p : pcb)
| TcpConnect (p : pcb) (ip : ip_addr_t) (port : Z) (err : Z)
| TcpWrite (p : pcb) (data : bytes) (err : Z)
| TcpOutput (p : pcb) | TcpRecved (p : pcb) (len : Z)
| TcpShutdown (p : pcb) (err : Z) | TcpClose (p : pcb) (err : Z) | TcpAbort (p : pcb)
| Resolve (host : bytes)
| TcpFreed (p : pcb).          (* lwIP reports the pcb gone, [on_err] *)

Record World := mkWorld {
  self : TcpRelaySession;
  held : bool;                 (* a handler that owns the session runs *)
  destroyed : bool;
  op_salt : bool;              (* outstanding: async_read of the salt *)
  op_reads : nat;              (* ... async_read_some operations *)
  op_write : option bytes;     (* ... async_write and its buffer *)
  op_resolve : option Z;       (* ... name resolution, and the port *)
  registered : option pcb;     (* the pcb whose callback argument is the session *)
  prng : Csprng;
  lwip : net;
  calls : list call
}.

#[export] Instance World_eta : Eta World := fun w =>
  mkWorld (self w) (held w) (destroyed w) (op_salt w) (op_reads w) (op_write w) (op_resolve w)
    (registered w) (prng w) (lwip w) (calls w).

(** Access to the object: undefined once it is destroyed. *)
Definition this : M World TcpRelaySession := fun w =>
  (w, if destroyed w then Ub else Ret (self w)).
Definition set_this (f : TcpRelaySession -> TcpRelaySession) : M World unit := fun w =>
  if destroyed w then (w, Ub) else (w.[self := f (self w)], Ret tt).

(** Calls outside. *)
Definition log (c : call) : M World unit := modify (fun w => w.[calls := calls w ++ [c]]).
Definition stack {A} (f : net -> A * net) (c : A -> call) : M World A := fun w =>
  let '(a, n) := f (lwip w) in
  (w.[lwip := n].[calls := calls w ++ [c a]], Ret a).
Definition stack_ (f : net -> net) (c : call) : M World unit :=
  stack (fun n => (tt, f n)) (fun _ => c).
Definition ask {A} (f : net -> A) : M World A := fun w => (w, Ret (f (lwip w))).

(** Code of the AEAD session that runs on [crypto_]. *)
Definition on_crypto {A} (m : M Session A) : M World A :=
  s ← this;
  let '(c, r) := m (crypto_ s) in
  _ ← set_this (fun s => s.[crypto_ := c]); lift r.
Definition on_crypto_rng {A} (m : M (Session * Csprng) A) : M World A :=
  s ← this;
  w ← get;
  let '((c, g), r) := m (crypto_ s, prng w) in
  _ ← set_this (fun s => s.[crypto_ := c]);
  _ ← modify (fun w => w.[prng := g]); lift r.

(* ------------------------------------------------------------------ *)
(** ** Lifetime *)

(** [detach_pcb_callbacks] *)
Definition detach_pcb_callbacks : M World unit :=
  s ← this;
  match pcb_ s with
  | None => mret tt
  | Some p =>
      _ ← stack_ (tcp_callbacks p false) (TcpDetach p);
      modify (fun w => w.[registered := None])
  end.

Definition owners (w : World) : nat :=
  (Nat.b2n (held w) + Nat.b2n (op_salt w) + op_reads w +
   (if op_write w is Some _ then 1 else 0) + Nat.b2n (active_self_ (self w)))%nat.

(** The destructor. *)
Definition destructor : M World unit :=
  s ← this;
  _ ← match pcb_ s with
      | None => mret tt
      | Some p =>
          _ ← detach_pcb_callbacks;
          _ ← stack_ (tcp_abort p) (TcpAbort p);
          set_this (fun s => s.[pcb_ := None])
      end;
  modify (fun w => w.[destroyed := true]).

(** A [shared_ptr] to the session has gone. *)
Definition dropped_owner : M World unit :=
  w ← get;
  if decide (owners w = 0)%nat then destructor else mret tt.

(** [release_active_self]: the moved-from owner dies when it returns. *)
Definition release_active_self : M World unit :=
  s ← this;
  if active_self_ s then
    _ ← set_this (fun s => s.[active_self_ := false]); dropped_owner
  else mret tt.

(** [close] *)
Definition close : M World unit :=
  s ← this;
  if closing_ s then mret tt
  else
    _ ← set_this (fun s => s.[closing_ := true]);
    _ ← log ShutdownBoth;
    _ ← log CloseSocket;
    _ ← match pcb_ s with
        | None => mret tt
        | Some p =>
            _ ← detach_pcb_callbacks;
            err ← stack (tcp_close p) (TcpClose p);
            _ ← (if decide (err = ERR_OK) then mret tt
                 else stack_ (tcp_abort p) (TcpAbort p));
            set_this (fun s => s.[pcb_ := None])
        end;
    release_active_self.

(** [close_client_only] *)
Definition close_client_only : M World unit :=
  s ← this;
  _ ← (if closing_ s then mret tt
       else
         _ ← set_this (fun s => s.[closing_ := true]);
         _ ← log ShutdownBoth;
         log CloseSocket);
  release_active_self.

(* ------------------------------------------------------------------ *)
(** ** Towards lwIP *)

(** Issuing a read: the members' conditions, then [async_read_some]. *)
Definition read_encrypted_stream : M World unit :=
  s ← this;
  if closing_ s || client_read_paused_ s then mret tt
  else
    _ ← log ReadSome;
    modify (fun w => w.[op_reads := S (op_reads w)]).

Definition read_salt : M World unit :=
  _ ← log ReadSalt;
  modify (fun w => w.[op_salt := true]).

(** The loop of [flush_to_lwip]; [true] when the queue ran empty. *)
Fixpoint flush_loop (fuel : nat) (p : pcb) : M World bool :=
  match fuel with
  | O => lift Ub
  | S fuel =>
      s ← this;
      match pending_lwip_ s with
      | [] => mret true
      | pkt :: rest =>
          sndbuf ← ask (tcp_sndbuf p);
          queuelen ← ask (tcp_sndqueuelen p);
          if (sndbuf <? Z.of_nat (PacketBuffer.size pkt)) || (sndbuf <? LwipSndLowWater) ||
             (LwipSndQueueHighWater <=? queuelen)
          then
            _ ← set_this (fun s => s.[client_read_paused_ := true]);
            _ ← stack_ (tcp_output p) (TcpOutput p); mret false
          else
            let len := u16 (Z.of_nat (PacketBuffer.size pkt)) in
            let data := take (Z.to_nat len) pkt in
            err ← stack (tcp_write p data) (TcpWrite p data);
            if decide (err = ERR_MEM) then
              _ ← set_this (fun s => s.[client_read_paused_ := true]);
              _ ← stack_ (tcp_output p) (TcpOutput p); mret false
            else if decide (err = ERR_OK) then
              _ ← set_this (fun s => s.[pending_lwip_ := rest]);
              flush_loop fuel p
            else
              _ ← close; mret false
      end
  end.

(** [flush_to_lwip] *)
Definition flush_to_lwip : M World unit :=
  s ← this;
  match pcb_ s with
  | None => mret tt
  | Some p =>
      emptied ← flush_loop (S (length (pending_lwip_ s))) p;
      if emptied : bool then stack_ (tcp_output p) (TcpOutput p) else mret tt
  end.

(** [connect_ip] *)
Definition connect_ip (ip : ip_addr_t) (port : Z) : M World unit :=
  np ← stack tcp_new_pcb TcpNew;
  _ ← set_this (fun s => s.[pcb_ := np]);
  match np with
  | None => close
  | Some p =>
      _ ← stack_ (tcp_callbacks p true) (TcpAttach p);
      _ ← modify (fun w => w.[registered := Some p]);
      _ ← set_this (fun s => s.[active_self_ := true]);
      err ← stack (tcp_connect p ip port) (TcpConnect p ip port);
      if decide (err = ERR_OK) then mret tt else close
  end.

(** [resolve_domain_then_connect] *)
Definition resolve_domain_then_connect (target : TargetAddress) : M World unit := fun w =>
  let '(n, r) := async_resolve (host target) (lwip w) in
  let w := w.[lwip := n].[calls := calls w ++ [Resolve (host target)]] in
  match r with
  | None => (w.[op_resolve := Some (port target)], Ret tt)
  | Some e => (w, Exn e)
  end.

(** [connect_target] *)
Definition connect_target (target : TargetAddress) : M World unit :=
  if decide (ta_type target = Domain) then resolve_domain_then_connect target
  else
    ip ← lift (parse_lwip_ip (host target));
    connect_ip ip (port target).

(** [process_decrypted_chunk]: what follows the address in the first chunk,
    and every later chunk, is payload. *)
Definition queue_payload (v : bytes) : M World unit :=
  if decide (v = []) then mret tt
  else set_this (fun s => s.[pending_lwip_ := pending_lwip_ s ++ [v]]).

Definition process_decrypted_chunk (chunk : bytes) : M World unit :=
  s ← this;
  if got_target_ s then queue_payload chunk
  else
    match parse_ss_address chunk with
    | (v, Ret (Some target)) =>
        _ ← set_this (fun s => s.[got_target_ := true]);
        _ ← connect_target target;
        queue_payload v
    | (_, Ret None) => close
    | (_, Exn e) => lift (Exn e)
    | (_, Ub) => lift Ub
    end.

(** The loop over the decrypted chunks: the view that is left and [consumed]. *)
Fixpoint chunk_loop (fuel : nat) (view : bytes) (consumed : nat) : M World (bytes * nat) :=
  match fuel with
  | O => lift Ub
  | S fuel =>
      '(chunk, view) ← on_crypto (fun c =>
         let '((c, view), r) := decrypt_tcp_chunk (c, view) in
         (c, chunk ← r; Ret (chunk, view)));
      match chunk with
      | None => mret (view, consumed)
      | Some chunk =>
          s ← this;
          let consumed := (PacketBuffer.size (encrypted_in_ s) - length view)%nat in
          _ ← process_decrypted_chunk chunk;
          chunk_loop fuel view consumed
      end
  end.

Definition consume_stream : M World unit :=
  s ← this;
  let view := encrypted_in_ s in
  '(view, consumed) ← chunk_loop (S (length view)) view 0;
  _ ← (if decide (consumed = 0)%nat then mret tt
       else set_this (fun s => s.[encrypted_in_ := view]));
  _ ← flush_to_lwip;
  read_encrypted_stream.

(* ------------------------------------------------------------------ *)
(** ** Towards the client *)

(** [flush_to_client], the part that issues a write. *)
Definition flush_to_client : M World unit :=
  s ← this;
  if writing_client_ s then mret tt
  else match pending_client_ s with
       | [] => mret tt
       | front :: _ =>
           _ ← set_this (fun s => s.[writing_client_ := true]);
           _ ← log (WriteSome front);
           modify (fun w => w.[op_write := Some front])
       end.

Definition queue_client (data : bytes) : M World unit :=
  set_this (fun s =>
    s.[client_queue_bytes_ := client_queue_bytes_ s + Z.of_nat (PacketBuffer.size data)]
     .[pending_client_ := pending_client_ s ++ [data]]).

(** [enqueue_client_payload] *)
Definition enqueue_client_payload (data : bytes) : M World unit :=
  if decide (data = []) then mret tt
  else
    s ← this;
    _ ← (if sent_response_salt_ s then mret tt
         else
           salt ← on_crypto_rng client_salt;
           _ ← queue_client salt;
           set_this (fun s => s.[sent_response_salt_ := true]));
    encrypted ← on_crypto (encrypt_tcp_chunk data);
    _ ← queue_client encrypted;
    flush_to_client.

(** The loop that hands deferred receive-window bytes back to lwIP. *)
Fixpoint recved_loop (fuel : nat) (p : pcb) : M World unit :=
  match fuel with
  | O => lift Ub
  | S fuel =>
      s ← this;
      if deferred_tcp_recved_ s =? 0 then mret tt
      else
        let nrecved := u16 (Z.min (deferred_tcp_recved_ s) 0xffff) in
        _ ← stack_ (tcp_recved p nrecved) (TcpRecved p nrecved);
        _ ← set_this (fun s => s.[deferred_tcp_recved_ := deferred_tcp_recved_ s - nrecved]);
        recved_loop fuel p
  end.

(* ------------------------------------------------------------------ *)
(** ** The ends of the two directions *)

(** Aborting the pcb in [handle_client_eof]. *)
Definition abort_pcb (p : pcb) : M World unit :=
  _ ← detach_pcb_callbacks;
  _ ← stack_ (tcp_abort p) (TcpAbort p);
  _ ← set_this (fun s => s.[pcb_ := None]);
  release_active_self.

(** [handle_client_eof] *)
Definition handle_client_eof : M World unit :=
  _ ← set_this (fun s => s.[client_eof_ := true]);
  s ← this;
  _ ← match pcb_ s with
      | None => mret tt
      | Some p =>
          state ← ask (tcp_state_of p);
          match state with
          | SYN_RCVD | ESTABLISHED | CLOSE_WAIT =>
              err ← stack (tcp_shutdown_tx p) (TcpShutdown p);
              if decide (err = ERR_OK) then mret tt else abort_pcb p
          | _ => abort_pcb p
          end
      end;
  s ← this;
  if remote_eof_ s || bool_decide (pcb_ s = None) then close else mret tt.

(** [handle_remote_fin] *)
Definition handle_remote_fin : M World unit :=
  _ ← set_this (fun s => s.[remote_eof_ := true]);
  _ ← log ShutdownSend;
  s ← this;
  _ ← match pcb_ s with
      | None => mret tt
      | Some p =>
          _ ← detach_pcb_callbacks;
          err ← stack (tcp_close p) (TcpClose p);
          _ ← (if decide (err = ERR_OK) then mret tt
               else stack_ (tcp_abort p) (TcpAbort p));
          _ ← set_this (fun s => s.[pcb_ := None]);
          release_active_self
      end;
  s ← this;
  if client_eof_ s then close else mret tt.

(** [maybe_resume_client_read] *)
Definition maybe_resume_client_read : M World unit :=
  s ← this;
  if negb (client_read_paused_ s) then mret tt
  else match pcb_ s with
       | None => mret tt
       | Some p =>
           sndbuf ← ask (tcp_sndbuf p);
           if sndbuf <? LwipSndLowWater then mret tt
           else
             _ ← set_this (fun s => s.[client_read_paused_ := false]);
             _ ← flush_to_lwip;
             read_encrypted_stream
       end.

(* ------------------------------------------------------------------ *)
(** ** The handlers *)

(** A handler that captured [self] owns the session while it runs. *)
Definition owning (m : M World unit) : M World unit :=
  _ ← modify (fun w => w.[held := true]);
  _ ← m;
  _ ← modify (fun w => w.[held := false]);
  dropped_owner.

(** The handler of [read_salt]. *)
Definition salt_handler (r : io_result bytes) : M World unit :=
  match r with
  | IoOk salt => try_catch (_ ← on_crypto (set_client_salt salt); read_encrypted_stream) close
  | _ => close
  end.

(** The handler of [read_encrypted_stream]. *)
Definition read_handler (r : io_result bytes) : M World unit :=
  match r with
  | IoOk data =>
      _ ← set_this (fun s => s.[encrypted_in_ := PacketBuffer.append (encrypted_in_ s) data]);
      try_catch consume_stream close
  | IoEof | IoConnectionReset => handle_client_eof
  | IoError => close
  end.

(** The handler of [flush_to_client]; [n] bytes were written. *)
Definition write_handler (r : io_result nat) : M World unit :=
  _ ← set_this (fun s => s.[writing_client_ := false]);
  match r with
  | IoOk n =>
      _ ← set_this (fun s => s.[client_queue_bytes_ := client_queue_bytes_ s - Z.of_nat n]);
      s ← this;
      match pending_client_ s with
      | [] => lift Ub
      | _ :: rest =>
          _ ← set_this (fun s => s.[pending_client_ := rest]);
          _ ← match pcb_ s with
              | Some p =>
                  if (client_queue_bytes_ s <? ClientQueueLowWater) &&
                     negb (deferred_tcp_recved_ s =? 0)
                  then recved_loop (2 + Z.to_nat (deferred_tcp_recved_ s / 0xffff)) p
                  else mret tt
              | None => mret tt
              end;
          flush_to_client
      end
  | _ => close
  end.

(** The lambda of [resolve_domain_then_connect]: [weak.lock()] owns the
    session while the lambda runs. *)
Definition resolve_handler (port : Z) (err : Z) (ip : option ip_addr_t) : M World unit :=
  w ← get;
  if destroyed w then mret tt
  else
    owning (
      s ← this;
      match ip with
      | Some ip => if bool_decide (err <> ERR_OK) || closing_ s then close else connect_ip ip port
      | None => close
      end).

(** [on_connected] *)
Definition on_connected (err : Z) : M World Z :=
  if decide (err = ERR_OK) then _ ← flush_to_lwip; mret ERR_OK
  else _ ← close; mret err.

(** [on_recv]; the pbuf's bytes are [p]. *)
Definition on_recv (p : pcb) (data : option bytes) (err : Z) : M World Z :=
  if decide (err = ERR_OK) then
    match data with
    | None => _ ← handle_remote_fin; mret ERR_OK
    | Some data =>
        let received := Z.of_nat (length data) in
        try_catch
          (_ ← enqueue_client_payload data; mret true)
          (_ ← close; mret false) ≫= fun ok : bool =>
        if ok then
          s ← this;
          _ ← (if ClientQueueHighWater <? client_queue_bytes_ s
               then set_this (fun s => s.[deferred_tcp_recved_ := deferred_tcp_recved_ s + received])
               else stack_ (tcp_recved p received) (TcpRecved p received));
          mret ERR_OK
        else mret ERR_OK
    end
  else _ ← close; mret ERR_OK.

(** [on_sent] *)
Definition on_sent : M World Z := _ ← maybe_resume_client_read; mret ERR_OK.

(** [on_err]: lwIP has already freed the pcb. *)
Definition on_err : M World unit :=
  _ ← set_this (fun s => s.[pcb_ := None]);
  close_client_only.

(** [start], called by the acceptor, which owns the session meanwhile. *)
Definition start_session : M World unit := owning (_ ← log SetNoDelay; read_salt).

(* ------------------------------------------------------------------ *)
(** ** Events

    What the event loop and lwIP may run next: completions of outstanding
    operations, and callbacks of the registered pcb. *)

Inductive event :=
| OnSalt (r : io_result bytes)
| OnRead (r : io_result bytes)
| OnWritten (r : io_result unit)
| OnResolved (err : Z) (ip : option ip_addr_t)
| OnConnected (err : Z)
| OnRecv (data : option bytes) (err : Z)
| OnSent
| OnErr.

(** [async_read] fills its buffer, [async_read_some] delivers at least one
    byte, at most the 8192 of [read_buf_]; a pbuf is not empty and its
    [tot_len] has 16 bits.  The reads of a session share [read_buf_]: [OnRead]
    carries the bytes that the buffer holds when its handler runs, so what is
    stated of the bytes read is stated of those.  (While one read is
    outstanding they are the bytes that it received; two can be, see
    [tcp_two_reads_outstanding] in [TcpSpec].) *)
Definition enabled (ev : event) (w : World) : bool :=
  match ev with
  | OnSalt r => op_salt w && match r with IoOk b => (length b =? SaltSize)%nat | _ => true end
  | OnRead r =>
      (0 <? op_reads w)%nat &&
      match r with IoOk b => (0 <? length b)%nat && (Z.of_nat (length b) <=? 8192) | _ => true end
  | OnWritten _ => bool_decide (is_Some (op_write w))
  | OnResolved _ _ => bool_decide (is_Some (op_resolve w))
  | OnRecv data _ =>
      bool_decide (is_Some (registered w)) &&
      match data with
      | Some d => (0 <? length d)%nat && (Z.of_nat (length d) <=? 65535)
      | None => true
      end
  | OnConnected _ | OnSent | OnErr => bool_decide (is_Some (registered w))
  end.

(** [async_write] completes without an error only when all was written. *)
Definition written_all (data : bytes) (r : io_result unit) : io_result nat :=
  match r with
  | IoOk _ => IoOk (length data)
  | IoEof => IoEof
  | IoConnectionReset => IoConnectionReset
  | IoError => IoError
  end.

Definition deliver (ev : event) : M World unit :=
  w ← get;
  match ev with
  | OnSalt r => _ ← modify (fun w => w.[op_salt := false]); owning (salt_handler r)
  | OnRead r => _ ← modify (fun w => w.[op_reads := pred (op_reads w)]); owning (read_handler r)
  | OnWritten r =>
      match op_write w with
      | Some data =>
          _ ← modify (fun w => w.[op_write := None]);
          owning (write_handler (written_all data r))
      | None => mret tt
      end
  | OnResolved err ip =>
      match op_resolve w with
      | Some port => _ ← modify (fun w => w.[op_resolve := None]); resolve_handler port err ip
      | None => mret tt
      end
  | OnConnected err => _ ← on_connected err; mret tt
  | OnRecv data err =>
      match registered w with
      | Some p => _ ← on_recv p data err; mret tt
      | None => mret tt
      end
  | OnSent => _ ← on_sent; mret tt
  | OnErr =>
      match registered w with
      | Some p => _ ← log (TcpFreed p); _ ← modify (fun w => w.[registered := None]); on_err
      | None => mret tt
      end
  end.

(** A session that has just been accepted. *)
Definition accepted (f : AeadFactory) (g : Csprng) (n : net) : World :=
  fst (start_session (mkWorld (new_tcp_session f) false false false 0 None None None g n [])).

(** The runs of a session; between two events the stack works on its own. *)
Inductive run (w0 : World) : list event -> World -> Prop :=
| run_nil : run w0 [] w0
| run_stack evs w n : run w0 evs w -> run w0 evs (w.[lwip := n])
| run_snoc evs w ev w' :
    run w0 evs w -> enabled ev w = true -> deliver ev w = (w', Ret tt) ->
    run w0 (evs ++ [ev]) w'.

End Tcp.
