(* ===== verification/TcpDest.v ===== *)
(** * Where a TCP session connects to

    A session asks for one name or makes one connection: those of the target
    in the client's first chunk. *)
From S2P Require Import Prelude Types Mbedtls Text Aead AeadStream Address Lwip Tcp.

Section Dest.
Context `{!Mbedtls, !MbedtlsLaws, !IpText, !TcpNet}.
Implicit Types (w : World) (s : TcpRelaySession) (evs : list event) (t : TargetAddress).

(** The names a session has asked for and the connections it has opened. *)
Inductive dest := ToName (host : bytes) | ToAddr (ip : ip_addr_t) (port err : Z).
Definition dests (cs : list call) : list dest :=
  omap (fun c => match c with
                 | Resolve h => Some (ToName h)
                 | TcpConnect _ ip port err => Some (ToAddr ip port err)
                 | _ => None
                 end) cs.

(** The session is on its way to the target [t]: for a domain it has asked for
    the name and waits (or is gone), or has connected to an address it was
    given for the name; for an address it has connected to it. *)
Definition placed evs t w : Prop :=
  if decide (ta_type t = Domain) then
    (dests (calls w) = [ToName (host t)] /\ (op_resolve w = Some (port t) \/ destroyed w = true)) \/
    (exists ip, OnResolved ERR_OK (Some ip) ∈ evs /\ op_resolve w = None /\
       dests (calls w) = [ToName (host t); ToAddr ip (port t) ERR_OK])
  else exists ip, ipaddr_aton (c_str (host t)) = Some ip /\ op_resolve w = None /\
    dests (calls w) = [ToAddr ip (port t) ERR_OK].

(** A session that has closed, has no target yet, or is on its way to [t]. *)
Inductive heads evs t w : Prop :=
| heads_closed : closing_ (self w) = true -> heads evs t w
| heads_nowhere : got_target_ (self w) = false -> op_resolve w = None -> dests (calls w) = [] -> heads evs t w
| heads_to : got_target_ (self w) = true -> placed evs t w -> heads evs t w.

(* ------------------------------------------------------------------ *)
(** ** What the operations leave alone *)

(** The code that returns leaves [P]. *)
Definition leaves {A} (P : World -> Prop) (m : M World A) : Prop :=
  forall w w' a, P w -> m w = (w', Ret a) -> P w'.

Section Leaves.
Context (P : World -> Prop).
Abbreviation lv m := (leaves P m).

Lemma leaves_ret {A} (a : A) : lv (mret a).
Proof. by intros w w' a' Hw [= <- _]. Qed.
Lemma leaves_lift {A} (r : outcome A) : lv (lift r).
Proof. by intros w w' a' Hw [= <- _]. Qed.
Lemma leaves_get : lv get.
Proof. by intros w w' a' Hw [= <- _]. Qed.
Lemma leaves_bind {A B} (m : M World A) (f : A -> M World B) : lv m -> (forall a, lv (f a)) -> lv (m ≫= f).
Proof.
  intros Hm Hf w w' b Hw E. unfold mbind, M_bind in E. destruct (m w) as [w1 [a|e|]] eqn:Em; [|done..].
  eapply Hf; [|exact E]. by eapply Hm.
Qed.
(** A handler that establishes [P] by itself. *)
Lemma leaves_try {A} (m h : M World A) : lv m ->
  (forall w w' a, h w = (w', Ret a) -> P w') -> lv (try_catch m h).
Proof.
  intros Hm Hh w w' a Hw E. unfold try_catch in E. destruct (m w) as [w1 [x|e|]] eqn:Em; [|by eapply Hh|done].
  injection E as <- <-. by eapply Hm.
Qed.
End Leaves.

Create HintDb lv.
#[local] Hint Resolve leaves_ret leaves_lift leaves_get leaves_bind : lv.
#[local] Hint Extern 2 (leaves _ (if ?b then _ else _)) => destruct b : lv.
#[local] Hint Extern 2 (leaves _ (match ?b with _ => _ end)) => destruct b : lv.

(** What [heads] depends on. *)
Definition same_heads w w' : Prop :=
  (closing_ (self w) = true -> closing_ (self w') = true) /\ (destroyed w = true -> destroyed w' = true) /\
  got_target_ (self w') = got_target_ (self w) /\ op_resolve w' = op_resolve w /\
  dests (calls w') = dests (calls w).

(** The properties that are kept by such steps. *)
Class Steady (P : World -> Prop) : Prop := steady w w' : same_heads w w' -> P w -> P w'.

#[export] Instance heads_steady evs t : Steady (heads evs t).
Proof.
  intros w w' (Hc & Hx & Hg & Ho & Hd) [?|Hn1 Hn2 Hn3|Hn1 Hn2]; [by apply heads_closed; auto| |].
  - apply heads_nowhere; congruence.
  - apply heads_to; [congruence|]. unfold placed in *. rewrite Ho, Hd. case_decide; [|done]. naive_solver.
Qed.
#[export] Instance closed_steady : Steady (fun w => closing_ (self w) = true).
Proof. intros w w' [Hc _]. exact Hc. Qed.
#[export] Instance same_heads_steady w0 : Steady (same_heads w0).
Proof. intros w w' (A1 & A2 & A3 & A4 & A5) (B1 & B2 & B3 & B4 & B5). split_and!; [auto|auto|congruence..]. Qed.

Section Steps.
Context (P : World -> Prop) `{!Steady P}.
Abbreviation lv m := (leaves P m).

Lemma dests_snoc cs c : dests (cs ++ [c]) = dests cs ++ dests [c].
Proof. apply omap_app. Qed.

Lemma lv_stack {A} (f : net -> A * net) c : (forall a, dests [c a] = []) -> lv (stack f c).
Proof.
  intros Hc w w' a Hw E. unfold stack in E. destruct (f (lwip w)) as [x n]. injection E as <- <-.
  eapply steady; [|exact Hw]. split_and!; try done. cbn. by rewrite dests_snoc, Hc, app_nil_r.
Qed.
Lemma lv_stack_ f c : dests [c] = [] -> lv (stack_ f c).
Proof. intros Hc. by apply lv_stack. Qed.
Lemma lv_ask {A} (f : net -> A) : lv (ask f).
Proof. by intros w w' a Hw [= <- _]. Qed.
Lemma lv_modify f :
  (forall w, self (f w) = self w /\ (destroyed w = true -> destroyed (f w) = true) /\ op_resolve (f w) = op_resolve w /\ dests (calls (f w)) = dests (calls w)) ->
  lv (modify f).
Proof.
  intros Hf w w' a Hw [= <- _]. destruct (Hf w) as (E1 & E2 & E3 & E4). eapply steady; [|exact Hw].
  split_and!; [by rewrite E1|done|by rewrite E1|done|done].
Qed.
Lemma lv_log c : dests [c] = [] -> lv (log c).
Proof. intros Hc. apply lv_modify. intros w. cbn. split_and!; [done..|]. by rewrite dests_snoc, Hc, app_nil_r. Qed.
Lemma lv_this : lv this.
Proof. by intros w w' a Hw [= <- _]. Qed.
Lemma lv_set_this f :
  (forall s, (closing_ s = true -> closing_ (f s) = true) /\ got_target_ (f s) = got_target_ s) -> lv (set_this f).
Proof.
  intros Hf w w' a Hw E. unfold set_this in E. destruct (destroyed w); [done|]. injection E as <- _.
  destruct (Hf (self w)) as [E1 E2]. eapply steady; [|exact Hw]. by split_and!.
Qed.
#[local] Hint Resolve lv_ask lv_this : lv.
#[local] Hint Extern 1 (leaves _ (log _)) => apply lv_log; reflexivity : lv.
#[local] Hint Extern 1 (leaves _ (stack _ _)) => apply lv_stack; intros; reflexivity : lv.
#[local] Hint Extern 1 (leaves _ (stack_ _ _)) => apply lv_stack_; reflexivity : lv.
#[local] Hint Extern 1 (leaves _ (modify _)) => apply lv_modify; intros ?; split_and!; done : lv.
#[local] Hint Extern 1 (leaves _ (set_this _)) => apply lv_set_this; intros ?; split; [by intros|reflexivity] : lv.

Lemma lv_on_crypto {A} (m : M Session A) : lv (on_crypto m).
Proof. unfold on_crypto. apply leaves_bind; [auto with lv|]. intros s. destruct (m (crypto_ s)). auto 10 with lv. Qed.
Lemma lv_on_crypto_rng {A} (m : M (Session * Csprng) A) : lv (on_crypto_rng m).
Proof.
  unfold on_crypto_rng. apply leaves_bind; [auto with lv|]. intros s.
  apply leaves_bind; [auto with lv|]. intros w. destruct (m (crypto_ s, prng w)) as [[c g] r]. auto 10 with lv.
Qed.
#[local] Hint Resolve lv_on_crypto lv_on_crypto_rng : lv.

Lemma lv_detach : lv detach_pcb_callbacks.
Proof. unfold detach_pcb_callbacks. auto 10 with lv. Qed.
#[local] Hint Resolve lv_detach : lv.
Lemma lv_dropped : lv dropped_owner.
Proof. unfold dropped_owner, destructor. auto 20 with lv. Qed.
#[local] Hint Resolve lv_dropped : lv.
Lemma lv_release : lv release_active_self.
Proof. unfold release_active_self. auto 20 with lv. Qed.
#[local] Hint Resolve lv_release : lv.
Lemma lv_close : lv close.
Proof. unfold close. auto 20 with lv. Qed.
Lemma lv_close_client : lv close_client_only.
Proof. unfold close_client_only. auto 20 with lv. Qed.
Lemma lv_read : lv read_encrypted_stream.
Proof. unfold read_encrypted_stream. auto 20 with lv. Qed.
#[local] Hint Resolve lv_close lv_close_client lv_read : lv.
Lemma lv_flush_loop fuel p : lv (flush_loop fuel p).
Proof. induction fuel as [|fuel IH]; cbn [flush_loop]; auto 20 with lv. Qed.
#[local] Hint Resolve lv_flush_loop : lv.
Lemma lv_flush : lv flush_to_lwip.
Proof. unfold flush_to_lwip. auto 20 with lv. Qed.
Lemma lv_queue v : lv (queue_payload v).
Proof. unfold queue_payload. auto 20 with lv. Qed.
Lemma lv_flush_client : lv flush_to_client.
Proof. unfold flush_to_client. auto 20 with lv. Qed.
#[local] Hint Resolve lv_flush lv_queue lv_flush_client : lv.
Lemma lv_enqueue d : lv (enqueue_client_payload d).
Proof. unfold enqueue_client_payload, queue_client. auto 20 with lv. Qed.
Lemma lv_recved_loop fuel p : lv (recved_loop fuel p).
Proof. induction fuel as [|fuel IH]; cbn [recved_loop]; auto 20 with lv. Qed.
Lemma lv_client_eof : lv handle_client_eof.
Proof. unfold handle_client_eof, abort_pcb. auto 20 with lv. Qed.
Lemma lv_remote_fin : lv handle_remote_fin.
Proof. unfold handle_remote_fin. auto 20 with lv. Qed.
Lemma lv_resume : lv maybe_resume_client_read.
Proof. unfold maybe_resume_client_read. auto 20 with lv. Qed.
#[local] Hint Resolve lv_enqueue lv_recved_loop lv_client_eof lv_remote_fin lv_resume : lv.
Lemma lv_owning m : lv m -> lv (owning m).
Proof. unfold owning. auto 20 with lv. Qed.
End Steps.

#[local] Hint Resolve lv_ask lv_this lv_on_crypto lv_on_crypto_rng lv_detach lv_dropped lv_release lv_close
  lv_close_client lv_read lv_flush lv_queue lv_flush_client lv_enqueue lv_recved_loop lv_client_eof
  lv_remote_fin lv_resume lv_owning : lv.
#[local] Hint Extern 0 (Steady _) => apply _ : lv.
#[local] Hint Extern 1 (leaves _ (log _)) => apply lv_log; [apply _|reflexivity] : lv.
#[local] Hint Extern 1 (leaves _ (stack _ _)) => apply lv_stack; [apply _|intros; reflexivity] : lv.
#[local] Hint Extern 1 (leaves _ (stack_ _ _)) => apply lv_stack_; [apply _|reflexivity] : lv.
#[local] Hint Extern 1 (leaves _ (modify _)) => apply lv_modify; [apply _|intros ?; split_and!; done] : lv.
#[local] Hint Extern 1 (leaves _ (set_this _)) => apply lv_set_this; [apply _|intros ?; split; [by intros|reflexivity]] : lv.

(** A computation that returned, cut in two. *)
Lemma bind_inv {A B} (m : M World A) (f : A -> M World B) w w' b :
  (m ≫= f) w = (w', Ret b) -> exists w1 a, m w = (w1, Ret a) /\ f a w1 = (w', Ret b).
Proof. unfold mbind, M_bind. destruct (m w) as [w1 [a|e|]]; [by eauto|done..]. Qed.
Lemma same_heads_refl w : same_heads w w.
Proof. by split_and!. Qed.
Lemma set_this_inv f w w' a : set_this f w = (w', Ret a) -> w' = w.[self := f (self w)].
Proof. unfold set_this. by destruct (destroyed w); intros [= <-]. Qed.
Lemma this_inv w w' s : this w = (w', Ret s) -> w' = w /\ s = self w.
Proof. unfold this. by destruct (destroyed w); intros [= <- <-]. Qed.

(** [close] closes. *)
Lemma close_settles w w' a : close w = (w', Ret a) -> closing_ (self w') = true.
Proof.
  intros (w1 & s & [-> ->]%this_inv & E)%bind_inv. destruct (closing_ (self w)) eqn:Ec; [by injection E as <- _|].
  apply bind_inv in E as (w2 & [] & ->%set_this_inv & E). revert E.
  match goal with |- ?m _ = _ -> _ =>
    assert (leaves (fun w => closing_ (self w) = true) m) as Hm by auto 20 with lv; by apply Hm end.
Qed.

(** [connect_ip] opens one connection, or closes. *)
Lemma connect_ip_heads ip port w w' a :
  connect_ip ip port w = (w', Ret a) ->
  closing_ (self w') = true \/
  closing_ (self w') = closing_ (self w) /\ got_target_ (self w') = got_target_ (self w) /\
  op_resolve w' = op_resolve w /\ dests (calls w') = dests (calls w) ++ [ToAddr ip port ERR_OK].
Proof.
  intros (w1 & np & E1 & E)%bind_inv. apply bind_inv in E as (w2 & [] & ->%set_this_inv & E).
  unfold stack in E1. destruct (tcp_new_pcb (lwip w)) as [r n]. injection E1 as <- <-.
  destruct r as [p|]; [|left; by eapply close_settles].
  apply bind_inv in E as (w3 & [] & [= <-] & E). apply bind_inv in E as (w4 & [] & [= <-] & E).
  apply bind_inv in E as (w5 & [] & ->%set_this_inv & E). apply bind_inv in E as (w6 & err & E6 & E).
  unfold stack in E6. cbn in E6. destruct (tcp_connect p ip port _) as [err' n']. injection E6 as <- <-.
  case_decide as Herr; [|left; by eapply close_settles]. right. injection E as <- _. subst err'. cbn.
  rewrite !dests_snoc. cbn. by rewrite !app_nil_r.
Qed.

(** The first chunk sends the session on its way. *)
Lemma process_heads evs t chunk w w' a :
  heads evs t w ->
  (closing_ (self w) = false -> got_target_ (self w) = false -> exists v, parse_ss_address chunk = (v, Ret (Some t))) ->
  process_decrypted_chunk chunk w = (w', Ret a) ->
  heads evs t w' /\ (closing_ (self w') = true \/ got_target_ (self w') = true).
Proof.
  intros Hh Hp (w1 & s & [-> ->]%this_inv & E)%bind_inv.
  destruct (got_target_ (self w)) eqn:Eg.
  { pose proof (lv_queue (heads evs t) chunk _ _ _ Hh E). split; [done|].
    pose proof (lv_queue (same_heads w) chunk _ _ _ (same_heads_refl w) E) as (_ & _ & -> & _). by right. }
  destruct (closing_ (self w)) eqn:Ec.
  - enough (closing_ (self w') = true) as Hc by (split; [by apply heads_closed|by left]).
    destruct (parse_ss_address chunk) as [v [[t'|]|e|]]; [|by eapply close_settles|done..].
    apply bind_inv in E as (w2 & [] & ->%set_this_inv & E). apply bind_inv in E as (w3 & [] & E3 & E).
    eapply (lv_queue (fun w => closing_ (self w) = true)); [|exact E].
    unfold connect_target in E3. case_decide.
    + unfold resolve_domain_then_connect in E3. destruct (async_resolve _ _) as [n [e|]]; [done|]. by injection E3 as <-.
    + apply bind_inv in E3 as (w4 & ip & E4 & E3). unfold lift in E4. injection E4 as <- _.
      apply connect_ip_heads in E3 as [?|(Hc & _)]; [done|]. by rewrite Hc.
  - destruct (Hp eq_refl eq_refl) as [v Hv]. rewrite Hv in E.
    destruct Hh as [?|_ Ho Hd|? _]; [congruence| |congruence].
    apply bind_inv in E as (w2 & [] & ->%set_this_inv & E). apply bind_inv in E as (w3 & [] & E3 & E).
    enough (closing_ (self w3) = true \/ got_target_ (self w3) = true /\ placed evs t w3) as Hw3.
    { pose proof (lv_queue (same_heads w3) v _ _ _ (same_heads_refl w3) E) as (Hc & Hx & Hg & _).
      split; [|destruct Hw3 as [?|[? _]]; [left; auto|right; congruence]].
      eapply (lv_queue (heads evs t)); [|exact E].
      destruct Hw3 as [?|[? ?]]; [by apply heads_closed|by apply heads_to]. }
    unfold connect_target in E3. unfold placed. case_decide.
    + unfold resolve_domain_then_connect in E3. destruct (async_resolve _ _) as [n [e|]]; [done|]. injection E3 as <-.
      right. split; [done|]. left. split; [|by left]. change (dests (calls w ++ [Resolve (host t)]) = [ToName (host t)]). by rewrite dests_snoc, Hd.
    + apply bind_inv in E3 as (w4 & ip & E4 & E3). unfold lift, parse_lwip_ip in E4.
      destruct (ipaddr_aton (c_str (host t))) as [ip0|] eqn:Eip; [|done]. injection E4 as <- <-.
      apply connect_ip_heads in E3 as [?|(_ & Hg & Hr & Hds)]; [by left|right]. split; [done|].
      exists ip0. rewrite Hr, Hds. split_and!; [done..|]. change (calls _) with (calls w). by rewrite Hd.
Qed.

Lemma chunk_loop_heads evs t fuel view consumed w w' r :
  heads evs t w ->
  (closing_ (self w) = false -> got_target_ (self w) = false -> forall st chunk,
     decrypt_tcp_chunk (crypto_ (self w), view) = (st, Ret (Some chunk)) ->
     exists v, parse_ss_address chunk = (v, Ret (Some t))) ->
  chunk_loop fuel view consumed w = (w', Ret r) -> heads evs t w'.
Proof.
  revert view consumed w. induction fuel as [|fuel IH]; intros view consumed w Hh Hf; cbn [chunk_loop]; [done|].
  intros (w1 & [chunk v] & E1 & E)%bind_inv.
  pose proof (lv_on_crypto (heads evs t) _ _ _ _ Hh E1) as Hh1.
  assert ((closing_ (self w1) = closing_ (self w) /\ got_target_ (self w1) = got_target_ (self w)) /\
    exists st, decrypt_tcp_chunk (crypto_ (self w), view) = (st, Ret chunk)) as [[Ec Eg] [st Est]].
  { apply bind_inv in E1 as (w2 & s & [-> ->]%this_inv & E1).
    destruct (decrypt_tcp_chunk (crypto_ (self w), view)) as [[c v'] rr].
    apply bind_inv in E1 as (w3 & [] & ->%set_this_inv & E1). unfold lift in E1. injection E1 as <- Er.
    split; [done|]. destruct rr; [|done..]. injection Er as -> _. by eexists. }
  destruct chunk as [chunk|]; [|by injection E as <- _].
  apply bind_inv in E as (w2 & s & [-> ->]%this_inv & E). apply bind_inv in E as (w3 & [] & E3 & E).
  destruct (process_heads evs t chunk w1 w3 tt Hh1) as [Hh3 Hor]; [|done|].
  { rewrite Ec, Eg. intros. by eapply Hf. }
  eapply IH; [exact Hh3| |exact E]. intros ? ?. destruct Hor; congruence.
Qed.

(* ------------------------------------------------------------------ *)
(** ** Events *)

Lemma heads_more evs ev t w : heads evs t w -> heads (evs ++ [ev]) t w.
Proof.
  intros [?|? ? ?|? Hp]; [by apply heads_closed|by apply heads_nowhere|apply heads_to; [done|]].
  unfold placed in *. case_decide; [|done]. destruct Hp as [?|(ip & ? & ?)]; [by left|right]. exists ip. split; [set_solver|done].
Qed.

(** What is known of the chunk that an event reads first. *)
Definition first_chunk (ev : event) w t : Prop :=
  match ev with
  | OnRead (IoOk data) =>
      closing_ (self w) = false -> got_target_ (self w) = false -> forall st chunk,
        decrypt_tcp_chunk (crypto_ (self w), encrypted_in_ (self w) ++ data) = (st, Ret (Some chunk)) ->
        exists v, parse_ss_address chunk = (v, Ret (Some t))
  | _ => True
  end.

Lemma lv_try_close P m : Steady P -> (forall w, closing_ (self w) = true -> P w) -> leaves P m -> leaves P (try_catch m close).
Proof.
  intros HP Hc Hm. apply leaves_try; [done|]. intros w w' a E. by eapply Hc, close_settles.
Qed.

Lemma read_heads evs t data w w' a :
  heads evs t w -> first_chunk (OnRead (IoOk data)) w t ->
  read_handler (IoOk data) w = (w', Ret a) -> heads evs t w'.
Proof.
  intros Hh Hf (w1 & [] & ->%set_this_inv & E)%bind_inv. set (w1 := w.[self := _]) in E.
  assert (heads evs t w1) as Hh1 by (eapply (heads_steady evs t w); [by split_and!|done]).
  unfold try_catch in E. destruct (consume_stream w1) as [w2 [[]|e|]] eqn:Ec; [|by eapply heads_closed, close_settles|done].
  injection E as <- _. apply bind_inv in Ec as (w3 & s & [-> ->]%this_inv & Ec).
  apply bind_inv in Ec as (w4 & [v n] & E4 & Ec).
  assert (heads evs t w4) as Hh4 by (eapply chunk_loop_heads; [exact Hh1|exact Hf|exact E4]).
  revert Ec. match goal with |- ?m _ = _ -> _ =>
    assert (leaves (heads evs t) m) as Hm by auto 20 with lv; by apply Hm end.
Qed.

Lemma connect_ip_keeps_closed ip port : leaves (fun w => closing_ (self w) = true) (connect_ip ip port).
Proof. intros w w' a Hc [?|(-> & _)]%connect_ip_heads; done. Qed.

(** The end of a handler that owns the session. *)
Lemma owning_inv m w w' a P : Steady P -> owning m w = (w', Ret a) ->
  (forall w1, m (w.[held := true]) = (w1, Ret tt) -> P w1) -> P w'.
Proof.
  intros HP (w1 & [] & [= <-] & E)%bind_inv Hm. apply bind_inv in E as (w2 & [] & E2 & E).
  specialize (Hm w2 E2). revert Hm E.
  match goal with |- _ -> ?m _ = _ -> _ => assert (leaves P m) as Hl by auto 20 with lv; apply Hl end.
Qed.

(** The answer of the resolver: its address is connected to. *)
Lemma resolved_heads evs t err ip port w w' a :
  heads evs t w -> op_resolve w = Some port ->
  resolve_handler port err ip (w.[op_resolve := None]) = (w', Ret a) ->
  heads (evs ++ [OnResolved err ip]) t w'.
Proof.
  intros Hh Ho (w1 & w1' & [= <- <-] & E)%bind_inv. set (w1 := w.[op_resolve := None]) in *.
  assert (closing_ (self w) = true \/ ta_type t = Domain /\ got_target_ (self w) = true /\
    dests (calls w) = [ToName (host t)] /\ (port = Types.port t \/ destroyed w = true)) as Hcase.
  { destruct Hh as [?|_ ? _|Hg Hp]; [by left|congruence|right]. unfold placed in Hp.
    destruct (decide (ta_type t = Domain)); [|destruct Hp as (? & _ & ? & _); congruence].
    destruct Hp as [[Hd [Hp|Hp]]|(? & _ & ? & _)]; [..|congruence]; split_and!; try done; [left; congruence|by right]. }
  change (destroyed w1) with (destroyed w) in E. destruct (destroyed w) eqn:Ed.
  { injection E as <- _. destruct Hcase as [?|(Ht & Hg & Hd & _)]; [by apply heads_closed|].
    apply heads_to; [done|]. unfold placed. rewrite decide_True by done. left. split; [exact Hd|by right]. }
  eapply owning_inv; [apply _|exact E|]. clear E w' a. intros w2 (w3 & s & [-> ->]%this_inv & E)%bind_inv.
  destruct Hcase as [Hc|(Ht & Hg & Hd & [->|?])]; [| |done].
  { apply heads_closed. change (closing_ (self w1.[held := true])) with (closing_ (self w)) in E.
    rewrite Hc, orb_true_r in E. destruct ip; by eapply close_settles. }
  destruct ip as [ip|]; [|by eapply heads_closed, close_settles].
  destruct (bool_decide_reflect (err <> ERR_OK)) as [?|Herr]; cbn [orb] in E; [by eapply heads_closed, close_settles|].
  destruct (closing_ _); [by eapply heads_closed, close_settles|].
  apply connect_ip_heads in E as [?|(_ & Hg' & Hr & Hd')]; [by apply heads_closed|].
  apply heads_to; [by rewrite Hg'|]. unfold placed. rewrite decide_True by done. right. exists ip.
  split_and!; [|exact Hr|rewrite Hd'; change (calls _) with (calls w); by rewrite Hd].
  apply elem_of_app. right. assert (err = ERR_OK) as -> by (destruct (decide (err = ERR_OK)); [done|by destruct Herr]).
  set_solver.
Qed.

(** Every event leaves the session on its way. *)
Lemma deliver_heads evs t ev w w' :
  heads evs t w -> first_chunk ev w t -> deliver ev w = (w', Ret tt) -> heads (evs ++ [ev]) t w'.
Proof.
  intros Hh Hf (w1 & w1' & [= <- <-] & E)%bind_inv.
  assert (heads_of : forall m : M World unit, leaves (heads (evs ++ [ev]) t) m -> m w = (w', Ret tt) -> heads (evs ++ [ev]) t w').
  { intros m Hm. apply Hm. by apply heads_more. }
  assert (Hclosed : forall w, closing_ (self w) = true -> heads (evs ++ [ev]) t w) by (intros; by apply heads_closed).
  destruct ev as [r|r|r|err ip|err|data err| |].
  - revert E. apply heads_of. apply leaves_bind; [auto with lv|intros _; apply lv_owning; [apply _|]].
    destruct r; cbn; [|auto with lv..]. apply lv_try_close; [apply _|done|auto 10 with lv].
  - destruct r as [data| | |]; [|revert E; apply heads_of; cbn; auto 10 with lv..].
    apply bind_inv in E as (w1 & [] & [= <-] & E). eapply owning_inv; [apply _|exact E|]. intros w2 E2.
    apply heads_more. refine (read_heads evs t data _ _ _ _ _ E2); [|exact Hf].
    eapply (heads_steady evs t w); [by split_and!|done].
  - revert E. apply heads_of. destruct (op_write w); [|auto with lv].
    apply leaves_bind; [auto with lv|intros _; apply lv_owning; [apply _|]]. unfold write_handler. destruct r; cbn; auto 20 with lv.
  - destruct (op_resolve w) as [port|] eqn:Ho; [|injection E as <-; by apply heads_more].
    apply bind_inv in E as (w1 & [] & [= <-] & E). by eapply resolved_heads.
  - revert E. apply heads_of. unfold on_connected. auto 10 with lv.
  - revert E. apply heads_of. destruct (registered w); [|auto with lv]. apply leaves_bind; [|auto with lv].
    unfold on_recv. case_decide; [|auto 10 with lv]. destruct data as [data|]; [|auto 10 with lv].
    apply leaves_bind; [|auto 20 with lv]. apply leaves_try; [auto 10 with lv|].
    intros w1 w2 b (w3 & [] & E3 & E)%bind_inv. injection E as <- _. by eapply Hclosed, close_settles.
  - revert E. apply heads_of. unfold on_sent. auto 10 with lv.
  - revert E. apply heads_of. destruct (registered w); [|auto with lv]. unfold on_err. auto 20 with lv.
Qed.
End Dest.
