(* ===== verification/TcpInv.v ===== *)
(** * The invariant of a TCP relay session

    The life of a pcb as an automaton over the session's calls, the state the
    two directions work on, and the invariant that holds between and inside
    the handlers, with the tactics that run a handler and re-establish it. *)
From S2P Require Import Prelude Types Mbedtls Text Aead AeadStream Lwip Tcp.

Section Inv.
Context `{!Mbedtls, !TcpNet}.
Implicit Types (w : World) (s : TcpRelaySession).

(* ------------------------------------------------------------------ *)
(** ** The life of a pcb, read off the calls *)

Inductive pcb_phase :=
| NoPcb | Live (p : pcb) | Detached (p : pcb) | CloseFailed (p : pcb) | Gone.

(** The next phase, [None] when the call is not allowed: calls on a pcb only
    while it lives, its callbacks are removed before it is given up, and a
    failed [tcp_close] is followed by [tcp_abort]. *)
Definition phase_step (ph : pcb_phase) (c : call) : option pcb_phase :=
  match c with
  | SetNoDelay | ReadSalt | ReadSome | WriteSome _ | ShutdownSend | ShutdownBoth | CloseSocket
  | Resolve _ => Some ph
  | TcpNew r =>
      match ph with
      | NoPcb => Some (match r with Some p => Live p | None => NoPcb end)
      | _ => None
      end
  | TcpAttach p | TcpConnect p _ _ _ | TcpWrite p _ _ | TcpOutput p | TcpRecved p _
  | TcpShutdown p _ =>
      match ph with Live p' => if decide (p' = p) then Some ph else None | _ => None end
  | TcpDetach p =>
      match ph with Live p' => if decide (p' = p) then Some (Detached p) else None | _ => None end
  | TcpClose p err =>
      match ph with
      | Detached p' =>
          if decide (p' = p) then Some (if decide (err = ERR_OK) then Gone else CloseFailed p)
          else None
      | _ => None
      end
  | TcpAbort p =>
      match ph with
      | Detached p' | CloseFailed p' => if decide (p' = p) then Some Gone else None
      | _ => None
      end
  | TcpFreed p =>
      match ph with Live p' => if decide (p' = p) then Some Gone else None | _ => None end
  end.

Definition phase (cs : list call) : option pcb_phase :=
  foldl (fun ph c => ph ≫= fun ph => phase_step ph c) (Some NoPcb) cs.

Lemma bind_some_id {A} (m : option A) : m ≫= (fun x => Some x) = m.
Proof. by destruct m. Qed.

Lemma phase_snoc cs c : phase (cs ++ [c]) = phase cs ≫= fun ph => phase_step ph c.
Proof. unfold phase. by rewrite foldl_app. Qed.

(** The bytes a session has handed to lwIP, and to the client's socket. *)
Definition uploads (cs : list call) : list bytes :=
  omap (fun c => match c with
                 | TcpWrite _ data err => if decide (err = ERR_OK) then Some data else None
                 | _ => None
                 end) cs.
Definition downloads (cs : list call) : list bytes :=
  omap (fun c => match c with WriteSome data => Some data | _ => None end) cs.


(** The bytes of receive window given back to lwIP. *)
Definition recved (cs : list call) : Z :=
  foldr (fun c z => match c with TcpRecved _ n => n + z | _ => z end) 0 cs.

Lemma recved_app cs cs' : recved (cs ++ cs') = recved cs + recved cs'.
Proof. induction cs as [|c cs IH]; [done|]. unfold recved in *. destruct c; cbn; lia. Qed.
Lemma recved_one c : recved [c] = match c with TcpRecved _ n => n | _ => 0 end.
Proof. destruct c; try done. unfold recved. cbn. lia. Qed.

(** The parts of the state the two directions work on. *)
Definition down_view w :=
  let c := crypto_ (self w) in
  (master_key_ c, send_key_ c, send_nonce_ c, sent_salt_ c, sent_response_salt_ (self w),
   writing_client_ (self w), pending_client_ (self w), downloads (calls w),
   recved (calls w) + deferred_tcp_recved_ (self w)).
(** The master key in a [down_view]. *)
Definition view_key (v : bytes * bytes * bytes * bool * bool * bool * list bytes * list bytes * Z)
  : bytes := let '(mk, _, _, _, _, _, _, _, _) := v in mk.
Definition up_view w :=
  let c := crypto_ (self w) in
  (recv_key_ c, recv_nonce_ c, have_recv_key_ c, encrypted_in_ (self w), got_target_ (self w),
   concat (uploads (calls w) ++ pending_lwip_ (self w))).

(* ------------------------------------------------------------------ *)
(** ** The invariant *)

(** A pcb may still be created. *)
Definition may_connect w : bool :=
  negb (got_target_ (self w)) || bool_decide (is_Some (op_resolve w)).

Definition payload_ok (b : bytes) : Prop := b <> [] /\ (length b <= MaxChunk)%nat.

Record Inv (w : World) : Prop := {
  inv_wf : session_wf (crypto_ (self w));
  inv_bytes :
    client_queue_bytes_ (self w) = Z.of_nat (length (concat (pending_client_ (self w))));
  inv_deferred_pos : 0 <= deferred_tcp_recved_ (self w);
  inv_deferred : deferred_tcp_recved_ (self w) <> 0 ->
    pcb_ (self w) = None \/ ClientQueueLowWater <= client_queue_bytes_ (self w);
  inv_salt : sent_response_salt_ (self w) = sent_salt_ (crypto_ (self w));
  inv_payload : Forall payload_ok (pending_lwip_ (self w));
  inv_registered : registered w = pcb_ (self w);
  inv_active : active_self_ (self w) = bool_decide (is_Some (pcb_ (self w)));
  inv_phase : match pcb_ (self w) with
              | Some p => phase (calls w) = Some (Live p)
              | None => phase (calls w) = Some NoPcb \/ phase (calls w) = Some Gone
              end;
  inv_fresh : may_connect w = true ->
    pcb_ (self w) = None /\ phase (calls w) = Some NoPcb /\ deferred_tcp_recved_ (self w) = 0;
  inv_resolving : op_resolve w <> None -> got_target_ (self w) = true;
  inv_dead : destroyed w = true -> pcb_ (self w) = None;
  inv_key : have_recv_key_ (crypto_ (self w)) = false ->
    op_reads w = 0%nat /\ got_target_ (self w) = false;
  inv_once : op_salt w = true -> have_recv_key_ (crypto_ (self w)) = false
}.

(** The outstanding write is the one for the front of the queue. *)
Definition write_ok w : Prop :=
  match op_write w with
  | Some b => writing_client_ (self w) = true /\ head (pending_client_ (self w)) = Some b
  | None => writing_client_ (self w) = false
  end.

(** Something other than [active_self_] owns the session. *)
Definition anchored w : bool :=
  held w || op_salt w || (0 <? op_reads w)%nat || bool_decide (is_Some (op_write w)).

(** Inside a handler: [a] tells whether the session is anchored, [k] whether it
    was closing, [v] and [u] are the views. *)
Definition St (a k : bool) v u w : Prop :=
  Inv w /\ write_ok w /\ destroyed w = false /\ anchored w = a /\
  (k = true -> closing_ (self w) = true) /\ down_view w = v /\ up_view w = u.

(** After an operation that may release the session. *)
Definition Rel (a k : bool) v u w : Prop :=
  Inv w /\ write_ok w /\ (a = true -> destroyed w = false) /\ anchored w = a /\
  (k = true -> closing_ (self w) = true) /\ down_view w = v /\ up_view w = u.

Lemma owners_anchored w :
  owners w = 0%nat <-> anchored w = false /\ active_self_ (self w) = false.
Proof.
  unfold owners, anchored. destruct (held w), (op_salt w), (op_write w), (active_self_ (self w)),
    (Nat.ltb_spec 0 (op_reads w)); cbn; split; intros; try done; try lia; naive_solver lia.
Qed.

Lemma uploads_app cs cs' : uploads (cs ++ cs') = uploads cs ++ uploads cs'.
Proof. apply omap_app. Qed.
Lemma downloads_app cs cs' : downloads (cs ++ cs') = downloads cs ++ downloads cs'.
Proof. apply omap_app. Qed.

Lemma uploads_one c :
  uploads [c] = match c with
                | TcpWrite _ data err => if decide (err = ERR_OK) then [data] else []
                | _ => []
                end.
Proof. destruct c; try done. unfold uploads. cbn. by case_decide. Qed.
Lemma downloads_one c :
  downloads [c] = match c with WriteSome data => [data] | _ => [] end.
Proof. by destruct c. Qed.

Lemma St_Rel a k v u w : St a k v u w -> Rel a k v u w.
Proof. intros (? & ? & ? & ? & ? & ? & ?). by do 6 (split; [done|]). Qed.

Lemma Rel_true a k v u w : Rel a true v u w -> Rel a k v u w.
Proof. intros (? & ? & ? & ? & ? & ? & ?). do 6 (split; [by auto|]). done. Qed.

Lemma St_true a k v u w : St a true v u w -> St a k v u w.
Proof. intros (? & ? & ? & ? & ? & ? & ?). do 6 (split; [by auto|]). done. Qed.

Lemma Rel_St a k v u w : Rel a k v u w -> destroyed w = false -> St a k v u w.
Proof. intros (? & ? & ? & ? & ? & ? & ?) ?. by do 6 (split; [done|]). Qed.

End Inv.

#[global] Arguments phase {_} : simpl never.
#[global] Arguments uploads {_} : simpl never.
#[global] Arguments downloads {_} : simpl never.
#[global] Arguments recved {_} : simpl never.
#[global] Arguments close : simpl never.
#[global] Arguments release_active_self : simpl never.

(** Make the world's fields variables, so that the code runs by computation. *)
Ltac open_world w :=
  destruct w as [[cry act pcb0 inb upq dnq qb dfr gt srs prd wrt ceo reo clo]
    hld dst osl rds owr ore reg gen net0 cls];
  unfold update, anchored in *; cbn in *;
  try subst dst; try subst pcb0; try subst upq; try subst dnq; try subst clo; try subst gt;
  try subst act; try subst hld; try subst owr; try subst ore; try subst wrt; try subst prd.
Ltac run_code :=
  unfold this, set_this, log, stack_, stack, ask, lift, get, put, modify, try_catch, throw,
    mbind, M_bind, outcome_bind, mret, M_ret, outcome_ret, update, anchored; cbn.

(** Take a branch of the code. *)
Ltac branch :=
  match goal with |- context [(if ?b then _ else _) _] => destruct b eqn:?; cbn end.

(** Step over a call with a specification [H]: its precondition, then its
    postcondition on the way on. *)
Ltac call H :=
  match type of H with
  | spec ?P ?m ?Q ?E =>
      match goal with
      | |- context [m ?w] =>
          let Hm := fresh "Hcall" in
          assert (P w) as Hm; [cbn|apply H in Hm;
            let w' := fresh "w" in destruct (m w) as [w' [?|?|]]; cbn in Hm |- *;
            [revert Hm|try done; revert Hm|by destruct Hm]]
      end
  end.

(** Re-establish the invariant at a state whose fields are variables. *)
Ltac view_eq :=
  try match goal with
      | H : down_view _ = ?v |- down_view _ = ?v => rewrite <- H
      | H : up_view _ = ?u |- up_view _ = ?u => rewrite <- H
      end;
  unfold down_view, up_view; cbn;
  rewrite ?uploads_app, ?downloads_app, ?recved_app, ?uploads_one, ?downloads_one, ?recved_one; cbn;
  repeat first [rewrite decide_True by done | rewrite decide_False by done];
  rewrite ?app_nil_r, ?Z.add_0_r; try done.
Ltac next_phase :=
  repeat (rewrite phase_snoc; cbn); rewrite ?bind_some_id;
  repeat match goal with H : phase _ = _ \/ phase _ = _ |- _ => destruct H as [H|H] end;
  repeat match goal with H : phase _ = Some _ |- _ => rewrite H end;
  cbn; repeat (first [rewrite decide_True by done | rewrite decide_False by done]; cbn); auto.
Ltac inv_step HI :=
  destruct HI as [Iwf Ibytes Idp Idf Isalt Ipl Ireg Iact Iph Ifr Ires Idead Ikey Ionce];
  unfold may_connect in *; cbn in *.
Ltac inv_split :=
  split; unfold may_connect in *; cbn in *; try done; auto;
  try match goal with
      | Ifr : ?b = true -> _ |- ?b = true -> _ =>
          let X := fresh in intros X; destruct (Ifr X) as (? & ? & ?); try done; subst
      end.
Ltac still_owned :=
  let X := fresh in
  unfold anchored; cbn; intros X;
  match goal with Ha : _ = ?a |- _ => rewrite X in Ha; rewrite Ha; by rewrite ?andb_false_r end.
Ltac rel_split := split; [|split; [|split; [try first [done|still_owned]|split; [try done|split; [try done|split; view_eq]]]]].

