(* ===== verification/TcpFacts.v ===== *)
(** * Specifications of the session's operations

    For each operation of a TCP relay session: it keeps the invariant, returns
    without undefined behaviour, and what it does to the two directions. *)
From S2P Require Import Prelude Types Mbedtls Text Aead AeadStream Address Lwip Tcp TcpInv.

Section Facts.
Context `{!Mbedtls, !MbedtlsLaws, !IpText, !TcpNet}.
Implicit Types (w : World) (s : TcpRelaySession).

Lemma release_run w :
  destroyed w = false -> pcb_ (self w) = None ->
  release_active_self w =
  (w.[self := (self w).[active_self_ := false]]
    .[destroyed := active_self_ (self w) && negb (anchored w)], Ret tt).
Proof.
  intros Hd Hp. pose proof (owners_anchored (w.[self := (self w).[active_self_ := false]])) as Ho.
  open_world w. unfold release_active_self, dropped_owner, destructor. run_code.
  destruct act; cbn; [|done]. case_decide as Hz.
  - apply Ho in Hz as [-> _]. done.
  - destruct (_ || _) eqn:Han in Ho |- *; [done|]. by destruct Hz; apply Ho.
Qed.

Lemma close_closing w :
  destroyed w = false -> closing_ (self w) = true -> close w = (w, Ret tt).
Proof. intros Hd Hc. unfold close. run_code. by rewrite Hd, Hc. Qed.

Lemma close_spec a k v u :
  spec (St a k v u) close (fun _ w => Rel a true v u w /\ closing_ (self w) = true) (fun _ => False).
Proof.
  intros w Hst. destruct (closing_ (self w)) eqn:Ec.
  { destruct Hst as (? & ? & Hd & ? & ? & ? & ?). unfold close. run_code. rewrite Hd, Ec.
    split; [|done]. apply St_Rel. by do 6 (split; [done|]). }
  destruct Hst as (HI & Hw & Hd & Ha & Hk & Hv & Hu).
  open_world w. inv_step HI. unfold close, detach_pcb_callbacks. run_code.
  destruct pcb0 as [p|]; cbn.
  - destruct (tcp_close p _) as [err n'] eqn:Ecl. case_decide; cbn; rewrite release_run by done;
      unfold update; cbn; (split; [|done]); rel_split; try done; inv_split; right; next_phase.
  - rewrite release_run by done. unfold update; cbn. split; [|done]. rel_split; [|done].
    inv_split; next_phase.
Qed.

Lemma payload_u16 pkt :
  payload_ok pkt -> take (Z.to_nat (u16 (Z.of_nat (PacketBuffer.size pkt)))) pkt = pkt.
Proof.
  intros [_ Hl]. unfold PacketBuffer.size. rewrite u16_small; [by rewrite Nat2Z.id, firstn_all|].
  unfold MaxChunk in Hl. lia.
Qed.

Lemma flush_loop_spec fuel p a k v u :
  spec (fun w => St a k v u w /\ pcb_ (self w) = Some p /\
          (length (pending_lwip_ (self w)) < fuel)%nat)
    (flush_loop fuel p)
    (fun b w => Rel a k v u w /\ (b = true -> destroyed w = false /\ pcb_ (self w) = Some p))
    (fun _ => False).
Proof.
  induction fuel as [|fuel IH]; intros w (Hst & Hp & Hf); [lia|]. cbn [flush_loop].
  pose proof Hst as (HI & Hw & Hd & Ha & Hk & Hv & Hu).
  destruct (pending_lwip_ (self w)) as [|pkt rest] eqn:Epl.
  { run_code. rewrite Hd, Epl. split; [by apply St_Rel|done]. }
  open_world w. inv_step HI. inversion_clear Ipl as [|? ? Hpkt Hrest].
  run_code. rewrite payload_u16 by done. branch.
  { split; [|done]. rel_split; [|done]. inv_split. next_phase. }
  destruct (tcp_write p pkt net0) as [err n']. cbn. case_decide as Hmem; cbn.
  { subst err. split; [|done]. rel_split; [|done]. inv_split. next_phase. }
  case_decide as Hok; cbn.
  - apply IH. split; [|split; [done|cbn; lia]]. rel_split; [|done|].
    + inv_split. next_phase.
    + by rewrite <- !app_assoc.
  - call (close_spec a k v u).
    { rel_split; [|done]. inv_split. next_phase. }
    intros [Hr _]. split; [by apply Rel_true|done].
Qed.

#[global] Arguments flush_loop : simpl never.

Lemma flush_to_lwip_spec a k v u :
  spec (St a k v u) flush_to_lwip (fun _ w => Rel a k v u w) (fun _ => False).
Proof.
  intros w Hst. pose proof Hst as (HI & Hw & Hd & Ha & Hk & Hv & Hu).
  unfold flush_to_lwip. run_code. rewrite Hd.
  destruct (pcb_ (self w)) as [p|] eqn:Ep; [|by apply St_Rel].
  call (flush_loop_spec (S (length (pending_lwip_ (self w)))) p a k v u); [by auto|].
  intros [Hr Hb]. destruct a0; [|done]. destruct Hb as [Hd0 Hp0]; [done|].
  destruct Hr as (HI0 & Hw0 & _ & Ha0 & Hk0 & Hv0 & Hu0). open_world w0. inv_step HI0.
  rel_split; [|done]. inv_split. next_phase.
Qed.

(** In a handler that owns the session nothing destroys it. *)
Lemma flush_held k v u :
  spec (St true k v u) flush_to_lwip (fun _ w => St true k v u w) (fun _ => False).
Proof.
  eapply spec_conseq; [apply flush_to_lwip_spec|done| |done].
  intros ? w Hr. apply Rel_St; [done|]. by apply Hr.
Qed.

Lemma close_held k v u :
  spec (St true k v u) close (fun _ w => St true true v u w) (fun _ => False).
Proof.
  eapply spec_conseq; [apply close_spec|done| |done].
  intros ? w [Hr _]. apply Rel_St; [done|]. by apply Hr.
Qed.

Lemma read_any_spec a k v rk rn ei got data :
  spec (St a k v (rk, rn, true, ei, got, data)) read_encrypted_stream
    (fun _ w => exists a', (a = true -> a' = true) /\ St a' k v (rk, rn, true, ei, got, data) w)
    (fun _ => False).
Proof.
  intros w Hst. pose proof Hst as (HI & Hw & Hd & Ha & Hk & Hv & Hu).
  unfold read_encrypted_stream. run_code. rewrite Hd. branch; [by exists a|]. exists true.
  split; [done|]. open_world w. inv_step HI. rel_split; [inv_split; next_phase|done|].
  - intros Hf. injection Hu as _ _ Hh _ _ _. congruence.
  - unfold anchored. cbn. by destruct hld, osl.
Qed.

Lemma read_spec k v rk rn ei got data :
  spec (St true k v (rk, rn, true, ei, got, data)) read_encrypted_stream
    (fun _ w => St true k v (rk, rn, true, ei, got, data) w) (fun _ => False).
Proof.
  eapply spec_conseq; [apply (read_any_spec true k v rk rn ei got data)|done| |done].
  intros ? w (a' & -> & Hst); done.
Qed.

(* ------------------------------------------------------------------ *)
(** ** Connecting *)

(** The target is known, and no pcb has been made yet. *)
Definition fresh w : Prop :=
  got_target_ (self w) = true /\ pcb_ (self w) = None /\ phase (calls w) = Some NoPcb /\
  deferred_tcp_recved_ (self w) = 0 /\ op_resolve w = None.

Lemma connect_ip_spec ip port k v u :
  spec (fun w => St true k v u w /\ fresh w) (connect_ip ip port)
    (fun _ w => St true k v u w) (fun _ => False).
Proof.
  intros w [(HI & Hw & Hd & Ha & Hk & Hv & Hu) (Hg & Hp & Hph & Hdf & Hr)].
  open_world w. inv_step HI. unfold connect_ip. run_code.
  destruct (tcp_new_pcb net0) as [[p|] n1] eqn:En; cbn.
  - destruct (tcp_connect p ip port (tcp_callbacks p true n1)) as [err n2] eqn:Ec. cbn.
    branch.
    + rel_split; [|done]. inv_split. next_phase.
    + call (close_held k v u); [|apply St_true].
      rel_split; [|done]. inv_split. next_phase.
  - call (close_held k v u); [|apply St_true].
    rel_split; [|done]. inv_split. next_phase.
Qed.

Lemma connect_target_spec target k v u :
  spec (fun w => St true k v u w /\ fresh w) (connect_target target)
    (fun _ w => St true k v u w) (fun w => St true k v u w).
Proof.
  intros w [Hst Hf]. unfold connect_target. case_decide.
  - destruct Hst as (HI & Hw & Hd & Ha & Hk & Hv & Hu). destruct Hf as (Hg & Hp & Hph & Hdf & Hr).
    open_world w. inv_step HI. unfold resolve_domain_then_connect. cbn.
    destruct (async_resolve (host target) net0) as [n1 [e|]] eqn:Er; unfold update; cbn;
      rel_split; try done; inv_split; next_phase.
  - run_code. unfold parse_lwip_ip. destruct (ipaddr_aton _) as [ip|]; [|done].
    call (connect_ip_spec ip (port target) k v u); done.
Qed.

(** What the decrypted chunks mean: the address in the first one that has one,
    and the payload behind it. *)
Definition absorb (st : bool * bytes) (chunk : bytes) : bool * bytes :=
  let '(got, data) := st in
  if got then (true, data ++ chunk)
  else match parse_ss_address chunk with
       | (v, Ret (Some _)) => (true, data ++ v)
       | _ => (false, data)
       end.

Lemma queue_payload_spec b k v rk rn hk ei got data :
  (length b <= MaxChunk)%nat ->
  spec (St true k v (rk, rn, hk, ei, got, data)) (queue_payload b)
    (fun _ w => St true k v (rk, rn, hk, ei, got, data ++ b) w) (fun _ => False).
Proof.
  intros Hb w Hst. unfold queue_payload. case_decide as Hn.
  { subst. by rewrite app_nil_r. }
  destruct Hst as (HI & Hw & Hd & Ha & Hk & Hv & Hu). open_world w. inv_step HI. run_code.
  rel_split; [|done|].
  - inv_split. apply Forall_app. split; [done|]. by apply Forall_singleton.
  - injection Hu as <- <- <- <- <- <-. by rewrite !concat_app, <- app_assoc; cbn; rewrite app_nil_r.
Qed.

Lemma set_target_spec k v rk rn ei data :
  spec (St true k v (rk, rn, true, ei, false, data)) (set_this (fun s => s.[got_target_ := true]))
    (fun _ w => St true k v (rk, rn, true, ei, true, data) w /\ fresh w) (fun _ => False).
Proof.
  intros w (HI & Hw & Hd & Ha & Hk & Hv & Hu). open_world w. inv_step HI. run_code.
  injection Hu as <- <- Hh <- -> <-. destruct Ifr as (-> & Hph & ->); [done|].
  assert (ore = None) as -> by (destruct ore; [by ospecialize (Ires _)|done]).
  split; [|done]. rel_split; [|done|by rewrite Hh]. inv_split; next_phase; congruence.
Qed.

Lemma process_spec chunk k v rk rn ei st :
  (length chunk <= MaxChunk)%nat ->
  spec (St true k v (rk, rn, true, ei, fst st, snd st)) (process_decrypted_chunk chunk)
    (fun _ w => St true k v (rk, rn, true, ei, fst (absorb st chunk), snd (absorb st chunk)) w)
    (fun w => exists u, St true k v u w).
Proof.
  destruct st as [got data]. cbn [fst snd absorb]. intros Hl w Hst.
  pose proof Hst as (HI & Hw & Hd & Ha & Hk & Hv & Hu).
  assert (got_target_ (self w) = got) as Hg by (by injection Hu as <-).
  unfold process_decrypted_chunk, this, mbind, M_bind. rewrite Hd, Hg. destruct got.
  { call (queue_payload_spec chunk k v rk rn true ei true data Hl); done. }
  destruct (parse_ss_address_cases chunk) as [(t & wi & rest & Hwi & ->)|[rest Hn]].
  - rewrite (parse_wire t wi rest Hwi). clear Hst.
    call (set_target_spec k v rk rn ei data); [done|]. intros Hf.
    call (connect_target_spec t k v (rk, rn, true, ei, true, data)); [done| |by eauto].
    intros Hst1. assert (length rest <= MaxChunk)%nat as Hr by len.
    call (queue_payload_spec rest k v rk rn true ei true data Hr); done.
  - rewrite Hn. call (close_held k v (rk, rn, true, ei, false, data)); [done|]. apply St_true.
Qed.

(* ------------------------------------------------------------------ *)
(** ** Reading the stream *)

(** A session seen by its receiving half only. *)
Definition receiver (rk rn : bytes) (hk : bool) : Session := mkSession [] [] rk [] rn hk false.

Lemma decrypt_receiver c b :
  decrypt_tcp_chunk (c, b) =
  let '((c', b'), r) :=
    decrypt_tcp_chunk (receiver (recv_key_ c) (recv_nonce_ c) (have_recv_key_ c), b) in
  ((set_recv_nonce (recv_nonce_ c') c, b'), r).
Proof.
  unfold decrypt_tcp_chunk. cbn [receiver have_recv_key_ recv_key_ recv_nonce_].
  assert (set_recv_nonce (recv_nonce_ c) c = c) as Hc by (by destruct c).
  repeat case_match; cbn [receiver set_recv_nonce recv_nonce_]; by rewrite ?Hc.
Qed.

Lemma set_crypto_spec c n k v rk rn hk ei got data :
  length n = length rn ->
  spec (fun w => St true k v (rk, rn, hk, ei, got, data) w /\ c = set_recv_nonce n (crypto_ (self w)))
    (set_this (fun s => s.[crypto_ := c]))
    (fun _ w => St true k v (rk, n, hk, ei, got, data) w) (fun _ => False).
Proof.
  intros Hn w [(HI & Hw & Hd & Ha & Hk & Hv & Hu) ->]. open_world w. inv_step HI. run_code.
  injection Hu as <- <- <- <- <- <-. rel_split; [|done]. inv_split.
  destruct Iwf as (? & ? & ? & ? & Hr). rewrite Hr in Hn. by do 4 (split; [done|]).
Qed.

Lemma chunk_loop_spec fuel view consumed k v rk rn ei st :
  (length view < fuel)%nat -> (length view <= length ei)%nat ->
  spec (St true k v (rk, rn, true, ei, fst st, snd st)) (chunk_loop fuel view consumed)
    (fun '(view', consumed') w => exists ps rn',
       drain fuel (receiver rk rn true, view) = (ps, (receiver rk rn' true, view'), Ret tt) /\
       (ps = [] -> view' = view /\ consumed' = consumed) /\
       (ps <> [] -> (length view' < length ei)%nat /\ consumed' = length ei - length view')%nat /\
       St true k v (rk, rn', true, ei, fst (foldl absorb st ps), snd (foldl absorb st ps)) w)
    (fun w => exists u, St true k v u w).
Proof.
  revert view consumed rn st.
  induction fuel as [|fuel IH]; intros view consumed rn st Hf Hei; [lia|]. intros w Hst.
  cbn [chunk_loop drain].
  pose proof Hst as (HI & Hw & Hd & Ha & Hk & Hv & Hu).
  assert (rk = recv_key_ (crypto_ (self w)) /\ rn = recv_nonce_ (crypto_ (self w)) /\
    true = have_recv_key_ (crypto_ (self w)) /\ ei = encrypted_in_ (self w)) as (Erk & Ern & Ehk & Eei)
    by (injection Hu as <- <- <- <- _ _; done).
  unfold on_crypto, this, mbind, M_bind. rewrite Hd.
  rewrite decrypt_receiver, <- Erk, <- Ern, <- Ehk.
  pose proof (decrypt_tcp_chunk_cases (receiver rk rn true) view) as Hc.
  destruct (decrypt_tcp_chunk (receiver rk rn true, view)) as [[c' view'] [[p|]|e|]]; [| | |done].
  - destruct Hc as (_ & Hv2 & -> & Ho & Hlen). apply open_chunk_max in Ho as [Hmax _]; [|done].
    cbn [receiver set_recv_nonce recv_nonce_ recv_key_ have_recv_key_].
    set (n := increment_nonce (increment_nonce rn)).
    assert (length n = length rn) as Hn by apply increment_twice_length.
    call (set_crypto_spec (set_recv_nonce n (crypto_ (self w))) n k v rk rn true ei (fst st) (snd st) Hn);
      [done|]. intros Hst1. pose proof Hst1 as (_ & _ & Hd1 & _ & _ & _ & Hu1). rewrite Hd1.
    assert (encrypted_in_ (self w0) = ei) as -> by (by injection Hu1).
    unfold PacketBuffer.size.
    call (process_spec p k v rk n ei st Hmax); [done|]. intros Hst2.
    assert (length view' < fuel /\ length view' <= length ei)%nat as [Hf' Hei'] by lia.
    call (IH view' (length ei - length view')%nat n (absorb st p) Hf' Hei'); [done|].
    destruct a1 as [view'' consumed'']. intros (ps & rn' & Hdr & Hnil & Hcons & Hst3).
    change (set_recv_nonce n (receiver rk rn true)) with (receiver rk n true). rewrite Hdr.
    exists (p :: ps), rn'. split; [done|]. split; [done|]. split; [|done]. intros _.
    destruct ps as [|q ps]; [destruct Hnil as [-> ->]; [done|]; lia|by apply Hcons].
  - injection Hc as -> ->. cbn [receiver recv_nonce_].
    call (set_crypto_spec (set_recv_nonce rn (crypto_ (self w))) rn k v rk rn true ei (fst st) (snd st) eq_refl);
      [done|]. intros Hst1. by exists [], rn.
  - destruct Hc as ([= -> ->] & _). cbn [receiver recv_nonce_].
    call (set_crypto_spec (set_recv_nonce rn (crypto_ (self w))) rn k v rk rn true ei (fst st) (snd st) eq_refl);
      [done|]. by eauto.
Qed.

#[global] Arguments chunk_loop : simpl never.

Lemma set_in_spec (f : bytes -> bytes) k v rk rn hk ei got data :
  spec (St true k v (rk, rn, hk, ei, got, data))
    (set_this (fun s => s.[encrypted_in_ := f (encrypted_in_ s)]))
    (fun _ w => St true k v (rk, rn, hk, f ei, got, data) w) (fun _ => False).
Proof.
  intros w (HI & Hw & Hd & Ha & Hk & Hv & Hu). open_world w. inv_step HI. run_code.
  injection Hu as <- <- <- <- <- <-. rel_split; [|done]. inv_split.
Qed.

Lemma keep_rest_spec consumed view k v rk rn hk ei got data :
  (consumed = 0%nat -> view = ei) ->
  spec (St true k v (rk, rn, hk, ei, got, data))
    (if decide (consumed = 0)%nat then mret tt else set_this (fun s => s.[encrypted_in_ := view]))
    (fun _ w => St true k v (rk, rn, hk, view, got, data) w) (fun _ => False).
Proof.
  intros Hz. case_decide as Hc.
  - rewrite (Hz Hc). by intros w.
  - apply (set_in_spec (fun _ => view)).
Qed.

(** The state of the receive path after the chunks [ps]. *)
Definition received_view rk rn hk rest (st : bool * bytes) (ps : list bytes) :=
  (rk, rn, hk, rest, fst (foldl absorb st ps), snd (foldl absorb st ps)) : bytes * bytes * bool * bytes * bool * bytes.

Lemma consume_spec k v rk rn ei st :
  spec (St true k v (rk, rn, true, ei, fst st, snd st)) consume_stream
    (fun _ w => exists ps rn' rest,
       drain_all (receiver rk rn true, ei) = (ps, (receiver rk rn' true, rest), Ret tt) /\
       St true k v (received_view rk rn' true rest st ps) w)
    (fun w => exists u, St true k v u w).
Proof.
  intros w Hst. pose proof Hst as (_ & _ & Hd & _ & _ & _ & Hu).
  assert (encrypted_in_ (self w) = ei) as Hei by (by injection Hu).
  unfold consume_stream, this, mbind, M_bind. rewrite Hd. cbv zeta. rewrite Hei.
  assert (length ei < S (length ei) /\ length ei <= length ei)%nat as [H1' H2'] by lia.
  call (chunk_loop_spec (S (length ei)) ei 0 k v rk rn ei st H1' H2'); [done|].
  destruct a as [view consumed]. intros (ps & rn' & Hdr & Hnil & Hcons & Hst1).
  assert (consumed = 0%nat -> view = ei) as Hz.
  { intros ->. destruct ps as [|p ps]; [by destruct Hnil|]. destruct Hcons; [done|]. lia. }
  call (keep_rest_spec consumed view k v rk rn' true ei (fst (foldl absorb st ps))
    (snd (foldl absorb st ps)) Hz); [done|]. intros Hst2.
  call (flush_held k v (received_view rk rn' true view st ps)); [done|]. intros Hst3.
  call (read_spec k v rk rn' view (fst (foldl absorb st ps)) (snd (foldl absorb st ps))); [done|]. intros Hst4. by exists ps, rn', view.
Qed.

Lemma read_ok_spec data k v rk rn ei st :
  spec (St true k v (rk, rn, true, ei, fst st, snd st)) (read_handler (IoOk data))
    (fun _ w => exists u, St true k v u w /\
       (closing_ (self w) = false -> exists ps rn' rest,
          drain_all (receiver rk rn true, ei ++ data) = (ps, (receiver rk rn' true, rest), Ret tt) /\
          u = received_view rk rn' true rest st ps))
    (fun _ => False).
Proof.
  unfold read_handler. eapply spec_bind;
    [apply (set_in_spec (fun e => PacketBuffer.append e data))|]. intros ?.
  eapply spec_try.
  - eapply spec_conseq; [apply (consume_spec k v rk rn (ei ++ data) st)|done| |].
    + intros ? w (ps & rn' & rest & Hd & Hst). eexists. split; [done|]. intros _. by exists ps, rn', rest.
    + intros w Hw. exact Hw.
  - intros w [u Hst]. call (close_held k v u); [done|]. intros Hc.
    exists u. split; [by apply St_true|]. intros Hcl.
    destruct Hc as (_ & _ & _ & _ & Hk & _). by rewrite Hk in Hcl.
Qed.

(* ------------------------------------------------------------------ *)
(** ** The other handlers *)

Lemma this_spec (P : World -> Prop) E :
  (forall w, P w -> destroyed w = false) -> spec P this (fun s w => P w /\ s = self w) E.
Proof. intros HP w Hw. unfold this. by rewrite (HP w Hw). Qed.

Lemma ask_spec {A} (P : World -> Prop) (f : net -> A) E : spec P (ask f) (fun _ w => P w) E.
Proof. by intros w. Qed.

Lemma abort_pcb_spec p k v u :
  spec (fun w => St true k v u w /\ pcb_ (self w) = Some p) (abort_pcb p)
    (fun _ w => St true k v u w) (fun _ => False).
Proof.
  intros w [(HI & Hw & Hd & Ha & Hk & Hv & Hu) Hp]. open_world w. inv_step HI.
  unfold abort_pcb, detach_pcb_callbacks. run_code. rewrite release_run by done.
  unfold update; cbn. rel_split; [|done|].
  - inv_split. right. next_phase.
  - unfold anchored. cbn. rewrite Ha. by rewrite andb_false_r.
Qed.

Lemma set_eof_spec k v u :
  spec (St true k v u) (set_this (fun s => s.[client_eof_ := true]))
    (fun _ w => St true k v u w) (fun _ => False).
Proof.
  intros w (HI & Hw & Hd & Ha & Hk & Hv & Hu). open_world w. inv_step HI. run_code.
  rel_split; [|done]. inv_split.
Qed.

Lemma shutdown_spec p k v u :
  spec (fun w => St true k v u w /\ pcb_ (self w) = Some p)
    (err ← stack (tcp_shutdown_tx p) (TcpShutdown p);
     if decide (err = ERR_OK) then mret tt else abort_pcb p)
    (fun _ w => St true k v u w) (fun _ => False).
Proof.
  eapply spec_bind with (Q := fun _ w => St true k v u w /\ pcb_ (self w) = Some p).
  - intros w [(HI & Hw & Hd & Ha & Hk & Hv & Hu) Hp]. open_world w. inv_step HI. run_code.
    destruct (tcp_shutdown_tx p net0) as [err n']. split; [|done].
    rel_split; [|done]. inv_split. next_phase.
  - intros err. case_decide; [by intros w [? _]|apply abort_pcb_spec].
Qed.

Lemma client_eof_spec k v u :
  spec (St true k v u) handle_client_eof (fun _ w => St true k v u w) (fun _ => False).
Proof.
  unfold handle_client_eof. eapply spec_bind; [apply set_eof_spec|intros ?].
  eapply spec_bind; [apply this_spec; by intros w (_ & _ & ? & _)|intros s].
  eapply spec_bind with (Q := fun _ w => St true k v u w).
  - destruct (pcb_ s) as [p|] eqn:Ep; [|by intros w [? _]].
    eapply spec_bind; [apply ask_spec|intros state].
    assert (forall m : M World unit,
      spec (fun w => St true k v u w /\ pcb_ (self w) = Some p) m
        (fun _ w => St true k v u w) (fun _ => False) ->
      spec (fun w => St true k v u w /\ s = self w) m
        (fun _ w => St true k v u w) (fun _ => False)) as Hm.
    { intros m Hm. eapply spec_conseq; [apply Hm| |done|done]. by intros w [? ->]. }
    destruct state; apply Hm; first [apply shutdown_spec | apply abort_pcb_spec].
  - intros ?. eapply spec_bind; [apply this_spec; by intros w (_ & _ & ? & _)|intros s'].
    case_match; [|by intros w [? _]].
    eapply spec_conseq; [apply close_held| | |done]; [by intros w [? _]|].
    intros ? w. apply St_true.
Qed.

(** What [set_client_salt] leaves in a session. *)
Lemma install_salt_spec salt k v rk rn hk ei got data :
  length salt = SaltSize ->
  spec (fun w => St true k v (rk, rn, hk, ei, got, data) w /\ op_salt w = false) (on_crypto (set_client_salt salt))
    (fun _ w => exists key,
       derive_subkey (master_key_ (crypto_ (self w))) salt = Ret key /\
       St true k v (key, zeros NonceSize, true, ei, got, data) w)
    (fun _ => False).
Proof.
  intros Hl w [(HI & Hw & Hd & Ha & Hk & Hv & Hu) Hs]. open_world w. inv_step HI.
  destruct (set_client_salt_Ret cry salt Hl) as (key & Hkey & Hkl & Hset).
  unfold on_crypto. run_code. rewrite Hset. cbn. exists key. split; [done|].
  injection Hu as <- <- <- <- <- <-. rel_split; [|done]. inv_split.
  - destruct Iwf as (? & ? & ? & ? & ?). by do 3 (split; [done|]).
  - by rewrite Hs.
Qed.

Lemma salt_handler_spec r k v rk rn hk ei got data :
  match r with IoOk salt => length salt = SaltSize | _ => True end ->
  spec (fun w => St true k v (rk, rn, hk, ei, got, data) w /\ op_salt w = false) (salt_handler r)
    (fun _ w => exists u, St true k v u w /\
       (closing_ (self w) = false -> exists salt key, r = IoOk salt /\
          derive_subkey (master_key_ (crypto_ (self w))) salt = Ret key /\
          u = (key, zeros NonceSize, true, ei, got, data)))
    (fun _ => False).
Proof.
  intros Hr.
  assert (forall u, spec (St true k v u) close (fun _ w => exists u, St true k v u w /\
    (closing_ (self w) = false -> exists salt key, r = IoOk salt /\
      derive_subkey (master_key_ (crypto_ (self w))) salt = Ret key /\
      u = (key, zeros NonceSize, true, ei, got, data))) (fun _ => False)) as Hclose.
  { intros u. eapply spec_conseq; [apply (close_held k v u)|done| |done].
    intros ? w Hst. exists u. split; [by apply St_true|]. intros Hc.
    destruct Hst as (_ & _ & _ & _ & Hk & _). by rewrite Hk in Hc. }
  destruct r as [salt| | |];
    [|by (eapply spec_conseq; [apply Hclose|by intros w [? _]|done|done])..]. unfold salt_handler.
  apply (spec_try _ _ _ (fun _ => False)); [|by intros w].
  eapply spec_bind; [apply install_salt_spec; done|]. intros ? w (key & Hkey & Hst).
  pose proof Hst as (_ & _ & _ & _ & _ & Hv & _).
  call (read_spec k v key (zeros NonceSize) ei got data); [done|]. intros Hst1.
  eexists. split; [exact Hst1|]. intros _. exists salt, key. split; [done|]. split; [|done].
  destruct Hst1 as (_ & _ & _ & _ & _ & Hv1 & _).
  assert (master_key_ (crypto_ (self w0)) = master_key_ (crypto_ (self w))) as ->; [|done].
  rewrite <- Hv1 in Hv. by injection Hv.
Qed.

(** Handing the deferred window back: everything else stays. *)
Lemma recved_loop_run fuel p w :
  destroyed w = false -> 0 <= deferred_tcp_recved_ (self w) ->
  deferred_tcp_recved_ (self w) <= 65535 * (Z.of_nat fuel - 1) ->
  exists n' ns,
    recved_loop fuel p w =
      (w.[self := (self w).[deferred_tcp_recved_ := 0]].[lwip := n']
        .[calls := calls w ++ (TcpRecved p <$> ns)], Ret tt) /\
    recved (TcpRecved p <$> ns) = deferred_tcp_recved_ (self w) /\
    Forall (fun n => 0 < n <= 65535) ns.
Proof.
  revert w. induction fuel as [|fuel IH]; intros w Hd Hpos Hf; [lia|].
  cbn [recved_loop]. open_world w. run_code. destruct (Z.eqb_spec dfr 0) as [->|Hn].
  { exists net0, []. cbn. rewrite app_nil_r. done. }
  set (nr := u16 (Z.min dfr 65535)). assert (nr = Z.min dfr 65535) as Enr
    by (apply u16_small; lia).
  cbn. match goal with |- context [recved_loop fuel p ?w] => destruct (IH w) as (n' & ns & -> & Hs & Hall) end;
    unfold update in *; cbn in *; [done|lia|lia|].
  - exists n', (nr :: ns). rewrite <- app_assoc. cbn. split; [done|]. split.
    + change (TcpRecved p nr :: (TcpRecved p <$> ns)) with ([TcpRecved p nr] ++ (TcpRecved p <$> ns)).
      rewrite recved_app, recved_one, Hs. lia.
    + constructor; [lia|done].
Qed.

#[global] Arguments recved_loop : simpl never.

Lemma flush_client_spec a k mk sk sn ss sr wr pend ds win u :
  spec (St a k (mk, sk, sn, ss, sr, wr, pend, ds, win) u) flush_to_client
    (fun _ w => exists a', (a = true \/ pend <> [] -> a' = true) /\
       St a' k (mk, sk, sn, ss, sr, wr || bool_decide (pend <> []), pend,
                if wr then ds else ds ++ take 1 pend, win) u w)
    (fun _ => False).
Proof.
  intros w Hst. pose proof Hst as (HI & Hw & Hd & Ha & Hk & Hv & Hu).
  open_world w. unfold flush_to_client. run_code. injection Hv as <- <- <- <- <- <- <- <- <-.
  destruct wrt; cbn.
  { exists a. split; [|done]. intros [?|?]; [done|]. unfold write_ok in Hw. cbn in Hw.
    destruct owr; [|done]. rewrite <- Ha. by rewrite orb_true_r. }
  destruct dnq as [|front rest]; cbn.
  { exists a. rewrite app_nil_r. split; [naive_solver|done]. }
  exists true. split; [done|]. inv_step HI. rel_split; [| |].
  - inv_split; next_phase.
  - done.
  - unfold anchored. cbn. by rewrite orb_true_r.
Qed.

Lemma phase_recved cs p ns :
  phase cs = Some (Live p) -> phase (cs ++ (TcpRecved p <$> ns)) = Some (Live p).
Proof.
  intros Hc. revert cs Hc. induction ns as [|n ns IH]; intros cs Hc; [by rewrite app_nil_r|].
  rewrite fmap_cons, cons_middle, app_assoc. apply IH.
  rewrite phase_snoc, Hc. cbn. by rewrite decide_True.
Qed.
Lemma uploads_recved p ns : uploads (TcpRecved p <$> ns) = [].
Proof. by induction ns. Qed.
Lemma downloads_recved p ns : downloads (TcpRecved p <$> ns) = [].
Proof. by induction ns. Qed.

(** The state when a write has completed, before its handler runs. *)
Definition Written k mk sk sn ss sr data rest ds win u w : Prop :=
  Inv w /\ destroyed w = false /\ held w = true /\ (k = true -> closing_ (self w) = true) /\
  op_write w = None /\
  down_view w = (mk, sk, sn, ss, sr, true, data :: rest, ds, win) /\ up_view w = u.

Lemma write_failed_spec k mk sk sn ss sr data rest ds win u :
  spec (Written k mk sk sn ss sr data rest ds win u)
    (_ ← set_this (fun s => s.[writing_client_ := false]); close)
    (fun _ w => St true true (mk, sk, sn, ss, sr, false, data :: rest, ds, win) u w)
    (fun _ => False).
Proof.
  eapply spec_bind with
    (Q := fun _ w => St true k (mk, sk, sn, ss, sr, false, data :: rest, ds, win) u w);
    [|intros ?; apply close_held].
  intros w (HI & Hd & Hh & Hk & Ho & Hv & Hu). open_world w. inv_step HI. run_code.
  injection Hv as <- <- <- <- <- -> -> <- <-. rel_split; [|done]. inv_split.
Qed.

Lemma write_ok_spec k mk sk sn ss sr data rest ds win u :
  spec (Written k mk sk sn ss sr data rest ds win u) (write_handler (IoOk (length data)))
    (fun _ w => St true k (mk, sk, sn, ss, sr, bool_decide (rest <> []), rest,
                           ds ++ take 1 rest, win) u w)
    (fun _ => False).
Proof.
  intros w (HI & Hd & Hh & Hk & Ho & Hv & Hu). open_world w. inv_step HI.
  injection Hv as Hmk Hsk Hsn Hss Hsr Hwr Hpd Hds Hwin. subst mk sk sn ss sr wrt dnq ds win srs.
  assert (forall w', St true k (master_key_ cry, send_key_ cry, send_nonce_ cry, sent_salt_ cry,
      sent_salt_ cry, false, rest, downloads cls, recved cls + dfr) u w' ->
    match flush_to_client w' with
    | (w', Ret _) => St true k (master_key_ cry, send_key_ cry, send_nonce_ cry, sent_salt_ cry,
        sent_salt_ cry, bool_decide (rest <> []), rest, downloads cls ++ take 1 rest,
        recved cls + dfr) u w'
    | _ => False
    end) as Hflush.
  { intros w' Hw'. call (flush_client_spec true k (master_key_ cry) (send_key_ cry) (send_nonce_ cry)
      (sent_salt_ cry) (sent_salt_ cry) false rest (downloads cls) (recved cls + dfr) u); [done|].
    intros (a' & -> & Hst); [done|by left]. }
  unfold write_handler. run_code.
  assert (qb - Z.of_nat (length data) = Z.of_nat (length (concat rest))) as Hqb
    by (rewrite Ibytes; cbn; len).
  destruct pcb0 as [p|]; [|apply Hflush; rel_split; [|done]; by inv_split].
  destruct ((_ <? _) && _) eqn:E; cbn.
  - match goal with |- context [recved_loop ?n p ?w] =>
      destruct (recved_loop_run n p w) as (n' & ns & -> & Hs & _) end;
      unfold update in *; cbn in *; [done|done|Z.div_mod_to_equations; lia|].
    apply Hflush. rel_split; [|done| |].
    + inv_split. by apply phase_recved.
    + by rewrite Hs, downloads_recved, app_nil_r.
    + by rewrite uploads_recved, app_nil_r.
  - apply Hflush. rel_split; [|done]. inv_split. intros Hn. right.
    destruct (Z.eqb_spec dfr 0); [done|]. rewrite andb_true_r in E. by apply Z.ltb_ge.
Qed.

(* ------------------------------------------------------------------ *)
(** ** Data for the client *)

(** A session seen by its sending half only. *)
Definition sender (mk sk sn : bytes) : Session := 
  mkSession mk sk (zeros KeySize) sn (zeros NonceSize) false true.

Lemma encrypt_sender d c :
  sent_salt_ c = true ->
  encrypt_tcp_chunk d c =
  let '(c', r) := encrypt_tcp_chunk d (sender (master_key_ c) (send_key_ c) (send_nonce_ c)) in
  (set_send_nonce (send_nonce_ c') c, r).
Proof.
  destruct c as [mk sk rk sn rn hr ss]. intros Hs. cbn in Hs. subst ss.
  unfold encrypt_tcp_chunk, crypt_send, set_send_nonce, sender, mbind, M_bind, get, lift, mret, M_ret.
  cbn [sent_salt_ negb send_key_ send_nonce_ master_key_ recv_key_ recv_nonce_ have_recv_key_].
  case_match; [done|]. cbn [send_key_ send_nonce_]. destruct (crypt sk sn _) as [[[ct1 t1] n1]|e|]; [|done..].
  cbn [send_key_ send_nonce_]. by destruct (crypt sk n1 d) as [[[ct2 t2] n2]|e|].
Qed.

Lemma encrypt_large d c :
  sent_salt_ c = true -> (MaxChunk < length d)%nat ->
  encrypt_tcp_chunk d c = (c, throw "Shadowsocks AEAD TCP chunk too large").
Proof.
  intros Hs Hl. unfold encrypt_tcp_chunk, mbind, M_bind, get, lift. rewrite Hs. cbn [negb].
  by destruct (Nat.ltb_spec MaxChunk (length d)); [|lia].
Qed.

(** [enqueued mk sk sn sr d sk' sn' bufs]: from the sending state [sk], [sn], with
    or without a salt already sent, the payload [d] adds the buffers [bufs]. *)
Definition enqueued mk sk sn (sr : bool) d sk' sn' (bufs : list bytes) : Prop :=
  exists sn1 pre c,
    (if sr then sk' = sk /\ sn1 = sn /\ pre = []
     else exists salt, length salt = SaltSize /\ derive_subkey mk salt = Ret sk' /\
            sn1 = zeros NonceSize /\ pre = [salt]) /\
    encrypt_tcp_chunk d (sender mk sk' sn1) = (sender mk sk' sn', Ret c) /\ bufs = pre ++ [c].

Lemma queue_client_spec b a k mk sk sn ss sr wr pend ds win u :
  (wr = true -> pend <> []) ->
  spec (St a k (mk, sk, sn, ss, sr, wr, pend, ds, win) u) (queue_client b)
    (fun _ w => St a k (mk, sk, sn, ss, sr, wr, pend ++ [b], ds, win) u w) (fun _ => False).
Proof.
  intros Hne w (HI & Hw & Hd & Ha & Hk & Hv & Hu). open_world w. inv_step HI.
  injection Hv as <- <- <- <- <- <- <- <- <-. unfold queue_client. run_code.
  rel_split.
  - inv_split.
    + rewrite concat_app, Ibytes. cbn. unfold PacketBuffer.size. len.
    + intros Hn. destruct (Idf Hn); [by left|right]. lia.
  - unfold write_ok in *. cbn in *. destruct owr; [|done]. destruct Hw as [-> Hh].
    split; [done|]. by destruct dnq.
Qed.

Lemma ensure_salt_spec s a k mk sk sn ss sr wr pend ds win u :
  (wr = true -> pend <> []) ->
  spec (fun w => St a k (mk, sk, sn, ss, sr, wr, pend, ds, win) u w /\ s = self w)
    (if sent_response_salt_ s then mret tt
     else
       salt ← on_crypto_rng client_salt;
       _ ← queue_client salt;
       set_this (fun s => s.[sent_response_salt_ := true]))
    (fun _ w => exists sk' sn1 pre,
       (if sr then sk' = sk /\ sn1 = sn /\ pre = []
        else exists salt, length salt = SaltSize /\ derive_subkey mk salt = Ret sk' /\
               sn1 = zeros NonceSize /\ pre = [salt]) /\
       St a k (mk, sk', sn1, true, true, wr, pend ++ pre, ds, win) u w)
    (fun w => exists v, view_key v = mk /\ St a k v u w).
Proof.
  intros Hne w [(HI & Hw & Hd & Ha & Hk & Hv & Hu) ->]. open_world w. inv_step HI.
  injection Hv as <- <- <- <- <- <- <- <- <-. subst srs. destruct (sent_salt_ cry) eqn:Es.
  { eexists _, _, []. split; [done|]. rewrite app_nil_r. rel_split; [by inv_split|done|].
    by rewrite Es. }
  unfold on_crypto_rng, queue_client. run_code.
  pose proof (client_salt_cases cry gen) as Hc.
  destruct (client_salt (cry, gen)) as [[c' g'] [salt|e|]]; [| |done]; cbn.
  - destruct Hc as (key & Hkey & Hkl & Hsl & ->). exists key, (zeros NonceSize), [salt].
    split; [by eauto|]. rel_split.
    + inv_split.
      * destruct Iwf as (? & ? & ? & ? & ?). by do 4 (split; [done|]).
      * rewrite concat_app, Ibytes. cbn. unfold PacketBuffer.size. len.
      * intros Hn. destruct (Idf Hn); [by left|right]. lia.
    + unfold write_ok in *. cbn in *. destruct owr; [|done]. destruct Hw as [-> Hh].
      split; [done|]. by destruct dnq.
  - subst c'. eexists (_, _, _, _, _, _, _, _, _). split; [|rel_split; [by inv_split|done]]. done.
Qed.

Lemma encrypt_spec d a k mk sk sn wr pend ds win u :
  spec (St a k (mk, sk, sn, true, true, wr, pend, ds, win) u) (on_crypto (encrypt_tcp_chunk d))
    (fun c w => exists sn', encrypt_tcp_chunk d (sender mk sk sn) = (sender mk sk sn', Ret c) /\
       St a k (mk, sk, sn', true, true, wr, pend, ds, win) u w)
    (St a k (mk, sk, sn, true, true, wr, pend, ds, win) u).
Proof.
  intros w Hst. pose proof Hst as (HI & Hw & Hd & Ha & Hk & Hv & Hu).
  open_world w. inv_step HI. injection Hv as Hmk Hsk Hsn Hss Hsr <- <- <- <-.
  unfold on_crypto. run_code. rewrite (encrypt_sender d cry Hss), Hmk, Hsk, Hsn.
  assert (length sk = KeySize /\ length sn = NonceSize /\ length mk = KeySize) as (Hks & Hns & Hms)
    by (subst; destruct Iwf as (? & ? & ? & ? & ?); done).
  destruct (Nat.le_gt_cases (length d) MaxChunk) as [Hl|Hl].
  - destruct (encrypt_tcp_chunk_Ret (sender mk sk sn) d) as (c & -> & _); [done|done|done|].
    cbn. eexists. split; [reflexivity|]. rel_split; [|done|].
    + inv_split. destruct Iwf as (? & ? & ? & ? & ?). do 3 (split; [done|]).
      split; [|done]. cbn. by rewrite !increment_nonce_length.
    + cbn. by rewrite Hmk, Hsk, Hss, Hsr.
  - rewrite encrypt_large by done. cbn.
    assert (set_send_nonce sn cry = cry) as -> by (rewrite <- Hsn; by destruct cry). done.
Qed.

Lemma writing_nonempty a k mk sk sn ss sr wr pend ds win u w :
  St a k (mk, sk, sn, ss, sr, wr, pend, ds, win) u w -> wr = true -> pend <> [].
Proof.
  intros (_ & Hw & _ & _ & _ & Hv & _) Hwr. injection Hv as _ _ _ _ _ E1 E2 _ _.
  unfold write_ok in Hw. rewrite E1, E2 in Hw. destruct (op_write w); [|congruence].
  by destruct Hw as [_ Hh], pend.
Qed.

Lemma enqueue_spec d a k mk sk sn ss sr wr pend ds win u :
  d <> [] ->
  spec (St a k (mk, sk, sn, ss, sr, wr, pend, ds, win) u) (enqueue_client_payload d)
    (fun _ w => exists sk' sn' bufs, enqueued mk sk sn sr d sk' sn' bufs /\
       St true k (mk, sk', sn', true, true, true, pend ++ bufs,
                  if wr then ds else ds ++ take 1 (pend ++ bufs), win) u w)
    (fun w => exists v, view_key v = mk /\ St a k v u w).
Proof.
  intros Hd w Hst. pose proof Hst as (_ & _ & Hds & _).
  pose proof (writing_nonempty _ _ _ _ _ _ _ _ _ _ _ _ _ Hst) as Hne. revert w Hst Hds.
  enough (spec (St a k (mk, sk, sn, ss, sr, wr, pend, ds, win) u) (enqueue_client_payload d)
    (fun _ w => exists sk' sn' bufs, enqueued mk sk sn sr d sk' sn' bufs /\
       St true k (mk, sk', sn', true, true, true, pend ++ bufs,
                  if wr then ds else ds ++ take 1 (pend ++ bufs), win) u w)
    (fun w => exists v, view_key v = mk /\ St a k v u w)) as Hs by (by intros w ? ?; apply Hs).
  unfold enqueue_client_payload. rewrite decide_False by done.
  eapply spec_bind; [apply this_spec; by intros w (_ & _ & ? & _)|intros s].
  eapply spec_bind; [by apply ensure_salt_spec|]. intros ? w (sk' & sn1 & pre & Hpre & Hst).
  unfold mbind, M_bind.
  call (encrypt_spec d a k mk sk' sn1 wr (pend ++ pre) ds win u);
    [done| |by intros Hx; eexists; split; [|exact Hx]].
  intros (sn' & He & Hst1).
  assert (wr = true -> pend ++ pre <> []) as Hne1
    by (intros Hwr [? _]%app_eq_nil; by apply Hne).
  call (queue_client_spec a1 a k mk sk' sn' true true wr (pend ++ pre) ds win u Hne1); [done|].
  intros Hst2.
  call (flush_client_spec a k mk sk' sn' true true wr ((pend ++ pre) ++ [a1]) ds win u); [done|].
  intros (a' & Ha' & Hst3). exists sk', sn', (pre ++ [a1]). split; [by exists sn1, pre, a1|].
  rewrite <- app_assoc in Hst3. rewrite Ha' in Hst3 by (right; by destruct pend, pre).
  rewrite bool_decide_true in Hst3 by (by destruct pend, pre). by rewrite orb_true_r in Hst3.
Qed.

End Facts.
