(* ===== verification/TcpRun.v ===== *)
(** * Runs of a TCP relay session

    Every event keeps the invariant and the links between the events that
    happened and the state: what was read is what was or will be written to
    lwIP, what lwIP delivered is what was or will be written to the client. *)
From S2P Require Import Prelude Types Mbedtls Text Aead AeadStream Address Lwip Tcp TcpInv TcpFacts.

(* ------------------------------------------------------------------ *)
(** ** What the events delivered *)

(** The salts read from the client, the bytes read behind them, and the data
    lwIP delivered. *)
Definition salts (evs : list event) : list bytes :=
  omap (fun ev => match ev with OnSalt (IoOk b) => Some b | _ => None end) evs.
Definition reads (evs : list event) : list bytes :=
  omap (fun ev => match ev with OnRead (IoOk b) => Some b | _ => None end) evs.
Definition recvs (evs : list event) : list bytes :=
  omap (fun ev => match ev with
                  | OnRecv (Some d) err => if decide (err = ERR_OK) then Some d else None
                  | _ => None
                  end) evs.

Section Run.
Context `{!Mbedtls, !MbedtlsLaws, !IpText, !TcpNet}.
Implicit Types (w : World) (evs : list event).

Definition down_state : Type :=
  bytes * bytes * bytes * bool * bool * bool * list bytes * list bytes * Z.
Definition up_state : Type := bytes * bytes * bool * bytes * bool * bytes.

(** A queue without an outstanding write is empty while the session lives. *)
Definition idle (k : bool) (v : down_state) : Prop :=
  let '(_, _, _, _, _, wr, pend, _, _) := v in wr = false -> pend = [] \/ k = true.

Definition UpLink mk evs (u : up_state) : Prop :=
  (salts evs = [] /\ reads evs = [] /\
   u = (zeros KeySize, zeros NonceSize, false, [], false, [])) \/
  exists salt key ps rn rest,
    salts evs = [salt] /\ length salt = SaltSize /\ derive_subkey mk salt = Ret key /\
    feed (receiver key (zeros NonceSize) true, []) (reads evs) =
      (ps, (receiver key rn true, rest), Ret tt) /\
    u = received_view key rn true rest (false, []) ps.

Definition total (ds : list bytes) : Z := Z.of_nat (length (concat ds)).

Definition DownLink mk evs (v : down_state) : Prop :=
  let '(mk', sk, sn, ss, sr, wr, pend, ds, win) := v in
  win = total (recvs evs) /\
  if sr then
    exists salt cs, length salt = SaltSize /\ derive_subkey mk salt = Ret sk /\
      encrypt_chunks (recvs evs) (sender mk sk (zeros NonceSize)) = (sender mk sk sn, Ret cs) /\
      ds ++ (if wr then tail pend else pend) = salt :: cs
  else recvs evs = [] /\ ds = [] /\ pend = [] /\ wr = false.

Definition Link mk evs (k : bool) (v : down_state) (u : up_state) : Prop :=
  view_key v = mk /\ idle k v /\ (k = false -> UpLink mk evs u /\ DownLink mk evs v).

(** Between two events. *)
Definition Rest w : Prop :=
  Inv w /\ write_ok w /\ held w = false /\ (anchored w = true -> destroyed w = false).
Definition RunInv mk evs w : Prop :=
  Rest w /\ Link mk evs (closing_ (self w)) (down_view w) (up_view w).

(** An event that neither reads from the client nor delivers data. *)
Lemma Link_quiet mk evs ev k k' v u :
  salts [ev] = [] -> reads [ev] = [] -> recvs [ev] = [] -> (k = true -> k' = true) ->
  Link mk evs k v u -> Link mk (evs ++ [ev]) k' v u.
Proof.
  intros Hs Hr Hv Hk (Hmk & Hi & Hl). split; [done|]. split.
  - destruct v as [[[[[[[[? ?] ?] ?] ?] ?] ?] ?] ?]. cbn in *. naive_solver.
  - intros ->. destruct k; [by specialize (Hk eq_refl)|].
    unfold UpLink, DownLink, salts, reads, recvs in *. rewrite !omap_app, Hs, Hr, Hv, !app_nil_r.
    by apply Hl.
Qed.

Lemma owning_spec m (P : World -> Prop) (Q : bool -> down_state -> up_state -> Prop) :
  spec P m (fun _ w => exists k v u, St true k v u w /\ Q (closing_ (self w)) v u) (fun _ => False) ->
  spec (fun w => P (w.[held := true])) (owning m)
    (fun _ w => Rest w /\ Q (closing_ (self w)) (down_view w) (up_view w)) (fun _ => False).
Proof.
  intros Hm w Hw. unfold owning. run_code.
  specialize (Hm _ Hw). unfold update in Hm. cbn in Hm.
  destruct (m _) as [w1 [[]|e|]]; [|done..].
  destruct Hm as (k & v & u & (HI & Hwo & Hd & Ha & Hk & Hv & Hu) & HQ). subst v u.
  pose proof (owners_anchored (w1.[held := false])) as Ho.
  open_world w1. inv_step HI. unfold dropped_owner, destructor. run_code.
  case_decide as Hz; cbn.
  - apply Ho in Hz as [Hz Hact]. subst act.
    assert (pcb0 = None) as -> by (destruct pcb0; [done|done]). cbn.
    split; [|exact HQ]. split; [by inv_split|]. split; [done|]. split; [done|].
    unfold anchored. cbn. by rewrite Hz.
  - split; [|exact HQ]. split; [by inv_split|]. done.
Qed.

(** The outcome of an event. *)
Definition step_ok mk evs ev w : Prop :=
  match deliver ev w with
  | (w', Ret _) => RunInv mk (evs ++ [ev]) w'
  | (_, Exn _) => False
  | (_, Ub) => anchored w = false /\ (ev = OnSent \/ ev = OnRecv None ERR_OK)
  end.

Lemma idle_mono k k' v : (k = true -> k' = true) -> idle k v -> idle k' v.
Proof. destruct v as [[[[[[[[? ?] ?] ?] ?] ?] ?] ?] ?]. cbn. naive_solver. Qed.

Lemma DownLink_quiet mk evs ev v : recvs [ev] = [] -> DownLink mk evs v -> DownLink mk (evs ++ [ev]) v.
Proof.
  intros Hr. unfold DownLink, recvs in *. rewrite omap_app, Hr, app_nil_r. done.
Qed.

(** From an [owning] specification to the outcome of the event. *)
Lemma step_owning mk evs ev w (f : World -> World) m P :
  deliver ev w = owning m (f w) ->
  spec P m (fun _ w' => exists k v u, St true k v u w' /\
              Link mk (evs ++ [ev]) (closing_ (self w')) v u) (fun _ => False) ->
  P ((f w).[held := true]) -> step_ok mk evs ev w.
Proof.
  intros Hd Hm HP. unfold step_ok. rewrite Hd.
  pose proof (owning_spec m P (Link mk (evs ++ [ev])) Hm (f w) HP) as Ho.
  by destruct (owning m (f w)) as [w' [[]|e|]].
Qed.

Lemma step_salt mk evs w r :
  RunInv mk evs w -> enabled (OnSalt r) w = true -> step_ok mk evs (OnSalt r) w.
Proof.
  intros [(HI & Hw & Hh & Hal) (Hmk & Hi & Hl)] [Hs Hr]%andb_true_iff.
  destruct (up_view w) as [[[[[rk rn] hk] ei] got] data] eqn:Eu.
  assert (destroyed w = false) as Hd by (apply Hal; unfold anchored; rewrite Hs; by destruct (held w)).
  eapply (step_owning _ _ _ _ (fun w => w.[op_salt := false]) (salt_handler r)
    (fun w' => St true (closing_ (self w)) (down_view w) (rk, rn, hk, ei, got, data) w' /\
               op_salt w' = false)); [done| |].
  - assert (match r with IoOk salt => length salt = SaltSize | _ => True end) as Hlen
      by (destruct r; [by apply Nat.eqb_eq|done..]).
    eapply spec_conseq; [apply (salt_handler_spec r (closing_ (self w)) (down_view w) rk rn hk ei
      got data Hlen)|done| |done].
    intros ? w' (u & Hst & Hcl). exists (closing_ (self w)), (down_view w), u. split; [done|].
    destruct Hst as (_ & _ & _ & _ & Hk & Hv & _). split; [done|].
    split; [by apply (idle_mono (closing_ (self w)))|]. intros Hc.
    destruct (closing_ (self w)) eqn:Ek; [by rewrite Hk in Hc|].
    destruct (Hl eq_refl) as [Hup Hdown]. destruct (Hcl Hc) as (salt & key & -> & Hkey & ->).
    split; [|by apply DownLink_quiet]. right. exists salt, key, [], (zeros NonceSize), ei.
    destruct Hup as [(Hs0 & Hr0 & Hu0)|(? & ? & ? & ? & ? & _ & _ & _ & _ & Hu0)].
    + injection Hu0 as -> -> -> -> -> ->. unfold salts, reads in *.
      rewrite !omap_app, Hs0, Hr0. cbn. split; [done|]. split; [by apply Nat.eqb_eq|].
      split; [|done]. rewrite <- Hkey. f_equal.
      assert (master_key_ (crypto_ (self w')) = view_key (down_view w')) as -> by done.
      by rewrite Hv.
    + injection Hu0 as _ _ -> _ _ _. destruct HI.
      assert (have_recv_key_ (crypto_ (self w)) = true) as Ht by (by injection Eu).
      rewrite inv_once in Ht; done.
  - split; [|done]. open_world w. inv_step HI. rel_split; [|done].
    inv_split.
Qed.

(** An owning handler that leaves both directions alone. *)
Lemma step_quiet mk evs ev w (f : World -> World) m :
  salts [ev] = [] -> reads [ev] = [] -> recvs [ev] = [] ->
  Link mk evs (closing_ (self w)) (down_view w) (up_view w) ->
  deliver ev w = owning m (f w) ->
  spec (St true (closing_ (self w)) (down_view w) (up_view w)) m
    (fun _ w' => St true (closing_ (self w)) (down_view w) (up_view w) w') (fun _ => False) ->
  St true (closing_ (self w)) (down_view w) (up_view w) ((f w).[held := true]) ->
  step_ok mk evs ev w.
Proof.
  intros Hs Hr Hv Hl Hd Hm HP. eapply step_owning; [exact Hd| |exact HP].
  eapply spec_conseq; [exact Hm|done| |done]. intros ? w' Hst.
  exists (closing_ (self w)), (down_view w), (up_view w). split; [done|].
  apply (Link_quiet mk evs ev (closing_ (self w))); try done.
  by destruct Hst as (_ & _ & _ & _ & Hk & _).
Qed.

(** The state in which the handler of a completed read starts. *)
Lemma read_enter w :
  Rest w -> (0 < op_reads w)%nat ->
  St true (closing_ (self w)) (down_view w) (up_view w)
    (w.[op_reads := pred (op_reads w)]).[held := true].
Proof.
  intros (HI & Hw & Hh & Hal) Hr.
  assert (destroyed w = false) as Hd.
  { apply Hal. unfold anchored. destruct (Nat.ltb_spec 0 (op_reads w)); [|lia].
    by rewrite orb_true_r. }
  open_world w. inv_step HI. rel_split; [|done]. inv_split. intros [-> ->]%Ikey. lia.
Qed.

Lemma step_read_error mk evs w r :
  RunInv mk evs w -> enabled (OnRead r) w = true -> (forall b, r <> IoOk b) ->
  step_ok mk evs (OnRead r) w.
Proof.
  intros [HR Hl] [Hr _]%andb_true_iff Hn. apply Nat.ltb_lt in Hr.
  pose proof (read_enter w HR Hr) as Hst.
  assert (forall m, read_handler r = m ->
    spec (St true (closing_ (self w)) (down_view w) (up_view w)) m
    (fun _ w' => St true (closing_ (self w)) (down_view w) (up_view w) w') (fun _ => False) ->
    step_ok mk evs (OnRead r) w) as Hq.
  { intros m Hm Hs. eapply (step_quiet _ _ _ _ (fun w => w.[op_reads := pred (op_reads w)])
      (read_handler r)); try done; try (by destruct r as [b| | |]; [destruct (Hn b)|..]).
    by rewrite Hm. }
  assert (spec (St true (closing_ (self w)) (down_view w) (up_view w)) close
    (fun _ w' => St true (closing_ (self w)) (down_view w) (up_view w) w') (fun _ => False)) as Hc.
  { eapply spec_conseq; [apply (close_held (closing_ (self w)) (down_view w) (up_view w))|done| |done].
    intros ? w'. apply St_true. }
  destruct r as [b| | |]; [by destruct (Hn b)|..];
    (eapply Hq; [reflexivity|]); [apply client_eof_spec|apply client_eof_spec|exact Hc].
Qed.

Lemma step_read mk evs w data :
  RunInv mk evs w -> enabled (OnRead (IoOk data)) w = true -> step_ok mk evs (OnRead (IoOk data)) w.
Proof.
  intros [HR (Hmk & Hi & Hl)] [Hr _]%andb_true_iff. apply Nat.ltb_lt in Hr.
  pose proof (read_enter w HR Hr) as Hst.
  destruct (up_view w) as [[[[[rk rn] hk] ei] got] acc] eqn:Eu.
  assert (hk = true) as ->.
  { destruct HR as (HI & _). destruct hk; [done|]. destruct (inv_key w HI); [by injection Eu|lia]. }
  eapply (step_owning _ _ _ _ (fun w => w.[op_reads := pred (op_reads w)]) (read_handler (IoOk data))
    (St true (closing_ (self w)) (down_view w) (rk, rn, true, ei, got, acc))); [done| |done].
  eapply spec_conseq; [apply (read_ok_spec data (closing_ (self w)) (down_view w) rk rn ei (got, acc))
    |done| |done].
  intros ? w' (u & Hst' & Hcl). exists (closing_ (self w)), (down_view w), u. split; [done|].
  destruct Hst' as (_ & _ & _ & _ & Hk & Hv & _). split; [done|].
  split; [by apply (idle_mono (closing_ (self w)))|]. intros Hc.
  destruct (closing_ (self w)) eqn:Ek; [by rewrite Hk in Hc|].
  destruct (Hl eq_refl) as [Hup Hdown]. destruct (Hcl Hc) as (ps & rn' & rest & Hdr & ->).
  split; [|by apply DownLink_quiet]. right.
  destruct Hup as [(_ & _ & [=])|(salt & key & ps0 & rn0 & rest0 & Hs0 & Hsl & Hkey & Hf & Hu0)].
  unfold received_view in Hu0. injection Hu0 as -> -> -> -> ->.
  exists salt, key, (ps0 ++ ps), rn', rest. unfold salts, reads in *.
  rewrite !omap_app, Hs0. cbn. split; [done|]. split; [done|]. split; [done|].
  rewrite (feed_snoc _ _ _ _ _ _ Hf), Hdr. split; [done|].
  unfold received_view. rewrite foldl_app. by destruct (foldl absorb (false, []) ps0).
Qed.

Lemma take_tail (l : list bytes) :
  take 1 l ++ (if bool_decide (l <> []) then tail l else l) = l.
Proof. destruct l as [|x l]; [done|]. by rewrite bool_decide_true. Qed.

Lemma step_written mk evs w r :
  RunInv mk evs w -> enabled (OnWritten r) w = true -> step_ok mk evs (OnWritten r) w.
Proof.
  intros [(HI & Hw & Hh & Hal) (Hmk & Hi & Hl)] He. apply bool_decide_eq_true in He as [data Eo].
  assert (destroyed w = false) as Hd
    by (apply Hal; unfold anchored; rewrite Eo; by rewrite orb_true_r).
  destruct (down_view w) as [[[[[[[[mk' sk] sn] ss] sr] wr] pend] ds] win] eqn:Ev.
  cbn in Hmk. subst mk'.
  assert (wr = true /\ exists rest, pend = data :: rest) as [-> [rest ->]].
  { unfold write_ok in Hw. rewrite Eo in Hw. injection Ev as _ _ _ _ _ <- <- _ _.
    destruct Hw as [-> Hp]. split; [done|]. destruct (pending_client_ (self w)); [done|].
    injection Hp as ->. eauto. }
  set (u := up_view w) in *.
  assert (Written (closing_ (self w)) mk sk sn ss sr data rest ds win u
    (w.[op_write := None]).[held := true]) as Hwr.
  { clear Hl Hi Hw. unfold u. clear u. open_world w. inv_step HI. unfold Written. cbn.
    split; [by inv_split|]. done. }
  assert (deliver (OnWritten r) w =
    owning (write_handler (written_all data r)) (w.[op_write := None])) as Hdel.
  { unfold deliver, get, mbind, M_bind. by rewrite Eo. }
  eapply (step_owning _ _ _ _ (fun w => w.[op_write := None])); [exact Hdel| |exact Hwr].
  assert (spec (Written (closing_ (self w)) mk sk sn ss sr data rest ds win u)
    (_ ← set_this (fun s => s.[writing_client_ := false]); close)
    (fun _ w' => exists k v u, St true k v u w' /\
       Link mk (evs ++ [OnWritten r]) (closing_ (self w')) v u) (fun _ => False)) as Herr.
  { eapply spec_conseq; [apply write_failed_spec|done| |done]. intros ? w' Hst.
    eexists true, _, _. split; [exact Hst|]. destruct Hst as (_ & _ & _ & _ & Hk & _).
    rewrite Hk by done. split; [done|]. split; [by right|done]. }
  destruct r as [[]| | |]; try exact Herr.
  eapply spec_conseq; [apply write_ok_spec|done| |done]. intros ? w' Hst.
  eexists _, _, _. split; [exact Hst|]. destruct Hst as (_ & _ & _ & _ & Hk & _).
  split; [done|]. split.
  { cbn. intros Hn%bool_decide_eq_false. left. by destruct (decide (rest = [])) as [|?]; [|destruct Hn]. }
  intros Hc. destruct (closing_ (self w)); [by rewrite Hk in Hc|].
  destruct (Hl eq_refl) as [Hup Hdown]. split.
  { unfold UpLink, salts, reads in *. by rewrite !omap_app, !app_nil_r. }
  unfold DownLink, recvs in *. rewrite omap_app, app_nil_r.
  destruct Hdown as [Hwin Hdown]. split; [done|]. destruct sr; [|by destruct Hdown as (_ & _ & [=] & _)].
  destruct Hdown as (salt & cs & ? & ? & ? & Hq). exists salt, cs. do 3 (split; [done|]).
  cbn in Hq. by rewrite <- app_assoc, take_tail.
Qed.

Lemma resolve_body_spec port err ip k v u :
  spec (fun w => St true k v u w /\ fresh w)
    (s ← this;
     match ip with
     | Some ip => if bool_decide (err <> ERR_OK) || closing_ s then close else connect_ip ip port
     | None => close
     end)
    (fun _ w => St true k v u w) (fun _ => False).
Proof.
  assert (spec (fun w => St true k v u w /\ fresh w) close (fun _ w => St true k v u w)
    (fun _ => False)) as Hc.
  { eapply spec_conseq; [apply (close_held k v u)|by intros w [? _]| |done].
    intros ? w. apply St_true. }
  eapply spec_bind; [apply this_spec; by intros w [(_ & _ & ? & _) _]|intros s].
  eapply spec_conseq with (P := fun w => St true k v u w /\ fresh w) (Q := fun _ w => St true k v u w)
    (E := fun _ => False); [|by intros w [? _]|done|done].
  destruct ip as [ip|]; [|exact Hc]. case_match; [exact Hc|apply connect_ip_spec].
Qed.

Lemma step_resolved mk evs w err ip :
  RunInv mk evs w -> enabled (OnResolved err ip) w = true -> step_ok mk evs (OnResolved err ip) w.
Proof.
  intros [HR Hl] He. pose proof HR as (HI & Hw & Hh & Hal).
  apply bool_decide_eq_true in He as [port Eo].
  destruct (destroyed w) eqn:Ed.
  - unfold step_ok, deliver, resolve_handler. run_code. rewrite Eo, Ed.
    assert (Link mk (evs ++ [OnResolved err ip]) (closing_ (self w)) (down_view w) (up_view w))
      as Hl' by (by apply (Link_quiet mk evs _ (closing_ (self w)))).
    split; [|exact Hl']. clear Hl Hl' HR. open_world w. inv_step HI.
    split; [|done]. inv_split. intros Hf. apply Ifr. by destruct gt.
  - assert (got_target_ (self w) = true) as Hg by (apply (inv_resolving w HI); by rewrite Eo).
    destruct (inv_fresh w HI) as (Hp & Hph & Hdf).
    { unfold may_connect. rewrite Eo. by rewrite orb_true_r. }
    eapply (step_owning _ _ _ _ (fun w => w.[op_resolve := None]) _
      (fun w' => St true (closing_ (self w)) (down_view w) (up_view w) w' /\ fresh w')).
    + unfold deliver, resolve_handler, get, modify, mbind, M_bind. rewrite Eo.
      unfold update. cbn. by rewrite Ed.
    + eapply spec_conseq; [apply (resolve_body_spec port err ip (closing_ (self w)) (down_view w) (up_view w))|done| |done]. intros ? w' Hst.
      eexists _, _, _. split; [exact Hst|]. destruct Hst as (_ & _ & _ & _ & Hk & _).
      by apply (Link_quiet mk evs _ (closing_ (self w))).
    + clear Hl HR. open_world w. inv_step HI. split; [|done]. rel_split; [|done].
      inv_split.
Qed.

(* ------------------------------------------------------------------ *)
(** ** lwIP's callbacks

    They do not own the session: [held] stays as it is. *)

(** [keeps f m]: the code [m] leaves the part [f] of the world as it was. *)
Definition keeps {B A} (f : World -> B) (m : M World A) : Prop :=
  forall w, f (fst (m w)) = f w.

Section Keeps.
Context {B : Type} (f : World -> B).

Lemma keeps_ret {A} (x : A) : keeps f (mret x).
Proof. done. Qed.
Lemma keeps_bind {A C} (m : M World A) (g : A -> M World C) :
  keeps f m -> (forall x, keeps f (g x)) -> keeps f (m ≫= g).
Proof.
  intros Hm Hg w. unfold mbind, M_bind. specialize (Hm w).
  destruct (m w) as [w' [x|e|]]; cbn in *; [|done..]. by rewrite Hg.
Qed.
Lemma keeps_lift {A} (o : outcome A) : keeps f (lift o).
Proof. done. Qed.
Lemma keeps_get : keeps f get.
Proof. done. Qed.
Lemma keeps_this : keeps f this.
Proof. done. Qed.
Lemma keeps_set_this g :
  (forall w, f (w.[self := g (self w)]) = f w) -> keeps f (set_this g).
Proof. intros Hg w. unfold set_this. destruct (destroyed w); [done|apply Hg]. Qed.
Lemma keeps_stack {A} (g : net -> A * net) c :
  (forall w n cs, f (w.[lwip := n].[calls := cs]) = f w) -> keeps f (stack g c).
Proof. intros Hg w. unfold stack. destruct (g (lwip w)). apply Hg. Qed.
Lemma keeps_ask {A} (g : net -> A) : keeps f (ask g).
Proof. done. Qed.
Lemma keeps_modify g : (forall w, f (g w) = f w) -> keeps f (modify g).
Proof. intros Hg w. apply Hg. Qed.
Lemma keeps_try {A} (m h : M World A) : keeps f m -> keeps f h -> keeps f (try_catch m h).
Proof.
  intros Hm Hh w. unfold try_catch. specialize (Hm w). destruct (m w) as [w' [x|e|]]; cbn in *;
    [done| |done]. by rewrite Hh.
Qed.
End Keeps.

Ltac keeps :=
  repeat first
    [ apply keeps_ret | apply keeps_lift | apply keeps_get | apply keeps_this
    | apply keeps_set_this; done | apply keeps_stack; done | apply keeps_ask
    | apply keeps_modify; done | apply keeps_try | apply keeps_bind; [|intros ?]
    | assumption | case_match ].

Abbreviation keeps_held := (keeps held).

Lemma kh_release : keeps_held release_active_self.
Proof. unfold release_active_self, dropped_owner, destructor, detach_pcb_callbacks, stack_. keeps. Qed.
Lemma kh_close : keeps_held close.
Proof. pose proof kh_release. unfold close, detach_pcb_callbacks, stack_. keeps. Qed.
Lemma kh_flush_loop fuel p : keeps_held (flush_loop fuel p).
Proof.
  pose proof kh_close. induction fuel as [|fuel IH]; unfold flush_loop; fold flush_loop;
    unfold stack_; keeps.
Qed.
Lemma kh_flush : keeps_held flush_to_lwip.
Proof. pose proof kh_flush_loop. unfold flush_to_lwip, stack_. keeps; auto. Qed.
Lemma kh_read : keeps_held read_encrypted_stream.
Proof. unfold read_encrypted_stream. keeps. Qed.
Lemma keeps_enqueue d : keeps_held (enqueue_client_payload d) /\
  keeps (fun w => pcb_ (self w)) (enqueue_client_payload d).
Proof.
  split; unfold enqueue_client_payload, on_crypto, on_crypto_rng, queue_client, flush_to_client;
    keeps.
Qed.

(** A callback finds the session alive. *)
Lemma callback_enter w p :
  Rest w -> registered w = Some p ->
  St (anchored w) (closing_ (self w)) (down_view w) (up_view w) w /\ pcb_ (self w) = Some p.
Proof.
  intros (HI & Hw & Hh & Hal) Hp. rewrite (inv_registered w HI) in Hp. split; [|done].
  do 2 (split; [done|]). split; [|done]. destruct (destroyed w) eqn:Ed; [|done].
  apply (inv_dead w HI) in Ed. congruence.
Qed.

Lemma Rel_rest a k v u w : Rel a k v u w -> held w = false -> Rest w.
Proof. intros (? & ? & ? & <- & ?) ?. by do 3 (split; [done|]). Qed.

(** A callback that leaves both directions alone. *)
Lemma step_callback mk evs ev w w' a' k' :
  RunInv mk evs w -> salts [ev] = [] -> reads [ev] = [] -> recvs [ev] = [] ->
  (closing_ (self w) = true -> k' = true) ->
  Rel a' k' (down_view w) (up_view w) w' -> held w' = held w ->
  RunInv mk (evs ++ [ev]) w'.
Proof.
  intros [HR Hl] Hs Hr Hv Hk Hrel Hh. pose proof HR as (_ & _ & Hh0 & _).
  split; [by eapply Rel_rest; [exact Hrel|congruence]|].
  destruct Hrel as (_ & _ & _ & _ & Hk' & -> & ->).
  apply (Link_quiet mk evs ev (closing_ (self w))); auto.
Qed.

Lemma step_connected mk evs w err :
  RunInv mk evs w -> enabled (OnConnected err) w = true -> step_ok mk evs (OnConnected err) w.
Proof.
  intros HR He. apply bool_decide_eq_true in He as [p Ep].
  destruct (callback_enter w p (proj1 HR) Ep) as [Hst Hp].
  unfold step_ok, deliver, on_connected, get, mbind, M_bind. case_decide.
  - pose proof (kh_flush w) as Hh.
    call (flush_to_lwip_spec (anchored w) (closing_ (self w)) (down_view w) (up_view w)); [done|].
    intros Hrel. by eapply (step_callback _ _ _ w _ _ (closing_ (self w))).
  - pose proof (kh_close w) as Hh.
    call (close_spec (anchored w) (closing_ (self w)) (down_view w) (up_view w)); [done|].
    intros [Hrel _]. by eapply (step_callback _ _ _ w _ _ true).
Qed.

(** After [TcpFreed] the session gives up its client too. *)
Lemma err_spec p a k v u :
  spec (fun w => St a k v u w /\ pcb_ (self w) = Some p /\ registered w = Some p) (deliver OnErr)
    (fun _ w => Rel a true v u w) (fun _ => False).
Proof.
  intros w [(HI & Hw & Hd & Ha & Hk & Hv & Hu) [Hp Hr]]. open_world w. inv_step HI. subst reg.
  unfold deliver, on_err, close_client_only. run_code.
  assert (forall cs', uploads cs' = uploads cls -> downloads cs' = downloads cls ->
    recved cs' = recved cls -> phase cs' = Some Gone ->
    match release_active_self (mkWorld (mkTcpRelaySession cry act None inb upq dnq qb dfr gt srs prd
      wrt ceo reo true) hld false osl rds owr ore None gen net0 cs') with
    | (w, Ret _) => Rel a true v u w
    | _ => False
    end) as Hrel.
  { intros cs' H1' H2' H3' H4'. rewrite release_run by done. unfold update; cbn.
    rel_split; [inv_split|done| |]; by rewrite ?H1', ?H2', ?H3'. }
  destruct clo; cbn; apply Hrel; try next_phase;
    rewrite ?uploads_app, ?downloads_app, ?recved_app, ?uploads_one, ?downloads_one, ?recved_one;
    by rewrite ?app_nil_r, ?Z.add_0_r.
Qed.

Lemma kh_deliver_err : keeps_held (deliver OnErr).
Proof.
  pose proof kh_release. unfold deliver, on_err, close_client_only. keeps.
Qed.

Lemma step_err mk evs w :
  RunInv mk evs w -> enabled OnErr w = true -> step_ok mk evs OnErr w.
Proof.
  intros HR He. apply bool_decide_eq_true in He as [p Ep].
  destruct (callback_enter w p (proj1 HR) Ep) as [Hst Hp].
  pose proof (kh_deliver_err w) as Hh. unfold step_ok.
  call (err_spec p (anchored w) (closing_ (self w)) (down_view w) (up_view w)); [done|].
  intros Hrel. by eapply (step_callback _ _ _ w _ _ true).
Qed.

(** Giving up the pcb in [handle_remote_fin]: the session goes with it unless
    something else owns it. *)
Lemma give_up_spec p a k v u :
  spec (fun w => St a k v u w /\ pcb_ (self w) = Some p)
    (_ ← detach_pcb_callbacks;
     err ← stack (tcp_close p) (TcpClose p);
     _ ← (if decide (err = ERR_OK) then mret tt else stack_ (tcp_abort p) (TcpAbort p));
     _ ← set_this (fun s => s.[pcb_ := None]);
     release_active_self)
    (fun _ w => Rel a k v u w /\ destroyed w = negb a) (fun _ => False).
Proof.
  intros w [(HI & Hw & Hd & Ha & Hk & Hv & Hu) Hp]. open_world w. inv_step HI. subst act.
  unfold detach_pcb_callbacks. run_code.
  destruct (tcp_close p _) as [err n'] eqn:Ec. case_decide; cbn; rewrite release_run by done;
    unfold update, anchored; cbn; rewrite Ha; (split; [|done]);
    (rel_split; [inv_split; right; next_phase|done|by intros ->]).
Qed.

Lemma set_remote_eof_spec a k v u p :
  spec (fun w => St a k v u w /\ pcb_ (self w) = Some p)
    (_ ← set_this (fun s => s.[remote_eof_ := true]); log ShutdownSend)
    (fun _ w => St a k v u w /\ pcb_ (self w) = Some p) (fun _ => False).
Proof.
  intros w [(HI & Hw & Hd & Ha & Hk & Hv & Hu) Hp]. open_world w. inv_step HI. run_code.
  split; [|done]. rel_split; [|done]. inv_split. next_phase.
Qed.

(** [handle_remote_fin]: when nothing else owns the session,
    [release_active_self] destroys it, and the test of [client_eof_] that
    follows reads freed memory. *)
Lemma remote_fin_cases p a k v u w :
  St a k v u w -> pcb_ (self w) = Some p ->
  match handle_remote_fin w with
  | (w', Ret _) => a = true /\ Rel true k v u w'
  | (_, Exn _) => False
  | (_, Ub) => a = false
  end.
Proof.
  intros Hst Hp. unfold handle_remote_fin.
  pose proof (set_remote_eof_spec a k v u p w (conj Hst Hp)) as H1'.
  unfold mbind, M_bind in *. destruct (set_this _ w) as [w1 [[]|e|]]; [|done..].
  destruct (log ShutdownSend w1) as [w2 [[]|e|]]; [|done..]. destruct H1' as [Hst2 Hp2].
  unfold this at 1. assert (destroyed w2 = false) as -> by apply Hst2. rewrite Hp2.
  pose proof (give_up_spec p a k v u w2 (conj Hst2 Hp2)) as H2'. unfold mbind, M_bind in H2'.
  match type of H2' with let (_, _) := ?x in _ => destruct x as [w3 [[]|e|]] end; [|done..].
  destruct H2' as [Hrel Hd3]. unfold this. rewrite Hd3. destruct a; cbn [negb]; [|done].
  destruct (client_eof_ (self w3)); [|done].
  call (close_spec true k v u); [by apply Rel_St|]. intros [? _]. split; [done|]. by apply Rel_true.
Qed.

Lemma kh_remote_fin : keeps_held handle_remote_fin.
Proof.
  pose proof kh_release. pose proof kh_close.
  unfold handle_remote_fin, detach_pcb_callbacks, stack_. keeps.
Qed.

Lemma step_fin mk evs w :
  RunInv mk evs w -> enabled (OnRecv None ERR_OK) w = true -> step_ok mk evs (OnRecv None ERR_OK) w.
Proof.
  intros HR [He _]%andb_true_iff. apply bool_decide_eq_true in He as [p Ep].
  destruct (callback_enter w p (proj1 HR) Ep) as [Hst Hp].
  unfold step_ok, deliver, on_recv, get, mbind, M_bind. rewrite Ep, decide_True by done.
  pose proof (kh_remote_fin w) as Hh. pose proof (remote_fin_cases p _ _ _ _ _ Hst Hp) as Hc.
  destruct (handle_remote_fin w) as [w' [[]|e|]]; [|done|by auto].
  destruct Hc as [_ Hrel]. by eapply (step_callback _ _ _ w _ _ (closing_ (self w))).
Qed.

Lemma step_recv_error mk evs w data err :
  RunInv mk evs w -> enabled (OnRecv data err) w = true -> err <> ERR_OK ->
  step_ok mk evs (OnRecv data err) w.
Proof.
  intros HR [He _]%andb_true_iff Hn. apply bool_decide_eq_true in He as [p Ep].
  destruct (callback_enter w p (proj1 HR) Ep) as [Hst Hp].
  unfold step_ok, deliver, on_recv, get, mbind, M_bind. rewrite Ep, decide_False by done.
  pose proof (kh_close w) as Hh.
  call (close_spec (anchored w) (closing_ (self w)) (down_view w) (up_view w)); [done|].
  intros [Hrel _]. eapply (step_callback _ _ _ w _ _ true); try done.
  destruct data; [|done]. unfold recvs. cbn. by rewrite decide_False.
Qed.

Lemma water_marks : 0 < ClientQueueLowWater < ClientQueueHighWater.
Proof. by vm_compute. Qed.

(** The end of [on_recv]: the window is handed back now or later. *)
Lemma ack_spec p n k mk sk sn ss sr wr pend ds win u :
  0 <= n ->
  spec (fun w => St true k (mk, sk, sn, ss, sr, wr, pend, ds, win) u w /\ pcb_ (self w) = Some p)
    (s ← this;
     _ ← (if ClientQueueHighWater <? client_queue_bytes_ s
          then set_this (fun s => s.[deferred_tcp_recved_ := deferred_tcp_recved_ s + n])
          else stack_ (tcp_recved p n) (TcpRecved p n));
     mret ERR_OK)
    (fun _ w => St true k (mk, sk, sn, ss, sr, wr, pend, ds, win + n) u w) (fun _ => False).
Proof.
  intros Hn w [(HI & Hw & Hd & Ha & Hk & Hv & Hu) Hp]. open_world w. inv_step HI.
  injection Hv as <- <- <- <- <- <- <- <- <-. run_code.
  destruct (Z.ltb_spec ClientQueueHighWater qb) as [Hq|Hq]; cbn.
  - rel_split; [|done|].
    + inv_split.
      * lia.
      * intros _. right. pose proof water_marks. lia.
    + by rewrite Z.add_assoc.
  - rel_split; [|done|].
    + inv_split. next_phase.
    + f_equal. lia.
Qed.

Lemma recvs_snoc evs d : recvs (evs ++ [OnRecv (Some d) ERR_OK]) = recvs evs ++ [d].
Proof. unfold recvs. by rewrite omap_app. Qed.

Lemma total_snoc l d : total (l ++ [d]) = total l + Z.of_nat (length d).
Proof. unfold total. rewrite concat_app. cbn. len. Qed.

(** The queue behind the buffers already written. *)
Lemma queue_app wr (pend bufs ds : list bytes) :
  (wr = true -> pend <> []) -> (wr = false -> pend = []) -> bufs <> [] ->
  (if wr then ds else ds ++ take 1 (pend ++ bufs)) ++ tail (pend ++ bufs) =
  (ds ++ (if wr then tail pend else pend)) ++ bufs.
Proof.
  intros H1' H2' Hb. destruct wr.
  - destruct pend; [by destruct H1'|]. cbn. by rewrite <- app_assoc.
  - rewrite H2' by done. cbn. destruct bufs; [done|]. rewrite app_nil_r, <- app_assoc. done.
Qed.

Lemma DownLink_enqueued mk evs d sk sn ss sr wr pend ds win sk' sn' bufs :
  (wr = true -> pend <> []) -> (wr = false -> pend = []) ->
  enqueued mk sk sn sr d sk' sn' bufs ->
  DownLink mk evs (mk, sk, sn, ss, sr, wr, pend, ds, win) ->
  DownLink mk (evs ++ [OnRecv (Some d) ERR_OK])
    (mk, sk', sn', true, true, true, pend ++ bufs,
     if wr then ds else ds ++ take 1 (pend ++ bufs), win + Z.of_nat (length d)).
Proof.
  intros Hne Hem (sn1 & pre & c & Hpre & He & ->) [-> Hd]. unfold DownLink.
  rewrite recvs_snoc, total_snoc. split; [done|].
  rewrite (queue_app wr) by (by destruct pre || auto). destruct sr.
  - destruct Hpre as (-> & -> & ->). destruct Hd as (salt & cs & Hsl & Hk & Hc & Hq).
    exists salt, (cs ++ [c]). do 2 (split; [done|]).
    split; [by eapply encrypt_chunks_snoc|]. by rewrite Hq.
  - destruct Hpre as (salt & Hsl & Hk & -> & ->). destruct Hd as (-> & -> & -> & ->).
    exists salt, [c]. do 2 (split; [done|]). split; [|done].
    apply (encrypt_chunks_snoc [] d _ (sender mk sk' (zeros NonceSize)) []); done.
Qed.

Lemma spec_keeps {A B} (f : World -> B) x P (m : M World A) Q E :
  spec P m Q E -> keeps f m ->
  spec (fun w => P w /\ f w = x) m (fun a w => Q a w /\ f w = x) (fun w => E w /\ f w = x).
Proof.
  intros Hm Hk w [HP <-]. specialize (Hm w HP). specialize (Hk w).
  destruct (m w) as [w' [y|e|]]; cbn in *; auto.
Qed.

Lemma recv_spec p d a k mk sk sn ss sr wr pend ds win u :
  d <> [] ->
  spec (fun w => St a k (mk, sk, sn, ss, sr, wr, pend, ds, win) u w /\ pcb_ (self w) = Some p)
    (on_recv p (Some d) ERR_OK)
    (fun _ w =>
       (exists sk' sn' bufs, enqueued mk sk sn sr d sk' sn' bufs /\
          St true k (mk, sk', sn', true, true, true, pend ++ bufs,
                     if wr then ds else ds ++ take 1 (pend ++ bufs), win + Z.of_nat (length d)) u w) \/
       (exists v, view_key v = mk /\ Rel a true v u w))
    (fun _ => False).
Proof.
  intros Hd. unfold on_recv. rewrite decide_True by done. cbv zeta.
  eapply spec_bind with (Q := fun (ok : bool) w =>
    if ok then (exists sk' sn' bufs, enqueued mk sk sn sr d sk' sn' bufs /\
                  St true k (mk, sk', sn', true, true, true, pend ++ bufs,
                     if wr then ds else ds ++ take 1 (pend ++ bufs), win) u w) /\
               pcb_ (self w) = Some p
    else exists v, view_key v = mk /\ Rel a true v u w).
  - eapply spec_try.
    + eapply spec_bind; [apply (spec_keeps (fun w => pcb_ (self w)) (Some p));
        [by apply enqueue_spec|apply keeps_enqueue]|]. intros ?. by intros w Hw.
    + intros w [(v & Hv & Hst) _]. unfold mbind, M_bind.
      call (close_spec a k v u); [done|]. intros [Hrel _]. cbn. eauto.
  - intros [|]; [|intros w Hw; by right].
    intros w [(sk' & sn' & bufs & He & Hst) Hp].
    assert (0 <= Z.of_nat (length d)) as Hpos by lia.
    pose proof (ack_spec p (Z.of_nat (length d)) k mk sk' sn' true true true (pend ++ bufs)
      (if wr then ds else ds ++ take 1 (pend ++ bufs)) win u Hpos w (conj Hst Hp)) as Hack.
    match goal with |- match ?x with _ => _ end => destruct x as [w' [z|e|]] end; [|done..].
    left. eauto 6.
Qed.

Lemma kh_on_recv p d err : keeps_held (on_recv p d err).
Proof.
  pose proof kh_close. pose proof kh_remote_fin. pose proof (fun d => proj1 (keeps_enqueue d)).
  unfold on_recv, stack_. keeps; auto.
Qed.

Lemma step_recv mk evs w d :
  RunInv mk evs w -> enabled (OnRecv (Some d) ERR_OK) w = true ->
  step_ok mk evs (OnRecv (Some d) ERR_OK) w.
Proof.
  intros [HR (Hmk & Hi & Hl)] [He Hlen]%andb_true_iff. apply bool_decide_eq_true in He as [p Ep].
  assert (d <> []) as Hd by (by destruct d).
  destruct (callback_enter w p HR Ep) as [Hst Hp].
  destruct (down_view w) as [[[[[[[[mk' sk] sn] ss] sr] wr] pend] ds] win] eqn:Ev.
  cbn in Hmk. subst mk'. pose proof HR as (_ & _ & Hh0 & _).
  pose proof (writing_nonempty _ _ _ _ _ _ _ _ _ _ _ _ _ Hst) as Hne.
  pose proof (kh_on_recv p (Some d) ERR_OK w) as Hheld.
  unfold step_ok, deliver, get, mbind, M_bind. rewrite Ep.
  call (recv_spec p d (anchored w) (closing_ (self w)) mk sk sn ss sr wr pend ds win (up_view w) Hd);
    [done|]. cbn in Hheld.
  intros [(sk' & sn' & bufs & Henq & Hst')|(v & Hv & Hrel)].
  - split; [eapply Rel_rest; [apply St_Rel, Hst'|congruence]|].
    destruct Hst' as (_ & _ & _ & _ & Hk & -> & ->). split; [done|]. split; [done|].
    intros Hc. destruct (closing_ (self w)) eqn:Ek; [by rewrite Hk in Hc|].
    destruct (Hl eq_refl) as [Hup Hdown]. split.
    + unfold UpLink, salts, reads in *. by rewrite !omap_app, !app_nil_r.
    + eapply DownLink_enqueued; try done. intros ->. by destruct (Hi eq_refl).
  - split; [eapply Rel_rest; [exact Hrel|congruence]|].
    destruct Hrel as (_ & _ & _ & _ & Hk & -> & ->). rewrite Hk by done.
    split; [done|]. split; [|done]. destruct v as [[[[[[[[? ?] ?] ?] ?] ?] ?] ?] ?]. by right.
Qed.

(** [maybe_resume_client_read]: after a failed [tcp_write] of the flush the
    session may be gone, and issuing the read then touches freed memory. *)
Lemma resume_cases a k v rk rn ei got data w :
  St a k v (rk, rn, true, ei, got, data) w ->
  match maybe_resume_client_read w with
  | (w', Ret _) => exists a', Rel a' k v (rk, rn, true, ei, got, data) w'
  | (_, Exn _) => False
  | (_, Ub) => a = false
  end.
Proof.
  intros Hst. pose proof Hst as (HI & Hw & Hd & Ha & Hk & Hv & Hu).
  pose proof (St_Rel _ _ _ _ _ Hst) as Hrel0.
  unfold maybe_resume_client_read. unfold this at 1, mbind at 1, M_bind at 1. rewrite Hd.
  destruct (client_read_paused_ (self w)); cbn [negb]; [|by exists a].
  destruct (pcb_ (self w)) as [p|]; [|by exists a].
  unfold mbind, M_bind, ask. destruct (_ <? _); [by exists a|].
  assert (exists w1, set_this (fun s => s.[client_read_paused_ := false]) w = (w1, Ret tt) /\
    St a k v (rk, rn, true, ei, got, data) w1) as (w1 & -> & Hst1).
  { clear Hrel0 Hst. open_world w. inv_step HI. eexists. split; [reflexivity|].
    rel_split; [by inv_split|done]. }
  call (flush_to_lwip_spec a k v (rk, rn, true, ei, got, data)); [done|]. intros Hrel.
  destruct (destroyed w0) eqn:Ed0.
  - destruct a; [by destruct Hrel as (_ & _ & Hx & _); rewrite Hx in Ed0|].
    unfold read_encrypted_stream, this, mbind, M_bind. by rewrite Ed0.
  - call (read_any_spec a k v rk rn ei got data); [by apply Rel_St|].
    intros (a' & _ & Hst2). exists a'. by apply St_Rel.
Qed.

Lemma kh_resume : keeps_held maybe_resume_client_read.
Proof.
  pose proof kh_flush. pose proof kh_read. unfold maybe_resume_client_read. keeps.
Qed.

Lemma step_sent mk evs w :
  RunInv mk evs w -> enabled OnSent w = true -> step_ok mk evs OnSent w.
Proof.
  intros HR He. apply bool_decide_eq_true in He as [p Ep].
  destruct (callback_enter w p (proj1 HR) Ep) as [Hst Hp].
  assert (have_recv_key_ (crypto_ (self w)) = true) as Hkey.
  { destruct HR as [(HI & _) _]. destruct (have_recv_key_ _) eqn:Ek; [done|].
    destruct (inv_key w HI Ek) as [_ Hg]. destruct (inv_fresh w HI) as [Hx _]; [|congruence].
    unfold may_connect. by rewrite Hg. }
  pose proof (kh_resume w) as Hh. unfold step_ok, deliver, on_sent, get, mbind, M_bind.
  destruct (up_view w) as [[[[[rk rn] hk] ei] got] data] eqn:Eu.
  assert (hk = true) as -> by (by injection Eu as _ _ <-).
  pose proof (resume_cases _ _ _ _ _ _ _ _ _ Hst) as Hc. rewrite <- Eu in Hc.
  destruct (maybe_resume_client_read w) as [w' [[]|e|]]; [|done|by auto].
  destruct Hc as [a' Hrel]. by eapply (step_callback _ _ _ w _ _ (closing_ (self w))).
Qed.

(** Every event keeps the invariant and the links; undefined behaviour is
    confined to two events of a session that only [active_self_] owns. *)
Lemma step_any mk evs ev w :
  RunInv mk evs w -> enabled ev w = true -> step_ok mk evs ev w.
Proof.
  intros HR He. destruct ev as [r|r|r|err ip|err|data err| |].
  - by apply step_salt.
  - destruct r as [b| | |]; [by apply step_read|by apply step_read_error..].
  - by apply step_written.
  - by apply step_resolved.
  - by apply step_connected.
  - destruct (decide (err = ERR_OK)) as [->|Hn]; [|by apply step_recv_error].
    destruct data; [by apply step_recv|by apply step_fin].
  - by apply step_sent.
  - by apply step_err.
Qed.

(** The start. *)
Lemma accepted_inv f g n :
  length (factory_master_key_ f) = KeySize ->
  RunInv (factory_master_key_ f) [] (accepted f g n).
Proof.
  intros Hl. destruct f as [mk].
  assert (accepted (mkAeadFactory mk) g n =
    mkWorld (new_tcp_session (mkAeadFactory mk)) false false true 0 None None None g n
      [SetNoDelay; ReadSalt])
    as -> by done.
  split; [|split; [done|split; [by left|]]].
  - split; [|done]. split; try done. by left.
  - intros _. split; [by left|]. done.
Qed.

Lemma RunInv_stack mk evs w n : RunInv mk evs w -> RunInv mk evs (w.[lwip := n]).
Proof.
  intros [(HI & Hr) Hl]. split; [|exact Hl]. split; [|exact Hr]. by destruct HI.
Qed.

Lemma run_inv f g n evs w :
  length (factory_master_key_ f) = KeySize ->
  run (accepted f g n) evs w -> RunInv (factory_master_key_ f) evs w.
Proof.
  intros Hl. induction 1 as [|evs w n' Hrun IH|evs w ev w' Hrun IH He Hd];
    [by apply accepted_inv|by apply RunInv_stack|].
  pose proof (step_any _ _ _ _ IH He) as Hs. unfold step_ok in Hs. by rewrite Hd in Hs.
Qed.

End Run.
