(* ===== verification/TcpSpec.v ===== *)
(** * TCP relay sessions: properties

    Safety of the handlers, the invariant of the queues, the protocol of the
    pcb, the integrity of both directions end to end, and the runs in which
    the session misbehaves. *)
From S2P Require Import Prelude Types Mbedtls Text Aead AeadStream AeadSpec Address AddressSpec.
From S2P Require Import Lwip Tcp TcpDest TcpInv TcpFacts TcpRun.

Section Spec.
Context `{!Mbedtls, !MbedtlsLaws, !IpText, !TcpNet}.
Implicit Types (w : World) (evs : list event).

(** A session accepted for the password [pw]. *)
Definition session_of (pw : bytes) g n : World := accepted (new_factory pw) g n.

Lemma session_run_inv pw g n evs w :
  run (session_of pw g n) evs w -> RunInv (factory_master_key_ (new_factory pw)) evs w.
Proof. exact (run_inv (new_factory pw) g n evs w (master_key_length pw)). Qed.

(** C6.  Whatever the client sends, lwIP answers and the network does, in any
    order of completions and callbacks: no handler lets an exception escape,
    every loop ends, and the session object is only touched while it exists;
    the two callbacks that release it before they return are covered as long
    as a socket operation is outstanding. *)
Theorem tcp_session_safe pw g n evs w ev :
  run (session_of pw g n) evs w -> enabled ev w = true ->
  (anchored w = true \/ ev <> OnSent /\ ev <> OnRecv None ERR_OK) ->
  exists w', deliver ev w = (w', Ret tt).
Proof.
  intros Hrun He Hs. pose proof (step_any _ _ _ _ (session_run_inv _ _ _ _ _ Hrun) He) as Hok.
  unfold step_ok in Hok. destruct (deliver ev w) as [w' [[]|e|]]; [by eauto|done|].
  destruct Hok as [Ha Hev]. destruct Hs as [?|[? ?]]; [congruence|]. by destruct Hev.
Qed.

(** C19.  The queue towards the client: [client_queue_bytes_] is the size of
    what is queued, an outstanding write is one of the front buffer, so its
    completion removes what was written, and as long as the session is not
    closing a queue that is not empty has a write outstanding.  Deferred
    receive window of a connected session waits for such a write: flow control
    cannot stall. *)
Theorem tcp_client_queue pw g n evs w :
  run (session_of pw g n) evs w ->
  let s := self w in
  client_queue_bytes_ s = Z.of_nat (length (concat (pending_client_ s))) /\
  (forall b, op_write w = Some b -> head (pending_client_ s) = Some b) /\
  (writing_client_ s = true <-> op_write w <> None) /\
  (closing_ s = false -> pending_client_ s <> [] -> op_write w <> None) /\
  0 <= deferred_tcp_recved_ s /\
  (closing_ s = false -> pcb_ s <> None -> deferred_tcp_recved_ s <> 0 -> op_write w <> None).
Proof.
  intros Hrun. cbv zeta. destruct (session_run_inv _ _ _ _ _ Hrun) as [(HI & Hw & _) (_ & Hi & _)].
  assert (writing_client_ (self w) = true <-> op_write w <> None) as Hiff.
  { unfold write_ok in Hw. destruct (op_write w); [naive_solver|]. by rewrite Hw. }
  assert (closing_ (self w) = false -> pending_client_ (self w) <> [] -> op_write w <> None) as Hq.
  { intros Hc Hp. apply Hiff. destruct (writing_client_ (self w)) eqn:Ew; [done|].
    unfold idle, down_view in Hi. destruct (Hi Ew); congruence. }
  destruct HI. split; [done|]. split; [|split; [done|split; [done|split; [done|]]]].
  - intros b Hb. unfold write_ok in Hw. rewrite Hb in Hw. by destruct Hw.
  - intros Hc Hp Hd. apply Hq; [done|]. intros Hn. destruct inv_deferred as [?|Hlow]; [done|done|].
    rewrite inv_bytes, Hn in Hlow. pose proof water_marks. cbn in Hlow. lia.
Qed.

(** C18.  The calls on lwIP follow the life of one pcb: at most one pcb is
    made; it is only used while it lives; its callbacks are removed before it
    is closed or aborted, a failed [tcp_close] is followed by [tcp_abort], and
    nothing is called on it after that or after lwIP has freed it.  The pcb
    whose callbacks point at the session is the one in [pcb_], and a destroyed
    session has none. *)
Theorem tcp_pcb_protocol pw g n evs w :
  run (session_of pw g n) evs w ->
  (exists ph, phase (calls w) = Some ph /\
     match pcb_ (self w) with Some p => ph = Live p | None => ph = NoPcb \/ ph = Gone end) /\
  registered w = pcb_ (self w) /\
  active_self_ (self w) = bool_decide (is_Some (pcb_ (self w))) /\
  (destroyed w = true -> registered w = None).
Proof.
  intros Hrun. destruct (session_run_inv _ _ _ _ _ Hrun) as [(HI & _) _]. destruct HI.
  split; [|split; [done|split; [done|]]].
  - destruct (pcb_ (self w)); [by eauto|]. destruct inv_phase; eauto.
  - intros Hd. by rewrite inv_registered, inv_dead.
Qed.

(** C17.  Upload, for arbitrary bytes from the client: as long as the session
    has not closed, what was handed to lwIP and what is still queued for it
    are, in this order, the payload of the chunks decrypted so far, the first
    address that parses being cut off; nothing is lost, doubled or reordered,
    whatever lwIP answered to [tcp_write] and however the stream was split. *)
Theorem tcp_upload_integrity pw g n evs w salt :
  run (session_of pw g n) evs w -> closing_ (self w) = false -> salts evs = [salt] ->
  exists key ps rn,
    derive_subkey (factory_master_key_ (new_factory pw)) salt = Ret key /\
    feed (receiver key (zeros NonceSize) true, []) (reads evs) =
      (ps, (receiver key rn true, encrypted_in_ (self w)), Ret tt) /\
    (got_target_ (self w),
     concat (uploads (calls w)) ++ concat (pending_lwip_ (self w))) =
      foldl absorb (false, []) ps.
Proof.
  intros Hrun Hc Hs. destruct (session_run_inv _ _ _ _ _ Hrun) as [_ (_ & _ & Hl)].
  destruct (Hl Hc) as [[(Hs0 & _)|(salt' & key & ps & rn & rest & Hs' & _ & Hk & Hf & Hu)] _];
    [by rewrite Hs in Hs0|]. rewrite Hs in Hs'. injection Hs' as <-.
  unfold up_view, received_view in Hu. injection Hu as _ _ _ He Hg Hd.
  exists key, ps, rn. rewrite He, <- concat_app, Hg, Hd. split; [done|]. split; [done|].
  by destruct (foldl absorb (false, []) ps).
Qed.

Lemma absorb_rest rest d : foldl absorb (true, d) rest = (true, d ++ concat rest).
Proof.
  revert d. induction rest as [|p rest IH]; intros d; cbn; [by rewrite app_nil_r|].
  by rewrite IH, app_assoc.
Qed.

Lemma drain_linked (s r : Session) plains s' cs :
  session_wf s -> sent_salt_ s = true -> linked s r ->
  Forall (fun p => length p <= MaxChunk)%nat plains ->
  encrypt_chunks plains s = (s', Ret cs) ->
  exists r', drain_all (r, concat cs) = (plains, (r', []), Ret tt).
Proof.
  intros Hwf Hs Hl Hall He.
  destruct (encrypt_chunks_Ret plains s Hwf Hs Hall) as (cs' & s2 & He' & _ & _ & _ & Hd).
  rewrite He in He'. injection He' as <- <-. destruct (Hd r Hl) as (r' & _ & Hw).
  exists r'. specialize (Hw []). by rewrite app_nil_r, drain_all_nil, app_nil_r in Hw.
Qed.

Lemma drain_nothing s v st u : drain_all (s, v) = ([], st, Ret u) -> st = (s, v).
Proof.
  rewrite drain_all_unfold. pose proof (decrypt_tcp_chunk_cases s v) as Hc.
  destruct (decrypt_tcp_chunk (s, v)) as [[s' v'] [[p|]|e|]]; [by destruct (drain_all _) as [[]]| |done..].
  injection Hc as -> ->. by intros [= <-].
Qed.

(** The first chunk that a read yields is the first chunk of the stream. *)
Lemma stream_first_chunk pw g n evs w data later salt key p plains st0 t v0 :
  run (session_of pw g n) evs w ->
  derive_subkey (factory_master_key_ (new_factory pw)) salt = Ret key ->
  salts evs `prefix_of` [salt] ->
  drain_all (receiver key (zeros NonceSize) true, concat (reads evs) ++ data ++ later) = (p :: plains, st0, Ret tt) ->
  parse_ss_address p = (v0, Ret (Some t)) -> first_chunk (OnRead (IoOk data)) w t.
Proof.
  intros Hrun Hk Hs Hd Hp Hcl Hg st chunk Hdec.
  destruct (session_run_inv _ _ _ _ _ Hrun) as [_ (_ & _ & Hl)]. destruct (Hl Hcl) as [Hup _]. rewrite decrypt_receiver in Hdec.
  destruct Hup as [(_ & _ & Hu)|(salt' & key' & ps & rn & rest & Hs' & _ & Hk' & Hf & Hu)].
  { unfold up_view in Hu. injection Hu as _ _ Hh _ _ _. by rewrite Hh in Hdec. }
  rewrite Hs' in Hs. apply prefix_cons_inv_1 in Hs as ->. rewrite Hk in Hk'. injection Hk' as <-.
  unfold up_view, received_view in Hu. injection Hu as Hrk Hrn Hh Hei Hgt _. rewrite Hg in Hgt.
  rewrite Hrk, Hrn, Hh, Hei in Hdec. set (R0 := receiver key (zeros NonceSize) true) in *.
  pose proof (feed_drain (reads evs) R0 [] (drain_all_nil _)) as Hfd. rewrite Hf, app_nil_l in Hfd.
  pose proof (drain_all_app R0 (concat (reads evs)) (data ++ later)) as Ha. rewrite Hfd, Hd in Ha.
  destruct ps as [|p1 ps].
  - apply drain_nothing in Hfd as [= Ern Erest].
    assert (receiver key rn true = R0) as Er by (by rewrite Ern).
    rewrite Er in Hdec. rewrite app_assoc, <- Erest in Hd. rewrite (drain_all_unfold R0) in Hd.
    pose proof (decrypt_tcp_chunk_app R0 (rest ++ data) later) as Hda.
    destruct (decrypt_tcp_chunk (R0, rest ++ data)) as [[s1 v1] r]. injection Hdec as _ ->. rewrite Hda in Hd.
    destruct (drain_all _) as [[qs st2] r2]. injection Hd as <- _ _. by exists v0.
  - destruct (drain_all (receiver key rn true, rest ++ data ++ later)) as [[qs st2] r2]. injection Ha as <- _ _ _.
    cbn [foldl absorb] in Hgt. rewrite Hp, absorb_rest in Hgt. done.
Qed.

(** Whatever happens, the session is on its way to the target of the stream. *)
Lemma run_heads pw g n evs w salt key stream p plains st0 t v0 :
  run (session_of pw g n) evs w ->
  derive_subkey (factory_master_key_ (new_factory pw)) salt = Ret key ->
  drain_all (receiver key (zeros NonceSize) true, stream) = (p :: plains, st0, Ret tt) ->
  parse_ss_address p = (v0, Ret (Some t)) ->
  salts evs `prefix_of` [salt] -> concat (reads evs) `prefix_of` stream -> heads evs t w.
Proof.
  intros Hrun Hk Hd Hp. induction Hrun as [|evs w n' Hrun IH|evs w ev w' Hrun IH He Hde]; intros Hs Hr.
  - by apply heads_nowhere.
  - eapply (heads_steady evs t w); [by split_and!|auto].
  - assert (salts evs `prefix_of` [salt]) as Hs0.
    { etrans; [|exact Hs]. unfold salts. rewrite omap_app. by apply prefix_app_r. }
    assert (concat (reads evs) `prefix_of` stream) as Hr0.
    { etrans; [|exact Hr]. unfold reads. rewrite omap_app, concat_app. by apply prefix_app_r. }
    eapply deliver_heads; [by apply IH| |exact Hde].
    destruct ev as [ |[data| | |]| | | | | | ]; try done.
    destruct Hr as [later ->]. unfold reads in Hd. rewrite omap_app, concat_app in Hd. cbn [omap list_omap concat] in Hd.
    rewrite app_nil_r, <- app_assoc in Hd. by eapply stream_first_chunk.
Qed.

(** C2.  Upload end to end: a client of the same password draws a salt and
    encrypts chunks, the first one starting with the address of the target.
    When the session has read all of that stream, in whatever pieces, and has
    not closed, the bytes it has handed or will hand to lwIP are exactly the
    bytes the client sent behind the address, and it has opened no connection
    but the one to the target: to the address and port of a literal address;
    for a domain it has asked for that name only, and has connected, if at
    all, to an address it was answered and to the target's port. *)
Theorem tcp_upload_end_to_end pw g n evs w g0 g0' (c c' : Session) salt addr t p0 rest cs :
  client_salt (make_session (new_factory pw), g0) = ((c, g0'), Ret salt) ->
  ss_wire t addr -> Forall (fun p => length p <= MaxChunk)%nat ((addr ++ p0) :: rest) ->
  encrypt_chunks ((addr ++ p0) :: rest) c = (c', Ret cs) ->
  run (session_of pw g n) evs w -> closing_ (self w) = false ->
  salts evs = [salt] -> concat (reads evs) = concat cs ->
  concat (uploads (calls w)) ++ concat (pending_lwip_ (self w)) = p0 ++ concat rest /\
  got_target_ (self w) = true /\ encrypted_in_ (self w) = [] /\ placed evs t w.
Proof.
  intros Hc Hw Hall He Hrun Hcl Hs Hr.
  destruct (session_run_inv _ _ _ _ _ Hrun) as [_ (_ & _ & Hl)].
  destruct (Hl Hcl) as [[(Hs0 & _)|(salt' & key & ps & rn & rest' & Hs' & _ & Hk & Hf & Hu)] _];
    [by rewrite Hs in Hs0|]. rewrite Hs in Hs'. injection Hs' as <-.
  destruct (salt_links _ _ _ _ _ (master_key_length pw) Hc) as (_ & _ & _ & Hwf & _).
  pose proof (client_salt_inv _ _ _ _ _ Hc) as (key' & Hk' & _ & Ec).
  change (master_key_ (make_session (new_factory pw)))
    with (factory_master_key_ (new_factory pw)) in Hk'.
  assert (key' = key) as -> by (rewrite Hk in Hk'; by injection Hk').
  assert (sent_salt_ c = true /\ linked c (receiver key (zeros NonceSize) true)) as [Hss Hlk]
    by (by rewrite Ec).
  destruct (drain_linked c (receiver key (zeros NonceSize) true) _ _ _ Hwf Hss Hlk Hall He) as [r' Hd].
  pose proof (parse_wire t addr p0 Hw) as Hp.
  assert (heads evs t w) as Hh by (eapply run_heads; [exact Hrun|exact Hk|exact Hd|exact Hp|by rewrite Hs|by rewrite Hr]).
  pose proof (feed_drain (reads evs) (receiver key (zeros NonceSize) true) []
    (drain_all_nil _)) as Hfd.
  rewrite Hf, Hr, app_nil_l, Hd in Hfd. injection Hfd as <- _ <-.
  unfold up_view, received_view in Hu. injection Hu as _ _ _ Hin Hg Hdata.
  cbn [foldl absorb] in Hg, Hdata. rewrite Hp, absorb_rest in Hg, Hdata.
  rewrite <- concat_app, Hdata, Hin. split_and!; [done..|].
  cbn [fst] in Hg. destruct Hh as [?|? _ _|_ Hpl]; [congruence|congruence|exact Hpl].
Qed.

Lemma encrypt_chunks_small plains s s' cs :
  sent_salt_ s = true -> encrypt_chunks plains s = (s', Ret cs) ->
  Forall (fun p => length p <= MaxChunk)%nat plains.
Proof.
  revert s s' cs. induction plains as [|p plains IH]; intros s s' cs Hs; [constructor|].
  cbn [encrypt_chunks]. unfold mbind, M_bind, mret, M_ret.
  destruct (Nat.le_gt_cases (length p) MaxChunk) as [Hp|Hp]; [|by rewrite encrypt_large].
  destruct (encrypt_tcp_chunk p s) as [s1 [c|e|]] eqn:E; [|done..].
  destruct (encrypt_chunks plains s1) as [s2 [cs1|e|]] eqn:E1; [|done..].
  intros _. constructor; [done|]. eapply IH; [|exact E1].
  rewrite (encrypt_sender p s Hs) in E. destruct (encrypt_tcp_chunk p (sender _ _ _)).
  by injection E as <- _.
Qed.

(** C4.  Download end to end: what is written to the client's socket, followed
    by what is still queued for it, is a 32-byte salt and a stream which a
    client of the same password decrypts to the data lwIP delivered, packet by
    packet, with nothing left over; so at any moment the client has received
    a prefix of that stream. *)
Theorem tcp_download_end_to_end pw g n evs w :
  run (session_of pw g n) evs w -> closing_ (self w) = false -> recvs evs <> [] ->
  exists unsent salt stream r r',
    concat (downloads (calls w)) ++ concat unsent = salt ++ stream /\
    (unsent = tail (pending_client_ (self w)) \/ unsent = pending_client_ (self w)) /\
    set_client_salt salt (make_session (new_factory pw)) = (r, Ret tt) /\
    drain_all (r, stream) = (recvs evs, (r', []), Ret tt).
Proof.
  intros Hrun Hcl Hne. destruct (session_run_inv _ _ _ _ _ Hrun) as [HR (_ & _ & Hl)].
  destruct (Hl Hcl) as [_ Hd]. unfold DownLink, down_view in Hd. destruct Hd as [_ Hd].
  destruct (sent_response_salt_ (self w)); [|by destruct Hd as [? _]].
  destruct Hd as (salt & cs & Hsl & Hk & He & Hq).
  destruct (set_client_salt_Ret (make_session (new_factory pw)) salt Hsl) as (key & Hkey & Hkl & Hset).
  change (master_key_ (make_session (new_factory pw)))
    with (factory_master_key_ (new_factory pw)) in Hkey.
  rewrite Hk in Hkey. injection Hkey as Hsk.
  set (mk := factory_master_key_ (new_factory pw)) in *.
  assert (session_wf (sender mk key (zeros NonceSize))) as Hwf
    by (split; [apply master_key_length|done]).
  rewrite Hsk in He.
  match type of Hset with _ = (?r, _) =>
    destruct (drain_linked (sender mk key (zeros NonceSize)) r (recvs evs)
      (sender mk key (send_nonce_ (crypto_ (self w)))) cs Hwf eq_refl) as [r' Hr];
      [done|by apply (encrypt_chunks_small _ _ _ _ (eq_refl : sent_salt_ (sender mk key (zeros NonceSize)) = true) He)|exact He|] end.
  eexists _, salt, (concat cs), _, r'. rewrite <- concat_app, Hq.
  split; [done|]. split; [|split; [exact Hset|exact Hr]].
  destruct (writing_client_ (self w)); auto.
Qed.

(** C20.  Receive window is conserved: as long as the session has not closed,
    the bytes acknowledged with [tcp_recved] and the deferred ones add up to
    the bytes lwIP has delivered. *)
Theorem tcp_window_conserved pw g n evs w :
  run (session_of pw g n) evs w -> closing_ (self w) = false ->
  recved (calls w) + deferred_tcp_recved_ (self w) = total (recvs evs).
Proof.
  intros Hrun Hcl. destruct (session_run_inv _ _ _ _ _ Hrun) as [_ (_ & _ & Hl)].
  by destruct (Hl Hcl) as [_ [? _]].
Qed.

(** C39.  A remote FIN at a session that no socket operation owns, which is
    the normal end after the client has half-closed and everything has been
    written: [release_active_self] drops the last owner inside
    [handle_remote_fin], and the member access that follows is a use after
    free. *)
Theorem tcp_remote_fin_use_after_free pw g n evs w :
  run (session_of pw g n) evs w -> enabled (OnRecv None ERR_OK) w = true ->
  anchored w = false -> snd (deliver (OnRecv None ERR_OK) w) = Ub.
Proof.
  intros Hrun [He _]%andb_true_iff Ha. apply bool_decide_eq_true in He as [p Ep].
  destruct (session_run_inv _ _ _ _ _ Hrun) as [HR _].
  destruct (callback_enter w p HR Ep) as [Hst Hp]. rewrite Ha in Hst.
  pose proof (remote_fin_cases p _ _ _ _ _ Hst Hp) as Hc.
  unfold deliver, on_recv, get, mbind, M_bind. rewrite Ep, decide_True by done.
  destruct (handle_remote_fin w) as [w' [[]|e|]]; [by destruct Hc|done|done].
Qed.

(** lwIP may deliver a pbuf chain of up to 65535 bytes, out-of-order
    segments it had kept included; one above 0x3fff bytes is not split but
    refused by the encryption, and the session closes with the data lost. *)
Theorem tcp_large_delivery_closes pw g n evs w d :
  run (session_of pw g n) evs w -> enabled (OnRecv (Some d) ERR_OK) w = true ->
  (MaxChunk < length d)%nat ->
  exists w', deliver (OnRecv (Some d) ERR_OK) w = (w', Ret tt) /\ closing_ (self w') = true.
Proof.
  intros Hrun [He Hlen]%andb_true_iff Hbig. apply bool_decide_eq_true in He as [p Ep].
  assert (d <> []) as Hd by (by destruct d).
  destruct (session_run_inv _ _ _ _ _ Hrun) as [HR _].
  destruct (callback_enter w p HR Ep) as [Hst Hp].
  destruct (down_view w) as [[[[[[[[mk sk] sn] ss] sr] wr] pend] ds] win].
  unfold deliver, get, mbind, M_bind. rewrite Ep.
  call (recv_spec p d (anchored w) (closing_ (self w)) mk sk sn ss sr wr pend ds win (up_view w) Hd);
    [done|].
  intros [(sk' & sn' & bufs & (sn1 & pre & c & _ & Henc & _) & _)|(v & _ & Hrel)].
  - by rewrite encrypt_large in Henc.
  - eexists. split; [done|]. by destruct Hrel as (_ & _ & _ & _ & Hk & _); apply Hk.
Qed.

End Spec.

(* ------------------------------------------------------------------ *)
(** ** A concrete stack, and runs on it *)

(** A stack that accepts everything; its state is the free send buffer. *)
Definition toy_text : IpText := {|
  ipaddr_aton t := match Pton.pton4 t with
                   | Some [a; b; c; d] => Some (IP4 (of_le32 a b c d))
                   | _ => None
                   end
|}.
Definition toy_tcp : TcpNet := {|
  net := Z;
  pcb := nat;
  pcb_eq_dec := _;
  tcp_new_pcb := fun n => (Some 1%nat, n);
  tcp_callbacks := fun _ _ n => n;
  tcp_connect := fun _ _ _ n => (ERR_OK, n);
  tcp_sndbuf := fun _ n => n;
  tcp_sndqueuelen := fun _ _ => 0;
  tcp_state_of := fun _ _ => ESTABLISHED;
  tcp_write := fun _ data n => (ERR_OK, n - Z.of_nat (length data));
  tcp_output := fun _ n => n;
  tcp_recved := fun _ _ n => n;
  tcp_shutdown_tx := fun _ n => (ERR_OK, n);
  tcp_close := fun _ n => (ERR_OK, n);
  tcp_abort := fun _ n => n;
  async_resolve := fun _ n => (n, None)
|}.

Section Play.
Context `{!Mbedtls, !IpText, !TcpNet}.

(** Run a script: each event with the state the stack has reached. *)
Fixpoint play (script : list (net * event)) (w : World) : option World :=
  match script with
  | [] => Some w
  | (n, ev) :: script =>
      let w := w.[lwip := n] in
      if enabled ev w then
        match deliver ev w with
        | (w', Ret _) => play script w'
        | _ => None
        end
      else None
  end.

Lemma play_run w0 script evs w w' :
  run w0 evs w -> play script w = Some w' -> run w0 (evs ++ (snd <$> script)) w'.
Proof.
  revert evs w. induction script as [|[n ev] script IH]; intros evs w Hr; cbn [play].
  - intros [= ->]. cbn. by rewrite app_nil_r.
  - destruct (enabled ev _) eqn:He; [|done].
    destruct (deliver ev _) as [w1 [[]|e|]] eqn:Hd; [|done..]. intros Hp.
    rewrite fmap_cons, cons_middle, app_assoc. eapply IH; [|exact Hp].
    eapply run_snoc; [by apply run_stack|exact He|exact Hd].
Qed.

(** The world a script leads to. *)
Definition after (script : list (net * event)) (w : World) : World :=
  match play script w with Some w' => w' | None => w end.

Lemma after_run w0 script :
  bool_decide (is_Some (play script w0)) = true -> run w0 (snd <$> script) (after script w0).
Proof.
  intros Hp. unfold after. destruct (play script w0) as [w'|] eqn:E; [|done].
  exact (play_run w0 script [] w0 w' (run_nil w0) E).
Qed.

End Play.

#[local] Existing Instances toy_mbedtls toy_text toy_tcp.

Definition toy_session : World := session_of (str "password") toy_rng 50000.
Definition toy_stream (plains : list bytes) : bytes :=
  concat (ret_value [] (snd (encrypt_chunks plains toy_sender))).
Abbreviation toy_addr := [x01; xc0; x00; x02; x01; x00; x50].
Abbreviation toy_domain := [x03; x01; x61; x00; x50].

(** The client asks for an address, sends a byte, half-closes. *)
Definition half_closed_script : list (@net toy_tcp * event) :=
  [(50000 : Z, OnSalt (IoOk toy_salt));
   (50000 : Z, OnRead (IoOk (toy_stream [toy_addr ++ str "x"])));
   (50000 : Z, OnConnected ERR_OK);
   (49999 : Z, OnRead IoEof)].

(** ... or gets an answer instead. *)
Definition answered_script : list (@net toy_tcp * event) :=
  [(50000 : Z, OnSalt (IoOk toy_salt));
   (50000 : Z, OnRead (IoOk (toy_stream [toy_addr ++ str "x"])));
   (50000 : Z, OnConnected ERR_OK);
   (49999 : Z, OnRecv (Some (str "yz")) ERR_OK)].

(** A domain target: the byte behind the address is queued until the name is
    resolved and the connection made; the send buffer is short then, and free
    again later. *)
Definition two_reads_script : list (@net toy_tcp * event) :=
  [(50000 : Z, OnSalt (IoOk toy_salt));
   (50000 : Z, OnRead (IoOk (toy_stream [toy_domain ++ str "x"])));
   (50000 : Z, OnResolved ERR_OK (Some (IP4 0x0100007f)));
   (0 : Z, OnConnected ERR_OK);
   (50000 : Z, OnSent)].

(** A first chunk that is no address, and one that is, in the same read. *)
Definition zombie_script : list (@net toy_tcp * event) :=
  [(50000 : Z, OnSalt (IoOk toy_salt));
   (50000 : Z, OnRead (IoOk (toy_stream [[xff]; toy_addr ++ str "x"])))].

(** Two reads of the same socket into the same buffer can be outstanding:
    with a domain target the flush of [on_connected] pauses reading while a
    read is outstanding, and resuming issues another. *)
Theorem tcp_two_reads_outstanding :
  exists evs w, run toy_session evs w /\ closing_ (self w) = false /\ op_reads w = 2%nat.
Proof.
  exists (snd <$> two_reads_script), (after two_reads_script toy_session). split.
  - apply after_run. vm_compute. reflexivity.
  - vm_compute. split; reflexivity.
Qed.

(** A session that has closed can still connect: [close] for a first
    chunk without an address does not stop the chunk loop, and a later chunk
    with one opens a connection and sends to it.  [close] does nothing from
    then on, so neither the pcb nor the session goes away by itself. *)
Theorem tcp_closed_session_connects :
  exists evs w, run toy_session evs w /\ closing_ (self w) = true /\
    pcb_ (self w) <> None /\ active_self_ (self w) = true /\ uploads (calls w) = [str "x"] /\
    close w = (w, Ret tt).
Proof.
  exists (snd <$> zombie_script), (after zombie_script toy_session). split.
  - apply after_run. vm_compute. reflexivity.
  - split; [by vm_compute|]. split; [by vm_compute|]. split; [by vm_compute|].
    split; [by vm_compute|]. apply close_closing; by vm_compute.
Qed.

(* ------------------------------------------------------------------ *)
(** ** Witnesses *)

Abbreviation half_closed := (after half_closed_script toy_session).
Abbreviation answered := (after answered_script toy_session).

Lemma half_closed_run : run toy_session (snd <$> half_closed_script) half_closed.
Proof. apply after_run. vm_compute. reflexivity. Qed.
Lemma answered_run : run toy_session (snd <$> answered_script) answered.
Proof. apply after_run. vm_compute. reflexivity. Qed.

Lemma tcp_session_safe_witness :
  exists w', deliver (OnRecv (Some (str "y")) ERR_OK) half_closed = (w', Ret tt).
Proof.
  apply (@tcp_session_safe toy_mbedtls toy_mbedtls_laws toy_text toy_tcp (str "password") toy_rng
    50000 _ _ _ half_closed_run); [vm_compute; reflexivity|right; split; discriminate].
Defined.

Lemma tcp_client_queue_witness :
  client_queue_bytes_ (self answered) = Z.of_nat (length (concat (pending_client_ (self answered)))).
Proof.
  apply (@tcp_client_queue toy_mbedtls toy_mbedtls_laws toy_text toy_tcp (str "password") toy_rng
    50000 _ _ answered_run).
Defined.

Lemma tcp_pcb_protocol_witness : registered answered = pcb_ (self answered).
Proof.
  apply (@tcp_pcb_protocol toy_mbedtls toy_mbedtls_laws toy_text toy_tcp (str "password") toy_rng
    50000 _ _ answered_run).
Defined.

Lemma tcp_upload_integrity_witness :
  exists key ps rn,
    derive_subkey (factory_master_key_ (new_factory (str "password"))) toy_salt = Ret key /\
    feed (receiver key (zeros NonceSize) true, []) (reads (snd <$> answered_script)) =
      (ps, (receiver key rn true, encrypted_in_ (self answered)), Ret tt) /\
    (got_target_ (self answered),
     concat (uploads (calls answered)) ++ concat (pending_lwip_ (self answered))) =
      foldl absorb (false, []) ps.
Proof.
  apply (@tcp_upload_integrity toy_mbedtls toy_mbedtls_laws toy_text toy_tcp (str "password") toy_rng
    50000 _ _ toy_salt answered_run); vm_compute; reflexivity.
Defined.

Lemma tcp_upload_end_to_end_witness :
  concat (uploads (calls answered)) ++ concat (pending_lwip_ (self answered)) = str "x" ++ concat [] /\
  got_target_ (self answered) = true /\ encrypted_in_ (self answered) = [] /\
  placed (snd <$> answered_script) (mkTargetAddress Ipv4 (str "192.0.2.1") 80) answered.
Proof.
  eapply (@tcp_upload_end_to_end toy_mbedtls toy_mbedtls_laws toy_text toy_tcp (str "password") toy_rng
    50000 _ _ toy_rng _ toy_sender _ toy_salt toy_addr
    (mkTargetAddress Ipv4 (str "192.0.2.1") 80) (str "x") []
    (ret_value [] (snd (encrypt_chunks [toy_addr ++ str "x"] toy_sender)))).
  - exact (ret_eta [] toy_client eq_refl).
  - exact (wire_ipv4 xc0 x00 x02 x01 x00 x50).
  - constructor; [|constructor]. apply Nat.leb_le. vm_compute. reflexivity.
  - rewrite (surjective_pairing (encrypt_chunks _ toy_sender)). vm_compute. reflexivity.
  - exact answered_run.
  - vm_compute. reflexivity.
  - vm_compute. reflexivity.
  - vm_compute. reflexivity.
Defined.

Lemma tcp_download_end_to_end_witness :
  exists unsent salt stream r r',
    concat (downloads (calls answered)) ++ concat unsent = salt ++ stream /\
    (unsent = tail (pending_client_ (self answered)) \/ unsent = pending_client_ (self answered)) /\
    set_client_salt salt (make_session (new_factory (str "password"))) = (r, Ret tt) /\
    drain_all (r, stream) = ([str "yz"], (r', []), Ret tt).
Proof.
  apply (@tcp_download_end_to_end toy_mbedtls toy_mbedtls_laws toy_text toy_tcp (str "password") toy_rng
    50000 _ _ answered_run); [vm_compute; reflexivity|discriminate].
Defined.

Lemma tcp_window_conserved_witness :
  recved (calls answered) + deferred_tcp_recved_ (self answered) = 2.
Proof.
  apply (@tcp_window_conserved toy_mbedtls toy_mbedtls_laws toy_text toy_tcp (str "password") toy_rng
    50000 _ _ answered_run). vm_compute. reflexivity.
Defined.

Lemma tcp_remote_fin_use_after_free_witness :
  snd (deliver (OnRecv None ERR_OK) half_closed) = Ub.
Proof.
  apply (@tcp_remote_fin_use_after_free toy_mbedtls toy_mbedtls_laws toy_text toy_tcp (str "password")
    toy_rng 50000 _ _ half_closed_run); vm_compute; reflexivity.
Defined.

Lemma tcp_large_delivery_closes_witness :
  exists w', deliver (OnRecv (Some (zeros (S MaxChunk))) ERR_OK) answered = (w', Ret tt) /\
    closing_ (self w') = true.
Proof.
  apply (@tcp_large_delivery_closes toy_mbedtls toy_mbedtls_laws toy_text toy_tcp (str "password")
    toy_rng 50000 _ _ (zeros (S MaxChunk)) answered_run).
  - vm_compute. reflexivity.
  - unfold zeros. rewrite length_replicate. apply Nat.lt_succ_diag_r.
Defined.
