(* ===== verification/TcpLimits.v ===== *)
(** * A session without a connection

    What a session does with the client's data while it has no pcb, because
    the name is being resolved or because the remote end has closed: it goes
    on reading, and what it reads is queued without a limit; and what a client
    that closes its direction early loses. *)
From S2P Require Import Prelude Types Mbedtls Text Aead AeadStream AeadSpec Address Lwip Tcp TcpInv TcpFacts TcpRun TcpSpec.

Section Limits.
Context `{!Mbedtls, !MbedtlsLaws, !IpText, !TcpNet}.
Implicit Types (w : World) (s : Session).

(** A session that has a target and reads, with nothing left over from its
    last read, but has no connection. *)
Record unconnected w : Prop := {
  un_alive : destroyed w = false;
  un_held : held w = false;
  un_open : closing_ (self w) = false;
  un_reading : client_read_paused_ (self w) = false;
  un_reads : (0 < op_reads w)%nat;
  un_pcb : pcb_ (self w) = None;
  un_target : got_target_ (self w) = true;
  un_rest : encrypted_in_ (self w) = []
}.

Lemma decrypt_nothing s : decrypt_tcp_chunk (s, []) = ((s, []), Ret None).
Proof. unfold decrypt_tcp_chunk. by rewrite orb_true_r. Qed.

(** The chunk loop on one chunk. *)
Lemma loop_one_chunk fuel w c p r' :
  destroyed w = false -> got_target_ (self w) = true -> encrypted_in_ (self w) = c -> p <> [] ->
  decrypt_tcp_chunk (crypto_ (self w), c) = ((r', []), Ret (Some p)) ->
  chunk_loop (S (S fuel)) c 0 w =
    (w.[self := (self w).[crypto_ := r'].[pending_lwip_ := pending_lwip_ (self w) ++ [p]]], Ret ([], length c)).
Proof.
  intros Hd Hg He Hne Hdec. destruct w as [s hd ds os rd wr rs reg g n cs]. destruct s. cbn in *. subst.
  unfold chunk_loop, on_crypto, set_this, this, mbind, M_bind. cbn. rewrite Hdec. cbn.
  unfold process_decrypted_chunk, queue_payload, set_this, this, mbind, M_bind. cbn. rewrite decide_False by done. cbn.
  unfold PacketBuffer.size. cbn. rewrite orb_true_r. cbn. by rewrite Nat.sub_0_r.
Qed.

(** It takes another chunk, and queues it. *)
Lemma unconnected_read w c p r' :
  unconnected w -> p <> [] -> c <> [] ->
  decrypt_tcp_chunk (crypto_ (self w), c) = ((r', []), Ret (Some p)) ->
  exists w', deliver (OnRead (IoOk c)) w = (w', Ret tt) /\ unconnected w' /\
    crypto_ (self w') = r' /\ pending_lwip_ (self w') = pending_lwip_ (self w) ++ [p].
Proof.
  intros [Hd Hh Hcl Hp Hr Hpcb Hg He] Hne Hcne Hdec.
  destruct w as [s hd ds os rd wr rs reg g n cs]. cbn in *. subst ds hd.
  destruct rd as [|rd]; [lia|].
  unfold deliver, owning, read_handler, consume_stream, try_catch, set_this, this, mbind, M_bind, get, modify. cbn.
  rewrite He. unfold PacketBuffer.append. cbn [app]. destruct c as [|x c]; [done|]. cbn [length].
  rewrite (loop_one_chunk (length c) _ (x :: c) p r') by done.
  cbn. rewrite decide_False by lia. unfold flush_to_lwip, read_encrypted_stream, this, log, mbind, M_bind, modify. cbn.
  rewrite Hpcb. cbn. rewrite Hcl, Hp. cbn.
  unfold dropped_owner, owners, mbind, M_bind, get. cbn. rewrite decide_False by lia. cbn.
  eexists. split; [reflexivity|]. split; [|by split].
  constructor; cbn; try done; lia.
Qed.

(** A session without a connection does not hold the client back: while
    the name of the target is resolved, and after the remote end has closed,
    a client that keeps sending makes the session queue any amount of data
    that nothing takes out of the queue. *)
Theorem tcp_queue_unbounded pw g n evs w s bound :
  run (session_of pw g n) evs w -> unconnected w -> session_wf s -> linked s (crypto_ (self w)) ->
  exists more w', run (session_of pw g n) (evs ++ more) w' /\ (bound <= length (concat (pending_lwip_ (self w'))))%nat /\
    unconnected w' /\ Forall (fun ev => exists c, ev = OnRead (IoOk c)) more.
Proof.
  intros Hrun Hun Hwf Hl.
  assert (exists more w' s', run (session_of pw g n) (evs ++ more) w' /\ (bound <= length (concat (pending_lwip_ (self w'))))%nat /\
    unconnected w' /\ session_wf s' /\ linked s' (crypto_ (self w')) /\ Forall (fun ev => exists c, ev = OnRead (IoOk c)) more)
    as (more & w' & _ & H1' & H2' & H3' & _ & _ & H6'); [|by exists more, w'].
  induction bound as [|bound (more & w' & s' & Hrun' & Hb & Hun' & Hwf' & Hl' & Hall)].
  { exists [], w, s. rewrite app_nil_r. split_and!; try done. lia. }
  destruct (encrypt_tcp_chunk_Ret s' [x00] Hwf') as (c & _ & Hc & Hdec); [apply Hl'|unfold MaxChunk; cbn; lia|].
  specialize (Hdec _ [] Hl'). rewrite app_nil_r in Hdec.
  assert (c <> []) as Hcne by by destruct c.
  destruct (unconnected_read w' c [x00] _ Hun' ltac:(done) Hcne Hdec) as (w2 & E & Hun2 & Ec & Ep).
  exists (more ++ [OnRead (IoOk c)]), w2, (set_send_nonce (increment_nonce (increment_nonce (send_nonce_ s'))) s').
  split_and!; try done.
  - rewrite app_assoc. eapply run_snoc; [exact Hrun'| |exact E].
    unfold enabled. rewrite (proj2 (Nat.ltb_lt _ _)) by apply Hun'. by rewrite Hc.
  - rewrite Ep, concat_app, length_app. cbn. lia.
  - apply set_send_nonce_wf; [done|]. rewrite increment_twice_length. apply Hwf'.
  - rewrite Ec. assert (recv_nonce_ (crypto_ (self w')) = send_nonce_ s') as -> by (by destruct Hl' as (_ & -> & _)).
    by apply linked_advance.
  - apply Forall_app. split; [done|]. constructor; [by exists c|constructor].
Qed.

(** The end of a handler of a session without a pcb. *)
Lemma dropped_owner_quiet w :
  destroyed w = false -> pcb_ (self w) = None ->
  exists d, dropped_owner w = (w.[destroyed := d], Ret tt).
Proof.
  intros Hd Hp. destruct w as [s hd ds os rd wr rs reg g n cs]. cbn in *. subst ds.
  unfold dropped_owner, destructor, this, mbind, M_bind, get, modify. cbn.
  case_decide; cbn; [rewrite Hp; by exists true|by exists false].
Qed.

(** Closing a session without a pcb, and giving up one that connects. *)
Lemma close_no_pcb w :
  destroyed w = false -> closing_ (self w) = false -> pcb_ (self w) = None -> active_self_ (self w) = false ->
  close w = (w.[self := (self w).[closing_ := true]].[calls := (calls w ++ [ShutdownBoth]) ++ [CloseSocket]], Ret tt).
Proof.
  intros Hd Hc Hp Ha. destruct w as [s hd ds os rd wr rs reg g n cs]. cbn in *. subst.
  unfold close, release_active_self, log, set_this, this, mbind, M_bind, modify. cbn. rewrite Hc, Hp. cbn. by rewrite Ha.
Qed.
Lemma abort_pcb_held w p :
  destroyed w = false -> held w = true -> pcb_ (self w) = Some p -> active_self_ (self w) = true ->
  exists n, abort_pcb p w =
    (w.[self := (self w).[pcb_ := None].[active_self_ := false]].[registered := None].[lwip := n]
      .[calls := (calls w ++ [TcpDetach p]) ++ [TcpAbort p]], Ret tt).
Proof.
  intros Hd Hh Hp Ha. exists (tcp_abort p (tcp_callbacks p false (lwip w))). destruct w as [s hd ds os rd wr rs reg g n cs]. cbn in *. subst.
  unfold abort_pcb, detach_pcb_callbacks, release_active_self, stack_, stack, set_this, this, mbind, M_bind, modify.
  cbn. rewrite Hp. cbn. rewrite Ha. unfold dropped_owner, owners, mbind, M_bind, get. cbn. by rewrite decide_False by lia.
Qed.

(** The handler of the end of the stream, in such a session. *)
Lemma client_eof_closes w :
  destroyed w = false -> held w = true -> closing_ (self w) = false ->
  active_self_ (self w) = bool_decide (is_Some (pcb_ (self w))) ->
  (forall p, pcb_ (self w) = Some p -> tcp_state_of p (lwip w) = SYN_SENT) ->
  exists w', handle_client_eof w = (w', Ret tt) /\ destroyed w' = false /\ closing_ (self w') = true /\
    pcb_ (self w') = None /\ pending_lwip_ (self w') = pending_lwip_ (self w) /\ uploads (calls w') = uploads (calls w) /\
    forall p, pcb_ (self w) = Some p -> TcpAbort p ∈ calls w'.
Proof.
  intros Hd Hh Hc Ha Hst. unfold handle_client_eof. unfold set_this, this, mbind, M_bind. rewrite Hd.
  set (w1 := w.[self := _]). change (destroyed w1) with (destroyed w). rewrite Hd.
  change (pcb_ (self w1)) with (pcb_ (self w)). destruct (pcb_ (self w)) as [p|] eqn:Ep.
  - unfold ask. change (lwip w1) with (lwip w). rewrite (Hst p eq_refl).
    destruct (abort_pcb_held w1 p) as [n ->]; try done. set (w2 := w1.[self := _].[registered := _].[lwip := _].[calls := _]).
    change (destroyed w2) with (destroyed w). rewrite Hd. change (pcb_ (self w2)) with (@None pcb).
    rewrite bool_decide_true, orb_true_r by done. rewrite (close_no_pcb w2) by done.
    eexists. split; [reflexivity|]. cbn. rewrite !uploads_app, !uploads_one, !app_nil_r. split_and!; try done.
    intros q [= <-]. rewrite !elem_of_app. left; left; right. apply list_elem_of_here.
  - cbn [mret M_ret]. change (destroyed w1) with (destroyed w). rewrite ?Hd. change (pcb_ (self w1)) with (pcb_ (self w)). rewrite Ep, bool_decide_true, orb_true_r by done.
    rewrite (close_no_pcb w1) by done.
    eexists. split; [reflexivity|]. cbn. by rewrite !uploads_app, !uploads_one, !app_nil_r.
Qed.

(** A client that ends its direction before the connection to the target is
    established, while the name is resolved or the target has not answered
    yet, loses everything: the session closes, the connection attempt is
    aborted, and nothing of what the client sent is handed to lwIP any more. *)
Theorem tcp_early_half_close_lost pw g n evs w :
  run (session_of pw g n) evs w -> enabled (OnRead IoEof) w = true -> closing_ (self w) = false ->
  (forall p, pcb_ (self w) = Some p -> tcp_state_of p (lwip w) = SYN_SENT) ->
  exists w', deliver (OnRead IoEof) w = (w', Ret tt) /\ closing_ (self w') = true /\ pcb_ (self w') = None /\
    pending_lwip_ (self w') = pending_lwip_ (self w) /\ uploads (calls w') = uploads (calls w) /\
    forall p, pcb_ (self w) = Some p -> TcpAbort p ∈ calls w'.
Proof.
  intros Hrun He Hcl Hst. destruct (session_run_inv _ _ _ _ _ Hrun) as [(HI & _ & _ & Ha) _].
  apply andb_true_iff in He as [Hr%Nat.ltb_lt _].
  assert (destroyed w = false) as Hd by (apply Ha; unfold anchored; by rewrite (proj2 (Nat.ltb_lt _ _) Hr), orb_true_r).
  destruct (client_eof_closes (w.[op_reads := pred (op_reads w)].[held := true])) as (w1 & E & Hd1 & Hc1 & Hp1 & Hq1 & Hu1 & Ha1);
    try done; [apply (inv_active w HI)|].
  assert (exists d, dropped_owner (w1.[held := false]) = (w1.[held := false].[destroyed := d], Ret tt)) as [d Ed]
    by by apply dropped_owner_quiet.
  exists (w1.[held := false].[destroyed := d]). split; [|by split_and!].
  unfold deliver, owning, read_handler, mbind, M_bind, get, modify. rewrite E. cbv beta iota. exact Ed.
Qed.

End Limits.

(* ------------------------------------------------------------------ *)
(** ** Examples *)

#[local] Existing Instances toy_mbedtls toy_text toy_tcp.

(** A domain target with a byte behind it, before the name is resolved. *)
Definition resolving_script : list (@net toy_tcp * event) :=
  [(50000 : Z, OnSalt (IoOk toy_salt));
   (50000 : Z, OnRead (IoOk (toy_stream [toy_domain ++ str "x"])))].
Abbreviation resolving := (after resolving_script toy_session).
Lemma resolving_run : run toy_session (snd <$> resolving_script) resolving.
Proof. apply after_run. vm_compute. reflexivity. Qed.

Lemma resolving_unconnected : unconnected resolving.
Proof. constructor; [..|apply Nat.ltb_lt| | |]; vm_compute; reflexivity. Qed.

(** The byte is lost when the client half-closes now. *)
Example tcp_early_half_close_lost_example :
  exists w', deliver (OnRead IoEof) resolving = (w', Ret tt) /\ closing_ (self w') = true /\
    pending_lwip_ (self w') = [str "x"] /\ uploads (calls w') = [].
Proof.
  pose proof (@tcp_early_half_close_lost toy_mbedtls toy_mbedtls_laws toy_text toy_tcp (str "password") toy_rng 50000
    _ _ resolving_run) as Hlost.
  destruct Hlost as (w' & Hd & Hc & _ & Hq & Hu & _);
    [vm_compute; reflexivity|vm_compute; reflexivity|intros p Hp; vm_compute in Hp; discriminate|].
  exists w'. rewrite Hq, Hu. split_and!; [exact Hd|exact Hc|vm_compute; reflexivity|vm_compute; reflexivity].
Qed.

(** The queue of this session exceeds any bound. *)
Definition toy_sender_after : Session := fst (encrypt_chunks [toy_domain ++ str "x"] toy_sender).
Example tcp_queue_unbounded_example (bound : nat) :
  exists evs w, run toy_session evs w /\ (bound <= length (concat (pending_lwip_ (self w))))%nat /\ unconnected w.
Proof.
  destruct (@tcp_queue_unbounded toy_mbedtls toy_mbedtls_laws toy_text toy_tcp (str "password") toy_rng 50000
    _ _ toy_sender_after bound resolving_run resolving_unconnected) as (more & w' & ? & ? & ? & _).
  - unfold session_wf. split_and!; vm_compute; reflexivity.
  - unfold linked. split_and!; vm_compute; reflexivity.
  - eauto.
Qed.
