(* ===== verification/TcpFrame.v ===== *)
(** * What a TCP session does to the rest of the stack

    A part of the stack that lwIP's TCP calls leave alone is changed by a
    session only through [async_resolve], which a session calls at most once,
    for the first address it parses. *)
From S2P Require Import Prelude Types Mbedtls Text Aead AeadStream Address Lwip Tcp.

Section Frame.
Context `{!Mbedtls, !MakeAddress, !IpText, !TcpNet}.
Context {R : Type} (part : net -> R).
Hypothesis (part_new : forall n, part (snd (tcp_new_pcb n)) = part n).
Hypothesis (part_callbacks : forall p b n, part (tcp_callbacks p b n) = part n).
Hypothesis (part_connect : forall p ip port n, part (snd (tcp_connect p ip port n)) = part n).
Hypothesis (part_write : forall p d n, part (snd (tcp_write p d n)) = part n).
Hypothesis (part_output : forall p n, part (tcp_output p n) = part n).
Hypothesis (part_recved : forall p z n, part (tcp_recved p z n) = part n).
Hypothesis (part_shutdown : forall p n, part (snd (tcp_shutdown_tx p n)) = part n).
Hypothesis (part_close : forall p n, part (snd (tcp_close p n)) = part n).
Hypothesis (part_abort : forall p n, part (tcp_abort p n) = part n).
Implicit Types (w : World).

(** A state reached from one with part [r0], resolution [o0] and flag
    [g0] without a call of the resolver, or with one. *)
Definition asked_nothing (r0 : R) (o0 : option Z) (g0 : bool) w : Prop :=
  part (lwip w) = r0 /\ op_resolve w = o0 /\ (g0 = true -> got_target_ (self w) = true).
Definition asked_once (r0 : R) (o0 : option Z) (g0 : bool) w : Prop :=
  g0 = false /\ got_target_ (self w) = true /\
  exists h n port, part n = r0 /\ part (lwip w) = part (fst (async_resolve h n)) /\
    op_resolve w = match snd (async_resolve h n) with None => Some port | Some _ => o0 end.
Definition asks_once (r0 : R) (o0 : option Z) (g0 : bool) w : Prop :=
  asked_nothing r0 o0 g0 w \/ asked_once r0 o0 g0 w.

Section Uses.
Context (r0 : R) (o0 : option Z) (g0 : bool).
Abbreviation uses m := (preserves (asks_once r0 o0 g0) m).

Lemma asks_once_same w w' :
  part (lwip w') = part (lwip w) -> op_resolve w' = op_resolve w ->
  (got_target_ (self w) = true -> got_target_ (self w') = true) ->
  asks_once r0 o0 g0 w -> asks_once r0 o0 g0 w'.
Proof.
  unfold asks_once, asked_nothing, asked_once. intros -> -> Hg [(-> & -> & Ht)|(-> & Ht & Hn)]; [left|right]; auto.
Qed.

Lemma uses_stack {A} (f : net -> A * net) c : (forall n, part (snd (f n)) = part n) -> uses (stack f c).
Proof.
  intros Hf w Hw. unfold stack. specialize (Hf (lwip w)). destruct (f (lwip w)) as [a n].
  by eapply asks_once_same; [..|exact Hw].
Qed.
Lemma uses_stack_ f c : (forall n, part (f n) = part n) -> uses (stack_ f c).
Proof. intros Hf. apply uses_stack. exact Hf. Qed.
Lemma uses_ask {A} (f : net -> A) : uses (ask f).
Proof. by intros w. Qed.
Lemma uses_modify f :
  (forall w, lwip (f w) = lwip w /\ op_resolve (f w) = op_resolve w /\ self (f w) = self w) -> uses (modify f).
Proof. intros Hf w Hw. destruct (Hf w) as (E1 & E2 & E3). eapply asks_once_same; [..|exact Hw]; cbn; by rewrite ?E1, ?E2, ?E3. Qed.
Lemma uses_this : uses this.
Proof. by intros w. Qed.
Lemma uses_set_this f : (forall s, got_target_ s = true -> got_target_ (f s) = true) -> uses (set_this f).
Proof.
  intros Hf w Hw. unfold set_this. destruct (destroyed w); [done|].
  eapply asks_once_same; [..|exact Hw]; cbn; auto.
Qed.
Lemma uses_log c : uses (log c).
Proof. apply uses_modify. by intros w. Qed.
#[local] Hint Resolve uses_ask uses_this uses_log : keep.
#[local] Hint Extern 1 (preserves _ (stack _ _)) => apply uses_stack; intros; cbn; solve [auto] : keep.
#[local] Hint Extern 1 (preserves _ (stack_ _ _)) => apply uses_stack_; intros; cbn; solve [auto] : keep.
#[local] Hint Extern 1 (preserves _ (modify _)) => apply uses_modify; intros ?; split_and!; reflexivity : keep.
#[local] Hint Extern 1 (preserves _ (set_this _)) => apply uses_set_this; intros ?; solve [done|auto] : keep.

Lemma uses_on_crypto {A} (m : M Session A) : uses (on_crypto m).
Proof. unfold on_crypto. apply preserves_bind; [auto with keep|]. intros s. destruct (m (crypto_ s)). auto 10 with keep. Qed.
Lemma uses_on_crypto_rng {A} (m : M (Session * Csprng) A) : uses (on_crypto_rng m).
Proof.
  unfold on_crypto_rng. apply preserves_bind; [auto with keep|]. intros s.
  apply preserves_bind; [auto with keep|]. intros w. destruct (m (crypto_ s, prng w)) as [[c g] r]. auto 10 with keep.
Qed.
#[local] Hint Resolve uses_on_crypto uses_on_crypto_rng : keep.

Lemma uses_detach : uses detach_pcb_callbacks.
Proof. unfold detach_pcb_callbacks. auto 10 with keep. Qed.
#[local] Hint Resolve uses_detach : keep.
Lemma uses_dropped : uses dropped_owner.
Proof. unfold dropped_owner, destructor. auto 20 with keep. Qed.
#[local] Hint Resolve uses_dropped : keep.
Lemma uses_release : uses release_active_self.
Proof. unfold release_active_self. auto 20 with keep. Qed.
#[local] Hint Resolve uses_release : keep.
Lemma uses_close : uses close.
Proof. unfold close. auto 20 with keep. Qed.
Lemma uses_close_client : uses close_client_only.
Proof. unfold close_client_only. auto 20 with keep. Qed.
Lemma uses_read : uses read_encrypted_stream.
Proof. unfold read_encrypted_stream. auto 20 with keep. Qed.
#[local] Hint Resolve uses_close uses_close_client uses_read : keep.
Lemma uses_flush_loop fuel p : uses (flush_loop fuel p).
Proof. induction fuel as [|fuel IH]; cbn [flush_loop]; auto 20 with keep. Qed.
#[local] Hint Resolve uses_flush_loop : keep.
Lemma uses_flush : uses flush_to_lwip.
Proof. unfold flush_to_lwip. auto 20 with keep. Qed.
#[local] Hint Resolve uses_flush : keep.
Lemma uses_connect_ip ip port : uses (connect_ip ip port).
Proof. unfold connect_ip. auto 20 with keep. Qed.
#[local] Hint Resolve uses_connect_ip : keep.

Lemma uses_queue v : uses (queue_payload v).
Proof. unfold queue_payload. auto 20 with keep. Qed.
#[local] Hint Resolve uses_queue : keep.

(** The one place that resolves: the flag was clear, so nothing was asked. *)
Lemma uses_process chunk : uses (process_decrypted_chunk chunk).
Proof.
  intros w Hw. unfold process_decrypted_chunk, this, mbind at 1, M_bind at 1.
  destruct (destroyed w); [done|]. destruct (got_target_ (self w)) eqn:Eg; [by apply uses_queue|].
  destruct (parse_ss_address chunk) as [v [[t|]|e|]]; [|by apply uses_close|done..].
  destruct Hw as [(Hp & Ho & Hg)|(_ & Hg & _)]; [|congruence].
  assert (g0 = false) as Hg0 by (destruct g0; [by rewrite Hg in Eg|done]).
  assert (asks_once r0 o0 g0 (fst ((_ ← set_this (fun s => s.[got_target_ := true]); connect_target t) w))) as Hc.
  { unfold mbind, M_bind, set_this. destruct (destroyed w); [by left|]. set (w1 := w.[self := _]).
    assert (asks_once r0 o0 g0 w1) as H1' by (by left).
    unfold connect_target. case_decide.
    - unfold resolve_domain_then_connect. change (lwip w1) with (lwip w).
      destruct (async_resolve (host t) (lwip w)) as [n [e|]] eqn:E; right; (split_and!; [done|done|]);
        exists (host t), (lwip w), (port t); by rewrite E.
    - revert H1'. generalize w1 as w2. change (uses (ip ← lift (parse_lwip_ip (host t)); connect_ip ip (port t))).
      auto with keep. }
  clear Hp Ho Hg Hg0 Eg. unfold mbind, M_bind in *. destruct (set_this _ w) as [w1 [[]|e|]]; [|done..].
  destruct (connect_target t w1) as [w2 [[]|e|]]; [|done..]. by apply uses_queue.
Qed.
#[local] Hint Resolve uses_process : keep.

Lemma uses_chunk_loop fuel view consumed : uses (chunk_loop fuel view consumed).
Proof.
  revert view consumed. induction fuel as [|fuel IH]; intros view consumed; cbn [chunk_loop]; [auto with keep|].
  apply preserves_bind; [auto with keep|]. intros [chunk v]. auto 20 with keep.
Qed.
#[local] Hint Resolve uses_chunk_loop : keep.
Lemma uses_consume : uses consume_stream.
Proof.
  unfold consume_stream. apply preserves_bind; [auto with keep|]. intros s.
  apply preserves_bind; [auto with keep|]. intros [v n]. auto 20 with keep.
Qed.
Lemma uses_flush_client : uses flush_to_client.
Proof. unfold flush_to_client. auto 20 with keep. Qed.
#[local] Hint Resolve uses_consume uses_flush_client : keep.
Lemma uses_enqueue d : uses (enqueue_client_payload d).
Proof. unfold enqueue_client_payload, queue_client. auto 20 with keep. Qed.
Lemma uses_recved_loop fuel p : uses (recved_loop fuel p).
Proof. induction fuel as [|fuel IH]; cbn [recved_loop]; auto 20 with keep. Qed.
Lemma uses_client_eof : uses handle_client_eof.
Proof. unfold handle_client_eof, abort_pcb. auto 20 with keep. Qed.
Lemma uses_remote_fin : uses handle_remote_fin.
Proof. unfold handle_remote_fin. auto 20 with keep. Qed.
Lemma uses_resume : uses maybe_resume_client_read.
Proof. unfold maybe_resume_client_read. auto 20 with keep. Qed.
#[local] Hint Resolve uses_enqueue uses_recved_loop uses_client_eof uses_remote_fin uses_resume : keep.
Lemma uses_owning m : uses m -> uses (owning m).
Proof. unfold owning. auto 20 with keep. Qed.
#[local] Hint Resolve uses_owning : keep.

Lemma uses_resolve_handler port err ip : uses (resolve_handler port err ip).
Proof. unfold resolve_handler. auto 20 with keep. Qed.
#[local] Hint Resolve uses_resolve_handler : keep.

(** Every event but the answer. *)
Lemma uses_deliver ev : (forall err ip, ev <> OnResolved err ip) -> uses (deliver ev).
Proof.
  intros Hev. unfold deliver. apply preserves_bind; [auto with keep|]. intros w.
  destruct ev as [r|r|r|err ip|err|data err| |].
  - unfold salt_handler. auto 20 with keep.
  - unfold read_handler. auto 20 with keep.
  - unfold write_handler. auto 20 with keep.
  - by destruct (Hev err ip).
  - unfold on_connected. auto 20 with keep.
  - unfold on_recv. auto 20 with keep.
  - unfold on_sent. auto 20 with keep.
  - unfold on_err. auto 20 with keep.
Qed.

End Uses.

(** An event of a session: the part stays, or the session had no target and
    the part is that after one call of the resolver. *)
Lemma deliver_asks w ev :
  (forall err ip, ev <> OnResolved err ip) ->
  asks_once (part (lwip w)) (op_resolve w) (got_target_ (self w)) (fst (deliver ev w)).
Proof. intros Hev. apply (uses_deliver _ _ _ ev Hev w). by left. Qed.

(** The answer asks nothing. *)
Lemma answer_asks w err ip :
  got_target_ (self w) = true -> is_Some (op_resolve w) ->
  let w' := fst (deliver (OnResolved err ip) w) in part (lwip w') = part (lwip w) /\ op_resolve w' = None.
Proof.
  intros Hg [port Ho]. cbv zeta. unfold deliver, mbind, M_bind. cbn [get]. rewrite Ho. cbn [modify].
  destruct (uses_resolve_handler (part (lwip w)) None true port err ip (w.[op_resolve := None])) as [(E1 & E2 & _)|(? & _)];
    [by left| |done]. done.
Qed.

End Frame.

Section Answer.
Context `{!Mbedtls, !MakeAddress, !IpText, !TcpNet}.

(** A session that is open when the answer comes connects to it. *)
Lemma answer_connects (w : World) port ip p n1 n2 :
  destroyed w = false -> closing_ (self w) = false -> op_resolve w = Some port ->
  tcp_new_pcb (lwip w) = (Some p, n1) -> tcp_connect p ip port (tcp_callbacks p true n1) = (ERR_OK, n2) ->
  exists w', deliver (OnResolved ERR_OK (Some ip)) w = (w', Ret tt) /\
    calls w' = calls w ++ [TcpNew (Some p); TcpAttach p; TcpConnect p ip port ERR_OK] /\
    pcb_ (self w') = Some p /\ registered w' = Some p /\ destroyed w' = false.
Proof.
  destruct w as [s hd ds os rd wr rs reg g n cs]. cbn. intros -> Hc -> Hnew Hcon.
  unfold deliver, resolve_handler, owning, connect_ip, stack_, stack, set_this, this, mbind, M_bind, get, modify.
  cbn. rewrite Hc, bool_decide_eq_false_2 by (intros Hne; by apply Hne). cbn. rewrite Hnew. cbn. rewrite Hcon. cbn.
  rewrite decide_True by done. unfold mret, M_ret, dropped_owner, owners, mbind, M_bind, get. cbn.
  rewrite decide_False by lia.
  eexists. split; [reflexivity|]. cbn. by rewrite <- !app_assoc.
Qed.
End Answer.
