(* ===== verification/Udp.v ===== *)
(** * UDP relay

    [src/UdpRelaySession.cpp]: one object per listening UDP port.  A datagram
    of a client is decrypted and sent through a lwIP pcb that belongs to the
    pair of client and target; what arrives at that pcb goes back to the
    client.  The pairs are [Mapping] objects in a table; lwIP holds a raw
    pointer to a mapping as the argument of its receive callback.  The
    mappings are therefore kept in a heap of their own, and an access to one
    that has been freed is [Ub]. *)
From S2P Require Import Prelude Types Mbedtls Text Aead Address Lwip.

(** Client addresses: [asio::ip::address] with [to_string()]. *)
Class ClientAddress := {
  caddr : Type;
  caddr_eq_dec :: EqDecision caddr;
  address_to_string : caddr -> bytes
}.

(** Texts of addresses tell addresses apart and have no vertical bar. *)
Class ClientAddressLaws `{!ClientAddress} : Prop := {
  address_to_string_inj :: Inj (=) (=) address_to_string;
  address_no_bar a : ch "|" ∉ address_to_string a
}.

(** [ipaddr_ntoa]; its text is one that [inet_pton] reads as the same address. *)
Class IpPrint := { ipaddr_ntoa : ip_addr_t -> bytes }.
Class IpPrintLaws `{!IpPrint, !MakeAddress} : Prop := {
  ntoa_v4 a : make_address_v4 (ipaddr_ntoa (IP4 a)) = Some (ip_network_bytes (IP4 a));
  ntoa_v6 a b c d :
    make_address_v6 (ipaddr_ntoa (IP6 a b c d)) = Some (ip_network_bytes (IP6 a b c d))
}.

(** [LwipRuntime::async_resolve] as the relay uses it: it takes the handler
    or throws. *)
Class UdpResolver `{!UdpNet} := { uasync_resolve : bytes -> unet -> unet * option exn }.

(** A resolution may make a pcb of its own; a resolver that is ready for a call
    removes none. *)
Class UdpResolverLaws `{!UdpNet, !UdpNetLaws, !UdpResolver} := {
  resolver_ready : bytes -> unet -> Prop;
  uasync_resolve_live h n : resolver_ready h n -> live n ⊆ live (fst (uasync_resolve h n))
}.

Section Udp.
Context `{!Mbedtls, !MakeAddress, !IpText, !IpPrint, !ClientAddress, !UdpNet, !UdpResolver}.

Record endpoint := mkEndpoint { ep_address : caddr; ep_port : Z }.

Definition mapping_key (client : endpoint) (target : TargetAddress) : bytes :=
  address_to_string (ep_address client) ++ str ":" ++ to_string (ep_port client) ++ str "|" ++
  host target ++ str ":" ++ to_string (port target).

Definition parse_ip (h : bytes) : outcome ip_addr_t :=
  match ipaddr_aton (c_str h) with
  | Some ip => Ret ip
  | None => Exn (runtime_error (str "invalid UDP target IP: " ++ h))
  end.

(* ------------------------------------------------------------------ *)
(** ** State *)

(** [Mapping]; its owner is the session.  [m_armed]: the idle timer has a wait
    outstanding. *)
Record Mapping := mkMapping {
  m_pcb : option upcb;
  m_client : endpoint;
  m_target : TargetAddress;
  m_key : bytes;
  m_armed : bool
}.
#[export] Instance Mapping_eta : Eta Mapping := fun m =>
  mkMapping (m_pcb m) (m_client m) (m_target m) (m_key m) (m_armed m).

(** The session: [mappings_] holds pointers into the heap of mappings,
    [lifetime_token_] one into the heap of tokens; [socket_] is open or not. *)
Record UdpRelaySession := mkUdpRelaySession {
  ucrypto_ : AeadFactory;
  mappings_ : gmap bytes nat;
  lifetime_token_ : option nat;
  running_ : bool;
  socket_ : bool
}.
#[export] Instance UdpRelaySession_eta : Eta UdpRelaySession := fun s =>
  mkUdpRelaySession (ucrypto_ s) (mappings_ s) (lifetime_token_ s) (running_ s) (socket_ s).

(** What the lambda of [resolve_domain_then_send] captures. *)
Record Resolution := mkResolution {
  r_token : option nat;
  r_payload : bytes;
  r_client : endpoint;
  r_target : TargetAddress
}.

Inductive ucall :=
| ReceiveFrom
| SendTo (client : endpoint) (data : bytes)
| CloseUdpSocket
| UdpNew (r : option upcb) | UdpRecv (u : upcb) (m : nat) | UdpRemove (u : upcb)
| UdpSendto (u : upcb) (data : bytes) (ip : ip_addr_t) (port : Z) (err : Z)
| UdpResolve (h : bytes).

Record UdpWorld := mkUdpWorld {
  usession : UdpRelaySession;
  heap : gmap nat Mapping;        (* the mappings that exist *)
  next : nat;                     (* addresses from here on are unused *)
  tokens : list bool;             (* the tokens made so far *)
  inbound : bool;                 (* the inbound holds the session *)
  uheld : bool;                   (* a handler that owns it runs *)
  udestroyed : bool;
  op_recv : nat;                  (* outstanding async_receive_from *)
  expired : list bytes;           (* idle timers that expired, handler not yet run *)
  resolving : list Resolution;
  callbacks : gmap upcb nat;      (* lwIP's receive callbacks and their argument *)
  uprng : Csprng;
  ulwip : unet;
  ucalls : list ucall
}.
#[export] Instance UdpWorld_eta : Eta UdpWorld := fun w =>
  mkUdpWorld (usession w) (heap w) (next w) (tokens w) (inbound w) (uheld w) (udestroyed w)
    (op_recv w) (expired w) (resolving w) (callbacks w) (uprng w) (ulwip w) (ucalls w).

Definition uthis : M UdpWorld UdpRelaySession := fun w =>
  (w, if udestroyed w then Ub else Ret (usession w)).
Definition set_uthis (f : UdpRelaySession -> UdpRelaySession) : M UdpWorld unit := fun w =>
  if udestroyed w then (w, Ub) else (w.[usession := f (usession w)], Ret tt).

Definition ulog (c : ucall) : M UdpWorld unit := modify (fun w => w.[ucalls := ucalls w ++ [c]]).
Definition ustack {A} (f : unet -> A * unet) : M UdpWorld A := fun w =>
  let '(a, n) := f (ulwip w) in (w.[ulwip := n], Ret a).

(** A mapping through its pointer. *)
Definition mapping_at (id : nat) : M UdpWorld Mapping := fun w =>
  (w, match heap w !! id with Some m => Ret m | None => Ub end).
Definition set_mapping (id : nat) (f : Mapping -> Mapping) : M UdpWorld unit := fun w =>
  match heap w !! id with
  | Some m => (w.[heap := <[id := f m]> (heap w)], Ret tt)
  | None => (w, Ub)
  end.
(** The end of a mapping's [unique_ptr]; its timer goes with it, so a wait that
    has not expired yet is cancelled. *)
Definition free_mapping (id : nat) : M UdpWorld unit := modify (fun w => w.[heap := delete id (heap w)]).

(** [if (mapping->pcb != nullptr) { udp_remove(mapping->pcb); mapping->pcb = nullptr; }] *)
Definition remove_pcb (id : nat) : M UdpWorld unit :=
  m ← mapping_at id;
  match m_pcb m with
  | None => mret tt
  | Some u =>
      _ ← ustack (fun n => (tt, udp_remove u n));
      _ ← ulog (UdpRemove u);
      _ ← modify (fun w => w.[callbacks := delete u (callbacks w)]);
      set_mapping id (fun m => m.[m_pcb := None])
  end.

(* ------------------------------------------------------------------ *)
(** ** Lifetime *)

(** [stop] *)
Definition stop_udp : M UdpWorld unit :=
  _ ← set_uthis (fun s => s.[running_ := false]);
  s ← uthis;
  _ ← match lifetime_token_ s with
      | Some t =>
          _ ← modify (fun w => w.[tokens := <[t := false]> (tokens w)]);
          set_uthis (fun s => s.[lifetime_token_ := None])
      | None => mret tt
      end;
  _ ← set_uthis (fun s => s.[socket_ := false]);
  _ ← ulog CloseUdpSocket;
  let ids := snd <$> map_to_list (mappings_ s) in
  _ ← each remove_pcb ids;
  _ ← each free_mapping ids;
  set_uthis (fun s => s.[mappings_ := ∅]).

(** The destructor runs [stop]. *)
Definition udropped_owner : M UdpWorld unit :=
  w ← get;
  if udestroyed w || inbound w || uheld w || (0 <? op_recv w)%nat then mret tt
  else _ ← stop_udp; modify (fun w => w.[udestroyed := true]).

(** [receive_loop]: the outstanding operation owns the session. *)
Definition receive_loop : M UdpWorld unit :=
  s ← uthis;
  if running_ s
  then _ ← ulog ReceiveFrom; modify (fun w => w.[op_recv := S (op_recv w)])
  else mret tt.

(** [start] *)
Definition start_udp : M UdpWorld unit :=
  s ← uthis;
  _ ← match lifetime_token_ s with
      | Some _ => mret tt
      | None =>
          w ← get;
          _ ← modify (fun w => w.[tokens := tokens w ++ [true]]);
          set_uthis (fun s => s.[lifetime_token_ := Some (length (tokens w))])
      end;
  _ ← set_uthis (fun s => s.[running_ := true]);
  receive_loop.

(* ------------------------------------------------------------------ *)
(** ** The table *)

(** [mapping_for]; the [unique_ptr] frees the new mapping when it throws. *)
Definition mapping_for (client : endpoint) (target : TargetAddress) : M UdpWorld nat :=
  let key := mapping_key client target in
  s ← uthis;
  match mappings_ s !! key with
  | Some id => mret id
  | None =>
      r ← ustack udp_new;
      _ ← ulog (UdpNew r);
      match r with
      | None => lift (throw "udp_new failed")
      | Some u =>
          w ← get;
          let id := next w in
          _ ← modify (fun w =>
                w.[next := S id].[heap := <[id := mkMapping (Some u) client target key false]> (heap w)]);
          _ ← ustack (fun n => (tt, udp_recv u true n));
          _ ← ulog (UdpRecv u id);
          _ ← modify (fun w => w.[callbacks := <[u := id]> (callbacks w)]);
          _ ← set_uthis (fun s => s.[mappings_ := <[key := id]> (mappings_ s)]);
          mret id
      end
  end.

(** [arm_idle_timer]: [expires_after] cancels a wait that has not expired. *)
Definition arm_idle_timer (id : nat) : M UdpWorld unit := set_mapping id (fun m => m.[m_armed := true]).

(** [erase_mapping] *)
Definition erase_mapping (key : bytes) : M UdpWorld unit :=
  s ← uthis;
  match mappings_ s !! key with
  | None => mret tt
  | Some id =>
      _ ← remove_pcb id;
      _ ← free_mapping id;
      set_uthis (fun s => s.[mappings_ := delete key (mappings_ s)])
  end.

(* ------------------------------------------------------------------ *)
(** ** Datagrams *)

(** [send_payload_to_ip]; the pbuf has the 16-bit length of the cast. *)
Definition send_payload_to_ip (payload : bytes) (client : endpoint) (target : TargetAddress)
    (ip : ip_addr_t) : M UdpWorld unit :=
  try_catch
    (id ← mapping_for client target;
     _ ← arm_idle_timer id;
     let len := u16 (Z.of_nat (length payload)) in
     ok ← ustack (pbuf_alloc len);
     if (ok : bool) then
       m ← mapping_at id;
       match m_pcb m with
       | None => lift Ub
       | Some u =>
           let data := take (Z.to_nat len) payload in
           err ← ustack (udp_sendto u data ip (port target));
           ulog (UdpSendto u data ip (port target) err)
       end
     else mret tt)
    (mret tt).

(** [resolve_domain_then_send] *)
Definition resolve_domain_then_send (payload : bytes) (client : endpoint) (target : TargetAddress)
  : M UdpWorld unit :=
  s ← uthis;
  _ ← ulog (UdpResolve (host target));
  r ← ustack (fun n => let '(n, e) := uasync_resolve (host target) n in (e, n));
  match r with
  | Some e => lift (Exn e)
  | None =>
      modify (fun w => w.[resolving := resolving w ++
        [mkResolution (lifetime_token_ s) payload client target]])
  end.

(** [send_to_lwip] *)
Definition send_to_lwip (datagram : bytes) (client : endpoint) : M UdpWorld unit :=
  try_catch
    (s ← uthis;
     plain ← lift (decrypt_udp_packet (make_session (ucrypto_ s)) datagram);
     match plain with
     | None => mret tt
     | Some plain =>
         let '(rest, r) := parse_ss_address plain in
         target ← lift r;
         match target with
         | None => mret tt
         | Some target =>
             if decide (ta_type target = Domain) then resolve_domain_then_send rest client target
             else
               ip ← lift (parse_ip (host target));
               send_payload_to_ip rest client target ip
         end
     end)
    (mret tt).

(** The address a reply is labelled with. *)
Definition reply_address (mapping : Mapping) (addr : ip_addr_t) (p : Z) : TargetAddress :=
  let target := m_target mapping in
  if decide (ta_type target = Domain) then mkTargetAddress Domain (host target) p
  else mkTargetAddress (if IP_IS_V6 addr then Ipv6 else Ipv4) (ipaddr_ntoa addr) p.

(** [send_to_client] *)
Definition send_to_client (mapping : Mapping) (payload : bytes) (addr : ip_addr_t) (p : Z)
  : M UdpWorld unit :=
  plain ← lift (encode_ss_address (reply_address mapping addr p));
  let plain := PacketBuffer.append plain payload in
  s ← uthis;
  w ← get;
  let '((_, g), r) := encrypt_udp_packet plain (make_session (ucrypto_ s), uprng w) in
  _ ← modify (fun w => w.[uprng := g]);
  encrypted ← lift r;
  if socket_ s then ulog (SendTo (m_client mapping) encrypted) else mret tt.

(** [on_udp_recv]: [arg] is the pointer lwIP was given. *)
Definition on_udp_recv (arg : nat) (payload : bytes) (addr : ip_addr_t) (p : Z) : M UdpWorld unit :=
  mapping ← mapping_at arg;
  send_to_client mapping payload addr p.

(* ------------------------------------------------------------------ *)
(** ** Handlers *)

Definition uowning (m : M UdpWorld unit) : M UdpWorld unit :=
  _ ← modify (fun w => w.[uheld := true]);
  _ ← m;
  _ ← modify (fun w => w.[uheld := false]);
  udropped_owner.

(** The handler of [receive_loop]. *)
Definition receive_handler (r : io_result (bytes * endpoint)) : M UdpWorld unit :=
  _ ← match r with IoOk (data, client) => send_to_lwip data client | _ => mret tt end;
  receive_loop.

(** The lambda of [resolve_domain_then_send]. *)
Definition resolved_handler (r : Resolution) (err : Z) (ip : option ip_addr_t) : M UdpWorld unit :=
  w ← get;
  if udestroyed w then mret tt
  else
    uowning (
      s ← uthis;
      match r_token r, ip with
      | Some t, Some ip =>
          if bool_decide (tokens w !! t = Some true) && running_ s && bool_decide (err = ERR_OK)
          then send_payload_to_ip (r_payload r) (r_client r) (r_target r) ip
          else mret tt
      | _, _ => mret tt
      end).

(** The handler of [arm_idle_timer], for a timer that expired. *)
Definition idle_handler (key : bytes) : M UdpWorld unit :=
  w ← get;
  if udestroyed w then mret tt else uowning (erase_mapping key).

(* ------------------------------------------------------------------ *)
(** ** Events *)

Inductive uevent :=
| OnDatagram (r : io_result (bytes * endpoint))
| OnReply (u : upcb) (payload : bytes) (addr : ip_addr_t) (p : Z)
| OnAnswer (i : nat) (err : Z) (ip : option ip_addr_t)
| Expires (key : bytes)            (* the idle timer of a mapping runs out *)
| OnIdle (i : nat)                 (* the handler of an expired timer runs *)
| OnStop.                          (* the inbound stops and releases the session *)

(** A datagram fits [recv_buf_]; a pbuf's length and a port have 16 bits. *)
Definition uenabled (ev : uevent) (w : UdpWorld) : bool :=
  match ev with
  | OnDatagram r =>
      (0 <? op_recv w)%nat &&
      match r with
      | IoOk (d, c) => (Z.of_nat (length d) <=? 65536) && (0 <=? ep_port c) && (ep_port c <=? 65535)
      | _ => true
      end
  | OnReply u payload _ p =>
      bool_decide (is_Some (callbacks w !! u)) && (Z.of_nat (length payload) <=? 65535) &&
      (0 <=? p) && (p <=? 65535)
  | OnAnswer i _ _ => (i <? length (resolving w))%nat
  | Expires key =>
      match mappings_ (usession w) !! key with
      | Some id => match heap w !! id with Some m => m_armed m | None => false end
      | None => false
      end
  | OnIdle i => (i <? length (expired w))%nat
  | OnStop => inbound w
  end.

Definition udeliver (ev : uevent) : M UdpWorld unit :=
  w ← get;
  match ev with
  | OnDatagram r =>
      _ ← modify (fun w => w.[op_recv := pred (op_recv w)]);
      uowning (receive_handler r)
  | OnReply u payload addr p =>
      match callbacks w !! u with
      | Some arg => on_udp_recv arg payload addr p
      | None => mret tt
      end
  | OnAnswer i err ip =>
      match resolving w !! i with
      | Some r =>
          _ ← modify (fun w => w.[resolving := delete i (resolving w)]);
          resolved_handler r err ip
      | None => mret tt
      end
  | Expires key =>
      match mappings_ (usession w) !! key with
      | Some id =>
          _ ← set_mapping id (fun m => m.[m_armed := false]);
          modify (fun w => w.[expired := expired w ++ [key]])
      | None => mret tt
      end
  | OnIdle i =>
      match expired w !! i with
      | Some key =>
          _ ← modify (fun w => w.[expired := delete i (expired w)]);
          idle_handler key
      | None => mret tt
      end
  | OnStop =>
      _ ← stop_udp;
      _ ← modify (fun w => w.[inbound := false]);
      udropped_owner
  end.

(** The constructor and [start]. *)
Definition constructed (f : AeadFactory) (g : Csprng) (n : unet) : UdpWorld :=
  mkUdpWorld (mkUdpRelaySession f ∅ (Some 0%nat) false true) ∅ 0 [true] true false false 0 [] [] ∅
    g n [].
Definition listening (f : AeadFactory) (g : Csprng) (n : unet) : UdpWorld :=
  fst (start_udp (constructed f g n)).

End Udp.
