(* ===== verification/UdpFacts.v ===== *)
(** * The UDP relay's table

    The invariant that ties the table, the mappings, lwIP's callbacks and the
    log together, and what each operation does to it. *)
From S2P Require Import Prelude Types Mbedtls Text Aead AeadStream Address Lwip Udp.

Section Facts.
Context `{!Mbedtls, !MbedtlsLaws, !MakeAddress, !IpText, !IpPrint, !ClientAddress, !UdpNet, !UdpResolver}.
Context `{!UdpNetLaws}.
Implicit Types (w : UdpWorld) (m : Mapping) (u : upcb).

(* ------------------------------------------------------------------ *)
(** ** The invariant *)

(** The pcbs a log has made and not removed. *)
Definition open_step (o : gset upcb) (c : ucall) : gset upcb :=
  match c with
  | UdpNew (Some u) => {[u]} ∪ o
  | UdpRemove u => o ∖ {[u]}
  | _ => o
  end.
Definition open_pcbs (l : list ucall) : gset upcb := fold_left open_step l ∅.
#[global] Arguments open_pcbs : simpl never.

Lemma open_pcbs_snoc l c : open_pcbs (l ++ [c]) = open_step (open_pcbs l) c.
Proof. unfold open_pcbs. by rewrite fold_left_app. Qed.

(** A target that came off the wire, and a client's endpoint. *)
Definition target_ok (t : TargetAddress) : Prop := exists wire, ss_wire t wire.
Definition endpoint_ok (c : endpoint) : Prop := 0 <= ep_port c <= 65535.

Record mapping_ok m : Prop := {
  mo_key : m_key m = mapping_key (m_client m) (m_target m);
  mo_target : target_ok (m_target m);
  mo_client : endpoint_ok (m_client m)
}.

(** Table and heap agree, lwIP's callbacks point at the mappings, the open
    pcbs are those of the mappings. *)
Record UCore w : Prop := {
  uc_table k id : mappings_ (usession w) !! k = Some id <->
                  exists m, heap w !! id = Some m /\ m_key m = k;
  uc_next id : is_Some (heap w !! id) -> (id < next w)%nat;
  uc_cb u id : callbacks w !! u = Some id <->
               exists m, heap w !! id = Some m /\ m_pcb m = Some u;
  uc_ok id m : heap w !! id = Some m -> mapping_ok m;
  uc_live u : is_Some (callbacks w !! u) -> u ∈ live (ulwip w);
  uc_log : open_pcbs (ucalls w) = dom (callbacks w)
}.

Definition all_open w : Prop := forall id m, heap w !! id = Some m -> is_Some (m_pcb m).
Definition UInv w : Prop := UCore w /\ all_open w.

(** What the operations on the table leave alone. *)
Definition life w :=
  (udestroyed w, inbound w, uheld w, op_recv w, expired w, resolving w, tokens w,
   running_ (usession w), socket_ (usession w), ucrypto_ (usession w), lifetime_token_ (usession w)).

(** The pcbs of others stay in use. *)
Definition foreign w : gset upcb := live (ulwip w) ∖ dom (callbacks w).
Definition spares w w' : Prop := foreign w ⊆ foreign w'.
#[export] Instance spares_preorder : PreOrder spares.
Proof. split; [intros w|intros w1 w2 w3]; unfold spares; set_solver. Qed.

Lemma spares_stack w w' :
  live (ulwip w) ⊆ live (ulwip w') -> callbacks w' = callbacks w -> spares w w'.
Proof. unfold spares, foreign. intros ? ->. set_solver. Qed.
Lemma spares_removed w w' u :
  live (ulwip w') = live (ulwip w) ∖ {[u]} -> callbacks w' = delete u (callbacks w) ->
  is_Some (callbacks w !! u) -> spares w w'.
Proof. unfold spares, foreign. intros -> -> Hu%elem_of_dom. rewrite dom_delete_L. set_solver. Qed.
Lemma spares_made w w' u id :
  live (ulwip w') = {[u]} ∪ live (ulwip w) -> callbacks w' = <[u := id]> (callbacks w) ->
  u ∉ live (ulwip w) -> spares w w'.
Proof. unfold spares, foreign. intros -> -> Hu. rewrite dom_insert_L. set_solver. Qed.

Lemma uthis_run w : udestroyed w = false -> uthis w = (w, Ret (usession w)).
Proof. unfold uthis. by intros ->. Qed.
Lemma set_uthis_run f w :
  udestroyed w = false -> set_uthis f w = (w.[usession := f (usession w)], Ret tt).
Proof. unfold set_uthis. by intros ->. Qed.

Lemma UInv_empty w :
  heap w = ∅ -> mappings_ (usession w) = ∅ -> callbacks w = ∅ -> open_pcbs (ucalls w) = ∅ -> UInv w.
Proof.
  intros Hh Hm Hc Hl. split; [constructor|intros id m]; rewrite ?Hh, ?Hm, ?Hc, ?Hl.
  - intros k id. rewrite !lookup_empty. naive_solver.
  - intros id. rewrite lookup_empty. by intros [? ?].
  - intros u id. rewrite !lookup_empty. naive_solver.
  - intros id m. by rewrite lookup_empty.
  - intros u. rewrite lookup_empty. by intros [? ?].
  - by rewrite dom_empty_L.
  - by rewrite lookup_empty.
Qed.

(** Calls that make no pcb and remove none. *)
Lemma UCore_stack w n l :
  UCore w -> live (ulwip w) ⊆ live n -> open_pcbs l = open_pcbs (ucalls w) ->
  UCore (w.[ulwip := n].[ucalls := l]).
Proof.
  intros Hc En El. destruct Hc as [T N C O L G]. constructor; [done..| |].
  - intros u Hu. cbn. apply En. by apply L.
  - cbn. by rewrite El.
Qed.

(* ------------------------------------------------------------------ *)
(** ** Removing a pcb *)

Lemma remove_pcb_run id w m u :
  heap w !! id = Some m -> m_pcb m = Some u ->
  remove_pcb id w =
  (w.[ulwip := udp_remove u (ulwip w)].[ucalls := ucalls w ++ [UdpRemove u]]
    .[callbacks := delete u (callbacks w)].[heap := <[id := m.[m_pcb := None]]> (heap w)], Ret tt).
Proof.
  intros Hm Hu. unfold remove_pcb, mapping_at, mbind, M_bind. rewrite Hm, Hu.
  cbn. unfold set_mapping. cbn. by rewrite Hm.
Qed.

Lemma remove_pcb_spec id w :
  UCore w -> is_Some (heap w !! id) ->
  exists w', remove_pcb id w = (w', Ret tt) /\ UCore w' /\ life w' = life w /\
    mappings_ (usession w') = mappings_ (usession w) /\ next w' = next w /\
    uprng w' = uprng w /\
    (forall j m, heap w' !! j = Some m ->
       if decide (j = id) then m_pcb m = None else heap w !! j = Some m) /\
    (forall j, is_Some (heap w' !! j) <-> is_Some (heap w !! j)) /\ spares w w'.
Proof.
  intros Hc [m Hm]. destruct (m_pcb m) as [u|] eqn:Hu.
  2:{ exists w. unfold remove_pcb, mapping_at, mbind, M_bind. rewrite Hm, Hu.
      split_and!; try done. intros j m'. case_decide; [subst|done]. congruence. }
  eexists. split; [by apply remove_pcb_run|].
  assert (callbacks w !! u = Some id) as Hcb by (apply (uc_cb w Hc); eauto).
  split_and!; try done; cbn.
  2:{ intros j m'. case_decide as Ej; [subst|by rewrite lookup_insert_ne].
      rewrite lookup_insert_eq. by intros [= <-]. }
  2:{ intros j. destruct (decide (j = id)) as [->|]; [|by rewrite lookup_insert_ne].
      rewrite lookup_insert_eq, Hm. split; eauto. }
  2:{ eapply (spares_removed _ _ u); [apply udp_remove_live|done|eauto]. }
  destruct Hc. constructor; cbn.
  - intros k j. rewrite uc_table0. destruct (decide (j = id)) as [->|];
      [|by rewrite lookup_insert_ne].
    rewrite lookup_insert_eq, Hm. naive_solver.
  - intros j. destruct (decide (j = id)) as [->|]; [|rewrite lookup_insert_ne by done; auto].
    intros _. eauto.
  - intros v j. destruct (decide (v = u)) as [->|Hv].
    + rewrite lookup_delete_eq. split; [done|]. intros (m' & Hj & Hp).
      destruct (decide (j = id)) as [->|Hj']; [rewrite lookup_insert_eq in Hj; naive_solver|].
      rewrite lookup_insert_ne in Hj by done.
      assert (callbacks w !! u = Some j) by (apply uc_cb0; eauto). congruence.
    + rewrite lookup_delete_ne, uc_cb0 by done.
      destruct (decide (j = id)) as [->|]; [|by rewrite lookup_insert_ne].
      rewrite lookup_insert_eq, Hm. naive_solver.
  - intros j m'. destruct (decide (j = id)) as [->|]; [|rewrite lookup_insert_ne by done; eauto].
    rewrite lookup_insert_eq. intros [= <-]. by destruct (uc_ok0 id m Hm).
  - intros v Hv. rewrite udp_remove_live. destruct (decide (v = u)) as [->|].
    + rewrite lookup_delete_eq in Hv. by destruct Hv.
    + rewrite lookup_delete_ne in Hv by done. specialize (uc_live0 v Hv). set_solver.
  - rewrite open_pcbs_snoc. cbn. by rewrite uc_log0, dom_delete_L.
Qed.

Lemma remove_all_spec ids w :
  UCore w -> (forall id, id ∈ ids -> is_Some (heap w !! id)) ->
  exists w', each remove_pcb ids w = (w', Ret tt) /\ UCore w' /\ life w' = life w /\
    mappings_ (usession w') = mappings_ (usession w) /\ next w' = next w /\ uprng w' = uprng w /\
    (forall id m, heap w' !! id = Some m ->
       if decide (id ∈ ids) then m_pcb m = None else heap w !! id = Some m) /\
    (forall id, is_Some (heap w' !! id) <-> is_Some (heap w !! id)) /\ spares w w'.
Proof.
  revert w. induction ids as [|i ids IH]; intros w Hc Hin; cbn [each].
  { exists w. split_and!; try done. }
  destruct (remove_pcb_spec i w Hc) as (w1 & E1 & Hc1 & Hl1 & Hm1 & Hn1 & Hp1 & Hh1 & Hd1 & Hs1);
    [apply Hin; set_solver|].
  destruct (IH w1 Hc1) as (w2 & E2 & Hc2 & Hl2 & Hm2 & Hn2 & Hp2 & Hh2 & Hd2 & Hs2).
  { intros id Hid. apply Hd1, Hin. set_solver. }
  exists w2. unfold mbind, M_bind. rewrite E1, E2. split_and!; try done; try congruence.
  - intros id m Hm. specialize (Hh2 id m Hm). case_decide as Hd.
    + rewrite decide_True by set_solver. done.
    + specialize (Hh1 id m Hh2). case_decide; [rewrite decide_True by set_solver|
        rewrite decide_False by set_solver]; done.
  - intros id. by rewrite Hd2, Hd1.
  - by transitivity w1.
Qed.

Lemma free_all_run ids w :
  each free_mapping ids w = (w.[heap := foldl (fun h id => delete id h) (heap w) ids], Ret tt).
Proof.
  revert w. induction ids as [|i ids IH]; intros w; cbn [each]; [by destruct w|].
  unfold mbind, M_bind. cbn. rewrite IH. done.
Qed.

(* ------------------------------------------------------------------ *)
(** ** [stop] and [erase_mapping] *)

(** [stop] removes every pcb and every mapping. *)
Lemma stop_udp_spec w :
  UInv w -> udestroyed w = false ->
  exists w', stop_udp w = (w', Ret tt) /\ UInv w' /\
    heap w' = ∅ /\ mappings_ (usession w') = ∅ /\ callbacks w' = ∅ /\
    running_ (usession w') = false /\ socket_ (usession w') = false /\
    udestroyed w' = false /\ inbound w' = inbound w /\ uheld w' = uheld w /\ op_recv w' = op_recv w /\
    resolving w' = resolving w /\ expired w' = expired w /\ ucrypto_ (usession w') = ucrypto_ (usession w) /\
    spares w w'.
Proof.
  intros [Hc _] Hd.
  set (ids := snd <$> map_to_list (mappings_ (usession w))).
  set (w1 := match lifetime_token_ (usession w) with
     | Some t => w.[tokens := <[t := false]> (tokens w)]
     | None => w end).
  set (w2 := w1.[usession := mkUdpRelaySession (ucrypto_ (usession w)) (mappings_ (usession w)) None
                  false false].[ucalls := ucalls w ++ [CloseUdpSocket]]).
  assert (UCore w2) as Hc2.
  { destruct Hc. unfold w2, w1. destruct (lifetime_token_ (usession w)); constructor; cbn; eauto;
      rewrite open_pcbs_snoc; done. }
  assert (forall id, id ∈ ids <-> is_Some (heap w2 !! id)) as Hids.
  { intros id. unfold ids. rewrite list_elem_of_fmap. split.
    - intros ([k j] & -> & Hk%elem_of_map_to_list).
      destruct (proj1 (uc_table w2 Hc2 k j) Hk) as (m & Hm & _). by exists m.
    - intros [m Hm]. exists (m_key m, id). split; [done|]. apply elem_of_map_to_list.
      apply (uc_table w2 Hc2). eauto. }
  destruct (remove_all_spec ids w2 Hc2) as (w3 & E3 & Hc3 & Hl3 & Hm3 & Hn3 & Hp3 & Hh3 & Hd3 & Hs3);
    [intros; by apply Hids|].
  assert (stop_udp w = (_ ← each remove_pcb ids; _ ← each free_mapping ids;
                        set_uthis (fun s => s.[mappings_ := ∅])) w2) as ->.
  { unfold w2, w1, ids. clear -Hd. destruct w as [[cr ms tok ru so] h n t i he d o e r c g l cs].
    cbn in Hd. subst d. by destruct tok. }
  injection Hl3 as Ld Li Lh Lo Le Lr Lt Lrun Lsock Lcr Ltok.
  assert (udestroyed w1 = false /\ inbound w1 = inbound w /\ uheld w1 = uheld w /\
          op_recv w1 = op_recv w /\ expired w1 = expired w /\ resolving w1 = resolving w)
    as (D2 & I2 & He2 & O2 & X2 & R2)
    by (unfold w1; destruct (lifetime_token_ (usession w)); done).
  assert (heap (w3.[heap := foldl (fun h id => delete id h) (heap w3) ids]) = ∅) as Hempty.
  { apply map_empty. intros j. cbn. rewrite foldl_delete_lookup. case_decide as Hj; [done|].
    destruct (heap w3 !! j) eqn:E; [|done]. exfalso. apply Hj, Hids, Hd3. by rewrite E. }
  assert (callbacks w3 = ∅) as Hcb.
  { apply map_empty. intros u. destruct (callbacks w3 !! u) as [id|] eqn:E; [exfalso|done].
    apply (uc_cb w3 Hc3) in E as (m & Hm & Hp). specialize (Hh3 id m Hm).
    rewrite decide_True in Hh3; [congruence|]. apply Hids, Hd3. eauto. }
  unfold mbind, M_bind. rewrite E3, free_all_run, set_uthis_run by (cbn; congruence).
  assert (spares w w2) as Hs2
    by (apply spares_stack; unfold w2, w1; by destruct (lifetime_token_ (usession w))).
  eexists. split; [done|].
  split; [apply UInv_empty|]; try done; 
    [|split_and!; try done; [cbn; congruence..|by transitivity w2]].
  change (open_pcbs (ucalls w3) = ∅). by rewrite (uc_log w3 Hc3), Hcb, dom_empty_L.
Qed.

(** What an operation that returns [tt] keeps. *)
Definition kept w w' : Prop := UInv w' /\ life w' = life w /\ uprng w' = uprng w /\ spares w w'.
Lemma kept_refl w : UInv w -> kept w w.
Proof. intros Hi. by split_and!. Qed.

Lemma life_destroyed w w' : life w' = life w -> udestroyed w' = udestroyed w.
Proof. by intros [=]. Qed.

Lemma table_unique w k id id' m m' :
  UCore w -> heap w !! id = Some m -> heap w !! id' = Some m' -> m_key m = k -> m_key m' = k -> id = id'.
Proof.
  intros Hc Hm Hm' Hk Hk'.
  assert (mappings_ (usession w) !! k = Some id) by (apply (uc_table w Hc); eauto).
  assert (mappings_ (usession w) !! k = Some id') by (apply (uc_table w Hc); eauto). congruence.
Qed.

(** A mapping leaves the table with its pcb. *)
Lemma UInv_erase w id m u n l s' :
  UInv w -> heap w !! id = Some m -> m_pcb m = Some u -> live n = live (ulwip w) ∖ {[u]} ->
  l = ucalls w ++ [UdpRemove u] -> mappings_ s' = delete (m_key m) (mappings_ (usession w)) ->
  UInv (w.[usession := s'].[ulwip := n].[ucalls := l].[callbacks := delete u (callbacks w)]
         .[heap := delete id (heap w)]).
Proof.
  intros [Hc Ho] Hm Hu Hn -> Hs'.
  assert (callbacks w !! u = Some id) as Hcb by (apply (uc_cb w Hc); eauto).
  split; [constructor|unfold all_open]; cbn; rewrite ?Hs'.
  - intros k j. destruct (decide (k = m_key m)) as [->|Hk].
    + rewrite lookup_delete_eq. split; [done|]. intros (m' & Hj & Hkey).
      apply lookup_delete_Some in Hj as [Hne Hj].
      by destruct (table_unique w (m_key m) id j m m' Hc).
    + rewrite lookup_delete_ne, (uc_table w Hc) by done. split.
      * intros (m' & Hj & <-). exists m'. split; [|done]. rewrite lookup_delete_ne; [done|].
        intros <-. congruence.
      * intros (m' & [_ Hj]%lookup_delete_Some & Hkey). eauto.
  - intros j [m' [_ Hj]%lookup_delete_Some]. apply (uc_next w Hc). eauto.
  - intros v j. rewrite lookup_delete_Some, (uc_cb w Hc). split.
    + intros [Hv (m' & Hj & Hp)]. exists m'. rewrite lookup_delete_ne; [done|]. intros <-. congruence.
    + intros (m' & [Hne Hj]%lookup_delete_Some & Hp). split; [|eauto]. intros <-.
      assert (callbacks w !! u = Some j) by (apply (uc_cb w Hc); eauto). congruence.
  - intros j m' [_ Hj]%lookup_delete_Some. by apply (uc_ok w Hc j).
  - intros v [j [Hv Hj]%lookup_delete_Some]. rewrite Hn.
    assert (v ∈ live (ulwip w)) by (apply (uc_live w Hc); eauto). set_solver.
  - rewrite open_pcbs_snoc. cbn. by rewrite (uc_log w Hc), dom_delete_L.
  - intros j m' [_ Hj]%lookup_delete_Some. by apply (Ho j).
Qed.

(** [erase_mapping] removes one mapping and its pcb. *)
Lemma erase_mapping_spec k w :
  UInv w -> udestroyed w = false ->
  exists w', erase_mapping k w = (w', Ret tt) /\ kept w w' /\
    mappings_ (usession w') = delete k (mappings_ (usession w)) /\
    (forall j m, heap w' !! j = Some m -> heap w !! j = Some m).
Proof.
  intros Hi Hd. pose proof Hi as [Hc Ho]. unfold erase_mapping, mbind, M_bind.
  rewrite uthis_run by done. destruct (mappings_ (usession w) !! k) as [id|] eqn:Ek.
  2:{ exists w. split_and!; try done. by rewrite delete_id. }
  pose proof Ek as (m & Hm & <-)%(uc_table w Hc).
  destruct (Ho id m Hm) as [u Hu]. rewrite (remove_pcb_run id w m u) by done.
  cbn [free_mapping modify]. rewrite set_uthis_run by done.
  eexists. split; [done|].
  pose proof (UInv_erase w id m u (udp_remove u (ulwip w)) _
    ((usession w).[mappings_ := delete (m_key m) (mappings_ (usession w))]) Hi Hm Hu
    (udp_remove_live _ _) eq_refl eq_refl) as Hinv.
  split; [|split; [done|]].
  - split; [cbn in Hinv |- *; by rewrite delete_insert_eq|]. split_and!; [done|done|].
    eapply (spares_removed _ _ u); [apply udp_remove_live|done|]. exists id. apply (uc_cb w Hc). eauto.
  - intros j m'. cbn. rewrite delete_insert_eq. by intros [_ ?]%lookup_delete_Some.
Qed.

(* ------------------------------------------------------------------ *)
(** ** [mapping_for] and [send_payload_to_ip] *)

(** A new mapping with a pcb that was not in use. *)
Lemma UInv_add w c t u n l id s' :
  UInv w -> target_ok t -> endpoint_ok c -> id = next w ->
  mappings_ (usession w) !! mapping_key c t = None ->
  u ∉ live (ulwip w) -> live n = {[u]} ∪ live (ulwip w) ->
  l = ucalls w ++ [UdpNew (Some u); UdpRecv u id] ->
  mappings_ s' = <[mapping_key c t := id]> (mappings_ (usession w)) ->
  UInv (w.[usession := s'].[ulwip := n].[ucalls := l].[callbacks := <[u := id]> (callbacks w)]
         .[next := S id].[heap := <[id := mkMapping (Some u) c t (mapping_key c t) false]> (heap w)]).
Proof.
  intros [Hc Ho] Ht Hep -> Hnone Hu Hn -> Hs'.
  assert (heap w !! next w = None) as Hfree.
  { destruct (heap w !! next w) eqn:E; [|done].
    assert (next w < next w)%nat by (apply (uc_next w Hc); eauto). lia. }
  assert (callbacks w !! u = None) as Hcb.
  { destruct (callbacks w !! u) eqn:E; [|done]. exfalso. apply Hu, (uc_live w Hc). eauto. }
  split; [constructor|unfold all_open]; cbn; rewrite ?Hs'.
  - intros k j. rewrite lookup_insert_Some, (uc_table w Hc). split.
    + intros [[<- <-]|[Hk (m & Hj & <-)]]; eexists; [by rewrite lookup_insert_eq|].
      rewrite lookup_insert_ne by congruence. done.
    + intros (m & [[<- <-]|[Hj Hm]]%lookup_insert_Some & Hk); [by left|].
      right. split; [|eauto]. intros <-.
      assert (mappings_ (usession w) !! mapping_key c t = Some j) by (apply (uc_table w Hc); eauto).
      congruence.
  - intros j [m [[<- <-]|[_ Hj]]%lookup_insert_Some]; [lia|].
    assert (j < next w)%nat by (apply (uc_next w Hc); eauto). lia.
  - intros v j. rewrite lookup_insert_Some, (uc_cb w Hc). split.
    + intros [[<- <-]|[Hv (m & Hj & Hp)]]; eexists; [by rewrite lookup_insert_eq|].
      rewrite lookup_insert_ne by congruence. done.
    + intros (m & [[<- <-]|[Hj Hm]]%lookup_insert_Some & Hp); [left; by injection Hp|].
      right. split; [|eauto]. intros <-.
      assert (callbacks w !! u = Some j) by (apply (uc_cb w Hc); eauto). congruence.
  - intros j m [[<- <-]|[_ Hj]]%lookup_insert_Some; [done|by apply (uc_ok w Hc j)].
  - intros v [j [[<- <-]|[_ Hj]]%lookup_insert_Some]; rewrite Hn; [set_solver|].
    assert (v ∈ live (ulwip w)) by (apply (uc_live w Hc); eauto). set_solver.
  - change [UdpNew (Some u); UdpRecv u (next w)] with ([UdpNew (Some u)] ++ [UdpRecv u (next w)]).
    rewrite app_assoc, open_pcbs_snoc, open_pcbs_snoc. cbn.
    by rewrite (uc_log w Hc), dom_insert_L.
  - intros j m [[<- <-]|[_ Hj]]%lookup_insert_Some; [by eexists|by apply (Ho j)].
Qed.

(** The mapping of a pair: found, or made, or there is no pcb. *)
Inductive mapped w c t : UdpWorld -> outcome nat -> list ucall -> Prop :=
| mapped_found id m u :
    mappings_ (usession w) !! mapping_key c t = Some id -> heap w !! id = Some m ->
    m_pcb m = Some u -> mapped w c t w (Ret id) []
| mapped_made w' id u :
    mappings_ (usession w) !! mapping_key c t = None ->
    heap w' !! id = Some (mkMapping (Some u) c t (mapping_key c t) false) ->
    mapped w c t w' (Ret id) [UdpNew (Some u); UdpRecv u id]
| mapped_none w' e :
    mappings_ (usession w) !! mapping_key c t = None -> fst (udp_new (ulwip w)) = None ->
    mapped w c t w' (Exn e) [UdpNew None].

(** The stack with a pcb for the pair: as it is when there is a mapping, or
    with a new pcb; none when lwIP has no pcb. *)
Definition mapping_stack w c t : option unet :=
  match mappings_ (usession w) !! mapping_key c t with
  | Some _ => Some (ulwip w)
  | None => match udp_new (ulwip w) with
            | (Some u, n) => Some (udp_recv u true n)
            | (None, _) => None
            end
  end.

Lemma mapping_for_spec c t w :
  UInv w -> udestroyed w = false -> target_ok t -> endpoint_ok c ->
  exists w' r made, mapping_for c t w = (w', r) /\ kept w w' /\ mapped w c t w' r made /\
    ucalls w' = ucalls w ++ made /\
    mapping_stack w c t = match r with Ret _ => Some (ulwip w') | _ => None end.
Proof.
  intros Hi Hd Ht Hep. pose proof Hi as [Hc Ho]. unfold mapping_for, mbind, M_bind.
  rewrite uthis_run by done. unfold mapping_stack.
  destruct (mappings_ (usession w) !! mapping_key c t) as [id|] eqn:Ek.
  { pose proof Ek as (m & Hm & Hk)%(uc_table w Hc). destruct (Ho id m Hm) as [u Hu].
    exists w, (Ret id), []. rewrite app_nil_r. split_and!; try done. by econstructor. }
  unfold ustack. destruct (udp_new (ulwip w)) as [[u|] n] eqn:Eu.
  2:{ eexists _, _, _. split; [done|]. split; [|split; [apply mapped_none; [done|by rewrite Eu]|by split]].
      split.
      - split; [|done]. apply UCore_stack; [done|by rewrite (udp_new_none _ _ Eu)|]. by rewrite open_pcbs_snoc.
      - split_and!; [done|done|]. apply spares_stack; [by rewrite (udp_new_none _ _ Eu)|done]. }
  apply udp_new_some in Eu as [Hu Hn]. cbn [ulog modify get]. rewrite set_uthis_run by done.
  eexists _, _, _. split; [done|]. split; [|split; [apply mapped_made; [done|apply lookup_insert_eq]|split; [|done]]].
  - split; [|split_and!; [done|done|eapply (spares_made _ _ u); [by cbn; rewrite udp_recv_live|done|done]]].
    pose proof (UInv_add w c t u (udp_recv u true n) _ (next w)
      ((usession w).[mappings_ := <[mapping_key c t := next w]> (mappings_ (usession w))])
      Hi Ht Hep eq_refl Ek Hu ltac:(by rewrite udp_recv_live) eq_refl eq_refl) as Hinv.
    cbn in Hinv |- *. by rewrite <- app_assoc.
  - cbn. by rewrite <- app_assoc.
Qed.

(** Changing only the timer of a mapping. *)
Lemma UInv_armed w id m b :
  UInv w -> heap w !! id = Some m -> UInv (w.[heap := <[id := m.[m_armed := b]]> (heap w)]).
Proof.
  intros [Hc Ho] Hm.
  assert (forall j m', <[id := m.[m_armed := b]]> (heap w) !! j = Some m' ->
    exists m0, heap w !! j = Some m0 /\ m_key m0 = m_key m' /\ m_pcb m0 = m_pcb m' /\
      m_client m0 = m_client m' /\ m_target m0 = m_target m') as Hback.
  { intros j m' [[<- <-]|[_ Hj]]%lookup_insert_Some; eauto 8. }
  assert (forall j m0, heap w !! j = Some m0 ->
    exists m', <[id := m.[m_armed := b]]> (heap w) !! j = Some m' /\ m_key m' = m_key m0 /\
      m_pcb m' = m_pcb m0) as Hforth.
  { intros j m0 Hj. destruct (decide (j = id)) as [->|]; [|rewrite lookup_insert_ne by done; eauto].
    rewrite lookup_insert_eq. assert (m0 = m) as -> by congruence. eauto. }
  split; [constructor|unfold all_open]; cbn.
  - intros k j. rewrite (uc_table w Hc). split.
    + intros (m0 & (m' & G1 & G2 & _)%Hforth & <-). eauto.
    + intros (m' & (m0 & G1 & G2 & _)%Hback & <-). eauto.
  - intros j [m' (m0 & G1 & _)%Hback]. apply (uc_next w Hc). eauto.
  - intros u j. rewrite (uc_cb w Hc). split.
    + intros (m0 & (m' & G1 & _ & G2)%Hforth & <-). eauto.
    + intros (m' & (m0 & G1 & _ & G2 & _)%Hback & <-). eauto.
  - intros j m' (m0 & G1 & G2 & G3 & G4 & G5)%Hback. destruct (uc_ok w Hc j m0 G1) as [].
    constructor; congruence.
  - apply (uc_live w Hc).
  - apply (uc_log w Hc).
  - intros j m' (m0 & G1 & _ & <- & _)%Hback. by apply (Ho j).
Qed.

(** Whether lwIP has a pcb for the pair and then a buffer of the length. *)
Definition has_room w c t (len : Z) : bool :=
  match mapping_stack w c t with
  | Some n => fst (pbuf_alloc len n)
  | None => false
  end.
(** What is left of a datagram that is not sent. *)
Definition dropped (made : list ucall) : Prop :=
  made = [UdpNew None] \/ made = [] \/ exists u id, made = [UdpNew (Some u); UdpRecv u id].

(** What [send_payload_to_ip] does: when lwIP has room the datagram leaves
    through the pcb of a mapping for the pair, and else it is dropped. *)
Inductive forwarded w c t ip payload w' : Prop :=
| fwd_sent made id m u err :
    has_room w c t (u16 (Z.of_nat (length payload))) = true ->
    heap w' !! id = Some m -> m_pcb m = Some u -> m_key m = mapping_key c t ->
    made = [] /\ mappings_ (usession w) !! mapping_key c t = Some id \/
    made = [UdpNew (Some u); UdpRecv u id] /\ mappings_ (usession w) !! mapping_key c t = None ->
    ucalls w' = ucalls w ++ made ++
      [UdpSendto u (take (Z.to_nat (u16 (Z.of_nat (length payload)))) payload) ip (port t) err] ->
    forwarded w c t ip payload w'
| fwd_dropped made :
    has_room w c t (u16 (Z.of_nat (length payload))) = false -> dropped made ->
    ucalls w' = ucalls w ++ made -> forwarded w c t ip payload w'.

Lemma send_payload_spec payload c t ip w :
  UInv w -> udestroyed w = false -> target_ok t -> endpoint_ok c ->
  exists w', send_payload_to_ip payload c t ip w = (w', Ret tt) /\ kept w w' /\
    forwarded w c t ip payload w'.
Proof.
  intros Hi Hd Ht Hep. unfold send_payload_to_ip, try_catch, mbind, M_bind.
  destruct (mapping_for_spec c t w Hi Hd Ht Hep) as (w1 & r & made & -> & (Hi1 & Hl1 & Hp1 & Hs1) & Hmap & Hcalls & Hst).
  destruct r as [id|e|].
  2:{ exists w1. split; [done|]. split; [done|]. inversion Hmap; subst.
      eapply fwd_dropped; [|by left|done]. unfold has_room. by rewrite Hst. }
  2:{ inversion Hmap. }
  assert (exists m u, heap w1 !! id = Some m /\ m_pcb m = Some u /\ m_key m = mapping_key c t /\
    (made = [] /\ mappings_ (usession w) !! mapping_key c t = Some id \/
     made = [UdpNew (Some u); UdpRecv u id] /\ mappings_ (usession w) !! mapping_key c t = None))
    as (m & u & Hm & Hu & Hk & Hmade).
  { inversion Hmap as [? m u Hk Hm Hu|? ? u Hk Hm|]; subst; eexists _, _; split_and!;
      [done|done| |by left|done|done|done|by right].
    destruct Hi1 as [Hc1 _]. apply (uc_table w1 Hc1) in Hk as (m' & Hm' & Hk). congruence. }
  unfold arm_idle_timer, set_mapping. rewrite Hm. unfold ustack.
  pose proof (UInv_armed w1 id m true Hi1 Hm) as Hi2.
  set (w2 := w1.[heap := _]) in *. cbn [ulwip update].
  assert (has_room w c t (u16 (Z.of_nat (length payload))) =
    fst (pbuf_alloc (u16 (Z.of_nat (length payload))) (ulwip w2))) as Hroom by (unfold has_room; by rewrite Hst).
  destruct (pbuf_alloc (u16 (Z.of_nat (length payload))) (ulwip w2)) as [ok n] eqn:Ep.
  assert (live n = live (ulwip w2)) as Hn
    by (pose proof (pbuf_alloc_live (u16 (Z.of_nat (length payload))) (ulwip w2)) as E; by rewrite Ep in E).
  assert (forall n l, live (ulwip w2) ⊆ live n -> open_pcbs l = open_pcbs (ucalls w2) ->
    kept w (w2.[ulwip := n].[ucalls := l])) as Hkeep.
  { intros n' l En El. split; [|split_and!; [done|done|]].
    - destruct Hi2. split; [by apply UCore_stack|done].
    - transitivity w1; [done|]. by apply spares_stack. }
  destruct ok.
  - unfold mapping_at. cbn. rewrite lookup_insert_eq. cbn. rewrite Hu.
    change (ulwip (w2.[ulwip := n])) with n.
    destruct (udp_sendto u (take (Z.to_nat (u16 (Z.of_nat (length payload)))) payload) ip (port t) n) as [err n'] eqn:Es.
    eexists. split; [done|]. split.
    + apply Hkeep; [|by rewrite open_pcbs_snoc]. rewrite <- Hn.
      pose proof (udp_sendto_live u (take (Z.to_nat (u16 (Z.of_nat (length payload)))) payload)
        ip (port t) n) as E. rewrite Es in E. by rewrite <- E.
    + apply (fwd_sent w c t ip payload _ made id (m.[m_armed := true]) u err); try done.
      * apply lookup_insert_eq.
      * cbn. by rewrite Hcalls, <- app_assoc.
  - eexists. split; [done|]. split; [apply (Hkeep n (ucalls w2)); [by rewrite Hn|done]|].
    apply (fwd_dropped w c t ip payload _ made); [done| |done]. right.
    destruct Hmade as [[-> _]|[-> _]]; eauto.
Qed.

(* ------------------------------------------------------------------ *)
(** ** Datagrams of clients *)

(** What is decrypted and what it asks for. *)
Inductive asks (f : AeadFactory) (datagram : bytes) : option (TargetAddress * bytes) -> Prop :=
| asks_nothing :
    (forall plain, decrypt_udp_packet (make_session f) datagram = Ret (Some plain) ->
       exists v, parse_ss_address plain = (v, Ret None)) ->
    asks f datagram None
| asks_target t wire payload :
    decrypt_udp_packet (make_session f) datagram = Ret (Some (wire ++ payload)) ->
    ss_wire t wire -> asks f datagram (Some (t, payload)).

Lemma asks_cases f d : exists q, asks f d q.
Proof.
  destruct (decrypt_udp_packet_cases (make_session f) d) as ([plain|] & E & _).
  - destruct (parse_ss_address_cases plain) as [(t & wire & rest & Hw & ->)|Hn].
    + eexists. by econstructor.
    + exists None. constructor. intros p Hp. rewrite E in Hp. by injection Hp as <-.
  - exists None. constructor. intros p Hp. congruence.
Qed.

Lemma asks_unique f d q q' : asks f d q -> asks f d q' -> q = q'.
Proof.
  intros A1 A2. inversion A1 as [F1|t1 w1 p1 D1 W1]; inversion A2 as [F2|t2 w2 p2 D2 W2]; subst; try done.
  - destruct (F1 _ D2) as [v Hv]. by rewrite (parse_wire _ _ _ W2) in Hv.
  - destruct (F2 _ D1) as [v Hv]. by rewrite (parse_wire _ _ _ W1) in Hv.
  - assert (w1 ++ p1 = w2 ++ p2) as E by congruence.
    by destruct (ss_wire_unique _ _ _ _ _ _ W1 W2 E) as (-> & _ & ->).
Qed.

Lemma asks_payload_length f d t payload :
  asks f d (Some (t, payload)) -> (length payload + SaltSize + TagSize <= length d)%nat.
Proof.
  inversion 1 as [|? wire ? D W]; subst.
  destruct (decrypt_udp_packet_cases (make_session f) d) as (res & E & Hl).
  rewrite D in E. injection E as <-. specialize (Hl _ eq_refl). rewrite length_app in Hl. lia.
Qed.

(** [send_to_lwip] by what the datagram asks for. *)
Definition sent_to_lwip w c (q : option (TargetAddress * bytes)) w' : Prop :=
  match q with
  | None => w' = w
  | Some (t, payload) =>
      if decide (ta_type t = Domain) then
        resolving w' = resolving w ++
          match snd (uasync_resolve (host t) (ulwip w)) with
          | Some _ => []
          | None => [mkResolution (lifetime_token_ (usession w)) payload c t]
          end /\
        ucalls w' = ucalls w ++ [UdpResolve (host t)] /\
        ulwip w' = fst (uasync_resolve (host t) (ulwip w)) /\ callbacks w' = callbacks w
      else
        match ipaddr_aton (c_str (host t)) with
        | None => w' = w
        | Some ip => forwarded w c t ip payload w' /\ resolving w' = resolving w
        end
  end.

Definition kept_but_resolving w w' : Prop :=
  UInv w' /\ uprng w' = uprng w /\ spares w w' /\ life (w'.[resolving := resolving w]) = life w /\
  (forall r, r ∈ resolving w' -> r ∈ resolving w \/ target_ok (r_target r) /\ endpoint_ok (r_client r)).

Lemma kept_resolving w w' : kept w w' -> kept_but_resolving w w'.
Proof.
  intros (? & El & ? & ?). split; [done|]. split; [done|]. split; [done|]. pose proof El as E.
  injection E as E1 E2 E3 E4 E5 E6 E7 E8 E9 E10 E11. split.
  - unfold life. cbn. by rewrite E1, E2, E3, E4, E5, E7, E8, E9, E10, E11.
  - intros r. rewrite E6. by left.
Qed.

Context `{!UdpResolverLaws}.

(** What a datagram that names a domain does to the stack. *)
Lemma send_to_lwip_domain d c w t payload :
  udestroyed w = false -> asks (ucrypto_ (usession w)) d (Some (t, payload)) -> ta_type t = Domain ->
  ulwip (fst (send_to_lwip d c w)) = fst (uasync_resolve (host t) (ulwip w)).
Proof.
  intros Hd Hq Hdom. inversion Hq as [|t0 wire p0 Hdec Hwire]; subst.
  unfold send_to_lwip, try_catch, mbind, M_bind. rewrite uthis_run by done. unfold lift.
  rewrite Hdec, (parse_wire _ _ _ Hwire). rewrite decide_True by done.
  unfold resolve_domain_then_send, mbind, M_bind. rewrite uthis_run by done.
  unfold ulog, modify, ustack. cbn [ulwip update]. change (ulwip (w.[ucalls := _])) with (ulwip w).
  by destruct (uasync_resolve (host t) (ulwip w)) as [n [e|]].
Qed.

(** A datagram that names a domain needs the resolver. *)
Definition names_domain (q : option (TargetAddress * bytes)) : Prop :=
  match q with Some (t, _) => ta_type t = Domain | None => False end.
Definition ready_for (q : option (TargetAddress * bytes)) (n : unet) : Prop :=
  match q with Some (t, _) => ta_type t = Domain -> resolver_ready (host t) n | None => True end.

Lemma send_to_lwip_spec d c w q :
  UInv w -> udestroyed w = false -> endpoint_ok c -> asks (ucrypto_ (usession w)) d q ->
  ready_for q (ulwip w) ->
  exists w', send_to_lwip d c w = (w', Ret tt) /\ kept_but_resolving w w' /\ sent_to_lwip w c q w'.
Proof.
  intros Hi Hd Hep Hq Hrd. unfold send_to_lwip, try_catch, mbind, M_bind.
  rewrite uthis_run by done. unfold lift.
  assert (kept_but_resolving w w) as Hsame by by apply kept_resolving.
  inversion Hq as [Hnone|t wire payload Hdec Hwire]; subst q.
  { destruct (decrypt_udp_packet_cases (make_session (ucrypto_ (usession w))) d) as ([plain|] & E & _);
      rewrite E; [|by exists w].
    destruct (Hnone plain E) as [v ->]. by exists w. }
  rewrite Hdec, (parse_wire _ _ _ Hwire). cbn [sent_to_lwip].
  case_decide as Hdom.
  - unfold resolve_domain_then_send, mbind, M_bind. rewrite uthis_run by done.
    unfold ulog, modify, ustack. cbn [ulwip update].
    pose proof (uasync_resolve_live (host t) (ulwip w) (Hrd Hdom)) as Hlive.
    change (ulwip (w.[ucalls := _])) with (ulwip w).
    destruct (uasync_resolve (host t) (ulwip w)) as [n [e|]] eqn:Er; cbn [snd fst] in *;
      (eexists; split; [done|]); (split; [|split; [cbn; by rewrite ?app_nil_r|done]]).
    + split; [|by split; [done|split; [by apply spares_stack|split; [done|by left]]]].
      destruct Hi as [Hc Ho]. split; [|done].
      exact (UCore_stack w n (ucalls w ++ [UdpResolve (host t)]) Hc Hlive ltac:(by rewrite open_pcbs_snoc)).
    + split; [|split; [done|split; [by apply spares_stack|split; [done|]]]].
      * destruct Hi as [Hc Ho]. split; [|done].
        destruct (UCore_stack w n (ucalls w ++ [UdpResolve (host t)]) Hc Hlive
                    ltac:(by rewrite open_pcbs_snoc)) as []. by constructor.
      * cbn. intros r [?|Hr%list_elem_of_singleton]%elem_of_app; [by left|subst r; right].
        split; [by exists wire|done].
  - unfold parse_ip. destruct (ipaddr_aton (c_str (host t))) as [ip|]; [|by exists w].
    destruct (send_payload_spec payload c t ip w Hi Hd) as (w' & -> & Hk & Hf);
      [by exists wire|done|]. exists w'. split; [done|]. split; [by apply kept_resolving|].
    split; [done|]. destruct Hk as (_ & El & _). by injection El.
Qed.

(* ------------------------------------------------------------------ *)
(** ** Replies *)

(** The address in front of a reply, on the wire. *)
Definition reply_wire m (addr : ip_addr_t) (p : Z) : bytes :=
  (if decide (ta_type (m_target m) = Domain)
   then x03 :: byte_of_Z (Z.of_nat (length (host (m_target m)))) :: host (m_target m)
   else (if IP_IS_V6 addr then x04 else x01) :: ip_network_bytes addr) ++ be16 p.

Lemma encode_reply `{!IpPrintLaws} m addr p :
  target_ok (m_target m) -> encode_ss_address (reply_address m addr p) = Ret (reply_wire m addr p).
Proof.
  intros [wire Hw]. unfold reply_address, reply_wire, encode_ss_address, append_be16, PacketBuffer.append.
  case_decide as Hd; cbn [ta_type host port].
  - assert (length (host (m_target m)) <= 255)%nat as Hl.
    { revert Hd. destruct Hw as [|l h hi lo Hl|]; intros Hd; try done.
      cbn. pose proof (byte_to_Z_range l). lia. }
    destruct (Nat.ltb_spec 255 (length (host (m_target m)))); [lia|]. done.
  - destruct addr as [a|a b c d]; cbn [IP_IS_V6]; [rewrite ntoa_v4|rewrite ntoa_v6]; done.
Qed.

(** A reply goes to the mapping's client, encrypted, with its address in
    front; it is only lost when no salt can be drawn. *)
Lemma send_to_client_spec `{!IpPrintLaws} m payload addr p w :
  UInv w -> udestroyed w = false -> target_ok (m_target m) ->
  exists w' r, send_to_client m payload addr p w = (w', r) /\ UInv w' /\ life w' = life w /\
    heap w' = heap w /\ callbacks w' = callbacks w /\ ulwip w' = ulwip w /\
    match r with
    | Ret _ => exists ct,
        ucalls w' = ucalls w ++ (if socket_ (usession w) then [SendTo (m_client m) ct] else []) /\
        forall s, master_key_ s = factory_master_key_ (ucrypto_ (usession w)) ->
          decrypt_udp_packet s ct = Ret (Some (reply_wire m addr p ++ payload))
    | Exn _ => is_ret_b (snd (client_salt (make_session (ucrypto_ (usession w)), uprng w))) = false
    | Ub => False
    end.
Proof.
  intros [Hc Ho] Hd Ht. unfold send_to_client, mbind, M_bind, lift.
  rewrite encode_reply by done. rewrite uthis_run by done. cbn [get].
  pose proof (encrypt_udp_packet_cases (PacketBuffer.append (reply_wire m addr p) payload)
    (make_session (ucrypto_ (usession w))) (uprng w)) as He.
  assert (forall g l, open_pcbs l = open_pcbs (ucalls w) -> UInv (w.[uprng := g].[ucalls := l])) as Hi.
  { intros g l El. destruct Hc as [T N C O L G]. split; [|done]. constructor; [done..|].
    cbn. by rewrite El. }
  destruct (encrypt_udp_packet _ _) as [[s g] [ct|e|]]; [| |done].
  2:{ eexists _, _. split; [done|]. split; [by apply (Hi g (ucalls w))|done]. }
  destruct He as [_ Hdec]. cbn [modify].
  destruct (socket_ (usession w)); eexists _, _; (split; [done|]).
  - split; [apply Hi; by rewrite open_pcbs_snoc|]. do 4 (split; [done|]). by exists ct.
  - split; [by apply (Hi g (ucalls w))|]. do 4 (split; [done|]). exists ct. by rewrite app_nil_r.
Qed.

End Facts.
