(* ===== verification/UdpFrame.v ===== *)
(** * What the UDP relay does to the stack

    A property of the stack that its own calls keep is kept by every event of
    the relay, but for the resolver when a datagram names a domain. *)
From S2P Require Import Prelude Types Mbedtls Text Aead AeadStream Address Lwip Udp UdpFacts.

Section Frame.
Context `{!Mbedtls, !MbedtlsLaws, !MakeAddress, !IpText, !IpPrint, !ClientAddress, !UdpNet, !UdpResolver}.
Context (P : unet -> Prop).
Hypothesis (P_new : forall n, P n -> P (snd (udp_new n))).
Hypothesis (P_remove : forall u n, P n -> P (udp_remove u n)).
Hypothesis (P_recv : forall u b n, P n -> P (udp_recv u b n)).
Hypothesis (P_alloc : forall z n, P n -> P (snd (pbuf_alloc z n))).
Hypothesis (P_sendto : forall u d ip p n, P n -> P (snd (udp_sendto u d ip p n))).
Implicit Types (w : UdpWorld).

Abbreviation keeps m := (preserves (fun w => P (ulwip w)) m).

Lemma keeps_ustack {A} (f : unet -> A * unet) : (forall n, P n -> P (snd (f n))) -> keeps (ustack f).
Proof. intros Hf w Hw. unfold ustack. specialize (Hf _ Hw). by destruct (f (ulwip w)). Qed.
Lemma keeps_umodify f : (forall w, ulwip (f w) = ulwip w) -> keeps (modify f).
Proof. intros Hf w Hw. cbn. by rewrite Hf. Qed.
Lemma keeps_uthis : keeps uthis.
Proof. by intros w. Qed.
Lemma keeps_set_uthis f : keeps (set_uthis f).
Proof. intros w Hw. unfold set_uthis. by destruct (udestroyed w). Qed.
Lemma keeps_ulog c : keeps (ulog c).
Proof. by intros w. Qed.
Lemma keeps_mapping_at id : keeps (mapping_at id).
Proof. by intros w. Qed.
Lemma keeps_set_mapping id f : keeps (set_mapping id f).
Proof. intros w Hw. unfold set_mapping. by destruct (heap w !! id). Qed.
#[local] Hint Resolve keeps_uthis keeps_set_uthis keeps_ulog keeps_mapping_at keeps_set_mapping : keep.
#[local] Hint Extern 1 (preserves _ (modify _)) => apply keeps_umodify; intros ?; reflexivity : keep.
#[local] Hint Extern 1 (preserves _ (ustack _)) => apply keeps_ustack; intros; cbn; solve [auto] : keep.

Lemma keeps_remove_pcb id : keeps (remove_pcb id).
Proof. unfold remove_pcb. auto 10 with keep. Qed.
Lemma keeps_free_mapping id : keeps (free_mapping id).
Proof. unfold free_mapping. auto 10 with keep. Qed.
#[local] Hint Resolve keeps_remove_pcb keeps_free_mapping : keep.
Lemma keeps_stop : keeps stop_udp.
Proof. unfold stop_udp. auto 20 with keep. Qed.
#[local] Hint Resolve keeps_stop : keep.
Lemma keeps_dropped : keeps udropped_owner.
Proof. unfold udropped_owner. auto 20 with keep. Qed.
#[local] Hint Resolve keeps_dropped : keep.
Lemma keeps_receive_loop : keeps receive_loop.
Proof. unfold receive_loop. auto 20 with keep. Qed.
#[local] Hint Resolve keeps_receive_loop : keep.
Lemma keeps_mapping_for c t : keeps (mapping_for c t).
Proof. unfold mapping_for. auto 20 with keep. Qed.
#[local] Hint Resolve keeps_mapping_for : keep.
Lemma keeps_send_payload payload c t ip : keeps (send_payload_to_ip payload c t ip).
Proof. unfold send_payload_to_ip, arm_idle_timer. auto 20 with keep. Qed.
Lemma keeps_erase k : keeps (erase_mapping k).
Proof. unfold erase_mapping. auto 20 with keep. Qed.
#[local] Hint Resolve keeps_send_payload keeps_erase : keep.
Lemma keeps_owning m : keeps m -> keeps (uowning m).
Proof. unfold uowning. auto 20 with keep. Qed.
#[local] Hint Resolve keeps_owning : keep.
Lemma keeps_send_to_client m payload addr p : keeps (send_to_client m payload addr p).
Proof.
  unfold send_to_client. apply preserves_bind; [auto with keep|intros plain].
  apply preserves_bind; [auto with keep|intros s]. apply preserves_bind; [auto with keep|intros w].
  destruct (encrypt_udp_packet _ _) as [[s' g] r]. auto 20 with keep.
Qed.
#[local] Hint Resolve keeps_send_to_client : keep.

(** Every event but a datagram. *)
Lemma keeps_deliver ev :
  match ev with OnDatagram _ => False | _ => True end -> keeps (udeliver ev).
Proof.
  destruct ev as [r|u payload addr p|i err ip|k|i|]; intros Hev; try done; unfold udeliver.
  - unfold on_udp_recv. auto 20 with keep.
  - unfold resolved_handler. auto 20 with keep.
  - auto 20 with keep.
  - unfold idle_handler. auto 20 with keep.
  - auto 20 with keep.
Qed.

(** A datagram, by what [send_to_lwip] leaves. *)
Definition handed (r : io_result (bytes * endpoint)) : M UdpWorld unit :=
  match r with IoOk (d, c) => send_to_lwip d c | _ => mret tt end.
Lemma keeps_datagram r w :
  P (ulwip (fst (handed r (w.[op_recv := pred (op_recv w)].[uheld := true])))) ->
  P (ulwip (fst (udeliver (OnDatagram r) w))).
Proof.
  intros Hw. unfold udeliver, uowning, receive_handler. fold (handed r). unfold mbind, M_bind. cbn [get modify].
  destruct (handed r _) as [w1 [[]|e|]]; [|done..].
  pose proof (keeps_receive_loop w1 Hw) as Hw2. destruct (receive_loop w1) as [w2 [[]|e|]]; [|done..].
  refine (keeps_dropped _ _). exact Hw2.
Qed.

Lemma keeps_send_to_lwip d c w q :
  udestroyed w = false -> asks (ucrypto_ (usession w)) d q -> ~ names_domain q ->
  P (ulwip w) -> P (ulwip (fst (send_to_lwip d c w))).
Proof.
  intros Hd Hq Hn Hw. unfold send_to_lwip, try_catch, mbind, M_bind. rewrite uthis_run by done. unfold lift.
  inversion Hq as [Hnone|t wire payload Hdec Hwire]; subst q.
  - destruct (decrypt_udp_packet_cases (make_session (ucrypto_ (usession w))) d) as ([plain|] & E & _);
      rewrite E; [|done]. by destruct (Hnone plain E) as [v ->].
  - rewrite Hdec, (parse_wire _ _ _ Hwire), decide_False by done.
    destruct (parse_ip (host t)) as [ip|e|]; [|done..].
    pose proof (keeps_send_payload payload c t ip w Hw) as Hw1.
    by destruct (send_payload_to_ip payload c t ip w) as [w1 [[]|e|]].
Qed.

End Frame.
