(* ===== verification/UdpRun.v ===== *)
(** * Runs of the UDP relay

    The invariant of the table and of the session's lifetime holds between the
    events of every run. *)
From S2P Require Import Prelude Types Mbedtls Text Aead AeadStream Address Lwip Udp UdpFacts.

Section Run.
Context `{!Mbedtls, !MbedtlsLaws, !MakeAddress, !IpText, !IpPrint, !IpPrintLaws}.
Context `{!ClientAddress, !UdpNet, !UdpNetLaws, !UdpResolver, !UdpResolverLaws}.
Implicit Types (w : UdpWorld) (evs : list uevent).

(** What an event needs of the resolver. *)
Definition uready (ev : uevent) w : Prop :=
  match ev with
  | OnDatagram (IoOk (d, _)) =>
      forall q, asks (ucrypto_ (usession w)) d q -> ready_for q (ulwip w)
  | _ => True
  end.

(** Between events the stack works on its own and other components make and
    remove pcbs; those with the relay's callbacks stay. *)
Inductive urun (w0 : UdpWorld) : list uevent -> UdpWorld -> Prop :=
| urun_nil : urun w0 [] w0
| urun_stack evs w n :
    urun w0 evs w -> dom (callbacks w) ⊆ live n -> urun w0 evs (w.[ulwip := n])
| urun_snoc evs w ev w' :
    urun w0 evs w -> uenabled ev w = true -> uready ev w -> udeliver ev w = (w', Ret tt) ->
    urun w0 (evs ++ [ev]) w'.

Definition resolutions_ok w : Prop :=
  forall r, r ∈ resolving w -> target_ok (r_target r) /\ endpoint_ok (r_client r).

(** The invariant between events, for a relay with the factory [f]. *)
Record URunInv (f : AeadFactory) w : Prop := {
  ur_inv : UInv w;
  ur_res : resolutions_ok w;
  ur_crypto : ucrypto_ (usession w) = f;
  ur_token : inbound w = true -> exists t, lifetime_token_ (usession w) = Some t /\ tokens w !! t = Some true;
  ur_held : uheld w = false;
  ur_running : running_ (usession w) = inbound w;
  ur_socket : socket_ (usession w) = inbound w;
  ur_recv : (if inbound w then op_recv w = 1 else op_recv w <= 1)%nat;
  ur_destroyed : udestroyed w = negb (inbound w || (0 <? op_recv w)%nat);
  ur_empty : udestroyed w = true -> heap w = ∅ /\ mappings_ (usession w) = ∅ /\ callbacks w = ∅
}.

(** A session that exists, inside one of its handlers. *)
Record Busy (f : AeadFactory) w : Prop := {
  bu_inv : UInv w;
  bu_res : resolutions_ok w;
  bu_crypto : ucrypto_ (usession w) = f;
  bu_token : inbound w = true -> exists t, lifetime_token_ (usession w) = Some t /\ tokens w !! t = Some true;
  bu_running : running_ (usession w) = inbound w;
  bu_socket : socket_ (usession w) = inbound w;
  bu_alive : udestroyed w = false
}.

Lemma UInv_fields w w' :
  UInv w -> heap w' = heap w -> next w' = next w -> callbacks w' = callbacks w ->
  live (ulwip w) ⊆ live (ulwip w') -> ucalls w' = ucalls w ->
  mappings_ (usession w') = mappings_ (usession w) -> UInv w'.
Proof.
  intros [[T N C O L G] A] Eh En Ec El Ecl Em. unfold UInv, all_open.
  split; [constructor|]; rewrite ?Eh, ?En, ?Ec, ?Ecl, ?Em; try done.
  intros u Hu. by apply El, L.
Qed.

(** The last owner's departure. *)
Lemma udropped_spec f w :
  Busy f w -> uheld w = false ->
  (if inbound w then op_recv w = 1 else op_recv w <= 1)%nat ->
  exists w', udropped_owner w = (w', Ret tt) /\ URunInv f w' /\
    inbound w' = inbound w /\ op_recv w' = op_recv w /\
    (udestroyed w' = false -> w' = w) /\ resolving w' = resolving w /\ spares w w'.
Proof.
  intros [Hi Hr Hc Htok Hrun Hs Ha] Hh Ho. unfold udropped_owner, mbind, M_bind, get. rewrite Ha, Hh.
  destruct (inbound w) eqn:Ei; cbn [orb].
  { exists w. split_and!; try done. constructor; rewrite ?Ei; try done. by rewrite Ha. }
  destruct (Nat.ltb_spec 0 (op_recv w)) as [Hop|Hop].
  { exists w. split_and!; try done. constructor; rewrite ?Ei; try done.
    - rewrite Ha. by destruct (Nat.ltb_spec 0 (op_recv w)); [|lia].
    - by rewrite Ha. }
  destruct (stop_udp_spec w Hi Ha)
    as (w1 & -> & Hi1 & Hh1 & Hm1 & Hcb1 & Hr1 & Hs1 & Hd1 & In1 & He1 & Or1 & Re1 & Ex1 & Cr1 & Sp1).
  eexists. split; [done|]. split; [|split_and!; [by cbn; rewrite In1|by cbn; rewrite Or1|done|done|exact Sp1]].
  assert (op_recv w = 0%nat) as E0 by lia.
  constructor; cbn; try done; try congruence.
  - eapply UInv_fields; [exact Hi1|done..].
  - intros r. cbn. rewrite Re1. apply Hr.
  - rewrite In1, Ei, Or1, E0. lia.
  - by rewrite In1, Ei, Or1, E0.
Qed.

(** A handler that owns the session: its body runs on a session that exists. *)
Lemma uowning_spec f m w w1 :
  m (w.[uheld := true]) = (w1, Ret tt) -> Busy f w1 -> uheld w1 = true ->
  (if inbound w1 then op_recv w1 = 1 else op_recv w1 <= 1)%nat ->
  exists w', uowning m w = (w', Ret tt) /\ URunInv f w' /\
    inbound w' = inbound w1 /\ op_recv w' = op_recv w1 /\
    (udestroyed w' = false -> w' = w1.[uheld := false]) /\ resolving w' = resolving w1 /\ spares w1 w'.
Proof.
  intros Em Hb Hh Ho. unfold uowning, mbind, M_bind. cbn [modify]. rewrite Em.
  destruct (udropped_spec f (w1.[uheld := false])) as (w' & E & Hr & Hin & Hop & Hsame & Hre & Hsp).
  - destruct Hb. constructor; try done. by eapply UInv_fields; [eassumption|done..].
  - done.
  - done.
  - exists w'. rewrite E. done.
Qed.

Lemma URunInv_busy f w w' :
  URunInv f w -> udestroyed w = false ->
  heap w' = heap w -> next w' = next w -> callbacks w' = callbacks w -> ulwip w' = ulwip w ->
  ucalls w' = ucalls w -> usession w' = usession w -> inbound w' = inbound w ->
  udestroyed w' = udestroyed w -> tokens w' = tokens w -> resolutions_ok w' -> Busy f w'.
Proof.
  intros [] Hd Eh En Ec El Ecl Es Ei Ed Et Hr.
  constructor; rewrite ?Es, ?Ei, ?Et; try done; [|congruence].
  eapply UInv_fields; try done; by rewrite ?El, ?Es.
Qed.

Lemma busy_kept f w w' : Busy f w -> kept_but_resolving w w' -> Busy f w'.
Proof.
  intros [] (Hi & _ & _ & El & Hr). injection El as E1 E2 E3 E4 E5 E6 E7 E8 E9 E10.
  constructor; try done; try congruence.
  - intros r [?|?]%Hr; auto.
  - intros Hin. destruct bu_token0 as (t & ? & ?); [congruence|]. exists t. split; congruence.
Qed.

Lemma kept_held w w' : kept_but_resolving w w' -> uheld w' = uheld w /\ op_recv w' = op_recv w /\ inbound w' = inbound w.
Proof. intros (_ & _ & _ & El & _). by injection El as E1 E2 E3 E4. Qed.

(* ------------------------------------------------------------------ *)
(** ** The events *)

Lemma alive_op f w : URunInv f w -> (0 < op_recv w)%nat -> udestroyed w = false.
Proof.
  intros [] Ho. rewrite ur_destroyed0. destruct (Nat.ltb_spec 0 (op_recv w)); [|lia].
  by rewrite orb_true_r.
Qed.
Lemma alive_inbound f w : URunInv f w -> inbound w = true -> udestroyed w = false.
Proof. intros [] Hin. by rewrite ur_destroyed0, Hin. Qed.
Lemma alive_heap f w id m : URunInv f w -> heap w !! id = Some m -> udestroyed w = false.
Proof.
  intros [] Hm. destruct (udestroyed w) eqn:E; [|done].
  destruct ur_empty0 as [E' _]; [done|]. by rewrite E', lookup_empty in Hm.
Qed.

(** What a datagram does before the next receive starts. *)
Lemma receive_spec f r w :
  Busy f w -> match r with IoOk (d, c) => endpoint_ok c | _ => True end -> uready (OnDatagram r) w ->
  exists w1, receive_handler r w = receive_loop w1 /\ Busy f w1 /\ kept_but_resolving w w1 /\
    match r with
    | IoOk (d, c) => exists q, asks f d q /\ send_to_lwip d c w = (w1, Ret tt) /\ sent_to_lwip w c q w1
    | _ => w1 = w
    end.
Proof.
  intros Hb Hr Hrd. unfold receive_handler, mbind, M_bind.
  assert (kept_but_resolving w w) as Hsame by (apply kept_resolving, kept_refl, Hb).
  destruct r as [[d c]| | |]; [|by exists w..].
  destruct (asks_cases f d) as [q Hq]. pose proof Hb as [].
  destruct (send_to_lwip_spec d c w q) as (w1 & E & Hk & Hs); [done..|by subst f|apply (Hrd q); by subst f|].
  exists w1. rewrite E. split_and!; [done|by eapply busy_kept|done|by exists q].
Qed.

Lemma receive_loop_run f w :
  Busy f w -> exists w', receive_loop w = (w', Ret tt) /\ Busy f w' /\ uheld w' = uheld w /\
    inbound w' = inbound w /\ op_recv w' = (if inbound w then S (op_recv w) else op_recv w) /\
    heap w' = heap w /\ callbacks w' = callbacks w /\ usession w' = usession w /\
    resolving w' = resolving w /\
    ucalls w' = ucalls w ++ (if inbound w then [ReceiveFrom] else []) /\ spares w w'.
Proof.
  intros []. unfold receive_loop, mbind, M_bind. rewrite uthis_run, bu_running0 by done.
  destruct (inbound w) eqn:Ei.
  2:{ exists w. rewrite app_nil_r. split_and!; try done. by constructor; rewrite ?Ei. }
  eexists. split; [done|]. split; [|split_and!; by try apply spares_stack].
  constructor; try done; cbn; try congruence; [|by intros _; apply bu_token0].
  destruct bu_inv0 as [[T N C O L G] A]. split; [|done]. constructor; [done..|]. cbn.
  by rewrite open_pcbs_snoc.
Qed.

Lemma step_datagram f w r :
  URunInv f w -> uenabled (OnDatagram r) w = true -> uready (OnDatagram r) w ->
  exists w', udeliver (OnDatagram r) w = (w', Ret tt) /\ URunInv f w' /\
    inbound w' = inbound w /\ (inbound w = false -> op_recv w' = 0%nat) /\ spares w w' /\
    match r with
    | IoOk (d, c) => exists q w1, asks f d q /\
        send_to_lwip d c (w.[op_recv := pred (op_recv w)].[uheld := true]) = (w1, Ret tt) /\
        sent_to_lwip (w.[op_recv := pred (op_recv w)].[uheld := true]) c q w1 /\
        kept_but_resolving (w.[op_recv := pred (op_recv w)].[uheld := true]) w1 /\
        resolving w' = resolving w1 /\ spares w1 w' /\
        (udestroyed w' = false ->
           heap w' = heap w1 /\ callbacks w' = callbacks w1 /\ usession w' = usession w1 /\
           ucalls w' = ucalls w1 ++ (if inbound w then [ReceiveFrom] else []))
    | _ => resolving w' = resolving w
    end.
Proof.
  intros Hr Hen Hrd. unfold uenabled in Hen. apply andb_true_iff in Hen as [Hop%Nat.ltb_lt Hd].
  pose proof (alive_op f w Hr Hop) as Ha.
  set (w0 := w.[op_recv := pred (op_recv w)].[uheld := true]).
  assert (Busy f w0) as Hb by (eapply URunInv_busy; try done; apply Hr).
  destruct (receive_spec f r w0 Hb) as (w1 & E1 & Hb1 & Hk1 & Hs1).
  { destruct r as [[d c]| | |]; try done. unfold endpoint_ok. lia. }
  { exact Hrd. }
  destruct (receive_loop_run f w1 Hb1) as (w2 & E2 & Hb2 & Hh2 & In2 & Op2 & He2 & Cb2 & Se2 & Re2 & Ca2 & Sp2).
  destruct (kept_held _ _ Hk1) as (Hh1 & Op1 & In1). cbn in Hh1, Op1, In1.
  assert (op_recv w = 1%nat) as Hone by (destruct Hr; destruct (inbound w); lia).
  destruct (uowning_spec f (receive_handler r) (w.[op_recv := pred (op_recv w)]) w2)
    as (w' & E & Hr' & In' & Op' & Hsame & Re' & Sp').
  - change (receive_handler r w0 = (w2, Ret tt)). by rewrite E1, E2.
  - done.
  - congruence.
  - rewrite In2, Op2, In1, Op1, Hone. by destruct (inbound w); cbn; lia.
  - exists w'. split; [exact E|]. split; [done|]. split; [congruence|]. split.
    + intros Hin. by rewrite Op', Op2, In1, Hin, Op1, Hone.
    + split; [by rewrite <- Sp', <- Sp2; apply Hk1|]. destruct r as [[d c]| | |]; [|by rewrite Re', Re2, Hs1..].
      destruct Hs1 as (q & Hq & Es & Hs1). exists q, w1. split_and!; [done|done|done|apply Hk1..|congruence|by rewrite <- Sp', <- Sp2|].
      intros Hd'. specialize (Hsame Hd'). subst w'. rewrite <- In1. by split_and!.
Qed.

(** A handler that only works on the table. *)
Lemma step_table f w w1 m :
  URunInv f w -> udestroyed w = false -> m (w.[uheld := true]) = (w1, Ret tt) ->
  kept (w.[uheld := true]) w1 ->
  exists w', uowning m w = (w', Ret tt) /\ URunInv f w' /\ inbound w' = inbound w /\
    w' = w1.[uheld := false] /\ spares w w'.
Proof.
  intros Hr Ha Em Hk.
  assert (Busy f (w.[uheld := true])) as Hb by (eapply URunInv_busy; try done; apply Hr).
  pose proof (kept_resolving _ _ Hk) as Hk'. destruct (kept_held _ _ Hk') as (Hh1 & Op1 & In1).
  cbn in Hh1, Op1, In1.
  destruct (uowning_spec f m w w1) as (w' & E & Hr' & In' & Op' & Hsame & _ & Sp').
  - done.
  - by eapply busy_kept.
  - done.
  - rewrite In1, Op1. apply Hr.
  - exists w'. split_and!; [done|done|congruence| |rewrite <- Sp'; by apply Hk]. apply Hsame.
    destruct Hr' as [? ? ? ? ? ? ? ? Hd _]. rewrite Hd, In', Op', In1, Op1. destruct Hr. congruence.
Qed.

(** Dropping a handler that was waiting. *)
Lemma URunInv_waiting f w w' :
  URunInv f w -> heap w' = heap w -> next w' = next w -> callbacks w' = callbacks w ->
  ulwip w' = ulwip w -> ucalls w' = ucalls w -> usession w' = usession w -> inbound w' = inbound w ->
  udestroyed w' = udestroyed w -> uheld w' = uheld w -> op_recv w' = op_recv w -> tokens w' = tokens w ->
  resolutions_ok w' -> URunInv f w'.
Proof.
  intros [] Eh En Ec El Ecl Es Ei Ed Ehe Eo Et Hr.
  constructor; rewrite ?Eh, ?Ec, ?Es, ?Ei, ?Ed, ?Ehe, ?Eo, ?Et; try done.
  eapply UInv_fields; try done; by rewrite ?El, ?Es.
Qed.

Lemma step_answer f w i err ip :
  URunInv f w ->
  exists w', udeliver (OnAnswer i err ip) w = (w', Ret tt) /\ URunInv f w' /\ inbound w' = inbound w /\
    resolving w' = delete i (resolving w) /\ spares w w' /\
    forall r t a, resolving w !! i = Some r -> udestroyed w = false -> r_token r = Some t ->
      tokens w !! t = Some true -> running_ (usession w) = true -> err = ERR_OK -> ip = Some a ->
      exists w1, forwarded (w.[resolving := delete i (resolving w)].[uheld := true]) (r_client r) (r_target r) a
          (r_payload r) w1 /\
        w' = w1.[uheld := false].
Proof.
  intros Hr. unfold udeliver, mbind, M_bind. cbn [get].
  destruct (resolving w !! i) as [r|] eqn:Ei.
  2:{ exists w. split_and!; try done. apply lookup_ge_None in Ei.
      by rewrite delete_take_drop, take_ge, drop_ge, app_nil_r by lia. }
  cbn [modify]. set (w0 := w.[resolving := delete i (resolving w)]).
  assert (URunInv f w0) as Hr0.
  { eapply URunInv_waiting; try done. intros x Hx%list_elem_of_delete_inv. by apply (ur_res f w Hr). }
  destruct (ur_res f w Hr r) as [Ht Hc]; [by eapply list_elem_of_lookup_2|].
  unfold resolved_handler, mbind, M_bind. cbn [get].
  change (udestroyed w0) with (udestroyed w). destruct (udestroyed w) eqn:Ha.
  { exists w0. split_and!; try done. by apply spares_stack. }
  match goal with |- context [uowning ?b _] => set (m := b) end.
  assert (UInv (w0.[uheld := true])) as Hi0 by (eapply UInv_fields; [apply Hr0|done..]).
  assert (exists w1, m (w0.[uheld := true]) = (w1, Ret tt) /\ kept (w0.[uheld := true]) w1 /\
    forall t a, r_token r = Some t -> tokens w !! t = Some true -> running_ (usession w) = true ->
      err = ERR_OK -> ip = Some a ->
      forwarded (w0.[uheld := true]) (r_client r) (r_target r) a (r_payload r) w1)
    as (w1 & Em & Hk & Hf).
  { unfold m. rewrite uthis_run by done. pose proof (kept_refl _ Hi0).
    destruct (r_token r) as [t|]; [|by eexists]. destruct ip as [ip|]; [|by eexists].
    destruct (_ && _ && _) eqn:Eb.
    - destruct (send_payload_spec (r_payload r) (r_client r) (r_target r) ip (w0.[uheld := true]))
        as (w1 & -> & Hk & Hf); [done..|]. exists w1. split_and!; try done. by intros t' a _ _ _ _ [= <-].
    - eexists. split; [done|]. split; [done|]. intros t' a [= <-] Ht' Hru -> _. exfalso.
      change (tokens w0) with (tokens w) in Eb. rewrite !bool_decide_true in Eb by done.
      change (running_ (usession _)) with (running_ (usession w)) in Eb. by rewrite Hru in Eb. }
  destruct (step_table f w0 w1 m Hr0 Ha Em Hk) as (w' & E & Hr' & In' & Ew' & Sp'). exists w'.
  split_and!; try done.
  - rewrite Ew'. destruct Hk as (_ & El & _). by injection El as _ _ _ _ _ E6.
  - intros r' t a [= <-] _ Ht' Hto Hru He Hip. exists w1. split; [by eapply Hf|done].
Qed.

Lemma step_idle f w i :
  URunInv f w ->
  exists w', udeliver (OnIdle i) w = (w', Ret tt) /\ URunInv f w' /\ inbound w' = inbound w /\
    resolving w' = resolving w /\ spares w w' /\
    forall k, expired w !! i = Some k ->
      mappings_ (usession w') = delete k (mappings_ (usession w)).
Proof.
  intros Hr. unfold udeliver, mbind, M_bind. cbn [get].
  destruct (expired w !! i) as [k|] eqn:Ei; [|by exists w].
  cbn [modify]. set (w0 := w.[expired := delete i (expired w)]).
  assert (URunInv f w0) as Hr0 by (eapply URunInv_waiting; try done; apply Hr).
  unfold idle_handler, mbind, M_bind. cbn [get].
  change (udestroyed w0) with (udestroyed w). destruct (udestroyed w) eqn:Ha.
  { exists w0. split_and!; try done; [by apply spares_stack|]. intros k' _. cbn.
    destruct (ur_empty f w Hr Ha) as (_ & -> & _). by rewrite delete_empty. }
  assert (UInv (w0.[uheld := true])) as Hi0 by (eapply UInv_fields; [apply Hr0|done..]).
  destruct (erase_mapping_spec k (w0.[uheld := true]) Hi0 Ha) as (w1 & Em & Hk & Hmap & _).
  destruct (step_table f w0 w1 (erase_mapping k) Hr0 Ha Em Hk) as (w' & E & Hr' & In' & -> & Sp').
  eexists. split; [exact E|]. split_and!; [done|done| |done|by intros ? [= <-]].
  destruct Hk as (_ & El & _). by injection El as _ _ _ _ _ E6.
Qed.

Lemma step_expires f w k :
  URunInv f w -> uenabled (Expires k) w = true ->
  exists w', udeliver (Expires k) w = (w', Ret tt) /\ URunInv f w' /\ inbound w' = inbound w /\
    resolving w' = resolving w /\ spares w w'.
Proof.
  intros Hr Hen. unfold udeliver, uenabled, mbind, M_bind in *. cbn [get].
  destruct (mappings_ (usession w) !! k) as [id|]; [|done].
  unfold set_mapping. destruct (heap w !! id) as [m|] eqn:Em; [|done].
  eexists. split; [done|]. split; [|split_and!; by try apply spares_stack].
  pose proof (alive_heap f w id m Hr Em) as Ha. destruct Hr. constructor; try done.
  - eapply UInv_fields; [exact (UInv_armed w id m false ltac:(done) Em)|done..].
  - by cbn; rewrite Ha.
Qed.

Lemma step_stop f w :
  URunInv f w -> inbound w = true ->
  exists w', udeliver OnStop w = (w', Ret tt) /\ URunInv f w' /\ inbound w' = false /\
    resolving w' = resolving w /\ spares w w'.
Proof.
  intros Hr Hin. pose proof (alive_inbound f w Hr Hin) as Ha. unfold udeliver, mbind, M_bind. cbn [get].
  destruct (stop_udp_spec w (ur_inv f w Hr) Ha)
    as (w1 & -> & Hi1 & Hh1 & Hm1 & Hcb1 & Hr1 & Hs1 & Hd1 & In1 & He1 & Or1 & Re1 & Ex1 & Cr1 & Sp1).
  cbn [modify].
  destruct (udropped_spec f (w1.[inbound := false])) as (w' & -> & Hr' & In' & _ & _ & Re' & Sp').
  - constructor; try done.
    + eapply UInv_fields; [exact Hi1|done..].
    + intros r. cbn. rewrite Re1. apply (ur_res f w Hr).
    + cbn. rewrite Cr1. apply Hr.
  - cbn. rewrite He1. apply Hr.
  - cbn. rewrite Or1. destruct Hr as [? ? ? ? ? ? ? Hrecv]. rewrite Hin in Hrecv. lia.
  - exists w'. split_and!; try done; [by rewrite Re'|]. by rewrite <- Sp'.
Qed.

Lemma step_reply f w u payload addr p :
  URunInv f w ->
  exists w' r, udeliver (OnReply u payload addr p) w = (w', r) /\ URunInv f w' /\
    inbound w' = inbound w /\ resolving w' = resolving w /\ spares w w' /\
    match callbacks w !! u with
    | None => w' = w /\ r = Ret tt
    | Some id => exists m, heap w !! id = Some m /\ m_pcb m = Some u /\
        match r with
        | Ret _ => exists ct,
            ucalls w' = ucalls w ++ (if inbound w then [SendTo (m_client m) ct] else []) /\
            forall s, master_key_ s = factory_master_key_ f ->
              decrypt_udp_packet s ct = Ret (Some (reply_wire m addr p ++ payload))
        | Exn _ => is_ret_b (snd (client_salt (make_session f, uprng w))) = false
        | Ub => False
        end
    end.
Proof.
  intros Hr. pose proof Hr as [[Hc Ho] Hres Hf _ _ _ Hs _ _ _].
  unfold udeliver, mbind, M_bind. cbn [get].
  destruct (callbacks w !! u) as [id|] eqn:Ecb; [|by exists w, (Ret tt)].
  pose proof Ecb as (m & Hm & Hu)%(uc_cb w Hc).
  pose proof (alive_heap f w id m Hr Hm) as Ha. destruct (uc_ok w Hc id m Hm) as [Hk Ht Hcl].
  unfold on_udp_recv, mapping_at, mbind, M_bind. rewrite Hm.
  destruct (send_to_client_spec m payload addr p w ltac:(done) Ha Ht)
    as (w' & r & -> & Hi' & Hl' & Hh' & Hcb' & Hn' & Hcase).
  exists w', r. rewrite Hf, Hs in Hcase. split; [done|].
  pose proof Hl' as E. injection E as E1 E2 E3 E4 E5 E6 E7 E8 E9 E10.
  split; [|split_and!; [done|done|by apply spares_stack; [rewrite Hn'|]|by exists m]].
  destruct Hr. constructor; try done; try congruence.
  - intros x. rewrite E6. apply Hres.
  - intros Hin. destruct ur_token0 as (t & ? & ?); [congruence|]. exists t. split; congruence.
  - by rewrite E2, E4.
Qed.

(** Every event that can happen keeps the invariant; only a reply may throw. *)
Lemma udp_step_any f w ev :
  URunInv f w -> uenabled ev w = true -> uready ev w ->
  exists w' r, udeliver ev w = (w', r) /\ r <> Ub /\ URunInv f w' /\ spares w w' /\
    (forall e, r = Exn e -> exists u payload addr p, ev = OnReply u payload addr p /\
       is_ret_b (snd (client_salt (make_session f, uprng w))) = false).
Proof.
  intros Hr Hen Hrd. destruct ev as [r|u payload addr p|i err ip|k|i|].
  - destruct (step_datagram f w r Hr Hen Hrd) as (w' & E & Hr' & _ & _ & Sp & _). by exists w', (Ret tt).
  - destruct (step_reply f w u payload addr p Hr) as (w' & r & E & Hr' & _ & _ & Sp & Hcase).
    exists w', r. split; [done|]. destruct (callbacks w !! u); [|by destruct Hcase as [_ ->]].
    destruct Hcase as (m & _ & _ & Hcase). destruct r; try done. split_and!; try done.
    intros e' _. by eexists _, _, _, _.
  - destruct (step_answer f w i err ip Hr) as (w' & E & Hr' & _ & _ & Sp & _). by exists w', (Ret tt).
  - destruct (step_expires f w k Hr Hen) as (w' & E & Hr' & _ & _ & Sp). by exists w', (Ret tt).
  - destruct (step_idle f w i Hr) as (w' & E & Hr' & _ & _ & Sp & _). by exists w', (Ret tt).
  - destruct (step_stop f w Hr Hen) as (w' & E & Hr' & _ & _ & Sp). by exists w', (Ret tt).
Qed.

Lemma listening_inv f g n : URunInv f (listening f g n).
Proof.
  unfold listening, start_udp. constructor; try done.
  - apply UInv_empty; done.
  - by intros r Hr%elem_of_nil.
  - intros _. by exists 0%nat.
Qed.

(** The stack between events. *)
Lemma URunInv_stack f w n : URunInv f w -> dom (callbacks w) ⊆ live n -> URunInv f (w.[ulwip := n]).
Proof.
  intros [] Hn. constructor; try done. destruct ur_inv0 as [Hc Ho]. split; [|done].
  destruct Hc as [T N C O L G]. constructor; try done. cbn. intros u Hu.
  by apply Hn, elem_of_dom.
Qed.

Lemma urun_inv f g n evs w : urun (listening f g n) evs w -> URunInv f w.
Proof.
  induction 1 as [|evs w n' Hrun IH Hn|evs w ev w' Hrun IH Hen Hrd Hd].
  - apply listening_inv.
  - by apply URunInv_stack.
  - destruct (udp_step_any f w ev IH Hen Hrd) as (w'' & r & E & _ & Hr & _). congruence.
Qed.

End Run.
