(* ===== verification/UdpSpec.v ===== *)
(** * The UDP relay: properties

    Safety in every run, the table as a one-to-one correspondence between
    pairs, pcbs and callbacks, both directions of a datagram, the release of
    everything at the end, and the idle timer that forgets a pair in use. *)
From S2P Require Import Prelude Types Mbedtls Text Aead AeadStream AeadSpec Address AddressSpec Lwip.
From S2P Require Import Udp UdpFacts UdpRun.

Section Spec.
Context `{!Mbedtls, !MbedtlsLaws, !MakeAddress, !IpText, !IpPrint, !IpPrintLaws}.
Context `{!ClientAddress, !ClientAddressLaws, !UdpNet, !UdpNetLaws, !UdpResolver, !UdpResolverLaws}.
Implicit Types (w : UdpWorld) (evs : list uevent).

Definition relay_of (pw : bytes) g n : UdpWorld := listening (new_factory pw) g n.

Lemma relay_inv pw g n evs w : urun (relay_of pw g n) evs w -> URunInv (new_factory pw) w.
Proof. exact (urun_inv (new_factory pw) g n evs w). Qed.

Lemma mapping_key_shape c t :
  mapping_key c t = (address_to_string (ep_address c) ++ ch ":" :: to_string (ep_port c)) ++
                    ch "|" :: host t ++ ch ":" :: to_string (port t).
Proof. unfold mapping_key. by rewrite <- app_assoc. Qed.

(** Keys separate pairs. *)
Lemma mapping_key_inj c c' t t' :
  endpoint_ok c -> endpoint_ok c' -> 0 <= port t <= 65535 -> 0 <= port t' <= 65535 ->
  mapping_key c t = mapping_key c' t' -> c = c' /\ host t = host t' /\ port t = port t'.
Proof.
  unfold endpoint_ok. intros Hc Hc' Ht Ht' E. rewrite !mapping_key_shape in E.
  assert (forall d, endpoint_ok d ->
    ch "|" ∉ address_to_string (ep_address d) ++ ch ":" :: to_string (ep_port d)) as Hbar.
  { intros d Hd. rewrite not_elem_of_app, not_elem_of_cons. split_and!; [apply address_no_bar|done|].
    apply to_string_no; [unfold endpoint_ok in Hd; lia|done]. }
  apply first_sep_inj in E as [Ec Et]; [|by apply Hbar..].
  apply last_sep_inj in Ec as [Ea Ep]; [|apply to_string_no; [lia|done]..].
  apply last_sep_inj in Et as [Eh Etp]; [|apply to_string_no; [lia|done]..].
  apply to_string_inj in Ep; [|lia..]. apply to_string_inj in Etp; [|lia..].
  apply (inj address_to_string) in Ea. destruct c, c'; simpl in *. by subst.
Qed.

Lemma target_port t : target_ok t -> 0 <= port t <= 65535.
Proof. intros [wire []]; cbn; pose proof (of_be16_range hi lo); lia. Qed.

(** The calls with which the whole payload leaves, through a mapping of the
    client and the target. *)
Definition sent_whole w' c t ip payload (cs : list ucall) : Prop :=
  exists u id m made err, callbacks w' !! u = Some id /\ heap w' !! id = Some m /\
    m_client m = c /\ host (m_target m) = host t /\ port (m_target m) = port t /\
    (made = [] \/ made = [UdpNew (Some u); UdpRecv u id]) /\
    cs = made ++ [UdpSendto u payload ip (port t) err].

Lemma forwarded_whole f w w1 w' c t ip payload :
  forwarded w c t ip payload w1 -> URunInv f w' -> heap w' = heap w1 ->
  Z.of_nat (length payload) < 65536 -> endpoint_ok c -> target_ok t ->
  exists cs, ucalls w1 = ucalls w ++ cs /\
    if has_room w c t (Z.of_nat (length payload)) then sent_whole w' c t ip payload cs else dropped cs.
Proof.
  intros Hfwd Hr' He Hlen Hep Ht.
  assert (u16 (Z.of_nat (length payload)) = Z.of_nat (length payload)) as Hu16 by (apply u16_small; lia).
  destruct Hfwd as [made id m u err Hroom Hm Hu Hk Hmade Hcalls|made Hroom Hdrop Hcalls]; rewrite Hu16 in Hroom;
    rewrite Hroom; [|by exists made].
  rewrite Hu16, Nat2Z.id, take_ge in Hcalls by done. eexists. split; [exact Hcalls|].
  pose proof (ur_inv _ _ Hr') as [Hc _]. rewrite <- He in Hm.
  destruct (uc_ok w' Hc id m Hm) as [Hkey Hmt Hmc]. rewrite Hkey in Hk.
  apply mapping_key_inj in Hk as (E1 & E2 & E3); [|done|done|by apply target_port..].
  exists u, id, m, made, err. split_and!; try done.
  - apply (uc_cb w' Hc). eauto.
  - destruct Hmade as [[-> _]|[-> _]]; eauto.
Qed.

Lemma datagram_bounds f w d c t payload :
  uenabled (OnDatagram (IoOk (d, c))) w = true -> asks f d (Some (t, payload)) ->
  Z.of_nat (length payload) < 65536 /\ endpoint_ok c /\ target_ok t.
Proof.
  intros Hen Hq. unfold uenabled in Hen. apply andb_true_iff in Hen as [_ Hen].
  pose proof (asks_payload_length _ _ _ _ Hq) as Hl. unfold SaltSize, TagSize in Hl.
  split; [lia|]. split; [unfold endpoint_ok; lia|]. inversion Hq; subst; by eexists.
Qed.

(* ------------------------------------------------------------------ *)
(** ** Properties *)

(** In every order of datagrams, answers, replies, timers and the stop,
    no handler touches a mapping or a session that is gone, and no exception
    leaves a handler, except that a reply for which no salt can be drawn
    throws into lwIP; and no pcb of another component is ever removed. *)
Theorem udp_relay_safe pw g n evs w ev :
  urun (relay_of pw g n) evs w -> uenabled ev w = true -> uready ev w ->
  exists w' r, udeliver ev w = (w', r) /\ r <> Ub /\ foreign w ⊆ foreign w' /\
    (forall e, r = Exn e -> exists u payload addr p, ev = OnReply u payload addr p /\
       is_ret_b (snd (client_salt (make_session (new_factory pw), uprng w))) = false).
Proof.
  intros Hr%relay_inv Hen Hrd.
  destruct (udp_step_any _ w ev Hr Hen Hrd) as (w' & r & E & Hub & _ & Sp & He). by exists w', r.
Qed.

(** C14.  The table in every reachable state: mappings, pcbs and callbacks
    correspond one to one; every callback lwIP may run has a live mapping as
    its argument; a mapping is found under the key of its pair, and under no
    other; the pcbs made and not yet removed are exactly those of the table. *)
Theorem udp_table pw g n evs w :
  urun (relay_of pw g n) evs w ->
  (forall k id, mappings_ (usession w) !! k = Some id <->
     exists m, heap w !! id = Some m /\ k = mapping_key (m_client m) (m_target m)) /\
  (forall id m, heap w !! id = Some m ->
     exists u, m_pcb m = Some u /\ callbacks w !! u = Some id /\ u ∈ live (ulwip w)) /\
  (forall u id, callbacks w !! u = Some id -> exists m, heap w !! id = Some m /\ m_pcb m = Some u) /\
  (forall id id' m m', heap w !! id = Some m -> heap w !! id' = Some m' ->
     m_client m = m_client m' -> host (m_target m) = host (m_target m') ->
     port (m_target m) = port (m_target m') -> id = id') /\
  open_pcbs (ucalls w) = dom (callbacks w).
Proof.
  intros [[Hc Ho] _ _ _ _ _ _ _ _ _]%relay_inv. split_and!.
  - intros k id. rewrite (uc_table w Hc). split.
    + intros (m & Hm & <-). exists m. split; [done|]. apply (uc_ok w Hc id m Hm).
    + intros (m & Hm & ->). exists m. split; [done|]. apply (uc_ok w Hc id m Hm).
  - intros id m Hm. destruct (Ho id m Hm) as [u Hu]. exists u.
    assert (callbacks w !! u = Some id) by (apply (uc_cb w Hc); eauto).
    split_and!; [done|done|]. apply (uc_live w Hc). eauto.
  - intros u id. apply (uc_cb w Hc).
  - intros id id' m m' Hm Hm' E1 E2 E3.
    apply (table_unique w (m_key m) id id' m m' Hc Hm Hm' eq_refl).
    rewrite (mo_key _ (uc_ok w Hc _ _ Hm)), (mo_key _ (uc_ok w Hc _ _ Hm')).
    unfold mapping_key. by rewrite E1, E2, E3.
  - apply (uc_log w Hc).
Qed.

(** C21.  A client's datagram for an IP address, of a relay that is open: if it
    is authentic and lwIP, in the state it is in, has a pcb (that of the
    mapping of this client and this target, or a new one) and then a buffer,
    the whole payload, however long, goes to the address and port it names,
    once, through the pcb of a mapping of this client and this target.  If
    lwIP has no pcb or no buffer the datagram is dropped, and nothing is sent.
    In both cases the relay receives on. *)
Theorem udp_datagram_forwarded pw g n evs w d c t payload ip :
  urun (relay_of pw g n) evs w -> uenabled (OnDatagram (IoOk (d, c))) w = true -> inbound w = true ->
  asks (new_factory pw) d (Some (t, payload)) -> ta_type t <> Domain ->
  ipaddr_aton (c_str (host t)) = Some ip ->
  exists w' cs, udeliver (OnDatagram (IoOk (d, c))) w = (w', Ret tt) /\
    ucalls w' = ucalls w ++ cs ++ [ReceiveFrom] /\
    if has_room w c t (Z.of_nat (length payload)) then sent_whole w' c t ip payload cs else dropped cs.
Proof.
  intros Hr%relay_inv Hen Hin Hq Hdom Hip.
  destruct (step_datagram _ w (IoOk (d, c)) Hr Hen) as (w' & E & Hr' & In' & _ & _ & Hs).
  { intros q Hq'. rewrite (ur_crypto _ _ Hr) in Hq'. rewrite (asks_unique _ _ _ _ Hq' Hq). by intros ?. }
  assert (udestroyed w' = false) as Ha by (eapply alive_inbound; [done|congruence]).
  destruct Hs as (q & w1 & Hq' & _ & Hsent & _ & _ & _ & Hs). destruct (Hs Ha) as (He & Hcb & Hse & Hca).
  assert (q = Some (t, payload)) as -> by (by eapply asks_unique).
  rewrite Hin in Hca. cbn [sent_to_lwip] in Hsent. rewrite decide_False, Hip in Hsent by done.
  destruct Hsent as [Hsent _]. destruct (datagram_bounds _ _ _ _ _ _ Hen Hq) as (Hlen & Hep & Ht).
  destruct (forwarded_whole _ _ _ _ _ _ _ _ Hsent Hr' He Hlen Hep Ht) as (cs & Ecs & Hcs).
  exists w', cs. split_and!; [done| |exact Hcs]. by rewrite Hca, Ecs, <- app_assoc.
Qed.

(** C22.  A reply that arrives at a mapping's pcb goes to that mapping's client
    as one datagram, which a client of the same password decrypts to the
    reply's address and its payload; for a domain target the address is the
    domain with the port the reply came from. *)
Theorem udp_reply_delivered pw g n evs w u payload addr p id m :
  urun (relay_of pw g n) evs w -> inbound w = true ->
  callbacks w !! u = Some id -> heap w !! id = Some m ->
  is_ret_b (snd (client_salt (make_session (new_factory pw), uprng w))) = true ->
  exists w' ct, udeliver (OnReply u payload addr p) w = (w', Ret tt) /\
    ucalls w' = ucalls w ++ [SendTo (m_client m) ct] /\
    forall s, master_key_ s = factory_master_key_ (new_factory pw) ->
      decrypt_udp_packet s ct = Ret (Some (reply_wire m addr p ++ payload)).
Proof.
  intros Hr%relay_inv Hin Hcb Hm Hsalt.
  destruct (step_reply _ w u payload addr p Hr) as (w' & r & E & _ & _ & _ & _ & Hcase).
  rewrite Hcb in Hcase. destruct Hcase as (m' & Hm' & _ & Hcase).
  assert (m' = m) as -> by congruence.
  destruct r as [[]|e|]; [|congruence|done]. destruct Hcase as (ct & Hca & Hdec).
  rewrite Hin in Hca. by exists w', ct.
Qed.

(** Two pairs of client and target share a mapping exactly when client,
    host text and port agree; the type of the address is not part of the key. *)
Theorem mapping_key_separates c c' t t' :
  endpoint_ok c -> endpoint_ok c' -> 0 <= port t <= 65535 -> 0 <= port t' <= 65535 ->
  mapping_key c t = mapping_key c' t' <-> c = c' /\ host t = host t' /\ port t = port t'.
Proof.
  intros Hc Hc' Ht Ht'. split; [by apply mapping_key_inj|].
  intros (-> & E1 & E2). unfold mapping_key. by rewrite E1, E2.
Qed.

(** C9.  Once the inbound has stopped the relay, the completion of the receive
    that is outstanding ends it: then no mapping, no callback and no pcb is
    left, whatever was in flight when it stopped. *)
Theorem udp_relay_released pw g n evs w :
  urun (relay_of pw g n) evs w -> inbound w = false ->
  (op_recv w <= 1)%nat /\
  (op_recv w = 0%nat ->
     udestroyed w = true /\ heap w = ∅ /\ callbacks w = ∅ /\ open_pcbs (ucalls w) = ∅) /\
  (forall r, uenabled (OnDatagram r) w = true -> uready (OnDatagram r) w ->
     exists w', udeliver (OnDatagram r) w = (w', Ret tt) /\ op_recv w' = 0%nat /\ inbound w' = false).
Proof.
  intros Hr%relay_inv Hin. pose proof Hr as [[Hc _] _ _ _ _ _ _ Ho Hd Hempty].
  rewrite Hin in Ho. split; [done|]. split.
  - intros E0. rewrite Hin, E0 in Hd. destruct (Hempty Hd) as (Hh & _ & Hcb).
    split_and!; try done. by rewrite (uc_log w Hc), Hcb, dom_empty_L.
  - intros r Hen Hrd. destruct (step_datagram _ w r Hr Hen Hrd) as (w' & E & _ & In' & Hop & _).
    exists w'. split; [done|]. split; [by apply Hop|congruence].
Qed.

(** A handler of an idle timer that expired before the pair was used
    again still erases the pair: re-arming cannot cancel a handler that is
    already queued, and the handler only knows the key. *)
Theorem udp_stale_idle_timer pw g n evs w i k id m :
  urun (relay_of pw g n) evs w -> expired w !! i = Some k ->
  mappings_ (usession w) !! k = Some id -> heap w !! id = Some m -> m_armed m = true ->
  exists w', udeliver (OnIdle i) w = (w', Ret tt) /\ mappings_ (usession w') !! k = None.
Proof.
  intros Hr%relay_inv Hi Hk Hm Harmed.
  destruct (step_idle _ w i Hr) as (w' & E & _ & _ & _ & _ & Hmap). exists w'. split; [done|].
  rewrite (Hmap k Hi). apply lookup_delete_eq.
Qed.

End Spec.

(* ------------------------------------------------------------------ *)
(** ** A concrete stack, and runs on it *)

(** IPv4 clients, printed in dotted decimal. *)
Definition toy_address : ClientAddress := {|
  caddr := byte * byte * byte * byte;
  caddr_eq_dec := _;
  address_to_string := fun '(a, b, c, d) => dotted a b c d
|}.

Lemma dotted_no_bar a b c d : ch "|" ∉ dotted a b c d.
Proof.
  unfold dotted. change (str ".") with [ch "."].
  rewrite !not_elem_of_app. assert (forall x, ch "|" ∉ to_string (byte_to_Z x)) as Hd.
  { intros x. pose proof (byte_to_Z_range x). apply to_string_no; [lia|done]. }
  split_and!; try apply Hd; by rewrite list_elem_of_singleton.
Qed.

Lemma toy_address_laws : @ClientAddressLaws toy_address.
Proof.
  split.
  - intros [[[a b] c] d] [[[a' b'] c'] d'] E. cbn in E.
    pose proof (Pton.pton4_dotted a b c d) as P. rewrite E, Pton.pton4_dotted in P. by simplify_eq.
  - intros [[[a b] c] d]. apply dotted_no_bar.
Qed.

Definition toy_print : IpPrint := {|
  ipaddr_ntoa := fun ip =>
    match ip_network_bytes ip with [a; b; c; d] => dotted a b c d | bs => v6_text bs end
|}.

Lemma toy_print_laws : @IpPrintLaws toy_print pton_make_address.
Proof. split; intros; [apply Pton.pton4_dotted|by apply Pton.pton6_text]. Qed.

Definition toy_aton : IpText := {|
  ipaddr_aton t := match Pton.pton4 t with
                   | Some [a; b; c; d] => Some (IP4 (of_le32 a b c d))
                   | _ => None
                   end
|}.

Definition toy_resolver : @UdpResolver toy_udp :=
  {| uasync_resolve := fun (_ : bytes) (n : @unet toy_udp) => (n, None) |}.
#[refine] Definition toy_resolver_laws : @UdpResolverLaws toy_udp toy_udp_laws toy_resolver :=
  {| resolver_ready := fun _ _ => True |}.
Proof. intros h n _. done. Defined.

#[local] Existing Instances toy_mbedtls toy_mbedtls_laws pton_make_address toy_print toy_print_laws
  toy_aton toy_address toy_address_laws toy_udp toy_udp_laws toy_resolver toy_resolver_laws.

Fixpoint uplay (script : list uevent) (w : UdpWorld) : option UdpWorld :=
  match script with
  | [] => Some w
  | ev :: script =>
      if uenabled ev w then
        match udeliver ev w with
        | (w', Ret _) => uplay script w'
        | _ => None
        end
      else None
  end.

Lemma toy_ready ev w : uready ev w.
Proof. unfold uready. unfold ready_for. repeat case_match; by try intros ? []. Qed.

Lemma uplay_run w0 script evs w w' :
  urun w0 evs w -> uplay script w = Some w' -> urun w0 (evs ++ script) w'.
Proof.
  revert evs w. induction script as [|ev script IH]; intros evs w Hr; cbn [uplay].
  - intros [= ->]. by rewrite app_nil_r.
  - destruct (uenabled ev w) eqn:He; [|done].
    destruct (udeliver ev w) as [w1 [[]|e|]] eqn:Hd; [|done..]. intros Hp.
    rewrite cons_middle, app_assoc. eapply IH; [|exact Hp]. eapply urun_snoc; [done|done|apply toy_ready|done].
Qed.

Definition uafter (script : list uevent) (w : UdpWorld) : UdpWorld :=
  match uplay script w with Some w' => w' | None => w end.

Lemma uafter_run w0 script :
  bool_decide (is_Some (uplay script w0)) = true -> urun w0 script (uafter script w0).
Proof.
  intros Hp. unfold uafter. destruct (uplay script w0) as [w'|] eqn:E; [|done].
  exact (uplay_run w0 script [] w0 w' (urun_nil w0) E).
Qed.

Definition toy_net : @unet toy_udp := [].
Abbreviation toy_pw := (str "password").
Definition toy_relay : UdpWorld := relay_of toy_pw toy_rng toy_net.
Definition toy_client : endpoint := mkEndpoint ((x0a, x00, x00, x02) : @caddr toy_address) 40000.
Definition toy_target : TargetAddress := mkTargetAddress Ipv4 (str "192.0.2.1") 80.
Definition toy_datagram : bytes :=
  ret_value [] (snd (encrypt_udp_packet ([x01; xc0; x00; x02; x01; x00; x50] ++ str "hello")
    (make_session (new_factory toy_pw), toy_rng))).
Abbreviation toy_send := (OnDatagram (IoOk (toy_datagram, toy_client))).
Definition used : UdpWorld := uafter [toy_send] toy_relay.

Lemma used_run : urun toy_relay [toy_send] used.
Proof. apply uafter_run. vm_compute. reflexivity. Qed.

Lemma toy_asks : asks (new_factory toy_pw) toy_datagram (Some (toy_target, str "hello")).
Proof.
  apply (asks_target _ _ _ [x01; xc0; x00; x02; x01; x00; x50]); [vm_compute; reflexivity|].
  exact (wire_ipv4 xc0 x00 x02 x01 x00 x50).
Qed.

Lemma udp_relay_safe_witness :
  exists w' r, udeliver (OnReply (1%nat : @upcb toy_udp) (str "hi") (IP4 1) 80) used = (w', r) /\ r <> Ub /\
    foreign used ⊆ foreign w' /\
    (forall e, r = Exn e -> exists u payload addr p,
       OnReply (1%nat : @upcb toy_udp) (str "hi") (IP4 1) 80 = OnReply u payload addr p /\
       is_ret_b (snd (client_salt (make_session (new_factory toy_pw), uprng used))) = false).
Proof.
  eapply (udp_relay_safe toy_pw toy_rng toy_net [toy_send] used); [exact used_run| |apply toy_ready].
  vm_compute. reflexivity.
Defined.

Lemma udp_table_witness : open_pcbs (ucalls used) = dom (callbacks used).
Proof. exact (proj2 (proj2 (proj2 (proj2 (udp_table toy_pw toy_rng toy_net [toy_send] used used_run))))). Defined.

Lemma udp_datagram_forwarded_witness :
  exists w' cs, udeliver toy_send toy_relay = (w', Ret tt) /\
    ucalls w' = ucalls toy_relay ++ cs ++ [ReceiveFrom] /\
    sent_whole w' toy_client toy_target (IP4 0x010200c0) (str "hello") cs.
Proof.
  apply (udp_datagram_forwarded toy_pw toy_rng toy_net [] toy_relay toy_datagram toy_client
    toy_target (str "hello") (IP4 0x010200c0)).
  - exact (urun_nil toy_relay).
  - vm_compute. reflexivity.
  - reflexivity.
  - exact toy_asks.
  - discriminate.
  - vm_compute. reflexivity.
Defined.

Lemma default_is_Some {A} (d : A) (o : option A) :
  bool_decide (is_Some o) = true -> o = Some (default d o).
Proof. destruct o; [done|]. by intros []%bool_decide_eq_true. Qed.

Definition used_mapping : Mapping :=
  default (mkMapping None toy_client toy_target [] false) (heap used !! 0%nat).

Lemma udp_reply_delivered_witness :
  exists w' ct, udeliver (OnReply (1%nat : @upcb toy_udp) (str "hi") (IP4 0x010200c0) 80) used = (w', Ret tt) /\
    ucalls w' = ucalls used ++ [SendTo (m_client used_mapping) ct] /\
    forall s, master_key_ s = factory_master_key_ (new_factory toy_pw) ->
      decrypt_udp_packet s ct = Ret (Some (reply_wire used_mapping (IP4 0x010200c0) 80 ++ str "hi")).
Proof.
  apply (udp_reply_delivered toy_pw toy_rng toy_net [toy_send] used 1%nat (str "hi")
    (IP4 0x010200c0) 80 0%nat used_mapping used_run); [..|apply default_is_Some|]; vm_compute; reflexivity.
Defined.

Lemma mapping_key_separates_witness :
  mapping_key toy_client toy_target =
    mapping_key toy_client (mkTargetAddress Domain (str "192.0.2.1") 80) <->
  toy_client = toy_client /\ str "192.0.2.1" = str "192.0.2.1" /\ 80 = 80.
Proof.
  apply (mapping_key_separates toy_client toy_client toy_target
    (mkTargetAddress Domain (str "192.0.2.1") 80)); vm_compute; split; discriminate.
Defined.

Definition stopped : UdpWorld := uafter [toy_send; OnStop; OnDatagram IoError] toy_relay.

Lemma udp_relay_released_witness :
  udestroyed stopped = true /\ heap stopped = ∅ /\ callbacks stopped = ∅ /\
  open_pcbs (ucalls stopped) = ∅.
Proof.
  refine (proj1 (proj2 (udp_relay_released toy_pw toy_rng toy_net
    [toy_send; OnStop; OnDatagram IoError] stopped _ _)) _);
    [apply uafter_run|..]; vm_compute; reflexivity.
Defined.

(** The timer expires, the client sends again, the handler runs. *)
Definition stale : UdpWorld :=
  uafter [toy_send; Expires (mapping_key toy_client toy_target); toy_send] toy_relay.

Lemma udp_stale_idle_timer_witness :
  exists w', udeliver (OnIdle 0) stale = (w', Ret tt) /\
    mappings_ (usession w') !! mapping_key toy_client toy_target = None.
Proof.
  apply (udp_stale_idle_timer toy_pw toy_rng toy_net
    [toy_send; Expires (mapping_key toy_client toy_target); toy_send] stale 0
    (mapping_key toy_client toy_target) 0
    (default (mkMapping None toy_client toy_target [] false) (heap stale !! 0%nat)));
    [apply uafter_run|..|apply default_is_Some|]; vm_compute; reflexivity.
Defined.
