(* ===== verification/Config.v ===== *)
(** * The configuration loader

    [load_json_config] and its helpers in [src/MultiInstanceManager.cpp].  The
    parsed document is a value of the JSON library; [Json::parse], the file
    and the file system are arguments. *)
From S2P Require Import Prelude Types Text.
#[local] Open Scope Z_scope.

(** A document as the library holds it: a parsed non-negative integer is
    unsigned, a negative one is signed, both of 64 bits; of a floating-point
    number only its truncation to an integer matters here. *)
Inductive Json :=
| JNull
| JBool (b : bool)
| JInteger (z : Z)
| JUnsigned (z : Z)
| JFloat (truncated : Z)
| JString (s : bytes)
| JArray (items : list Json)
| JObject (members : list (bytes * Json)).

(** [contains(key)] and [at(key)]: only an object has members. *)
Fixpoint member (key : bytes) (ms : list (bytes * Json)) : option Json :=
  match ms with
  | [] => None
  | (k, j) :: ms => if decide (k = key) then Some j else member key ms
  end.
Definition find_member (object : Json) (key : bytes) : option Json :=
  match object with JObject ms => member key ms | _ => None end.

Definition is_number_integer (j : Json) : bool :=
  match j with JInteger _ | JUnsigned _ => true | _ => false end.

(** [static_cast<int>] of a 64-bit integer keeps the low 32 bits. *)
Definition int32 (z : Z) : Z := (z + 2 ^ 31) mod 2 ^ 32 - 2 ^ 31.

(** [get<int>()]; converting a floating-point number outside the range of
    [int] is undefined. *)
Definition get_int (j : Json) : outcome Z :=
  match j with
  | JUnsigned z | JInteger z => Ret (int32 z)
  | JFloat z => if (- 2 ^ 31 <=? z) && (z <? 2 ^ 31) then Ret z else Ub
  | JBool b => Ret (if b then 1 else 0)
  | _ => Exn (type_error (str "type must be number"))
  end.

Definition checked_port (value : Z) (key : string) : outcome Z :=
  if (value <=? 0) || (65535 <? value)
  then Exn (runtime_error (str "invalid port for key: " ++ str key))
  else Ret (u16 value).

Definition required_string (object : Json) (key : string) : outcome bytes :=
  match find_member object (str key) with
  | Some (JString s) =>
      if decide (s = [])
      then Exn (runtime_error (str "instance requires non-empty string: " ++ str key))
      else Ret s
  | _ => Exn (runtime_error (str "instance requires non-empty string: " ++ str key))
  end.

Definition optional_string (object : Json) (key : string) (fallback : bytes) : outcome bytes :=
  match find_member object (str key) with
  | None => Ret fallback
  | Some (JString s) => Ret s
  | Some _ => Exn (runtime_error (str "config key must be string: " ++ str key))
  end.

Definition chacha : bytes := str "chacha20-ietf-poly1305".

Section Load.
(** The file system. *)
Context (is_regular_file : bytes -> bool).

(** The ports seen so far. *)
Record Seen := mkSeen { tcp_ports : gset Z; udp_ports : gset Z }.

(** One entry of the instances array: the loop body up to [push_back]. *)
Definition load_instance (seen : Seen) (object : Json) : outcome (Seen * InstanceConfig) :=
  match object with
  | JObject _ =>
      name ← required_string object "name";
      ovpn ← required_string object "ovpn";
      host ← optional_string object "listen_host" (str "127.0.0.1");
      match find_member object (str "tcp_port") with
      | Some jtcp =>
          if negb (is_number_integer jtcp) then throw "instance requires integer tcp_port"
          else
            tcp ← (v ← get_int jtcp; checked_port v "tcp_port");
            udp ← match find_member object (str "udp_port") with
                  | Some judp => v ← get_int judp; checked_port v "udp_port"
                  | None => Ret tcp
                  end;
            meth ← optional_string object "method" chacha;
            pw ← required_string object "password";
            user ← optional_string object "vpn_username" [];
            vpw ← optional_string object "vpn_password" [];
            if negb (is_regular_file ovpn)
            then Exn (runtime_error (str "ovpn file does not exist: " ++ ovpn))
            else if decide (meth = chacha) then
              if bool_decide (tcp ∈ tcp_ports seen)
              then throw "duplicate Shadowsocks listen port for the same protocol"
              else
                let seen := mkSeen ({[tcp]} ∪ tcp_ports seen) (udp_ports seen) in
                if negb (udp =? 0) && bool_decide (udp ∈ udp_ports seen)
                then throw "duplicate Shadowsocks listen port for the same protocol"
                else
                  let seen := if udp =? 0 then seen
                              else mkSeen (tcp_ports seen) ({[udp]} ∪ udp_ports seen) in
                  Ret (seen, mkInstanceConfig name ovpn
                               (mkShadowsocksConfig host tcp udp meth pw) true user vpw)
            else throw "only chacha20-ietf-poly1305 is supported"
      | None => throw "instance requires integer tcp_port"
      end
  | _ => throw "instances entries must be objects"
  end.

(** The loop; [acc] is [config.instances]. *)
Fixpoint load_instances (seen : Seen) (items : list Json) (acc : list InstanceConfig)
  : outcome (list InstanceConfig) :=
  match items with
  | [] => Ret acc
  | object :: items =>
      '(seen, instance) ← load_instance seen object;
      load_instances seen items (acc ++ [instance])
  end.

(** [load_json_config]: [read] is the file's text, [None] when it cannot be
    opened; [parse] is [Json::parse], which may throw. *)
Definition load_json_config (read : bytes -> option bytes) (parse : bytes -> outcome Json)
    (path : bytes) : outcome ManagerConfig :=
  match read path with
  | None => Exn (runtime_error (str "cannot open config: " ++ path))
  | Some text =>
      json ← parse text;
      match find_member json (str "instances") with
      | Some (JArray []) => throw "config must contain at least one instance"
      | Some (JArray items) =>
          loaded ← load_instances (mkSeen ∅ ∅) items [];
          Ret (mkManagerConfig path loaded)
      | _ => throw "config requires instances array"
      end
  end.

End Load.
