(* ===== verification/ConfigSpec.v ===== *)
(** * What the configuration loader accepts

    The contract of [docs/configuration.md] as a relation between a document
    and a configuration, the theorem that the loader implements exactly that
    relation, and which configurations it can return. *)
From S2P Require Import Prelude Types Text Config.

(* ------------------------------------------------------------------ *)
(** ** The contract *)

(** Key [key] holds the non-empty string [v]. *)
Definition has_string (object : Json) (key : string) (v : bytes) : Prop :=
  find_member object (str key) = Some (JString v) /\ v <> [].

(** Key [key] holds the string [v], or is absent and [v] is the default. *)
Definition has_string_or (object : Json) (key : string) (fallback v : bytes) : Prop :=
  find_member object (str key) = Some (JString v) \/
  find_member object (str key) = None /\ v = fallback.

(** The documented rule for ports: an integer in 1..65535. *)
Definition denotes_port (j : Json) (p : Z) : Prop :=
  (j = JInteger p \/ j = JUnsigned p) /\ 1 <= p <= 65535.
(** What the code makes of a value: the conversion of the library, then the
    range. *)
Definition reads_port (j : Json) (p : Z) : Prop := get_int j = Ret p /\ 1 <= p <= 65535.

Definition is_object (j : Json) : Prop := exists ms, j = JObject ms.

(** An entry of the array describes the instance [i]; [port] is the rule for
    ports. *)
Record describes (port : Json -> Z -> Prop) (is_file : bytes -> bool) (object : Json) (i : InstanceConfig) : Prop := {
  d_object : is_object object;
  d_name : has_string object "name" (ic_name i);
  d_ovpn : has_string object "ovpn" (ovpn_path i);
  d_file : is_file (ovpn_path i) = true;
  d_host : has_string_or object "listen_host" (str "127.0.0.1") (listen_host (shadowsocks i));
  d_tcp : exists j, find_member object (str "tcp_port") = Some j /\ is_number_integer j = true /\
            port j (tcp_port (shadowsocks i));
  d_udp : (exists j, find_member object (str "udp_port") = Some j /\
            port j (udp_port (shadowsocks i))) \/
          find_member object (str "udp_port") = None /\
            udp_port (shadowsocks i) = tcp_port (shadowsocks i);
  d_method : has_string_or object "method" chacha chacha /\ method (shadowsocks i) = chacha;
  d_password : has_string object "password" (password (shadowsocks i));
  d_user : has_string_or object "vpn_username" [] (vpn_username i);
  d_vpnpw : has_string_or object "vpn_password" [] (vpn_password i);
  d_enabled : udp_enabled i = true
}.

Abbreviation tcp_of := (fun i => tcp_port (shadowsocks i)).
Abbreviation udp_of := (fun i => udp_port (shadowsocks i)).

(** The whole document. *)
Record describes_all (port : Json -> Z -> Prop) (is_file : bytes -> bool) (json : Json) (is' : list InstanceConfig) : Prop := {
  da_items : exists items, find_member json (str "instances") = Some (JArray items) /\
               items <> [] /\ Forall2 (describes port is_file) items is';
  da_tcp : NoDup (tcp_of <$> is');
  da_udp : NoDup (udp_of <$> is')
}.

(* ------------------------------------------------------------------ *)
(** ** The helpers implement their part of the contract *)

Lemma required_string_Ret o k v : required_string o k = Ret v <-> has_string o k v.
Proof.
  unfold required_string, has_string. destruct (find_member o (str k)) as [[]|]; try naive_solver.
  case_decide; naive_solver.
Qed.

Lemma optional_string_Ret o k d v : optional_string o k d = Ret v <-> has_string_or o k d v.
Proof.
  unfold optional_string, has_string_or. destruct (find_member o (str k)) as [[]|]; naive_solver.
Qed.

Lemma checked_port_Ret z k p : checked_port z k = Ret p <-> z = p /\ 1 <= p <= 65535.
Proof.
  unfold checked_port, u16.
  destruct (Z.leb_spec z 0), (Z.ltb_spec 65535 z); simpl;
    [split; [done|intros [-> ?]; lia]..|].
  rewrite Z.mod_small by lia. split; [intros [= <-]; lia|by intros [-> _]].
Qed.

Lemma port_Ret j k p : (v ← get_int j; checked_port v k) = Ret p <-> reads_port j p.
Proof.
  rewrite bind_Ret_inv. unfold reads_port. split.
  - intros (a & ? & [-> ?]%checked_port_Ret). done.
  - intros [? ?]. exists p. by rewrite checked_port_Ret.
Qed.

(** Where the ports of an instance go. *)
Definition see (seen : Seen) (i : InstanceConfig) : Seen :=
  mkSeen ({[tcp_of i]} ∪ tcp_ports seen) ({[udp_of i]} ∪ udp_ports seen).

Lemma load_instance_sound is_file seen o seen' i :
  load_instance is_file seen o = Ret (seen', i) ->
  describes reads_port is_file o i /\ (tcp_of i ∉ tcp_ports seen) /\ (udp_of i ∉ udp_ports seen) /\
  seen' = see seen i.
Proof.
  intros H. unfold load_instance in H. destruct o as [| | | | | | |ms]; try discriminate H.
  set (o := JObject ms) in *.
  apply bind_Ret_inv in H as (name & Hname%required_string_Ret & H).
  apply bind_Ret_inv in H as (ovpn & Hovpn%required_string_Ret & H).
  apply bind_Ret_inv in H as (hst & Hhost%optional_string_Ret & H).
  destruct (find_member o (str "tcp_port")) as [jtcp|] eqn:Etcp; [|discriminate H].
  destruct (is_number_integer jtcp) eqn:Eint; simpl negb in H; cbv iota in H; [|discriminate H].
  apply bind_Ret_inv in H as (tcp & Htcp%port_Ret & H).
  apply bind_Ret_inv in H as (udp & Hudp & H).
  apply bind_Ret_inv in H as (meth & Hmeth%optional_string_Ret & H).
  apply bind_Ret_inv in H as (pw & Hpw%required_string_Ret & H).
  apply bind_Ret_inv in H as (user & Huser%optional_string_Ret & H).
  apply bind_Ret_inv in H as (vpw & Hvpw%optional_string_Ret & H).
  assert ((exists j, find_member o (str "udp_port") = Some j /\ reads_port j udp) \/
          find_member o (str "udp_port") = None /\ udp = tcp) as Hudp'.
  { destruct (find_member o (str "udp_port")) as [j|].
    - left. exists j. split; [done|]. by apply (port_Ret j "udp_port").
    - right. by injection Hudp as <-. }
  assert (1 <= udp <= 65535) as Hrange.
  { destruct Hudp' as [(? & ? & ?)|[_ ->]]; [by destruct H1|apply Htcp]. }
  destruct (is_file ovpn) eqn:Efile; [|discriminate H]. cbn [negb] in H.
  destruct (decide (meth = chacha)) as [->|]; [|discriminate H].
  case_bool_decide as Et; [discriminate H|]. cbv zeta in H. cbn [udp_ports tcp_ports] in H.
  rewrite (proj2 (Z.eqb_neq udp 0)) in H by lia. cbn [negb andb] in H.
  case_bool_decide as Eu; [discriminate H|]. injection H as <- <-.
  split; [|by split_and!]. constructor; simpl; eauto; by eexists.
Qed.

Lemma load_instance_complete is_file seen o i :
  describes reads_port is_file o i -> (tcp_of i) ∉ tcp_ports seen -> (udp_of i) ∉ udp_ports seen ->
  load_instance is_file seen o = Ret (see seen i, i).
Proof.
  intros [[ms ->] Hn Ho Hf Hh (jt & Ht & Hint & Hpt) Hu [Hm Em] Hp Hus Hvp He] Nt Nu.
  set (o := JObject ms) in *. unfold load_instance.
  rewrite (proj2 (required_string_Ret _ _ _) Hn), (proj2 (required_string_Ret _ _ _) Ho),
    (proj2 (optional_string_Ret _ _ _ _) Hh), Ht, Hint. cbn [mbind outcome_bind negb].
  rewrite (proj2 (port_Ret _ "tcp_port" _) Hpt). cbn [mbind outcome_bind].
  replace (match find_member o (str "udp_port") with _ => _ end) with (Ret (udp_of i)).
  2:{ destruct Hu as [(j & -> & Hj)|[-> ->]]; [|done].
      by rewrite (proj2 (port_Ret _ "udp_port" _) Hj). }
  cbn [mbind outcome_bind].
  rewrite (proj2 (optional_string_Ret _ _ _ _) Hm), (proj2 (required_string_Ret _ _ _) Hp),
    (proj2 (optional_string_Ret _ _ _ _) Hus), (proj2 (optional_string_Ret _ _ _ _) Hvp).
  cbn [mbind outcome_bind]. rewrite Hf. cbn [negb].
  rewrite decide_True by done. rewrite bool_decide_false by done.
  cbv zeta. cbn [udp_ports tcp_ports].
  assert (1 <= udp_of i <= 65535) as Hr.
  { destruct Hu as [(j & _ & Hj)|[_ ->]]; [apply Hj|apply Hpt]. }
  rewrite (proj2 (Z.eqb_neq (udp_of i) 0)) by lia. cbn [negb andb].
  rewrite bool_decide_false by done. f_equal. f_equal.
  destruct i as [? ? [] ? ? ?]; simpl in *. by subst.
Qed.

(* ------------------------------------------------------------------ *)
(** ** The loop *)

Lemma load_instances_Ret is_file items : forall seen acc result,
  load_instances is_file seen items acc = Ret result <->
  exists is', result = acc ++ is' /\ Forall2 (describes reads_port is_file) items is' /\
    NoDup (tcp_of <$> is') /\ (forall i, i ∈ is' -> (tcp_of i) ∉ tcp_ports seen) /\
    NoDup (udp_of <$> is') /\ (forall i, i ∈ is' -> (udp_of i) ∉ udp_ports seen).
Proof.
  induction items as [|o items IH]; intros seen acc result; cbn [load_instances].
  - split.
    + intros [= <-]. exists []. rewrite app_nil_r.
      split_and!; try constructor; intros ? []%elem_of_nil.
    + intros (is' & -> & H & _). inversion H. by rewrite app_nil_r.
  - rewrite bind_Ret_inv. split.
    + intros ([seen' i] & (Hd & Nt & Nu & ->)%load_instance_sound & H).
      apply IH in H as (is' & -> & HF & Dt & Ft & Du & Fu). exists (i :: is').
      rewrite <- app_assoc. cbn [see tcp_ports udp_ports] in *.
      split_and!; [done|by constructor| | | | ].
      * apply NoDup_cons; split; [|done].
        intros (j & E & Hj)%list_elem_of_fmap. apply (Ft j Hj). set_solver.
      * intros j [->|Hj]%elem_of_cons; [done|]. specialize (Ft j Hj). set_solver.
      * apply NoDup_cons; split; [|done].
        intros (j & E & Hj)%list_elem_of_fmap. apply (Fu j Hj). set_solver.
      * intros j [->|Hj]%elem_of_cons; [done|]. specialize (Fu j Hj). set_solver.
    + intros (is' & -> & HF & Dt & Ft & Du & Fu).
      inversion HF as [|? i ? is'' Hd HF']; subst. exists (see seen i, i).
      split; [apply load_instance_complete; auto; apply Ft || apply Fu; set_solver|].
      apply IH. exists is''. rewrite <- app_assoc. split; [done|].
      cbn [fmap list_fmap] in Dt, Du. apply NoDup_cons in Dt as [Nt Dt], Du as [Nu Du].
      cbn [see tcp_ports udp_ports].
      split_and!; [done|done| |done| ]; intros j Hj Hin.
      * apply elem_of_union in Hin as [E%elem_of_singleton|Hin].
        -- apply Nt. apply list_elem_of_fmap. eauto.
        -- apply (Ft j); [set_solver|done].
      * apply elem_of_union in Hin as [E%elem_of_singleton|Hin].
        -- apply Nu. apply list_elem_of_fmap. eauto.
        -- apply (Fu j); [set_solver|done].
Qed.

(** Opening, parsing and the shape of the document. *)
Lemma load_json_config_Ret is_file read parse path cfg :
  load_json_config is_file read parse path = Ret cfg <->
  json_path cfg = path /\
  exists text json, read path = Some text /\ parse text = Ret json /\
    describes_all reads_port is_file json (instances cfg).
Proof.
  unfold load_json_config. split.
  - destruct (read path) as [text|] eqn:Er; [|done].
    intros (json & Ep & H)%bind_Ret_inv.
    destruct (find_member json (str "instances")) as [[]|] eqn:Ei; try discriminate H.
    destruct items as [|o items]; [discriminate H|].
    apply bind_Ret_inv in H as (is' & H & [= <-]).
    apply load_instances_Ret in H as (? & -> & HF & Dt & _ & Du & _). split; [done|].
    exists text, json. split_and!; [done..|]. by constructor; [eexists|..].
  - intros [<- (text & json & -> & -> & [(items & Hi & Hne & HF) Dt Du])]. cbn [mbind outcome_bind].
    rewrite Hi. destruct items as [|o items]; [done|].
    apply bind_Ret_inv. exists (instances cfg). split; [|by destruct cfg].
    apply load_instances_Ret. exists (instances cfg).
    split_and!; [done..| |done| ]; intros ? _; apply not_elem_of_empty.
Qed.

(* ------------------------------------------------------------------ *)
(** ** Rendering a configuration *)

Record wf_instance (is_file : bytes -> bool) (i : InstanceConfig) : Prop := {
  wf_name : ic_name i <> [];
  wf_path : ovpn_path i <> [] /\ is_file (ovpn_path i) = true;
  wf_tcp : 1 <= tcp_of i <= 65535;
  wf_udp : 1 <= udp_of i <= 65535;
  wf_method : method (shadowsocks i) = chacha;
  wf_password : password (shadowsocks i) <> [];
  wf_enabled : udp_enabled i = true
}.

(** An entry that spells every key, the port values given. *)
Definition render_instance (jtcp judp : Json) (i : InstanceConfig) : Json :=
  JObject [(str "name", JString (ic_name i)); (str "ovpn", JString (ovpn_path i));
    (str "listen_host", JString (listen_host (shadowsocks i)));
    (str "tcp_port", jtcp); (str "udp_port", judp);
    (str "method", JString (method (shadowsocks i)));
    (str "password", JString (password (shadowsocks i)));
    (str "vpn_username", JString (vpn_username i));
    (str "vpn_password", JString (vpn_password i))].

Definition render_document (items : list Json) : Json :=
  JObject [(str "instances", JArray items)].

Definition render (is' : list InstanceConfig) : Json :=
  render_document ((fun i => render_instance (JUnsigned (tcp_of i)) (JUnsigned (udp_of i)) i) <$> is').

Lemma int32_port k p : 1 <= p <= 65535 -> int32 (p + k * 2 ^ 32) = p.
Proof.
  intros. unfold int32. replace (p + k * 2 ^ 32 + 2 ^ 31) with (p + 2 ^ 31 + k * 2 ^ 32) by lia.
  rewrite Z.mod_add by lia. rewrite Z.mod_small by lia. lia.
Qed.

Lemma render_instance_describes reads_port is_file jtcp judp i :
  wf_instance is_file i -> is_number_integer jtcp = true ->
  reads_port jtcp (tcp_of i) -> reads_port judp (udp_of i) ->
  describes reads_port is_file (render_instance jtcp judp i) i.
Proof.
  intros [Hn [Hp Hf] Ht Hu Hm Hpw He] Hint Dt Du.
  constructor; try done; unfold has_string, has_string_or; cbn; rewrite ?Hm; eauto.
  by eexists.
Qed.

Lemma reads_wrapped k p : 1 <= p <= 65535 -> reads_port (JUnsigned (p + k * 2 ^ 32)) p.
Proof. intros H. split; [|done]. cbn [get_int]. by rewrite int32_port. Qed.

Lemma reads_unsigned p : 1 <= p <= 65535 -> reads_port (JUnsigned p) p.
Proof. intros H. pose proof (reads_wrapped 0 p H) as E. by rewrite Z.add_0_r in E. Qed.

Lemma describes_wf is_file o i : describes reads_port is_file o i -> wf_instance is_file i.
Proof.
  intros [_ Hn Ho Hf _ (jt & _ & _ & _ & Ht) Hu [_ Hm] Hp _ _ He]. unfold has_string in *.
  constructor; try naive_solver. destruct Hu as [(j & _ & _ & Hj)|[_ E]]; [done|]. cbn. by rewrite E.
Qed.

(** The two rules agree on values that are an [int] or that both refuse. *)
Definition int_valued (j : Json) : Prop :=
  match j with
  | JInteger z | JUnsigned z => - 2 ^ 31 <= z < 2 ^ 31
  | JBool _ | JFloat _ => False
  | _ => True
  end.
Definition in_instances (json object : Json) : Prop :=
  exists items, find_member json (str "instances") = Some (JArray items) /\ object ∈ items.
(** Every [tcp_port] that is an integer fits in an [int], and every [udp_port]
    is such an integer or no number at all. *)
Definition int_ports (json : Json) : Prop := forall object j, in_instances json object ->
  (find_member object (str "tcp_port") = Some j -> is_number_integer j = true -> int_valued j) /\
  (find_member object (str "udp_port") = Some j -> int_valued j).

Lemma denotes_reads j p : denotes_port j p -> reads_port j p.
Proof.
  intros [Hj Hp]. split; [|done]. pose proof (int32_port 0 p Hp) as E. rewrite Z.add_0_r in E.
  destruct Hj as [-> | ->]; cbn [get_int]; by rewrite E.
Qed.
Lemma reads_denotes j p : int_valued j -> reads_port j p -> denotes_port j p.
Proof.
  intros Hj [E Hp]. split; [|done].
  destruct j as [|?|z|z|?|?|?|?]; try done; cbn [get_int] in E; injection E as <-; cbn [int_valued] in Hj; [left|right];
    f_equal; unfold int32; rewrite Z.mod_small by lia; lia.
Qed.

(** Another rule for ports that admits the document's. *)
Lemma describes_all_port (P Q : Json -> Z -> Prop) is_file json is' :
  describes_all P is_file json is' ->
  (forall object j p, in_instances json object -> find_member object (str "tcp_port") = Some j ->
     is_number_integer j = true -> P j p -> Q j p) ->
  (forall object j p, in_instances json object -> find_member object (str "udp_port") = Some j -> P j p -> Q j p) ->
  describes_all Q is_file json is'.
Proof.
  intros [(items & Hi & Hne & HF) Dt Du] Ht Hu. constructor; [|done..]. exists items. split_and!; [done..|].
  apply Forall2_same_length_lookup in HF as [Hlen HF]. apply Forall2_same_length_lookup. split; [done|].
  intros k o i Ho Hk. destruct (HF k o i Ho Hk) as [H1 H2 H3 H4 H5 (j & Hj1 & Hj2 & Hj3) H6 H7 H8 H9 H10 H11].
  assert (in_instances json o) as Hin by (exists items; split; [done|by eapply list_elem_of_lookup_2]).
  constructor; try done; [by exists j; eauto|]. destruct H6 as [(j' & ? & ?)|?]; [left; exists j'; eauto|by right].
Qed.

(** A well-formed configuration, written out, is loaded. *)
Lemma rendered_loads is_file read parse path text cfg :
  instances cfg <> [] -> Forall (wf_instance is_file) (instances cfg) ->
  NoDup (tcp_of <$> instances cfg) -> NoDup (udp_of <$> instances cfg) ->
  json_path cfg = path -> read path = Some text -> parse text = Ret (render (instances cfg)) ->
  load_json_config is_file read parse path = Ret cfg.
Proof.
  intros Hne Hwf Dt Du Hp Hr Hparse. apply load_json_config_Ret. split; [done|].
  exists text, (render (instances cfg)). split_and!; [done..|]. constructor; [|done..].
  eexists. split; [done|]. split; [by destruct (instances cfg)|].
  apply Forall2_fmap_l, Forall_Forall2_diag. eapply Forall_impl; [exact Hwf|].
  intros i Hi. apply render_instance_describes; [done..| |]; apply reads_unsigned; apply Hi.
Qed.

(* ------------------------------------------------------------------ *)
(** ** Properties *)

(** C28.  The loader implements the contract of the documentation: an array of
    at least one entry, each entry an object with a non-empty name, an existing
    .ovpn file, a non-empty password, the one supported method, ports that are
    JSON integers in 1..65535, absent optional keys replaced by their defaults,
    entries in order, and no TCP port and no UDP port used twice.  When the
    file opens, parses and describes a configuration in this sense, it is
    returned; and every other document is refused, provided that integers given
    as ports fit in an [int] and no [udp_port] is a boolean or has a fraction
    (what the code makes of those is [port_range_check_wraps] and
    [udp_port_not_an_integer]). *)
Theorem load_json_config_contract is_file read parse path cfg :
  ((json_path cfg = path /\
    exists text json, read path = Some text /\ parse text = Ret json /\
      describes_all denotes_port is_file json (instances cfg)) ->
   load_json_config is_file read parse path = Ret cfg) /\
  ((forall text json, read path = Some text -> parse text = Ret json -> int_ports json) ->
   load_json_config is_file read parse path = Ret cfg ->
   json_path cfg = path /\
   exists text json, read path = Some text /\ parse text = Ret json /\
     describes_all denotes_port is_file json (instances cfg)).
Proof.
  rewrite load_json_config_Ret. split.
  - intros [Hp (text & json & Hr & Hj & Hd)]. split; [done|]. exists text, json. split_and!; [done..|].
    eapply describes_all_port; [exact Hd| |]; intros; by apply denotes_reads.
  - intros Hint [Hp (text & json & Hr & Hj & Hd)]. split; [done|]. exists text, json. split_and!; [done..|].
    specialize (Hint text json Hr Hj). eapply describes_all_port; [exact Hd| |]; intros object j p0 Hi Hf.
    + intros Hnum Hpt. apply reads_denotes; [|done]. destruct (Hint object j Hi) as [Ht _]. specialize (Ht Hf).
      destruct j; try done; by apply Ht.
    + intros Hpt. apply reads_denotes; [|done]. destruct (Hint object j Hi) as [_ Hu]. by apply Hu.
Qed.

(** C29.  The configurations the loader can return are exactly the well-formed
    ones: at least one instance, each with a name, an existing profile, a
    password, the supported method and ports in 1..65535, and every port of
    a protocol used once.  The rest of the program runs on nothing else. *)
Theorem loaded_configs is_file path cfg :
  (exists read parse, load_json_config is_file read parse path = Ret cfg) <->
  json_path cfg = path /\ instances cfg <> [] /\ Forall (wf_instance is_file) (instances cfg) /\
  NoDup (tcp_of <$> instances cfg) /\ NoDup (udp_of <$> instances cfg).
Proof.
  split.
  - intros (read & parse & (Hp & text & json & _ & _ & [(items & _ & Hne & HF) Dt Du])%load_json_config_Ret).
    split_and!; [done| | |done..].
    + intros E. rewrite E in HF. by apply Forall2_nil_inv_r in HF.
    + clear Hne Dt Du. induction HF; constructor; [by eapply describes_wf|done].
  - intros (Hp & Hne & Hwf & Dt & Du). exists (fun _ => Some []), (fun _ => Ret (render (instances cfg))).
    by apply (rendered_loads _ _ _ _ []).
Qed.

(** The range check on ports is made after [get<int>()] has dropped the
    high bits: an integer [p + k * 2^32] is accepted as port [p] for TCP and
    for UDP, although it is outside 1..65535. *)
Theorem port_range_check_wraps is_file read parse path text i kt ku :
  wf_instance is_file i -> read path = Some text ->
  parse text = Ret (render_document
    [render_instance (JUnsigned (tcp_of i + kt * 2 ^ 32)) (JUnsigned (udp_of i + ku * 2 ^ 32)) i]) ->
  load_json_config is_file read parse path = Ret (mkManagerConfig path [i]).
Proof.
  intros Hwf Hr Hparse. apply load_json_config_Ret. split; [done|].
  eexists text, _. split_and!; [done..|]. constructor; [|apply NoDup_singleton..].
  eexists. split; [done|]. split; [done|]. constructor; [|constructor].
  apply render_instance_describes; [done..| |]; apply reads_wrapped; apply Hwf.
Qed.

(** [udp_port] is not required to be an integer: the value [true] is
    accepted as port 1, a number with a fraction is truncated to its port. *)
Theorem udp_port_not_an_integer is_file read parse path text i j :
  wf_instance is_file i -> read path = Some text ->
  j = JBool true /\ udp_of i = 1 \/ j = JFloat (udp_of i) ->
  parse text = Ret (render_document [render_instance (JUnsigned (tcp_of i)) j i]) ->
  load_json_config is_file read parse path = Ret (mkManagerConfig path [i]).
Proof.
  intros Hwf Hr Hj Hparse. apply load_json_config_Ret. split; [done|].
  eexists text, _. split_and!; [done..|]. constructor; [|apply NoDup_singleton..].
  eexists. split; [done|]. split; [done|]. constructor; [|constructor].
  apply render_instance_describes; [done..|apply reads_unsigned; apply Hwf|].
  pose proof (wf_udp _ _ Hwf) as Hu. unfold reads_port. cbv beta in *.
  destruct Hj as [[-> E]| ->]; cbn [get_int]; [by rewrite E|].
  by rewrite (proj2 (Z.leb_le _ _)), (proj2 (Z.ltb_lt _ _)) by lia.
Qed.

(** ** Witnesses *)

Definition demo (tcp udp : Z) : InstanceConfig :=
  mkInstanceConfig (str "jp") (str "jp.ovpn")
    (mkShadowsocksConfig (str "0.0.0.0") tcp udp chacha (str "secret")) true (str "vpn") (str "vpn").

Lemma demo_wf tcp udp :
  1 <= tcp <= 65535 -> 1 <= udp <= 65535 -> wf_instance (fun _ => true) (demo tcp udp).
Proof. by constructor. Qed.

(** A document of one entry, and one with port 0. *)
Definition demo_document (udp : Z) : Json :=
  render_document [render_instance (JUnsigned 80) (JUnsigned udp) (demo 80 udp)].

Lemma demo_int_ports udp : - 2 ^ 31 <= udp < 2 ^ 31 -> int_ports (demo_document udp).
Proof.
  intros Hu object j (items & Hi & Ho). injection Hi as <-. apply list_elem_of_singleton in Ho as ->.
  split; [intros Hj _|intros Hj]; injection Hj as <-; cbn; lia.
Qed.

Lemma load_json_config_contract_witness :
  load_json_config (fun _ => true) (fun _ => Some []) (fun _ => Ret (demo_document 53)) (str "c.json")
    = Ret (mkManagerConfig (str "c.json") [demo 80 53]) /\
  forall cfg, load_json_config (fun _ => true) (fun _ => Some []) (fun _ => Ret (demo_document 0)) (str "c.json") <> Ret cfg.
Proof.
  split.
  - apply load_json_config_contract. split; [done|]. exists [], (demo_document 53). split_and!; [done..|].
    constructor; [|apply NoDup_singleton..]. eexists. split; [done|]. split; [done|]. constructor; [|constructor].
    apply render_instance_describes; [by apply demo_wf|done|split; [by right|done]..].
  - intros cfg Hl. apply load_json_config_contract in Hl as (_ & text & json & _ & [= <-] & [(items & Hi & _ & HF) _ _]).
    + injection Hi as <-. apply Forall2_cons_inv_l in HF as (i & is' & [_ _ _ _ _ _ Hu _ _ _ _ _] & _ & _).
      destruct Hu as [(j & Hj & [Hz Hp])|[[=] _]]. injection Hj as <-. destruct Hz as [[=]|Hz]. injection Hz as Hz. lia.
    + intros ? ? _ [= <-]. by apply demo_int_ports.
Defined.

Lemma port_range_check_wraps_witness :
  load_json_config (fun _ => true) (fun _ => Some [])
    (fun _ => Ret (render_document
      [render_instance (JUnsigned 4294967376) (JUnsigned 4294967349) (demo 80 53)])) (str "c.json")
  = Ret (mkManagerConfig (str "c.json") [demo 80 53]).
Proof. apply (port_range_check_wraps _ _ _ _ [] (demo 80 53) 1 1); [by apply demo_wf|done|done]. Defined.

Lemma udp_port_not_an_integer_witness :
  load_json_config (fun _ => true) (fun _ => Some [])
    (fun _ => Ret (render_document [render_instance (JUnsigned 80) (JBool true) (demo 80 1)])) (str "c.json")
  = Ret (mkManagerConfig (str "c.json") [demo 80 1]).
Proof.
  apply (udp_port_not_an_integer _ _ _ _ [] (demo 80 1) (JBool true));
    [by apply demo_wf|done|by left|done].
Defined.
