(* ===== verification/Runtime.v ===== *)
(** * The lwIP runtime

    [src/LwipRuntime.cpp] without its DNS codec: the network interface and its
    configuration, the packet paths between lwIP and OpenVPN, and the table of
    outstanding name resolutions.

    A query object is shared: the table owns it, [async_resolve] owns it while
    it runs, and lwIP holds a raw pointer to it as the argument of the receive
    callback.  Query objects are in a heap; an access to one that has been
    freed is [Ub].  The caller's handler is a number, and [posted] is the list
    of handler calls handed to the event loop. *)
From S2P Require Import Prelude Types Text Lwip Dns.

(** [ip_2_ip4] and [ip_2_ip6]: views of the union in [ip_addr_t]. *)
Definition ip_2_ip4 (ip : ip_addr_t) : Z := match ip with IP4 a => a | IP6 a _ _ _ => a end.
Definition ip_2_ip6 (ip : ip_addr_t) : Z * Z * Z * Z :=
  match ip with IP4 a => (a, 0, 0, 0) | IP6 a b c d => (a, b, c, d) end.

(** [prefix_to_netmask]; the result is a stored word. *)
Definition prefix_to_netmask (prefix : Z) : outcome Z :=
  if (prefix <? 0) || (32 <? prefix) then throw "invalid IPv4 prefix length"
  else
    let mask := if prefix =? 0 then 0 else Z.shiftl 0xffffffff (32 - prefix) mod 2 ^ 32 in
    Ret (lwip_htonl mask).

(** The fields of [netif] the program sets. *)
Record Netif := mkNetif {
  n_ip4 : Z;
  n_netmask : Z;
  n_gw : Z;
  n_ip6 : option (Z * Z * Z * Z);
  n_mtu : Z
}.
#[export] Instance Netif_eta : Eta Netif := fun n =>
  mkNetif (n_ip4 n) (n_netmask n) (n_gw n) (n_ip6 n) (n_mtu n).

Section Runtime.
Context `{!IpText, !UdpNet}.

(** [parse_ip_addr]: both branches call [ipaddr_aton], whatever the flag. *)
Definition parse_ip_addr (text : bytes) (ipv6 : bool) : outcome ip_addr_t :=
  match ipaddr_aton (c_str text) with
  | Some ip => Ret ip
  | None => Exn (runtime_error (str "invalid IP address: " ++ text))
  end.

(* ------------------------------------------------------------------ *)
(** ** State *)

(** [DnsQuery]; [q_timer]: a wait is outstanding, with the token it captured. *)
Record DnsQuery := mkDnsQuery {
  q_pcb : option upcb;
  q_id : Z;
  q_qtype : Z;
  q_handler : nat;
  q_timer : option nat
}.
#[export] Instance DnsQuery_eta : Eta DnsQuery := fun q =>
  mkDnsQuery (q_pcb q) (q_id q) (q_qtype q) (q_handler q) (q_timer q).

(** [packet_output_] is empty or sends to the tun builder; the lifetime token
    is the number of the current one and whether it holds. *)
Record LwipRuntime := mkLwipRuntime {
  netif_ : Netif;
  active_config_ : TunConfig;
  packet_output_ : bool;
  dns_queries_ : gmap Z nat;
  token_ : nat;
  token_holds_ : bool;
  rt_running_ : bool;
  timer_ : bool                            (* the 10 ms wait is outstanding *)
}.
#[export] Instance LwipRuntime_eta : Eta LwipRuntime := fun r =>
  mkLwipRuntime (netif_ r) (active_config_ r) (packet_output_ r) (dns_queries_ r) (token_ r)
    (token_holds_ r) (rt_running_ r) (timer_ r).

Inductive rcall :=
| RNew (r : option upcb) | RRecv (u : upcb) (q : nat) | RRemove (u : upcb)
| RSend (u : upcb) (data : bytes) (ip : ip_addr_t) (port : Z) (err : Z)
| RPoll                                   (* sys_check_timeouts *)
| RInput (packet : bytes)                 (* a packet handed to lwIP *)
| ROutput (packet : bytes).               (* a packet handed to the tun builder *)

Record RtWorld := mkRtWorld {
  rt : LwipRuntime;
  queries : gmap nat DnsQuery;             (* the query objects that exist *)
  qnext : nat;
  next_id : Z;                             (* the static counter *)
  timeouts : list (Z * nat);               (* expired timers, handler not yet run *)
  qcallbacks : gmap upcb nat;
  posted : list (nat * Z * option ip_addr_t);
  injected : list (bytes * nat);           (* posted packets and their token *)
  rlwip : unet;
  rcalls : list rcall
}.
#[export] Instance RtWorld_eta : Eta RtWorld := fun w =>
  mkRtWorld (rt w) (queries w) (qnext w) (next_id w) (timeouts w) (qcallbacks w) (posted w)
    (injected w) (rlwip w) (rcalls w).

Definition rlog (c : rcall) : M RtWorld unit := modify (fun w => w.[rcalls := rcalls w ++ [c]]).
Definition rstack {A} (f : unet -> A * unet) : M RtWorld A := fun w =>
  let '(a, n) := f (rlwip w) in (w.[rlwip := n], Ret a).
Definition set_rt (f : LwipRuntime -> LwipRuntime) : M RtWorld unit :=
  modify (fun w => w.[rt := f (rt w)]).
Definition post (h : nat) (err : Z) (ip : option ip_addr_t) : M RtWorld unit :=
  modify (fun w => w.[posted := posted w ++ [(h, err, ip)]]).
Definition set_query (q : nat) (f : DnsQuery -> DnsQuery) : M RtWorld unit := fun w =>
  match queries w !! q with
  | Some x => (w.[queries := <[q := f x]> (queries w)], Ret tt)
  | None => (w, Ub)
  end.

(* ------------------------------------------------------------------ *)
(** ** The interface *)

(** One address of [apply_tun_config_locked]. *)
Definition apply_address (address : TunAddress) : M RtWorld unit :=
  if ta_ipv6 address then
    ip ← lift (parse_ip_addr (ta_address address) true);
    set_rt (fun r => r.[netif_ := (netif_ r).[n_ip6 := Some (ip_2_ip6 ip)]])
  else
    ip ← lift (parse_ip_addr (ta_address address) false);
    mask ← lift (prefix_to_netmask (prefix_length address));
    gw ← (if decide (ta_gateway address = []) then mret 0
          else gateway ← lift (parse_ip_addr (ta_gateway address) false); mret (ip_2_ip4 gateway));
    set_rt (fun r => r.[netif_ := (netif_ r).[n_ip4 := ip_2_ip4 ip].[n_netmask := mask].[n_gw := gw]]).

Fixpoint apply_addresses (l : list TunAddress) : M RtWorld unit :=
  match l with
  | [] => mret tt
  | a :: l => _ ← apply_address a; apply_addresses l
  end.

(** [apply_tun_config_locked] *)
Definition apply_tun_config (config : TunConfig) : M RtWorld unit :=
  _ ← set_rt (fun r => r.[active_config_ := config]);
  _ ← set_rt (fun r => r.[netif_ := (netif_ r).[n_mtu :=
        u16 (if 0 <? mtu config then mtu config else 1500)]]);
  apply_addresses (addresses config).

(** [apply_tun_config_and_output] *)
Definition apply_tun_config_and_output (config : TunConfig) : M RtWorld unit :=
  _ ← apply_tun_config config;
  set_rt (fun r => r.[packet_output_ := true]).

(** [set_packet_output] *)
Definition set_packet_output (output : bool) : M RtWorld unit :=
  set_rt (fun r => r.[packet_output_ := output]).

(* ------------------------------------------------------------------ *)
(** ** Packets *)

(** [inject_l3_packet]; the pbuf has the 16-bit length of the cast. *)
Definition inject_l3_packet (packet : bytes) : M RtWorld unit :=
  if decide (packet = []) then mret tt
  else
    let len := u16 (Z.of_nat (length packet)) in
    ok ← rstack (pbuf_alloc len);
    if (ok : bool) then rlog (RInput (take (Z.to_nat len) packet)) else mret tt.

(** [post_inject_l3_packet]: the packet is copied and waits with the token. *)
Definition post_inject_l3_packet (packet : bytes) : M RtWorld unit :=
  if decide (packet = []) then mret tt
  else modify (fun w => w.[injected := injected w ++ [(packet, token_ (rt w))]]).

(** The posted function. *)
Definition run_injected (packet : bytes) (token : nat) : M RtWorld unit :=
  w ← get;
  if bool_decide (token = token_ (rt w)) && token_holds_ (rt w) && rt_running_ (rt w)
  then inject_l3_packet packet
  else mret tt.

(** [emit_packet]: what lwIP sends goes to the output. *)
Definition emit_packet (packet : bytes) : M RtWorld Z :=
  w ← get;
  if packet_output_ (rt w) then _ ← rlog (ROutput packet); mret ERR_OK
  else mret ERR_RTE.

(** The three functions that lwIP calls; the next hop that it gives to the
    last two is not used. *)
Definition linkoutput (p : bytes) : M RtWorld Z := emit_packet p.
Definition output_ipv4 (p : bytes) (next_hop : ip_addr_t) : M RtWorld Z := emit_packet p.
Definition output_ipv6 (p : bytes) (next_hop : ip_addr_t) : M RtWorld Z := emit_packet p.

(* ------------------------------------------------------------------ *)
(** ** Name resolution *)

(** [dns_server] *)
Definition dns_server (r : LwipRuntime) : outcome (option ip_addr_t) :=
  match ipv4_dns (active_config_ r), ipv6_dns (active_config_ r) with
  | d :: _, _ => ip ← parse_ip_addr d false; Ret (Some ip)
  | [], d :: _ => ip ← parse_ip_addr d true; Ret (Some ip)
  | [], [] => Ret None
  end.

(** [udp_recv(pcb, nullptr, nullptr); udp_remove(pcb); pcb = nullptr;] *)
Definition drop_query_pcb (q : nat) : M RtWorld unit := fun w =>
  match queries w !! q with
  | None => (w, Ub)
  | Some x =>
      match q_pcb x with
      | None => (w, Ret tt)
      | Some u =>
          (w.[rlwip := udp_remove u (udp_recv u false (rlwip w))].[rcalls := rcalls w ++ [RRemove u]]
            .[qcallbacks := delete u (qcallbacks w)]
            .[queries := <[q := x.[q_pcb := None]]> (queries w)], Ret tt)
      end
  end.

(** [complete_dns_query]: the query leaves the table, its timer is cancelled
    and its pcb removed; the posted function, which keeps the object until it
    has called the handler, does nothing else with it. *)
Definition complete_dns_query (id : Z) (err : Z) (ip : option ip_addr_t) : M RtWorld unit :=
  w ← get;
  match dns_queries_ (rt w) !! id with
  | None => mret tt
  | Some q =>
      _ ← set_rt (fun r => r.[dns_queries_ := delete id (dns_queries_ r)]);
      _ ← set_query q (fun x => x.[q_timer := None]);
      _ ← drop_query_pcb q;
      w ← get;
      match queries w !! q with
      | None => lift Ub
      | Some x =>
          _ ← modify (fun w => w.[queries := delete q (queries w)]);
          post (q_handler x) err ip
      end
  end.

(** The end of [async_resolve]'s own [shared_ptr]: the object stays while the
    table has it. *)
Definition release_query (q : nat) : M RtWorld unit := modify (fun w =>
  if bool_decide (map_Exists (fun _ q' => q' = q) (dns_queries_ (rt w))) then w
  else w.[queries := delete q (queries w)]).

(** [try]-[finally] for that [shared_ptr]. *)
Definition finally (m : M RtWorld unit) (f : M RtWorld unit) : M RtWorld unit := fun w =>
  match m w with
  | (w', Ub) => (w', Ub)
  | (w', r) => let '(w'', r') := f w' in (w'', _ ← r'; r)
  end.

(** Sending the query: [send_error]. *)
Definition send_dns_query (u : upcb) (id : Z) (h : bytes) (qtype : Z) (server : ip_addr_t)
  : M RtWorld Z :=
  packet ← lift (make_dns_query id h qtype);
  let len := u16 (Z.of_nat (length packet)) in
  ok ← rstack (pbuf_alloc len);
  if (ok : bool) then
    let data := take (Z.to_nat len) packet in
    err ← rstack (udp_sendto u data server DnsPort);
    _ ← rlog (RSend u data server DnsPort err);
    mret err
  else mret ERR_MEM.

(** The query's pcb gets its callback, and the query its place in the table:
    [emplace] does nothing when the id is taken. *)
Definition register_query (u : upcb) (q : nat) (id : Z) : M RtWorld unit :=
  _ ← rstack (fun n => (tt, udp_recv u true n));
  _ ← rlog (RRecv u q);
  _ ← modify (fun w => w.[qcallbacks := <[u := q]> (qcallbacks w)]);
  set_rt (fun r => match dns_queries_ r !! id with
                   | Some _ => r
                   | None => r.[dns_queries_ := <[id := q]> (dns_queries_ r)]
                   end).

(** The second half of [async_resolve], for a query that has its pcb. *)
Definition issue_query (u : upcb) (q : nat) (id : Z) (h : bytes) (qtype : Z) (server : ip_addr_t)
  : M RtWorld unit :=
  _ ← register_query u q id;
  send_error ← send_dns_query u id h qtype server;
  if decide (send_error = ERR_OK)
  then w ← get; set_query q (fun x => x.[q_timer := Some (token_ (rt w))])
  else complete_dns_query id send_error None.

(** [async_resolve] *)
Definition async_resolve (h : bytes) (handler : nat) : M RtWorld unit :=
  _ ← set_rt (fun r => if token_holds_ r then r
                       else r.[token_ := S (token_ r)].[token_holds_ := true]);
  match ipaddr_aton (c_str h) with
  | Some literal => post handler ERR_OK (Some literal)
  | None =>
      w ← get;
      server ← lift (dns_server (rt w));
      match server with
      | None => post handler ERR_RTE None
      | Some server =>
          let id := u16 (next_id w) in
          _ ← modify (fun w => w.[next_id := (next_id w + 1) mod 2 ^ 32]);
          let qtype := if IP_IS_V6 server then DnsTypeAaaa else DnsTypeA in
          r ← rstack udp_new;
          _ ← rlog (RNew r);
          match r with
          | None => post handler ERR_MEM None
          | Some u =>
              let q := qnext w in
              _ ← modify (fun w => w.[qnext := S q]
                    .[queries := <[q := mkDnsQuery (Some u) id qtype handler None]> (queries w)]);
              finally (issue_query u q id h qtype server)
                (release_query q)
          end
      end
  end.

(** [dns_recv]: [arg] is the pointer lwIP was given. *)
Definition dns_recv (arg : nat) (packet : bytes) : M RtWorld unit :=
  w ← get;
  match queries w !! arg with
  | None => lift Ub
  | Some x =>
      ip ← lift (parse_dns_response packet (q_id x) (q_qtype x));
      complete_dns_query (q_id x) (match ip with Some _ => ERR_OK | None => ERR_VAL end) ip
  end.

(** The timer's handler, for a timer that expired. *)
Definition timeout_handler (id : Z) (token : nat) : M RtWorld unit :=
  w ← get;
  if bool_decide (token = token_ (rt w)) && token_holds_ (rt w)
  then complete_dns_query id ERR_TIMEOUT None
  else mret tt.

(** [arm_timer], [poll_timeouts], and the handler of the wait. *)
Definition arm_timer : M RtWorld unit := set_rt (fun r => r.[timer_ := true]).
Definition poll_timeouts : M RtWorld unit := rlog RPoll.
Definition tick_handler (aborted : bool) : M RtWorld unit :=
  w ← get;
  if aborted || negb (rt_running_ (rt w)) then mret tt
  else _ ← poll_timeouts; arm_timer.

(** [start] *)
Definition start_runtime : M RtWorld unit :=
  w ← get;
  if rt_running_ (rt w) then mret tt
  else _ ← set_rt (fun r => r.[rt_running_ := true]); arm_timer.

(** [stop]; the handlers of the queries are dropped. *)
Definition stop_runtime : M RtWorld unit :=
  _ ← set_rt (fun r => r.[rt_running_ := false].[token_holds_ := false].[timer_ := false]);
  w ← get;
  let qs := snd <$> map_to_list (dns_queries_ (rt w)) in
  _ ← set_rt (fun r => r.[dns_queries_ := ∅]);
  _ ← each (fun q => _ ← set_query q (fun x => x.[q_timer := None]); drop_query_pcb q) qs;
  each (fun q => modify (fun w => w.[queries := delete q (queries w)])) qs.

(** The constructor: [netif_add] clears the interface and calls [netif_init]. *)
Definition netif_init (n : Netif) : Netif := n.[n_mtu := 1500].
Definition new_runtime (id : Z) (n : unet) : RtWorld :=
  mkRtWorld (mkLwipRuntime (netif_init (mkNetif 0 0 0 None 0)) default_TunConfig false ∅ 0 true false false)
    ∅ 0 id [] ∅ [] [] n [].

End Runtime.
