(* ===== verification/RuntimeFacts.v ===== *)
(** * The resolver's table

    The invariant of the outstanding queries, their pcbs and callbacks, and
    what each operation does to it. *)
From S2P Require Import Prelude Types Text Lwip Dns DnsFacts Runtime.

Section Facts.
Context `{!IpText, !UdpNet, !UdpNetLaws}.
Implicit Types (w : RtWorld) (x : DnsQuery) (u : upcb) (q : nat).

(** The pcbs a log has made and not removed. *)
Definition ropen_step (o : gset upcb) (c : rcall) : gset upcb :=
  match c with
  | RNew (Some u) => {[u]} ∪ o
  | RRemove u => o ∖ {[u]}
  | _ => o
  end.
Definition ropen (l : list rcall) : gset upcb := fold_left ropen_step l ∅.
#[global] Arguments ropen : simpl never.

Lemma ropen_snoc l c : ropen (l ++ [c]) = ropen_step (ropen l) c.
Proof. unfold ropen. by rewrite fold_left_app. Qed.

(** Every query object is in the table under its id, has a pcb, and that pcb's
    callback points at it; a timer that waits has the current token. *)
Record RInv w : Prop := {
  ri_table id q : dns_queries_ (rt w) !! id = Some q <->
                  exists x, queries w !! q = Some x /\ q_id x = id;
  ri_next q : is_Some (queries w !! q) -> (q < qnext w)%nat;
  ri_cb u q : qcallbacks w !! u = Some q <-> exists x, queries w !! q = Some x /\ q_pcb x = Some u;
  ri_pcb q x : queries w !! q = Some x -> is_Some (q_pcb x);
  ri_live u : is_Some (qcallbacks w !! u) -> u ∈ live (rlwip w);
  ri_log : ropen (rcalls w) = dom (qcallbacks w);
  ri_timer q x t : queries w !! q = Some x -> q_timer x = Some t ->
                   t = token_ (rt w) /\ token_holds_ (rt w) = true
}.

(** What the table's operations leave alone. *)
Definition still w :=
  (netif_ (rt w), active_config_ (rt w), packet_output_ (rt w), rt_running_ (rt w), timer_ (rt w),
   injected w).

(** The pcbs of others stay in use. *)
Definition rforeign w : gset upcb := live (rlwip w) ∖ dom (qcallbacks w).
Definition rspares w w' : Prop := rforeign w ⊆ rforeign w'.
#[export] Instance rspares_preorder : PreOrder rspares.
Proof. split; [intros w|intros w1 w2 w3]; unfold rspares; set_solver. Qed.

(** It is enough that no query has got a pcb that was in use. *)
Lemma rspares_queries w w' :
  RInv w -> RInv w' -> rforeign w ⊆ live (rlwip w') ->
  (forall q x u, queries w' !! q = Some x -> q_pcb x = Some u -> u ∈ live (rlwip w) ->
     exists y, queries w !! q = Some y /\ q_pcb y = Some u) ->
  rspares w w'.
Proof.
  intros Hi Hi' Hl Hq u Hu. unfold rforeign. apply elem_of_difference. split; [by apply Hl|].
  intros [q (x & Hx & Hp)%(ri_cb w' Hi')]%elem_of_dom. unfold rforeign in Hu. apply elem_of_difference in Hu as [Hu Hn].
  destruct (Hq q x u Hx Hp Hu) as (y & Hy & Hy'). apply Hn, elem_of_dom. exists q. apply (ri_cb w Hi). eauto.
Qed.

(** Steps that change nothing the invariant speaks about. *)
Lemma RInv_same w w' :
  RInv w -> queries w' = queries w -> (qnext w <= qnext w')%nat -> qcallbacks w' = qcallbacks w ->
  live (rlwip w) ⊆ live (rlwip w') -> ropen (rcalls w') = ropen (rcalls w) ->
  dns_queries_ (rt w') = dns_queries_ (rt w) ->
  (token_holds_ (rt w) = true -> token_ (rt w') = token_ (rt w) /\ token_holds_ (rt w') = true) ->
  RInv w'.
Proof.
  intros [T N C P L G K] Eq En Ec El Er Ed Et.
  constructor; rewrite ?Eq, ?Ec, ?Er, ?Ed; try done.
  - intros q Hq. specialize (N q Hq). lia.
  - intros u Hu. by apply El, L.
  - intros q x t Hx Ht. destruct (K q x t Hx Ht) as [-> Hh]. destruct (Et Hh) as [-> ->]. done.
Qed.

(** A query leaves: table, pcb and callback with it. *)
Lemma RInv_delete w q x u n l r' :
  RInv w -> queries w !! q = Some x -> q_pcb x = Some u -> live n = live (rlwip w) ∖ {[u]} ->
  l = rcalls w ++ [RRemove u] -> dns_queries_ r' = delete (q_id x) (dns_queries_ (rt w)) ->
  token_ r' = token_ (rt w) -> token_holds_ r' = token_holds_ (rt w) ->
  RInv (w.[rt := r'].[rlwip := n].[rcalls := l].[qcallbacks := delete u (qcallbacks w)]
         .[queries := delete q (queries w)]).
Proof.
  intros [T N C P L G K] Hx Hu Hn -> Hd Ht Hh.
  assert (qcallbacks w !! u = Some q) as Hcb by (apply C; eauto).
  assert (dns_queries_ (rt w) !! q_id x = Some q) as Htab by (apply T; eauto).
  constructor; cbn; rewrite ?Hd, ?Ht, ?Hh.
  - intros id j. rewrite lookup_delete_Some, T. split.
    + intros [Hne (y & Hy & <-)]. exists y. rewrite lookup_delete_ne; [done|]. intros <-. congruence.
    + intros (y & [Hne Hy]%lookup_delete_Some & <-). split; [|eauto]. intros E.
      assert (dns_queries_ (rt w) !! q_id y = Some j) by (apply T; eauto). congruence.
  - intros j [y [_ Hy]%lookup_delete_Some]. eauto.
  - intros v j. rewrite lookup_delete_Some, C. split.
    + intros [Hne (y & Hy & Hp)]. exists y. rewrite lookup_delete_ne; [done|]. intros <-. congruence.
    + intros (y & [Hne Hy]%lookup_delete_Some & Hp). split; [|eauto]. intros <-.
      assert (qcallbacks w !! u = Some j) by (apply C; eauto). congruence.
  - intros j y [_ Hy]%lookup_delete_Some. eauto.
  - intros v [j [Hv Hj]%lookup_delete_Some]. rewrite Hn.
    assert (v ∈ live (rlwip w)) by (apply L; eauto). set_solver.
  - rewrite ropen_snoc. cbn. by rewrite G, dom_delete_L.
  - intros j y t [_ Hy]%lookup_delete_Some. apply K with j. done.
Qed.

(** A query enters with a pcb that was not in use and an id that is free. *)
Lemma RInv_insert w x u n l r' q :
  RInv w -> q_pcb x = Some u -> q = qnext w -> dns_queries_ (rt w) !! q_id x = None ->
  u ∉ live (rlwip w) -> live n = {[u]} ∪ live (rlwip w) -> ropen l = {[u]} ∪ ropen (rcalls w) ->
  dns_queries_ r' = <[q_id x := q]> (dns_queries_ (rt w)) ->
  token_ r' = token_ (rt w) -> token_holds_ r' = token_holds_ (rt w) ->
  (forall t, q_timer x = Some t -> t = token_ (rt w) /\ token_holds_ (rt w) = true) ->
  RInv (w.[rt := r'].[rlwip := n].[rcalls := l].[qcallbacks := <[u := q]> (qcallbacks w)]
         .[qnext := S q].[queries := <[q := x]> (queries w)]).
Proof.
  intros [T N C P L G K] Hu -> Hfree Hnew Hn Hl Hd Ht Hh Htm.
  assert (queries w !! qnext w = None) as Hq.
  { destruct (queries w !! qnext w) eqn:E; [|done].
    assert (qnext w < qnext w)%nat by (apply N; eauto). lia. }
  assert (qcallbacks w !! u = None) as Hcb.
  { destruct (qcallbacks w !! u) eqn:E; [|done]. exfalso. apply Hnew, L. eauto. }
  constructor; cbn; rewrite ?Hd, ?Ht, ?Hh.
  - intros id j. rewrite lookup_insert_Some, T. split.
    + intros [[<- <-]|[Hne (y & Hy & <-)]]; eexists; [by rewrite lookup_insert_eq|].
      rewrite lookup_insert_ne by congruence. done.
    + intros (y & [[<- <-]|[Hne Hy]]%lookup_insert_Some & <-); [by left|]. right.
      split; [|eauto]. intros E.
      assert (dns_queries_ (rt w) !! q_id y = Some j) by (apply T; eauto). congruence.
  - intros j [y [[<- <-]|[_ Hy]]%lookup_insert_Some]; [lia|].
    assert (j < qnext w)%nat by (apply N; eauto). lia.
  - intros v j. rewrite lookup_insert_Some, C. split.
    + intros [[<- <-]|[Hne (y & Hy & Hp)]]; eexists; [by rewrite lookup_insert_eq|].
      rewrite lookup_insert_ne by congruence. done.
    + intros (y & [[<- <-]|[Hne Hy]]%lookup_insert_Some & Hp); [left; split; congruence|]. right.
      split; [|eauto]. intros <-.
      assert (qcallbacks w !! u = Some j) by (apply C; eauto). congruence.
  - intros j y [[<- <-]|[_ Hy]]%lookup_insert_Some; eauto.
  - intros v [j [[<- <-]|[_ Hj]]%lookup_insert_Some]; rewrite Hn; [set_solver|].
    assert (v ∈ live (rlwip w)) by (apply L; eauto). set_solver.
  - by rewrite Hl, G, dom_insert_L.
  - intros j y t [[<- <-]|[_ Hy]]%lookup_insert_Some Hty; [by apply Htm|by apply K with j y].
Qed.

(** Only the timer of a query changes. *)
Lemma RInv_timer w q x t :
  RInv w -> queries w !! q = Some x ->
  (forall t', t = Some t' -> t' = token_ (rt w) /\ token_holds_ (rt w) = true) ->
  RInv (w.[queries := <[q := x.[q_timer := t]]> (queries w)]).
Proof.
  intros [T N C P L G K] Hx Ht.
  assert (forall j y, <[q := x.[q_timer := t]]> (queries w) !! j = Some y ->
    exists z, queries w !! j = Some z /\ q_id z = q_id y /\ q_pcb z = q_pcb y) as Hback.
  { intros j y [[<- <-]|[_ Hy]]%lookup_insert_Some; eauto. }
  assert (forall j z, queries w !! j = Some z ->
    exists y, <[q := x.[q_timer := t]]> (queries w) !! j = Some y /\ q_id y = q_id z /\ q_pcb y = q_pcb z)
    as Hforth.
  { intros j z Hz. destruct (decide (j = q)) as [->|]; [|rewrite lookup_insert_ne by done; eauto].
    rewrite lookup_insert_eq. assert (z = x) as -> by congruence. eauto. }
  constructor; cbn; try done.
  - intros id j. rewrite T. split.
    + intros (z & (y & G1 & G2 & _)%Hforth & <-). eauto.
    + intros (y & (z & G1 & G2 & _)%Hback & <-). eauto.
  - intros j [y (z & G1 & _)%Hback]. eauto.
  - intros u j. rewrite C. split.
    + intros (z & (y & G1 & _ & G2)%Hforth & <-). eauto.
    + intros (y & (z & G1 & _ & G2)%Hback & <-). eauto.
  - intros j y (z & G1 & _ & <-)%Hback. eauto.
  - intros j y t' [[<- <-]|[_ Hy]]%lookup_insert_Some; [by apply Ht|by apply K with j].
Qed.

(* ------------------------------------------------------------------ *)
(** ** [complete_dns_query] *)

Lemma complete_absent id err ip w :
  dns_queries_ (rt w) !! id = None -> complete_dns_query id err ip w = (w, Ret tt).
Proof. intros E. unfold complete_dns_query, mbind, M_bind. cbn [get]. by rewrite E. Qed.

(** The query is answered once: it leaves the table and its handler is posted. *)
Lemma complete_present id err ip w q :
  RInv w -> dns_queries_ (rt w) !! id = Some q ->
  exists x w', queries w !! q = Some x /\ q_id x = id /\
    complete_dns_query id err ip w = (w', Ret tt) /\ RInv w' /\ still w' = still w /\
    queries w' = delete q (queries w) /\
    dns_queries_ (rt w') = delete id (dns_queries_ (rt w)) /\
    posted w' = posted w ++ [(q_handler x, err, ip)] /\
    (forall u, q_pcb x = Some u -> live (rlwip w') = live (rlwip w) ∖ {[u]}) /\
    timeouts w' = timeouts w /\ next_id w' = next_id w /\
    token_ (rt w') = token_ (rt w) /\ token_holds_ (rt w') = token_holds_ (rt w).
Proof.
  intros Hi Hid. pose proof Hid as (x & Hx & Eid)%(ri_table w Hi).
  destruct (ri_pcb w Hi q x Hx) as [u Hu].
  unfold complete_dns_query, mbind, M_bind. cbn [get]. rewrite Hid.
  unfold set_rt, modify, set_query, drop_query_pcb. cbn. rewrite Hx. cbn.
  rewrite lookup_insert_eq. cbn. rewrite Hu. cbn. rewrite insert_insert_eq, lookup_insert_eq.
  eexists x, _. split; [done|]. split; [done|]. split; [done|].
  split; [|split; [done|split; [cbn; by rewrite delete_insert_eq|split; [done|split; [done|]]]]].
  - pose proof (RInv_delete w q x u (udp_remove u (udp_recv u false (rlwip w))) _
      ((rt w).[dns_queries_ := delete id (dns_queries_ (rt w))]) Hi Hx Hu
      ltac:(by rewrite udp_remove_live, udp_recv_live) eq_refl) as Hinv.
    cbn in Hinv |- *. rewrite delete_insert_eq. eapply RInv_same; [apply Hinv|done..]; try done.
    by rewrite Eid.
  - cbn. rewrite udp_remove_live, udp_recv_live. split_and!; try done. congruence.
Qed.

(* ------------------------------------------------------------------ *)
(** ** [async_resolve] *)

(** Once the table is consistent, dropping [async_resolve]'s own reference
    changes nothing. *)
Lemma release_query_run q w : RInv w -> release_query q w = (w, Ret tt).
Proof.
  intros Hi. unfold release_query, modify. case_bool_decide as Hex; [done|].
  destruct (queries w !! q) as [x|] eqn:Ex.
  - exfalso. apply Hex. exists (q_id x), q. split; [|done]. apply (ri_table w Hi). eauto.
  - rewrite delete_id by done. by destruct w.
Qed.

(** Sending touches the stack and the log only. *)
Lemma send_dns_query_spec u id h qtype server w :
  RInv w ->
  exists n l r, send_dns_query u id h qtype server w = (w.[rlwip := n].[rcalls := l], r) /\
    RInv (w.[rlwip := n].[rcalls := l]) /\ live n = live (rlwip w) /\
    match r with
    | Ret _ => forallb label_ok (query_labels h) = true
    | Exn _ => forallb label_ok (query_labels h) = false
    | Ub => False
    end.
Proof.
  intros Hi. unfold send_dns_query, mbind, M_bind, lift. rewrite make_dns_query_labels.
  destruct (forallb label_ok (query_labels h)).
  2:{ exists (rlwip w), (rcalls w), (throw "invalid DNS label"). split; [by destruct w|]. by destruct w. }
  generalize (query_header id ++ question_name h ++ question_tail qtype) as p. intros p. unfold rstack.
  assert (forall n l, live n = live (rlwip w) -> ropen l = ropen (rcalls w) ->
    RInv (w.[rlwip := n].[rcalls := l])) as Hk.
  { intros n l En El. eapply RInv_same; [exact Hi|done..| |done|done|done]. cbn. by rewrite En. }
  pose proof (pbuf_alloc_live (u16 (Z.of_nat (length p))) (rlwip w)) as Hlive.
  destruct (pbuf_alloc _ _) as [[] n]; cbn in Hlive.
  - cbn -[take]. set (d := take (Z.to_nat (u16 (Z.of_nat (length p)))) p).
    pose proof (udp_sendto_live u d server DnsPort n) as Hs.
    destruct (udp_sendto u d server DnsPort n) as [err n']. cbn in Hs.
    eexists n', _, (Ret err). split; [done|]. split; [|split; [congruence|done]].
    apply Hk; [congruence|by rewrite ropen_snoc].
  - exists n, (rcalls w), (Ret ERR_MEM). split; [by destruct w|]. split; [by apply Hk|done].
Qed.

(** How a call of [async_resolve] ends: the handler is posted (at once, when
    one of these holds), or the query waits with a timer, or the call throws; a
    name that cannot be encoded leaves a query that waits without a timer. *)
Definition immediate w (h : bytes) : Prop :=
  ipaddr_aton (c_str h) <> None \/ dns_server (rt w) = Ret None \/
  fst (udp_new (rlwip w)) = None \/ forallb label_ok (query_labels h) = true.

Inductive resolved w (h : bytes) (tag : nat) w' : outcome unit -> Prop :=
| resolved_posted err ip :
    immediate w h -> queries w' = queries w -> posted w' = posted w ++ [(tag, err, ip)] -> resolved w h tag w' (Ret tt)
| resolved_waiting q x :
    forallb label_ok (query_labels h) = true -> queries w !! q = None -> queries w' = <[q := x]> (queries w) -> posted w' = posted w ->
    q_handler x = tag -> q_id x = u16 (next_id w) -> q_timer x = Some (token_ (rt w')) ->
    (forall u, q_pcb x = Some u -> u ∉ live (rlwip w)) ->
    resolved w h tag w' (Ret tt)
| resolved_refused e :
    (forall ip, dns_server (rt w) <> Ret ip) ->
    queries w' = queries w -> posted w' = posted w -> resolved w h tag w' (Exn e)
| resolved_leaked q x e :
    forallb label_ok (query_labels h) = false ->
    queries w !! q = None -> queries w' = <[q := x]> (queries w) -> posted w' = posted w ->
    q_handler x = tag -> q_id x = u16 (next_id w) -> q_timer x = None ->
    (forall u, q_pcb x = Some u -> u ∉ live (rlwip w)) -> resolved w h tag w' (Exn e).

Lemma issue_query_spec w w0 u n h qtype server tag id :
  RInv w -> token_holds_ (rt w) = true -> id = u16 (next_id w) ->
  dns_queries_ (rt w) !! id = None ->
  u ∉ live (rlwip w) -> live n = {[u]} ∪ live (rlwip w) ->
  w0 = w.[next_id := (next_id w + 1) mod 2 ^ 32].[rlwip := n].[rcalls := rcalls w ++ [RNew (Some u)]]
        .[qnext := S (qnext w)]
        .[queries := <[qnext w := mkDnsQuery (Some u) id qtype tag None]> (queries w)] ->
  exists w' r, finally (issue_query u (qnext w) id h qtype server) (release_query (qnext w)) w0 = (w', r) /\
    RInv w' /\ still w' = still w /\ live (rlwip w) ⊆ live (rlwip w') /\
    timeouts w' = timeouts w /\ token_ (rt w') = token_ (rt w) /\ token_holds_ (rt w') = true /\
    resolved w h tag w' r.
Proof.
  intros Hi Htok Hid Hfree Hu Hn Ew0.
  set (q := qnext w) in *. set (x := mkDnsQuery (Some u) id qtype tag None) in *.
  set (w1 := w.[rt := (rt w).[dns_queries_ := <[id := q]> (dns_queries_ (rt w))]]
     .[rlwip := udp_recv u true n].[rcalls := (rcalls w ++ [RNew (Some u)]) ++ [RRecv u q]]
     .[qcallbacks := <[u := q]> (qcallbacks w)].[qnext := S q].[queries := <[q := x]> (queries w)]).
  set (w2 := w1.[next_id := (next_id w + 1) mod 2 ^ 32]).
  assert (register_query u q id w0 = (w2, Ret tt)) as Ereg.
  { subst w0. unfold register_query, mbind, M_bind, rstack, rlog, set_rt, modify. cbn. rewrite Hfree. done. }
  assert (RInv w1) as Hi1.
  { apply (RInv_insert w x u (udp_recv u true n)); try done.
    - by rewrite udp_recv_live.
    - by rewrite !ropen_snoc. }
  assert (RInv w2) as Hi2 by (eapply RInv_same; [exact Hi1|done..]).
  assert (queries w !! q = None) as Hq.
  { destruct (queries w !! q) eqn:E; [|done]. pose proof (ri_next w Hi q ltac:(eauto)). lia. }
  unfold finally, issue_query, mbind at 1, M_bind at 1. rewrite Ereg. clear Ew0 Ereg.
  unfold mbind, M_bind.
  destruct (send_dns_query_spec u id h qtype server w2 Hi2) as (n3 & l3 & r & -> & Hi3 & Hl3 & Hr).
  set (w3 := w2.[rlwip := n3].[rcalls := l3]) in *.
  assert (live n3 = {[u]} ∪ live (rlwip w)) as Hlive3 by (rewrite Hl3; cbn; by rewrite udp_recv_live).
  destruct r as [err|e|]; [| |done].
  2:{ rewrite release_query_run by done. eexists _, _. split; [done|].
      split_and!; try done; [cbn; rewrite Hlive3; set_solver|]. eapply (resolved_leaked _ _ _ _ q x); try done. by intros ? [= <-]. }
  destruct (decide (err = ERR_OK)) as [->|Herr].
  - unfold get, set_query. cbv beta iota.
    replace (queries w3 !! q) with (Some x) by (symmetry; apply lookup_insert_eq).
    assert (RInv (w3.[queries := <[q := x.[q_timer := Some (token_ (rt w))]]> (queries w3)])) as Hi4.
    { apply RInv_timer; [done|apply lookup_insert_eq|]. by intros ? [= <-]. }
    rewrite release_query_run.
    2:{ exact Hi4. }
    eexists _, _. split; [done|].
    split_and!; try done; [cbn; rewrite Hlive3; set_solver|].
    eapply (resolved_waiting _ _ _ _ q (x.[q_timer := Some (token_ (rt w))])); try done.
    + cbn. by rewrite insert_insert_eq.
    + by intros ? [= <-].
  - destruct (complete_present id err None w3 q Hi3) as (y & w4 & Hy & Eid & -> & Hi4 & Hs4 & Hq4 & Hd4 & Hp4 & Hl4 & Ht4 & Hn4 & Hk4 & Hh4).
    { cbn. apply lookup_insert_eq. }
    assert (y = x) as -> by (cbn in Hy; rewrite lookup_insert_eq in Hy; by injection Hy).
    rewrite release_query_run by done. eexists _, _. split; [done|].
    split_and!; try done.
    + rewrite (Hl4 u eq_refl). cbn. rewrite Hlive3. set_solver.
    + by rewrite Hh4.
    + eapply resolved_posted; [by right; right; right|rewrite Hq4; cbn; by apply delete_insert_id|done].
Qed.


(** ** The ids of queries *)

(** The id that the next query gets is in the table or not. *)
Definition id_free w : Prop := dns_queries_ (rt w) !! u16 (next_id w) = None.
#[export] Instance id_free_dec w : Decision (id_free w).
Proof. unfold id_free. apply _. Defined.

(** What happened between [w] and [w'] drew no id, or one that was free. *)
Definition fresh_draw w w' : bool := bool_decide (next_id w' = next_id w) || bool_decide (id_free w).

Lemma fresh_draw_free w w' : id_free w -> fresh_draw w w' = true.
Proof. intros Hf. unfold fresh_draw. by rewrite (bool_decide_true (id_free w)), orb_true_r. Qed.
Lemma fresh_draw_none w w' : next_id w' = next_id w -> fresh_draw w w' = true.
Proof. intros E. unfold fresh_draw. by rewrite bool_decide_true. Qed.
Lemma fresh_draw_inv w w' : fresh_draw w w' = true -> next_id w' <> next_id w -> id_free w.
Proof. intros [?%bool_decide_eq_true|?%bool_decide_eq_true]%orb_true_iff ?; [congruence|done]. Qed.
Lemma fresh_draw_next w w1 w2 : next_id w1 = next_id w2 -> fresh_draw w w1 = fresh_draw w w2.
Proof. intros E. unfold fresh_draw. by rewrite E. Qed.
Lemma next_moves z : (z + 1) mod 2 ^ 32 <> z.
Proof.
  pose proof (Z.mod_pos_bound (z + 1) (2 ^ 32) ltac:(lia)) as Hb. intros E.
  assert (0 <= z < 2 ^ 32) as Hz by lia.
  destruct (decide (z + 1 < 2 ^ 32)); [rewrite Z.mod_small in E; lia|].
  assert (z + 1 = 2 ^ 32) as E1 by lia. rewrite E1, Z.mod_same in E; lia.
Qed.

(** After it was drawn the counter stays. *)
Lemma issue_query_next u q id h qtype server z :
  preserves (fun w => next_id w = z) (finally (issue_query u q id h qtype server) (release_query q)).
Proof.
  assert (forall j f, preserves (fun w => next_id w = z) (set_query j f)) as Hset.
  { intros j f w Hw. unfold set_query. by destruct (queries w !! j). }
  assert (forall j, preserves (fun w => next_id w = z) (drop_query_pcb j)) as Hdrop.
  { intros j w Hw. unfold drop_query_pcb. destruct (queries w !! j) as [x|]; [|done]. by destruct (q_pcb x). }
  assert (forall A (f : unet -> A * unet), preserves (fun w => next_id w = z) (rstack f)) as Hstack.
  { intros A f w Hw. unfold rstack. by destruct (f (rlwip w)). }
  assert (forall f, (forall w, next_id (f w) = next_id w) -> preserves (fun w => next_id w = z) (modify f)) as Hmod.
  { intros f Hf w Hw. cbn. by rewrite Hf. }
  assert (preserves (fun w => next_id w = z) (issue_query u q id h qtype server)) as Hissue.
  { unfold issue_query, register_query, send_dns_query, complete_dns_query, set_rt, rlog, post.
    repeat first [apply preserves_bind; [|intros ?]|apply Hset|apply Hdrop|apply Hstack|by apply Hmod
      |apply preserves_ret|apply preserves_get|apply preserves_lift|case_match|case_decide]. }
  intros w Hw. unfold finally. pose proof (Hissue w Hw) as H1'.
  assert (forall w', next_id w' = z -> next_id (fst (release_query q w')) = z) as Hrel.
  { intros w' Hw'. unfold release_query. cbn. by case_bool_decide. }
  destruct (issue_query _ _ _ _ _ _ w) as [w1 [[]|e|]]; cbn in H1'; [| |done];
    (pose proof (Hrel w1 H1') as H2'; by destruct (release_query q w1)).
Qed.

(** A name that a server is asked for draws an id. *)
Lemma async_resolve_draws h tag w server :
  ipaddr_aton (c_str h) = None -> dns_server (rt w) = Ret (Some server) ->
  next_id (fst (async_resolve h tag w)) = (next_id w + 1) mod 2 ^ 32.
Proof.
  intros Hlit Hs. unfold async_resolve, mbind at 1, M_bind at 1.
  set (w1 := w.[rt := if token_holds_ (rt w) then rt w
                      else (rt w).[token_ := S (token_ (rt w))].[token_holds_ := true]]).
  change (set_rt _ w) with (w1, @Ret unit tt). cbv beta iota. rewrite Hlit.
  assert (dns_server (rt w1) = dns_server (rt w)) as Hd1 by (unfold w1; by destruct (token_holds_ (rt w)) eqn:E; cbn; rewrite ?E).
  unfold mbind, M_bind, lift. cbn [get]. rewrite Hd1, Hs. unfold modify. cbv beta iota zeta. unfold rstack.
  change (rlwip (w1.[next_id := _])) with (rlwip w).
  destruct (udp_new (rlwip w)) as [[u|] n]; unfold rlog, modify; cbv beta iota zeta; [|done].
  by apply issue_query_next.
Qed.

(** A call draws one id or none, and makes a query only when it draws one. *)
Lemma async_resolve_next h tag w :
  next_id (fst (async_resolve h tag w)) = next_id w \/
  next_id (fst (async_resolve h tag w)) = (next_id w + 1) mod 2 ^ 32.
Proof.
  destruct (ipaddr_aton (c_str h)) as [lit|] eqn:Hlit.
  { left. unfold async_resolve. by rewrite Hlit. }
  destruct (dns_server (rt w)) as [[server|]|e|] eqn:Hs; [right; by eapply async_resolve_draws|left..].
  all: unfold async_resolve, mbind, M_bind, lift, get; rewrite Hlit; cbn.
  all: replace (dns_server _) with (dns_server (rt w)) by (by destruct (token_holds_ (rt w))); by rewrite Hs.
Qed.
Lemma async_resolve_silent h tag w :
  next_id (fst (async_resolve h tag w)) = next_id w -> queries (fst (async_resolve h tag w)) = queries w.
Proof.
  destruct (ipaddr_aton (c_str h)) as [lit|] eqn:Hlit.
  { intros _. unfold async_resolve. by rewrite Hlit. }
  destruct (dns_server (rt w)) as [[server|]|e|] eqn:Hs.
  { rewrite (async_resolve_draws h tag w server Hlit Hs). by intros ?%next_moves. }
  all: intros _; unfold async_resolve, mbind, M_bind, lift, get; rewrite Hlit; cbn.
  all: replace (dns_server _) with (dns_server (rt w)) by (by destruct (token_holds_ (rt w))); by rewrite Hs.
Qed.

(** A call of [async_resolve] that draws no id, or a free one. *)
Lemma async_resolve_spec h tag w :
  RInv w -> fresh_draw w (fst (async_resolve h tag w)) = true ->
  exists w' r, async_resolve h tag w = (w', r) /\ RInv w' /\ still w' = still w /\
    live (rlwip w) ⊆ live (rlwip w') /\ timeouts w' = timeouts w /\ token_holds_ (rt w') = true /\
    (token_holds_ (rt w) = true -> token_ (rt w') = token_ (rt w)) /\ resolved w h tag w' r.
Proof.
  intros Hi Hdraw.
  assert (forall server, ipaddr_aton (c_str h) = None -> dns_server (rt w) = Ret (Some server) -> id_free w) as Hfree.
  { intros server Hlit Hs. apply (fresh_draw_inv _ _ Hdraw). rewrite (async_resolve_draws h tag w server Hlit Hs). apply next_moves. }
  clear Hdraw. unfold async_resolve, mbind at 1, M_bind at 1.
  set (w1 := w.[rt := if token_holds_ (rt w) then rt w
                      else (rt w).[token_ := S (token_ (rt w))].[token_holds_ := true]]).
  change (set_rt _ w) with (w1, @Ret unit tt). cbv beta iota.
  assert (RInv w1 /\ still w1 = still w /\ token_holds_ (rt w1) = true /\ (id_free w -> id_free w1) /\
    (token_holds_ (rt w) = true -> token_ (rt w1) = token_ (rt w)) /\
    dns_server (rt w1) = dns_server (rt w)) as (Hi1 & Hs1 & Hh1 & Hf1 & Ht1 & Hd1).
  { unfold w1, id_free, still. destruct (token_holds_ (rt w)) eqn:E; cbn; rewrite ?E.
    - split; [|done]. by eapply RInv_same; [exact Hi|..].
    - split; [|done]. eapply RInv_same; [exact Hi|..]; try done. by rewrite E. }
  assert (queries w1 = queries w /\ posted w1 = posted w /\ rlwip w1 = rlwip w /\
    timeouts w1 = timeouts w) as (Eq1 & Ep1 & El1 & Em1) by done.
  destruct (ipaddr_aton (c_str h)) as [lit|] eqn:Elit.
  { eexists _, _. split; [done|]. split_and!; try done.
    - eapply RInv_same; [exact Hi1|done..].
    - eapply resolved_posted; [left|done..]. by rewrite Elit. }
  unfold mbind, M_bind, lift. cbn [get]. rewrite Hd1.
  destruct (dns_server (rt w)) as [[server|]|e|] eqn:Eserver.
  2:{ eexists _, _. split; [done|]. split_and!; try done.
      - eapply RInv_same; [exact Hi1|done..].
      - eapply resolved_posted; [by right; left|done..]. }
  2:{ eexists _, _. split; [done|]. split_and!; try done. apply resolved_refused; [|done..].
      by rewrite Eserver. }
  2:{ unfold dns_server, parse_ip_addr, mbind, outcome_bind in Eserver.
      repeat case_match; done. }
  unfold modify. cbv beta iota zeta. unfold rstack.
  change (rlwip (w1.[next_id := _])) with (rlwip w).
  destruct (udp_new (rlwip w)) as [[u|] n] eqn:Enew; unfold rlog, modify; cbv beta iota zeta.
  2:{ eexists _, _. split; [done|]. pose proof (udp_new_none _ _ Enew) as Hl.
      split_and!; try done; [|cbn; by rewrite Hl|
        eapply resolved_posted; [right; right; left; by rewrite Enew|done..]].
      eapply RInv_same; [exact Hi1|done..| | |done|done]; cbn; [by rewrite Hl|by rewrite ropen_snoc]. }
  apply udp_new_some in Enew as [Hu Hn].
  destruct (issue_query_spec w1 _ u n h (if IP_IS_V6 server then DnsTypeAaaa else DnsTypeA) server tag
    (u16 (next_id w)) Hi1 Hh1 eq_refl (Hf1 (Hfree server eq_refl eq_refl)) Hu Hn eq_refl)
    as (w' & r & E & Hi' & Hs' & Hl' & Hm' & Htk & Hth & Hr).
  exists w', r. split; [exact E|]. split_and!; try done; try congruence.
  - intros Hh. rewrite Htk. auto.
  - inversion Hr as [err ip Q0 Q1 Q2 Q3|q x Q0 Q1 Q2 Q3 Q4 Q5 Q6 Q7|e Q1 Q2 Q3 Q4|q x e Q1 Q2 Q3 Q4 Q5 Q6 Q7 Q8]; subst r.
    + eapply resolved_posted; [|done..]. unfold immediate in *.
      rewrite Hd1, El1, <- Eserver in Q0. done.
    + by eapply (resolved_waiting _ _ _ _ q x).
    + exfalso. apply (Q1 (Some server)). by rewrite Hd1.
    + by eapply (resolved_leaked _ _ _ _ q x).
Qed.

(** A call for which lwIP has a pcb and a buffer: the query goes to the name
    server, and waits under its id. *)
Lemma async_resolve_sends h tag w server u n1 n2 n3 query :
  id_free w -> ipaddr_aton (c_str h) = None -> dns_server (rt w) = Ret (Some server) ->
  make_dns_query (u16 (next_id w)) h (if IP_IS_V6 server then DnsTypeAaaa else DnsTypeA) = Ret query ->
  Z.of_nat (length query) < 65536 -> udp_new (rlwip w) = (Some u, n1) ->
  pbuf_alloc (Z.of_nat (length query)) (udp_recv u true n1) = (true, n2) ->
  udp_sendto u query server DnsPort n2 = (ERR_OK, n3) ->
  exists w' t, async_resolve h tag w = (w', Ret tt) /\ qcallbacks w' !! u = Some (qnext w) /\
    queries w' !! qnext w = Some (mkDnsQuery (Some u) (u16 (next_id w))
      (if IP_IS_V6 server then DnsTypeAaaa else DnsTypeA) tag t) /\
    dns_queries_ (rt w') !! u16 (next_id w) = Some (qnext w) /\ posted w' = posted w /\
    rcalls w' = rcalls w ++ [RNew (Some u); RRecv u (qnext w); RSend u query server DnsPort ERR_OK].
Proof.
  intros Hf Hlit Hserver Hq Hlen Hnew Hbuf Hsend. unfold id_free in Hf.
  assert (take (Z.to_nat (u16 (Z.of_nat (length query)))) query = query) as Htake
    by (rewrite u16_small, Nat2Z.id, take_ge by lia; done).
  rewrite <- (u16_small (Z.of_nat (length query))) in Hbuf by lia.
  set (qtype := if IP_IS_V6 server then DnsTypeAaaa else DnsTypeA) in *.
  unfold async_resolve. rewrite Hlit. unfold mbind at 1, M_bind at 1, set_rt at 1, modify at 1.
  set (w1 := w.[rt := _]).
  assert (dns_queries_ (rt w1) = dns_queries_ (rt w) /\ dns_server (rt w1) = dns_server (rt w)) as [Et Ed]
    by (unfold w1; cbn; by destruct (token_holds_ (rt w))).
  unfold mbind, M_bind, lift, get. cbv beta iota. rewrite Ed, Hserver.
  change (next_id w1) with (next_id w). change (qnext w1) with (qnext w). fold qtype.
  unfold modify, rstack, rlog. cbv beta iota zeta. change (rlwip (w1.[next_id := _])) with (rlwip w).
  rewrite Hnew. unfold modify. cbv beta iota zeta.
  unfold finally, issue_query, register_query, send_dns_query, rstack, rlog, set_rt, modify, mbind, M_bind, lift, get.
  cbv beta iota zeta. rewrite Hq. cbv beta iota zeta.
  cbn -[u16 Z.of_nat take]. rewrite Hbuf. cbn -[u16 Z.of_nat take]. rewrite Htake, Hsend.
  unfold mret, M_ret. cbv beta iota.
  set (R := if token_holds_ (rt w) then rt w else _) in *. case_decide as Hok; [|by destruct Hok].
  unfold set_query. cbn -[u16 Z.of_nat take]. replace (dns_queries_ R) with (dns_queries_ (rt w)) by done.
  rewrite Hf, lookup_insert_eq. unfold release_query, modify. cbn -[u16 Z.of_nat take].
  rewrite bool_decide_eq_true_2 by (exists (u16 (next_id w)), (qnext w); split; [apply lookup_insert_eq|done]).
  eexists _, _. split; [done|]. cbn -[u16 Z.of_nat take].
  rewrite !lookup_insert_eq, <- !app_assoc. done.
Qed.

(* ------------------------------------------------------------------ *)
(** ** [stop] *)

(** The part of the invariant that holds while the table is emptied. *)
Record RCore w : Prop := {
  rc_cb u q : qcallbacks w !! u = Some q <-> exists x, queries w !! q = Some x /\ q_pcb x = Some u;
  rc_live u : is_Some (qcallbacks w !! u) -> u ∈ live (rlwip w);
  rc_log : ropen (rcalls w) = dom (qcallbacks w)
}.

Definition shut (q : nat) : M RtWorld unit :=
  _ ← set_query q (fun x => x.[q_timer := None]); drop_query_pcb q.

Definition same_rest w w' : Prop :=
  rt w' = rt w /\ posted w' = posted w /\ timeouts w' = timeouts w /\ injected w' = injected w /\
  next_id w' = next_id w /\ qnext w' = qnext w.

Lemma shut_spec q w :
  RCore w -> is_Some (queries w !! q) ->
  exists w', shut q w = (w', Ret tt) /\ RCore w' /\ same_rest w w' /\
    (forall j x, queries w' !! j = Some x -> if decide (j = q) then q_pcb x = None else queries w !! j = Some x) /\
    (forall j, is_Some (queries w' !! j) <-> is_Some (queries w !! j)) /\ rspares w w'.
Proof.
  intros [C L G] [x Hx]. unfold shut, set_query, mbind, M_bind. rewrite Hx.
  unfold drop_query_pcb. cbn. rewrite lookup_insert_eq. cbn.
  destruct (q_pcb x) as [u|] eqn:Hu.
  - assert (qcallbacks w !! u = Some q) as Hcb by (apply C; eauto).
    eexists. split; [done|]. rewrite insert_insert_eq. split; [|split; [done|]].
    + constructor; cbn.
      * intros v j. destruct (decide (j = q)) as [->|Hj].
        -- rewrite lookup_insert_eq, lookup_delete_Some, C. naive_solver.
        -- rewrite lookup_insert_ne, lookup_delete_Some, C by done. split; [naive_solver|].
           intros (y & Hy & Hp). split; [|eauto]. intros <-.
           assert (qcallbacks w !! u = Some j) by (apply C; eauto). congruence.
      * intros v [j [Hv Hj]%lookup_delete_Some]. rewrite udp_remove_live, udp_recv_live.
        assert (v ∈ live (rlwip w)) by (apply L; eauto). set_solver.
      * rewrite ropen_snoc. cbn. by rewrite G, dom_delete_L.
    + cbn. split; [|split].
      * intros j y. case_decide; [subst; rewrite lookup_insert_eq; by intros [= <-]|by rewrite lookup_insert_ne].
      * intros j. destruct (decide (j = q)) as [->|]; [rewrite lookup_insert_eq, Hx|rewrite lookup_insert_ne by done; done].
        split; eauto.
      * unfold rspares, rforeign. cbn. rewrite udp_remove_live, udp_recv_live, dom_delete_L.
        apply elem_of_dom_2 in Hcb. set_solver.
  - eexists. split; [done|]. split; [|split; [done|]].
    + constructor; cbn; try done. intros v j. rewrite C.
      destruct (decide (j = q)) as [->|Hj]; [rewrite lookup_insert_eq, Hx; naive_solver|by rewrite lookup_insert_ne].
    + cbn. split; [|split; [|by unfold rspares, rforeign]].
      * intros j y. case_decide; [subst; rewrite lookup_insert_eq; by intros [= <-]|by rewrite lookup_insert_ne].
      * intros j. destruct (decide (j = q)) as [->|]; [rewrite lookup_insert_eq, Hx|rewrite lookup_insert_ne by done; done].
        split; eauto.
Qed.

Lemma shut_all_spec qs w :
  RCore w -> (forall q, q ∈ qs -> is_Some (queries w !! q)) ->
  exists w', each shut qs w = (w', Ret tt) /\ RCore w' /\ same_rest w w' /\
    (forall j x, queries w' !! j = Some x -> if decide (j ∈ qs) then q_pcb x = None else queries w !! j = Some x) /\
    (forall j, is_Some (queries w' !! j) <-> is_Some (queries w !! j)) /\ rspares w w'.
Proof.
  revert w. induction qs as [|q qs IH]; intros w Hc Hin; cbn [each]; [by exists w|].
  destruct (shut_spec q w Hc) as (w1 & E1 & Hc1 & Hs1 & Hq1 & Hd1 & Hl1); [apply Hin; set_solver|].
  destruct (IH w1 Hc1) as (w2 & E2 & Hc2 & Hs2 & Hq2 & Hd2 & Hl2).
  { intros j Hj. apply Hd1, Hin. set_solver. }
  exists w2. unfold mbind, M_bind. rewrite E1. split; [done|]. split; [done|].
  unfold same_rest in *. split; [naive_solver congruence|]. split; [|split; [|by transitivity w1]].
  - intros j x Hx. specialize (Hq2 j x Hx). case_decide as Hj.
    + by rewrite decide_True by set_solver.
    + specialize (Hq1 j x Hq2). case_decide; [rewrite decide_True by set_solver|
        rewrite decide_False by set_solver]; done.
  - intros j. by rewrite Hd2, Hd1.
Qed.

Lemma delete_all_run qs w :
  each (fun q => modify (fun w => w.[queries := delete q (queries w)])) qs w =
  (w.[queries := foldl (fun h q => delete q h) (queries w) qs], Ret tt).
Proof.
  revert w. induction qs as [|q qs IH]; intros w; cbn [each]; [by destruct w|].
  unfold mbind, M_bind. cbn. rewrite IH. done.
Qed.

(** [stop] empties the table, with the pcbs, and posts nothing. *)
Lemma stop_runtime_spec w :
  RInv w ->
  exists w', stop_runtime w = (w', Ret tt) /\ RInv w' /\ queries w' = ∅ /\ qcallbacks w' = ∅ /\
    posted w' = posted w /\ timeouts w' = timeouts w /\ ropen (rcalls w') = ∅ /\
    rt w' = (rt w).[rt_running_ := false].[token_holds_ := false].[timer_ := false].[dns_queries_ := ∅] /\
    rspares w w'.
Proof.
  intros Hi. unfold stop_runtime, mbind, M_bind. unfold set_rt, get, modify. cbv beta iota zeta.
  set (qs := snd <$> map_to_list _). fold shut.
  set (w1 := w.[rt := _].[rt := _]).
  assert (RCore w1) as Hc1 by (destruct Hi; by constructor).
  assert (forall q, q ∈ qs <-> is_Some (queries w1 !! q)) as Hqs.
  { intros q. unfold qs. rewrite list_elem_of_fmap. split.
    - intros ([id j] & -> & Hk%elem_of_map_to_list).
      destruct (proj1 (ri_table w Hi id j) Hk) as (x & Hx & _). by exists x.
    - intros [x Hx]. exists (q_id x, q). split; [done|]. apply elem_of_map_to_list.
      apply (ri_table w Hi). eauto. }
  destruct (shut_all_spec qs w1 Hc1) as (w2 & E2 & Hc2 & (Hr2 & Hp2 & Ht2 & _) & Hq2 & Hd2 & Hsp);
    [intros; by apply Hqs|].
  change (each (λ q, _) qs w1) with (each shut qs w1). rewrite E2, delete_all_run.
  assert (qcallbacks w2 = ∅) as Hcb.
  { apply map_empty. intros u. destruct (qcallbacks w2 !! u) as [q|] eqn:E; [exfalso|done].
    apply (rc_cb w2 Hc2) in E as (x & Hx & Hp). specialize (Hq2 q x Hx).
    rewrite decide_True in Hq2; [congruence|]. apply Hqs, Hd2. eauto. }
  assert (foldl (fun h q => delete q h) (queries w2) qs = ∅) as Hempty.
  { apply map_empty. intros j. rewrite foldl_delete_lookup. case_decide as Hj; [done|].
    destruct (queries w2 !! j) eqn:E; [|done]. exfalso. apply Hj, Hqs, Hd2. by rewrite E. }
  rewrite Hempty. eexists. split; [done|].
  assert (ropen (rcalls w2) = ∅) as Hlog by (by rewrite (rc_log w2 Hc2), Hcb, dom_empty_L).
  cbn. split_and!; try done. constructor; cbn; rewrite ?Hcb, ?Hlog, ?Hr2; cbn.
  - intros id q. rewrite !lookup_empty. naive_solver.
  - intros q. rewrite lookup_empty. by intros [? ?].
  - intros u q. rewrite !lookup_empty. naive_solver.
  - intros q x. by rewrite lookup_empty.
  - intros u. rewrite lookup_empty. by intros [? ?].
  - by rewrite dom_empty_L.
  - intros q x t. by rewrite lookup_empty.
Qed.

(** A new runtime. *)
Lemma new_runtime_inv id n : RInv (new_runtime id n).
Proof.
  constructor; cbn; try done.
  - intros i q. rewrite !lookup_empty. naive_solver.
  - intros q. rewrite lookup_empty. by intros [? ?].
  - intros u q. rewrite !lookup_empty. naive_solver.
  - intros u. rewrite lookup_empty. by intros [? ?].
Qed.

End Facts.
