(* ===== verification/RuntimeSpec.v ===== *)
(** * The lwIP runtime: properties

    Every name resolution is answered exactly once, in every order of calls,
    answers, timeouts and stops; the table of queries, pcbs and callbacks; the
    netmask; and the two ways in which a query is lost. *)
From S2P Require Import Prelude Types Text Lwip Dns DnsFacts Runtime RuntimeFacts.

Section Spec.
Context `{!IpText, !UdpNet, !UdpNetLaws}.
Implicit Types (w : RtWorld) (acc lk dr : list nat).

(* ------------------------------------------------------------------ *)
(** ** Runs of the resolver *)

(** Operations that leave the table alone. *)
Inductive quiet_op : M RtWorld unit -> Prop :=
| quiet_start : quiet_op start_runtime
| quiet_tick b : quiet_op (tick_handler b)
| quiet_inject p : quiet_op (inject_l3_packet p)
| quiet_post p : quiet_op (post_inject_l3_packet p)
| quiet_injected p t : quiet_op (run_injected p t)
| quiet_output b : quiet_op (set_packet_output b)
| quiet_apply c : quiet_op (apply_tun_config_and_output c).

Definition waiting w : list nat := (fun kx => q_handler (snd kx)) <$> map_to_list (queries w).
Definition answered w : list nat := (fun '(h, _, _) => h) <$> posted w.

(** The ids drawn between two states, 0 or 1. *)
Definition drawn w w' : Z := if bool_decide (next_id w' = next_id w) then 0 else 1.

(** A run of the runtime: any sequence of calls of [async_resolve], answers,
    timeouts, stops and other operations.  Between the steps other components
    use the stack and other instances draw ids from the counter, which all
    instances share.  A run comes with the number [k] of ids drawn since it
    began, whether each call of the run drew an id that no query of the table
    had ([fresh]), and with the handlers of the calls that returned, of those
    that threw after the query was in the table, and of those a stop dropped. *)
Inductive rrun (w0 : RtWorld) : Z -> bool -> list nat -> list nat -> list nat -> RtWorld -> Prop :=
| rrun_init : rrun w0 0 true [] [] [] w0
| rrun_env k fresh acc lk dr w n d :
    rrun w0 k fresh acc lk dr w -> dom (qcallbacks w) ⊆ live n -> 0 <= d ->
    rrun w0 (k + d) fresh acc lk dr (w.[rlwip := n].[next_id := (next_id w + d) mod 2 ^ 32])
| rrun_quiet k fresh acc lk dr w m w' r :
    rrun w0 k fresh acc lk dr w -> quiet_op m -> m w = (w', r) -> rrun w0 k fresh acc lk dr w'
| rrun_submit k fresh acc lk dr w h tag w' :
    rrun w0 k fresh acc lk dr w -> async_resolve h tag w = (w', Ret tt) ->
    rrun w0 (k + drawn w w') (fresh && fresh_draw w w') (acc ++ [tag]) lk dr w'
| rrun_throw k fresh acc lk dr w h tag w' e :
    rrun w0 k fresh acc lk dr w -> async_resolve h tag w = (w', Exn e) ->
    rrun w0 (k + drawn w w') (fresh && fresh_draw w w') acc
      (if bool_decide (dom (queries w') = dom (queries w)) then lk else lk ++ [tag]) dr w'
| rrun_reply k fresh acc lk dr w u q packet w' :
    rrun w0 k fresh acc lk dr w -> qcallbacks w !! u = Some q -> dns_recv q packet w = (w', Ret tt) ->
    rrun w0 k fresh acc lk dr w'
| rrun_expire k fresh acc lk dr w q x t :
    rrun w0 k fresh acc lk dr w -> queries w !! q = Some x -> q_timer x = Some t ->
    rrun w0 k fresh acc lk dr (w.[queries := <[q := x.[q_timer := None]]> (queries w)]
                                .[timeouts := timeouts w ++ [(q_id x, t)]])
| rrun_timeout k fresh acc lk dr w i id t w' :
    rrun w0 k fresh acc lk dr w -> timeouts w !! i = Some (id, t) ->
    timeout_handler id t (w.[timeouts := delete i (timeouts w)]) = (w', Ret tt) ->
    rrun w0 k fresh acc lk dr w'
| rrun_stop k fresh acc lk dr w w' :
    rrun w0 k fresh acc lk dr w -> stop_runtime w = (w', Ret tt) ->
    rrun w0 k fresh acc lk (dr ++ waiting w) w'.

(** Every waiting query of an accepted call will be answered: its timer runs,
    or the handler of its timer is queued. *)
Definition timed lk w : Prop :=
  forall q x, queries w !! q = Some x ->
    q_timer x = Some (token_ (rt w)) /\ token_holds_ (rt w) = true \/
    (q_id x, token_ (rt w)) ∈ timeouts w /\ token_holds_ (rt w) = true \/
    q_handler x ∈ lk.

Record RRun acc lk dr w : Prop := {
  rr_inv : RInv w;
  rr_once : acc ++ lk ≡ₚ answered w ++ dr ++ waiting w;
  rr_timed : timed lk w
}.

Lemma waiting_insert w w' q x :
  queries w !! q = None -> queries w' = <[q := x]> (queries w) -> waiting w' ≡ₚ q_handler x :: waiting w.
Proof.
  intros Hq E. unfold waiting. rewrite E, map_to_list_insert by done. done.
Qed.

Lemma waiting_delete w w' q x :
  queries w !! q = Some x -> queries w' = delete q (queries w) -> waiting w ≡ₚ q_handler x :: waiting w'.
Proof.
  intros Hq E. unfold waiting. rewrite E, <- (map_to_list_delete (queries w) q x) by done. done.
Qed.

Lemma waiting_same w w' q x y :
  queries w !! q = Some x -> q_handler y = q_handler x -> queries w' = <[q := y]> (queries w) ->
  waiting w' ≡ₚ waiting w.
Proof.
  intros Hq Hy E. rewrite (waiting_delete w' (w.[queries := delete q (queries w)]) q y).
  - rewrite (waiting_delete w (w.[queries := delete q (queries w)]) q x) by done. by rewrite Hy.
  - rewrite E. apply lookup_insert_eq.
  - rewrite E. cbn. by rewrite delete_insert_eq.
Qed.

Lemma answered_snoc w w' h err ip :
  posted w' = posted w ++ [(h, err, ip)] -> answered w' = answered w ++ [h].
Proof. unfold answered. intros ->. by rewrite fmap_app. Qed.

(** Quiet operations keep all the invariant speaks about. *)
Definition same_table w w' : Prop :=
  queries w' = queries w /\ qnext w' = qnext w /\ qcallbacks w' = qcallbacks w /\
  posted w' = posted w /\ timeouts w' = timeouts w /\ live (rlwip w') = live (rlwip w) /\
  ropen (rcalls w') = ropen (rcalls w) /\ dns_queries_ (rt w') = dns_queries_ (rt w) /\
  token_ (rt w') = token_ (rt w) /\ token_holds_ (rt w') = token_holds_ (rt w) /\ next_id w' = next_id w.

Lemma same_table_trans w1 w2 w3 : same_table w1 w2 -> same_table w2 w3 -> same_table w1 w3.
Proof. unfold same_table. intros. destruct_and!. split_and!; congruence. Qed.

Lemma inject_same p w : exists w' r, inject_l3_packet p w = (w', r) /\ r = Ret tt /\ same_table w w'.
Proof.
  unfold inject_l3_packet. case_decide; [by exists w, (Ret tt)|].
  unfold mbind, M_bind, rstack.
  pose proof (pbuf_alloc_live (u16 (Z.of_nat (length p))) (rlwip w)) as Hl.
  destruct (pbuf_alloc _ _) as [[] n]; cbn in Hl; eexists _, _; (split; [done|]); (split; [done|]).
  - unfold same_table. cbn. rewrite ropen_snoc. done.
  - done.
Qed.

Lemma apply_addresses_same l w :
  exists w' r, apply_addresses l w = (w', r) /\ r <> Ub /\ same_table w w'.
Proof.
  revert w. induction l as [|a l IH]; intros w; cbn [apply_addresses]; [by eexists _, _|].
  unfold mbind, M_bind.
  assert (exists w1 r1, apply_address a w = (w1, r1) /\ r1 <> Ub /\ same_table w w1)
    as (w1 & r1 & -> & Hub & Hs1).
  { unfold apply_address, mbind, M_bind, lift, parse_ip_addr, prefix_to_netmask.
    destruct (ta_ipv6 a); [destruct (ipaddr_aton _); by eexists _, _|].
    destruct (ipaddr_aton _); [|by eexists _, _].
    destruct (_ || _); [by eexists _, _|].
    destruct (decide (ta_gateway a = [])); [by eexists _, _|].
    destruct (ipaddr_aton _); by eexists _, _. }
  destruct r1 as [[]|e|]; [|by eexists _, _|done].
  destruct (IH w1) as (w2 & r2 & -> & Hub2 & Hs2). eexists _, _. split; [done|].
  split; [done|]. by eapply same_table_trans.
Qed.

Lemma quiet_same m w w' r : quiet_op m -> m w = (w', r) -> same_table w w'.
Proof.
  intros Hm E. destruct Hm as [|b|p|p|p t|b|c].
  - unfold start_runtime, mbind, M_bind, get in E. cbv beta iota in E.
    destruct (rt_running_ (rt w)); by injection E as <- <-.
  - unfold tick_handler, mbind, M_bind, get in E. cbv beta iota in E.
    destruct (_ || _); injection E as <- <-; [done|].
    unfold same_table. cbn. by rewrite ropen_snoc.
  - destruct (inject_same p w) as (w1 & r1 & E1 & _ & Hs).
    rewrite E1 in E. by injection E as <- <-.
  - unfold post_inject_l3_packet in E. case_decide; by injection E as <- <-.
  - unfold run_injected, mbind, M_bind, get in E. cbv beta iota in E.
    destruct (_ && _ && _); [|by injection E as <- <-].
    destruct (inject_same p w) as (w1 & r1 & E1 & _ & Hs).
    rewrite E1 in E. by injection E as <- <-.
  - by injection E as <- <-.
  - unfold apply_tun_config_and_output, apply_tun_config, mbind, M_bind, set_rt, modify in E.
    cbv beta iota in E.
    match type of E with context [apply_addresses _ ?v] => set (w1 := v) in E end.
    destruct (apply_addresses_same (addresses c) w1) as (w2 & r2 & E2 & _ & Hs). rewrite E2 in E.
    assert (same_table w w1) as H1' by done.
    destruct r2; injection E as <- <-; (eapply same_table_trans; [exact H1'|]); done.
Qed.

(* ------------------------------------------------------------------ *)
(** ** The invariant of the runs *)

Lemma RRun_same acc lk dr w w' : RRun acc lk dr w -> same_table w w' -> RRun acc lk dr w'.
Proof.
  intros [Hi Ho Ht] (Eq & En & Ec & Ep & Et & El & Er & Ed & Ek & Eh & _). constructor.
  - eapply RInv_same; [exact Hi|..]; try done; [by rewrite En|by rewrite El|by rewrite Ek, Eh].
  - unfold answered, waiting in *. by rewrite Ep, Eq.
  - intros q x. rewrite Eq, Ek, Eh, Et. apply Ht.
Qed.

(** An answer, a timeout and a failed send end the same way. *)
Lemma RRun_complete acc lk dr w id err ip w' :
  RInv w -> acc ++ lk ≡ₚ answered w ++ dr ++ waiting w ->
  (forall q x, queries w !! q = Some x -> q_id x <> id ->
     q_timer x = Some (token_ (rt w)) /\ token_holds_ (rt w) = true \/
     (q_id x, token_ (rt w)) ∈ timeouts w /\ token_holds_ (rt w) = true \/ q_handler x ∈ lk) ->
  complete_dns_query id err ip w = (w', Ret tt) -> RRun acc lk dr w'.
Proof.
  intros Hi Ho Ht E. destruct (dns_queries_ (rt w) !! id) as [q|] eqn:Ed.
  - destruct (complete_present id err ip w q Hi Ed)
      as (x & w1 & Hx & Eid & E1 & Hi1 & _ & Hq1 & _ & Hp1 & _ & Ht1 & _ & Hk1 & Hh1).
    rewrite E in E1. injection E1 as <-. constructor; [done| |].
    + rewrite (answered_snoc _ _ _ _ _ Hp1), Ho, (waiting_delete w w' q x Hx Hq1). solve_Permutation.
    + intros j y. rewrite Hq1, Ht1, Hk1, Hh1. intros [Hne Hy]%lookup_delete_Some.
      apply (Ht j y Hy). intros <-.
      assert (dns_queries_ (rt w) !! q_id y = Some j) by (apply (ri_table w Hi); eauto). congruence.
  - rewrite complete_absent in E by done. injection E as <-. constructor; [done|done|].
    intros q x Hx. apply (Ht q x Hx). intros <-.
    assert (dns_queries_ (rt w) !! q_id x = Some q) by (apply (ri_table w Hi); eauto). congruence.
Qed.

Lemma RRun_timed_keep lk w w' q x :
  RInv w -> timed lk w -> token_holds_ (rt w') = true ->
  (token_holds_ (rt w) = true -> token_ (rt w') = token_ (rt w)) -> timeouts w' = timeouts w ->
  queries w !! q = Some x ->
  q_timer x = Some (token_ (rt w')) /\ token_holds_ (rt w') = true \/
  (q_id x, token_ (rt w')) ∈ timeouts w' /\ token_holds_ (rt w') = true \/ q_handler x ∈ lk.
Proof.
  intros Hi Ht Hh' Hk Em Hx. rewrite Em.
  destruct (Ht q x Hx) as [[H2 H3]|[[H2 H3]|H2]]; [left|right; left|by right; right];
    by rewrite (Hk H3).
Qed.

Lemma RRun_submit acc lk dr w h tag w' r :
  RRun acc lk dr w -> async_resolve h tag w = (w', r) -> fresh_draw w w' = true ->
  match r with
  | Ret _ => RRun (acc ++ [tag]) lk dr w'
  | Exn _ => RRun acc (if bool_decide (dom (queries w') = dom (queries w)) then lk else lk ++ [tag]) dr w'
  | Ub => False
  end.
Proof.
  intros [Hi Ho Ht] E Hf.
  destruct (async_resolve_spec h tag w Hi) as (w1 & r1 & E1 & Hi1 & _ & _ & Hm1 & Hh1 & Hk1 & Hr); [by rewrite E|].
  rewrite E in E1. injection E1 as <- <-.
  pose proof (fun q x => RRun_timed_keep lk w w' q x Hi Ht Hh1 Hk1 Hm1) as Hkeep.
  destruct Hr as [err ip _ Hq Hp|q x _ Hnone Hq Hp Htag _ Htm|e _ Hq Hp|q x e _ Hnone Hq Hp Htag _ Htm].
  - constructor; [done| |].
    + rewrite (answered_snoc _ _ _ _ _ Hp). unfold waiting in *. rewrite Hq.
      rewrite (Permutation_app_comm acc), <- app_assoc, Ho. solve_Permutation.
    + intros j y. rewrite Hq. apply Hkeep.
  - constructor; [done| |].
    + rewrite (waiting_insert _ _ _ _ Hnone Hq), Htag. unfold answered in *. rewrite Hp.
      rewrite (Permutation_app_comm acc), <- app_assoc, Ho. solve_Permutation.
    + intros j y. rewrite Hq. intros [[<- <-]|[_ Hy]]%lookup_insert_Some; [by left|by apply Hkeep with j].
  - rewrite Hq, bool_decide_true by done. constructor; [done| |].
    + unfold answered, waiting in *. by rewrite Hp, Hq.
    + intros j y. rewrite Hq. apply Hkeep.
  - rewrite bool_decide_false.
    2:{ rewrite Hq, dom_insert_L. intros Ed. apply not_elem_of_dom in Hnone. set_solver. }
    constructor; [done| |].
    + rewrite (waiting_insert _ _ _ _ Hnone Hq), Htag. unfold answered in *. rewrite Hp.
      rewrite (app_assoc acc), Ho. solve_Permutation.
    + intros j y. rewrite Hq. intros [[<- <-]|[_ Hy]]%lookup_insert_Some; [right; right; set_solver|].
      destruct (Hkeep j y Hy) as [?|[?|?]]; [by left|by right; left|right; right; set_solver].
Qed.

Lemma RRun_reply acc lk dr w u q packet w' :
  RRun acc lk dr w -> qcallbacks w !! u = Some q -> dns_recv q packet w = (w', Ret tt) -> RRun acc lk dr w'.
Proof.
  intros [Hi Ho Ht] (x & Hx & _)%(ri_cb w Hi) E. unfold dns_recv, mbind, M_bind, get, lift in E.
  cbv beta iota in E. rewrite Hx in E.
  destruct (parse_dns_response_total packet (q_id x) (q_qtype x)) as [ip Eip]. rewrite Eip in E.
  eapply (RRun_complete acc lk dr w _ _ _ w' Hi Ho); [|exact E]. intros j y Hy _. by apply Ht with j.
Qed.

Lemma RRun_timeout acc lk dr w i id t w' :
  RRun acc lk dr w -> timeouts w !! i = Some (id, t) ->
  timeout_handler id t (w.[timeouts := delete i (timeouts w)]) = (w', Ret tt) -> RRun acc lk dr w'.
Proof.
  intros [Hi Ho Ht] Hti E. set (w0 := w.[timeouts := delete i (timeouts w)]) in *.
  assert (RInv w0) as Hi0 by (by eapply RInv_same; [exact Hi|..]).
  assert (forall y, y ∈ timeouts w -> y <> (id, t) -> y ∈ timeouts w0) as Hdel.
  { intros y Hy Hne. cbn. rewrite (delete_take_drop (timeouts w)).
    rewrite <- (take_drop_middle _ _ _ Hti) in Hy. set_solver. }
  unfold timeout_handler, mbind, M_bind, get in E. cbv beta iota in E.
  destruct (bool_decide_reflect (t = token_ (rt w0))) as [Et|Et]; cbn [andb] in E.
  - destruct (token_holds_ (rt w0)) eqn:Eh.
    + eapply (RRun_complete acc lk dr w0 _ _ _ w' Hi0 Ho); [|exact E]. intros j y Hy Hne.
      destruct (Ht j y Hy) as [?|[[H2 H3]|?]]; [by left| |by right; right].
      right; left. split; [|done]. apply Hdel; [done|]. congruence.
    + injection E as <-. constructor; [done|done|]. intros j y Hy.
      destruct (Ht j y Hy) as [[_ H2]|[[_ H2]|?]]; [..|by right; right];
        change (token_holds_ (rt w)) with (token_holds_ (rt w0)) in H2; congruence.
  - injection E as <-. constructor; [done|done|]. intros j y Hy.
    destruct (Ht j y Hy) as [?|[[H2 H3]|?]]; [by left| |by right; right].
    right; left. split; [|done]. apply Hdel; [done|]. intros [= _ Heq]. by apply Et.
Qed.

Lemma RRun_expire acc lk dr w q x t :
  RRun acc lk dr w -> queries w !! q = Some x -> q_timer x = Some t ->
  RRun acc lk dr (w.[queries := <[q := x.[q_timer := None]]> (queries w)]
                   .[timeouts := timeouts w ++ [(q_id x, t)]]).
Proof.
  intros [Hi Ho Ht] Hx Htm. constructor.
  - eapply RInv_same; [exact (RInv_timer w q x None Hi Hx ltac:(done))|done..].
  - match goal with |- context [waiting ?v] => set (w1 := v) end.
    assert (waiting w1 ≡ₚ waiting w) as Hw1 by (eapply waiting_same; [exact Hx| |reflexivity]; done).
    by rewrite Ho, Hw1.
  - intros j y. cbn. intros [[<- <-]|[_ Hy]]%lookup_insert_Some.
    + destruct (ri_timer w Hi q x t Hx Htm) as [-> Hh]. right; left. split; [|done]. set_solver.
    + destruct (Ht j y Hy) as [?|[[? ?]|?]]; [by left|right; left|by right; right].
      split; [set_solver|done].
Qed.

Lemma RRun_stop acc lk dr w w' :
  RRun acc lk dr w -> stop_runtime w = (w', Ret tt) -> RRun acc lk (dr ++ waiting w) w'.
Proof.
  intros [Hi Ho Ht] E. destruct (stop_runtime_spec w Hi) as (w1 & E1 & Hi1 & Hq1 & _ & Hp1 & _).
  rewrite E in E1. injection E1 as <-. constructor; [done| |].
  - rewrite Ho. unfold answered, waiting. rewrite Hp1, Hq1, map_to_list_empty. cbn. by rewrite app_nil_r.
  - intros j y. by rewrite Hq1, lookup_empty.
Qed.

Lemma rrun_inv id n k fresh acc lk dr w :
  rrun (new_runtime id n) k fresh acc lk dr w -> fresh = true -> RRun acc lk dr w.
Proof.
  induction 1 as [|k b acc lk dr w n' d Hrun IH Hn _|k b acc lk dr w m w' r Hrun IH Hm E
    |k b acc lk dr w h tag w' Hrun IH E|k b acc lk dr w h tag w' e Hrun IH E
    |k b acc lk dr w u q packet w' Hrun IH Hcb E|k b acc lk dr w q x t Hrun IH Hx Htm
    |k b acc lk dr w i id' t w' Hrun IH Hti E|k b acc lk dr w w' Hrun IH E].
  - constructor; [apply new_runtime_inv|done..].
  - intros [Hi Ho Ht]%IH. constructor; try done. destruct Hi as [T N C P L G K].
    constructor; try done. cbn. intros u Hu. by apply Hn, elem_of_dom.
  - intros Hb%IH. eapply RRun_same; [exact Hb|]. by eapply quiet_same.
  - intros [Hb Hf]%andb_true_iff. exact (RRun_submit _ _ _ _ _ _ _ _ (IH Hb) E Hf).
  - intros [Hb Hf]%andb_true_iff. exact (RRun_submit _ _ _ _ _ _ _ _ (IH Hb) E Hf).
  - intros Hb%IH. by eapply RRun_reply.
  - intros Hb%IH. by eapply RRun_expire.
  - intros Hb%IH. by eapply RRun_timeout.
  - intros Hb%IH. by eapply RRun_stop.
Qed.

(** What lwIP and the loop may call of the resolver returns. *)
Lemma resolver_events_return w :
  RInv w ->
  (forall u q packet, qcallbacks w !! u = Some q -> exists w', dns_recv q packet w = (w', Ret tt)) /\
  (forall i t, exists w', timeout_handler i t w = (w', Ret tt)) /\ (exists w', stop_runtime w = (w', Ret tt)).
Proof.
  intros Hi.
  assert (forall i err ip, exists w', complete_dns_query i err ip w = (w', Ret tt)) as Hcomplete.
  { intros i err ip. destruct (dns_queries_ (rt w) !! i) as [q|] eqn:E.
    - destruct (complete_present i err ip w q Hi E) as (x & w' & _ & _ & E' & _). by exists w'.
    - exists w. by apply complete_absent. }
  split_and!.
  - intros u q packet (x & Hx & _)%(ri_cb w Hi). unfold dns_recv, mbind, M_bind, get, lift.
    rewrite Hx. destruct (parse_dns_response_total packet (q_id x) (q_qtype x)) as [ip ->]. apply Hcomplete.
  - intros i t. unfold timeout_handler, mbind, M_bind, get. destruct (_ && _); [apply Hcomplete|by exists w].
  - destruct (stop_runtime_spec w Hi) as (w' & E & _). by exists w'.
Qed.

(* ------------------------------------------------------------------ *)
(** ** The first 65536 ids *)

(** The counter after [k] ids, and the queries have ids that were drawn. *)
Definition ids_drawn (base k : Z) w : Prop :=
  u16 (next_id w) = u16 (base + k) /\
  forall q x, queries w !! q = Some x -> exists j, 0 <= j < k /\ q_id x = u16 (base + j).

Lemma ids_keep base k w k' w' :
  ids_drawn base k w -> 0 <= k <= k' -> u16 (next_id w') = u16 (base + k') ->
  (forall q x, queries w' !! q = Some x ->
     (exists q' y, queries w !! q' = Some y /\ q_id y = q_id x) \/ q_id x = u16 (base + k) /\ k < k') ->
  ids_drawn base k' w'.
Proof.
  intros [_ Hq] Hk Hn Hsub. split; [done|]. intros q x [(q' & y & Hy & <-)|[-> ?]]%Hsub.
  - destruct (Hq q' y Hy) as (j & ? & ?). exists j. split; [lia|done].
  - exists k. split; [lia|done].
Qed.

Lemma ids_free base k w : RInv w -> ids_drawn base k w -> k < 65536 -> id_free w.
Proof.
  intros Hi [Hn Hq] Hk. unfold id_free. destruct (dns_queries_ (rt w) !! u16 (next_id w)) as [q|] eqn:E; [|done].
  apply (ri_table w Hi) in E as (x & Hx & Eid). destruct (Hq q x Hx) as (j & Hj & E2).
  rewrite Hn, E2 in Eid. unfold u16 in Eid. exfalso. clear -Hj Hk Eid. Z.div_mod_to_equations. lia.
Qed.

Lemma u16_step z d : u16 ((z + d) mod 2 ^ 32) = u16 (z + d).
Proof. unfold u16. change (2 ^ 32) with (65536 * 65536). Z.div_mod_to_equations. lia. Qed.
Lemma u16_add a b d : u16 a = u16 b -> u16 (a + d) = u16 (b + d).
Proof. unfold u16. intros E. Z.div_mod_to_equations. lia. Qed.

(** A call that draws a free id, or none. *)
Lemma ids_submit base k h tag w w' r :
  RInv w -> async_resolve h tag w = (w', r) -> fresh_draw w w' = true -> 0 <= k ->
  ids_drawn base k w -> ids_drawn base (k + drawn w w') w'.
Proof.
  intros Hi E Hf Hk Hids.
  destruct (async_resolve_spec h tag w Hi) as (w1 & r1 & E1 & _ & _ & _ & _ & _ & _ & Hr); [by rewrite E|].
  rewrite E in E1. injection E1 as <- <-. destruct Hids as [Hn Hq].
  assert (drawn w w' = 0 /\ next_id w' = next_id w \/ drawn w w' = 1 /\ next_id w' = (next_id w + 1) mod 2 ^ 32) as Hd.
  { unfold drawn. pose proof (async_resolve_next h tag w) as Hnx. rewrite E in Hnx. cbn in Hnx.
    destruct Hnx as [Hnx|Hnx]; rewrite Hnx; [left; by rewrite bool_decide_true|right].
    rewrite bool_decide_false by apply next_moves. done. }
  assert (u16 (next_id w') = u16 (base + (k + drawn w w'))) as Hn'.
  { destruct Hd as [[-> ->]|[-> ->]]; [by rewrite Z.add_0_r|]. by rewrite u16_step, Z.add_assoc, (u16_add _ _ 1 Hn). }
  eapply (ids_keep base k w); [done|lia|done|]. intros q x.
  assert (forall q0 x0, queries w' = <[q0 := x0]> (queries w) -> queries w !! q0 = None ->
    q_id x0 = u16 (next_id w) -> next_id w' <> next_id w -> queries w' !! q = Some x ->
    (exists q' y, queries w !! q' = Some y /\ q_id y = q_id x) \/ q_id x = u16 (base + k) /\ k < k + drawn w w') as Hins.
  { intros q0 x0 -> Hnone Hid Hne [[-> ->]|[_ Hx]]%lookup_insert_Some; [right|by left; eauto].
    split; [congruence|]. destruct Hd as [[_ ?]|[-> _]]; [done|lia]. }
  assert (forall q0 x0, queries w' = <[q0 := x0]> (queries w) -> queries w !! q0 = None -> next_id w' <> next_id w) as Hdrew.
  { intros q0 x0 Hq0 Hnone Hsame. pose proof (async_resolve_silent h tag w) as Hsil. rewrite E in Hsil. cbn in Hsil.
    specialize (Hsil Hsame). rewrite Hq0 in Hsil. pose proof (lookup_insert_eq (queries w) q0 x0) as Hl.
    rewrite Hsil in Hl. congruence. }
  destruct Hr as [err ip _ Eq _|q0 x0 _ Hnone Eq _ _ Hid _ _|e _ Eq _|q0 x0 e _ Hnone Eq _ _ Hid _ _].
  - rewrite Eq. eauto.
  - by apply (Hins q0 x0); eauto.
  - rewrite Eq. eauto.
  - by apply (Hins q0 x0); eauto.
Qed.

Lemma complete_ids id err ip w w' :
  RInv w -> complete_dns_query id err ip w = (w', Ret tt) ->
  next_id w' = next_id w /\ forall q x, queries w' !! q = Some x -> queries w !! q = Some x.
Proof.
  intros Hi E. destruct (dns_queries_ (rt w) !! id) as [q|] eqn:Ed.
  - destruct (complete_present id err ip w q Hi Ed) as (x & w1 & _ & _ & E1 & _ & _ & Hq1 & _ & _ & _ & _ & Hn1 & _).
    rewrite E in E1. injection E1 as <-. split; [done|]. rewrite Hq1. by intros q' y [_ ?]%lookup_delete_Some.
  - rewrite complete_absent in E by done. by injection E as <-.
Qed.

Lemma stop_next z : preserves (fun w => next_id w = z) stop_runtime.
Proof.
  unfold stop_runtime, set_rt.
  apply preserves_bind; [by apply preserves_modify|intros _]. apply preserves_bind; [apply preserves_get|intros w0].
  apply preserves_bind; [by apply preserves_modify|intros _]. apply preserves_bind; [|intros _].
  - apply preserves_each. intros q. apply preserves_bind; [|intros _]; intros w Hw.
    + unfold set_query. by destruct (queries w !! q).
    + unfold drop_query_pcb. destruct (queries w !! q) as [x|]; [|done]. by destruct (q_pcb x).
  - apply preserves_each. intros q. by apply preserves_modify.
Qed.

Lemma rrun_few id n k fresh acc lk dr w :
  rrun (new_runtime id n) k fresh acc lk dr w -> k <= 65536 -> 0 <= k /\ fresh = true /\ ids_drawn id k w.
Proof.
  assert (forall w w', 0 <= drawn w w' <= 1) as Hdr by (intros; unfold drawn; case_bool_decide; lia).
  assert (forall b w w', next_id w' = next_id w ->
    (forall q x, queries w' !! q = Some x -> exists q' y, queries w !! q' = Some y /\ q_id y = q_id x) ->
    forall k, 0 <= k /\ b = true /\ ids_drawn id k w -> 0 <= k /\ b = true /\ ids_drawn id k w') as Hsame.
  { intros b w1 w2 En Hsub j (Hj & Hb & Hids). split_and!; [done..|]. eapply ids_keep; [exact Hids|lia| |by left; eauto].
    rewrite En. apply Hids. }
  assert (forall h tag w w' r k b, (b = true -> RInv w) -> async_resolve h tag w = (w', r) -> k + drawn w w' <= 65536 ->
    0 <= k /\ b = true /\ ids_drawn id k w ->
    0 <= k + drawn w w' /\ b && fresh_draw w w' = true /\ ids_drawn id (k + drawn w w') w') as Hcall.
  { intros h tag w1 w2 r j b Hi E Hj (Hj0 & -> & Hids). pose proof (Hdr w1 w2).
    assert (fresh_draw w1 w2 = true) as Hf.
    { unfold drawn in Hj. case_bool_decide as En; [by apply fresh_draw_none|].
      apply fresh_draw_free. eapply ids_free; [by apply Hi|exact Hids|lia]. }
    split_and!; [lia|done|]. by eapply ids_submit; [apply Hi|..]. }
  intros Hrun. induction Hrun as [|k b acc lk dr w n' d Hrun IH Hn Hd|k b acc lk dr w m w' r Hrun IH Hm E
    |k b acc lk dr w h tag w' Hrun IH E|k b acc lk dr w h tag w' e Hrun IH E
    |k b acc lk dr w u q packet w' Hrun IH Hcb E|k b acc lk dr w q x t Hrun IH Hx Htm
    |k b acc lk dr w i id' t w' Hrun IH Hti E|k b acc lk dr w w' Hrun IH E]; intros Hk;
    try (assert (RInv w) as Hi by (apply (rr_inv acc lk dr), (rrun_inv id n k b); [done|by apply IH])).
  - split_and!; [lia|done|]. split; [cbn; by rewrite Z.add_0_r|by intros q x].
  - destruct IH as (? & -> & Hids); [lia|]. split_and!; [lia|done|].
    eapply ids_keep; [exact Hids|lia| |by left; eauto]. cbn.
    rewrite u16_step, Z.add_assoc. apply u16_add, Hids.
  - destruct (quiet_same m w w' r Hm E) as (Eq & _ & _ & _ & _ & _ & _ & _ & _ & _ & En).
    apply (Hsame b w w'); [done|rewrite Eq; eauto|by apply IH].
  - pose proof (Hdr w w'). apply (Hcall h tag w w' (Ret tt)); [|done|done|apply IH; lia].
    intros ->. by eapply rr_inv, rrun_inv.
  - pose proof (Hdr w w'). apply (Hcall h tag w w' (Exn e)); [|done|done|apply IH; lia].
    intros ->. by eapply rr_inv, rrun_inv.
  - pose proof Hcb as (x & Hx & _)%(ri_cb w Hi). unfold dns_recv, mbind, M_bind, get, lift in E.
    cbv beta iota in E. rewrite Hx in E.
    destruct (parse_dns_response_total packet (q_id x) (q_qtype x)) as [ip Eip]. rewrite Eip in E.
    destruct (complete_ids _ _ _ w w' Hi E) as [En Hq]. apply (Hsame b w w'); [done|eauto|by apply IH].
  - apply (Hsame b w); [done| |by apply IH]. cbn. intros j y [[<- <-]|[_ Hy]]%lookup_insert_Some; eauto.
  - apply (Hsame b w w'); [..|by apply IH]; unfold timeout_handler, mbind, M_bind, get in E; cbv beta iota in E.
    all: destruct (_ && _); [|injection E as <-; cbn; eauto].
    all: destruct (complete_ids _ _ _ (w.[timeouts := delete i (timeouts w)]) w' ltac:(by eapply RInv_same; [exact Hi|..]) E) as [En Hq].
    all: first [exact En|intros j y Hy; specialize (Hq j y Hy); eauto].
  - destruct (stop_runtime_spec w Hi) as (w1 & E1 & _ & Hq1 & _). rewrite E in E1. injection E1 as <-.
    apply (Hsame b w w'); [|by rewrite Hq1|by apply IH].
    pose proof (stop_next (next_id w) w eq_refl) as Hs. by rewrite E in Hs.
Qed.

(* ------------------------------------------------------------------ *)
(** ** Properties *)

(** C15.  Name resolution answers exactly once.  In every run in which no call
    draws an id that a query in the table still has, and so in every run until
    65536 ids have been drawn: the handlers of the calls that returned,
    together with those of the calls that threw after their query was in the
    table (names that cannot be encoded), are, as a multiset, the handlers
    called so far, those a stop dropped and those still waiting.  And none of
    the calls that returned waits for ever: each has a timer running, or the
    handler of its timer is queued. *)
Theorem resolver_exactly_once id n k fresh acc lk dr w :
  rrun (new_runtime id n) k fresh acc lk dr w -> fresh = true \/ k <= 65536 ->
  acc ++ lk ≡ₚ answered w ++ dr ++ waiting w /\
  forall q x, queries w !! q = Some x ->
    q_timer x = Some (token_ (rt w)) /\ token_holds_ (rt w) = true \/
    (q_id x, token_ (rt w)) ∈ timeouts w /\ token_holds_ (rt w) = true \/
    q_handler x ∈ lk.
Proof.
  intros Hrun Hf. assert (fresh = true) as Hfresh by (destruct Hf; [done|by eapply rrun_few]).
  destruct (rrun_inv _ _ _ _ _ _ _ _ Hrun Hfresh) as [_ Ho Ht]. split; [done|exact Ht].
Qed.

(** The resolver's table is safe in every run: queries, pcbs and callbacks
    correspond one to one, the pcbs made and not removed are those of the
    queries, an answer or a timeout or a stop never touches a freed query, and
    a call with a free id neither does nor ends the use of another pcb. *)
Theorem resolver_safe id n k acc lk dr w :
  rrun (new_runtime id n) k true acc lk dr w ->
  (forall u q, qcallbacks w !! u = Some q <-> exists x, queries w !! q = Some x /\ q_pcb x = Some u) /\
  (forall i q, dns_queries_ (rt w) !! i = Some q <-> exists x, queries w !! q = Some x /\ q_id x = i) /\
  ropen (rcalls w) = dom (qcallbacks w) /\
  (forall u q packet, qcallbacks w !! u = Some q -> exists w', dns_recv q packet w = (w', Ret tt)) /\
  (forall i t, exists w', timeout_handler i t w = (w', Ret tt)) /\
  (exists w', stop_runtime w = (w', Ret tt) /\ queries w' = ∅ /\ qcallbacks w' = ∅) /\
  (forall h tag, id_free w -> exists w' r, async_resolve h tag w = (w', r) /\ r <> Ub /\
     live (rlwip w) ⊆ live (rlwip w')).
Proof.
  intros Hrun. destruct (rrun_inv _ _ _ _ _ _ _ _ Hrun eq_refl) as [Hi _ _]. destruct (resolver_events_return w Hi) as (Hrecv & Htime & _).
  split_and!.
  - apply (ri_cb w Hi).
  - apply (ri_table w Hi).
  - apply (ri_log w Hi).
  - exact Hrecv.
  - exact Htime.
  - destruct (stop_runtime_spec w Hi) as (w' & E & _ & Hq & Hc & _). by exists w'.
  - intros h tag Hf. destruct (async_resolve_spec h tag w Hi (fresh_draw_free _ _ Hf)) as (w' & r & E & _ & _ & Hl & _ & _ & _ & Hr).
    exists w', r. split_and!; [done| |done]. by destruct Hr.
Qed.

(** A name with an empty label or one above 63 bytes: the query is already
    in the table when encoding the name throws.  Its handler is not called,
    it has no timer, and its pcb stays in use until the runtime stops. *)
Theorem resolver_bad_name_leaks id n k acc lk dr w h tag server u n' :
  rrun (new_runtime id n) k true acc lk dr w -> id_free w ->
  ipaddr_aton (c_str h) = None -> dns_server (rt w) = Ret (Some server) ->
  udp_new (rlwip w) = (Some u, n') -> forallb label_ok (query_labels h) = false ->
  exists w' q x e, async_resolve h tag w = (w', Exn e) /\ queries w !! q = None /\
    queries w' !! q = Some x /\ q_handler x = tag /\ q_timer x = None /\ is_Some (q_pcb x) /\
    posted w' = posted w.
Proof.
  intros Hrun Hf Hlit Hserver Hnew Hbad. destruct (rrun_inv _ _ _ _ _ _ _ _ Hrun eq_refl) as [Hi _ _].
  destruct (async_resolve_spec h tag w Hi (fresh_draw_free _ _ Hf)) as (w' & r & E & Hi' & _ & _ & _ & _ & _ & Hr).
  destruct Hr as [err ip Him|q x Hok|e Href|q x e _ Hnone Hq Hp Htag _ Htm].
  - exfalso. destruct Him as [?|[?|[F|?]]]; [congruence..| |congruence]. by rewrite Hnew in F.
  - congruence.
  - by destruct (Href (Some server)).
  - assert (queries w' !! q = Some x) as Hx by (rewrite Hq; apply lookup_insert_eq).
    exists w', q, x, e. split_and!; try done. exact (ri_pcb w' Hi' q x Hx).
Qed.

(** C40.  An id that a query already has, which happens once the counter has
    gone around while a leaked query keeps its place: the new query is not in
    the table, so it is freed when the call returns, while lwIP keeps a
    pointer to it as the argument of the pcb's callback.  The call succeeds,
    its handler is lost, and an answer to it is a use after free. *)
Theorem resolver_id_reuse_use_after_free id n k acc lk dr w h tag server u n' q0 :
  rrun (new_runtime id n) k true acc lk dr w ->
  dns_queries_ (rt w) !! u16 (next_id w) = Some q0 ->
  ipaddr_aton (c_str h) = None -> dns_server (rt w) = Ret (Some server) ->
  udp_new (rlwip w) = (Some u, n') -> forallb label_ok (query_labels h) = true ->
  (forall z m, fst (pbuf_alloc z m) = true) ->
  (forall d m, fst (udp_sendto u d server DnsPort m) = ERR_OK) ->
  exists w', async_resolve h tag w = (w', Ret tt) /\
    queries w' = queries w /\ posted w' = posted w /\
    qcallbacks w' !! u = Some (qnext w) /\ queries w' !! qnext w = None /\
    forall packet, snd (dns_recv (qnext w) packet w') = Ub.
Proof.
  intros Hrun. destruct (rrun_inv _ _ _ _ _ _ _ _ Hrun eq_refl) as [Hi _ _]. clear Hrun. intros Htaken Hlit Hserver Hnew Hok Hbuf Hsend.
  assert (queries w !! qnext w = None) as Hq.
  { destruct (queries w !! qnext w) eqn:E; [|done]. pose proof (ri_next w Hi (qnext w) ltac:(eauto)). lia. }
  unfold async_resolve, mbind at 1, M_bind at 1.
  set (r1 := if token_holds_ (rt w) then rt w
             else (rt w).[token_ := S (token_ (rt w))].[token_holds_ := true]).
  change (set_rt _ w) with (w.[rt := r1], @Ret unit tt). cbv beta iota. rewrite Hlit.
  assert (dns_server r1 = Ret (Some server) /\ dns_queries_ r1 = dns_queries_ (rt w)) as [Hs1 Hd1]
    by (unfold r1; by destruct (token_holds_ (rt w))).
  clearbody r1. destruct w as [r qs qn nid tms cbs pst inj n0 cls]. cbn -[u16] in *.
  unfold mbind, M_bind, lift, get. cbn -[u16 dns_server Z.modulo Z.pow]. rewrite Hs1.
  unfold rstack. cbn -[u16 finally Z.modulo Z.pow]. rewrite Hnew. cbn -[u16 finally Z.modulo Z.pow].
  unfold finally, issue_query, register_query, mbind, M_bind.
  cbn -[u16 send_dns_query Z.modulo Z.pow lookup]. rewrite Hd1, Htaken.
  unfold send_dns_query, mbind, M_bind, lift. rewrite make_dns_query_labels, Hok.
  generalize (query_header (u16 nid) ++ question_name h ++
    question_tail (if IP_IS_V6 server then DnsTypeAaaa else DnsTypeA)). intros p.
  unfold rstack. cbn -[u16 Z.modulo Z.pow lookup take].
  pose proof (Hbuf (u16 (Z.of_nat (length p))) (udp_recv u true n')) as Hb.
  destruct (pbuf_alloc _ _) as [ok n1]. cbn in Hb. subst ok. cbn -[u16 Z.modulo Z.pow lookup take].
  set (d := take _ p). pose proof (Hsend d n1) as Hse.
  destruct (udp_sendto u d server DnsPort n1) as [err n2]. cbn in Hse. subst err.
  cbn -[u16 Z.modulo Z.pow lookup]. unfold get, set_query. cbn -[u16 Z.modulo Z.pow lookup].
  rewrite decide_True by done. cbn -[u16 Z.modulo Z.pow lookup bool_decide].
  rewrite lookup_insert_eq. cbn -[u16 Z.modulo Z.pow lookup bool_decide]. rewrite insert_insert_eq.
  rewrite bool_decide_false.
  2:{ cbn. rewrite Hd1. intros (i & j & Hij & ->).
      pose proof (proj1 (ri_table _ Hi i qn) Hij) as (x & Hx & _). cbn in Hx. congruence. }
  eexists. split; [done|]. cbn -[u16 Z.modulo Z.pow lookup].
  rewrite delete_insert_id by done. split_and!; try done; [apply lookup_insert_eq|].
  intros packet. unfold dns_recv, mbind, M_bind, get. cbn -[lookup]. by rewrite Hq.
Qed.

(** [prefix_to_netmask]: for a prefix length of 0 to 32 the mask in network
    order has ones in exactly its first [prefix] bits; any other length throws. *)
Theorem netmask_prefix prefix :
  match prefix_to_netmask prefix with
  | Ret m => 0 <= prefix <= 32 /\
      forall i, 0 <= i < 32 -> Z.testbit (lwip_htonl m) i = (32 - prefix <=? i)
  | Exn _ => ~ 0 <= prefix <= 32
  | Ub => False
  end.
Proof.
  unfold prefix_to_netmask.
  destruct (Z.ltb_spec prefix 0); [cbn; lia|]. destruct (Z.ltb_spec 32 prefix); [cbn; lia|].
  cbn [orb]. split; [lia|].
  assert (forallb (fun p => forallb (fun i =>
    eqb (Z.testbit (lwip_htonl (lwip_htonl (if p =? 0 then 0 else Z.shiftl 0xffffffff (32 - p) mod 2 ^ 32))) i)
        (32 - p <=? i)) (seqZ 0 32)) (seqZ 0 33) = true) as Hall by (vm_compute; reflexivity).
  intros i Hi. rewrite forallb_forall in Hall.
  assert (prefix ∈ seqZ 0 33) as Hp by (apply elem_of_seqZ; lia).
  specialize (Hall prefix (proj1 (list_elem_of_In _ _) Hp)). rewrite forallb_forall in Hall.
  assert (i ∈ seqZ 0 32) as Hi' by (apply elem_of_seqZ; lia).
  apply eqb_prop, Hall, list_elem_of_In, Hi'.
Qed.

End Spec.

(* ------------------------------------------------------------------ *)
(** ** Runs on a concrete stack *)

Definition one_server : IpText := {|
  ipaddr_aton t := if decide (t = str "10.0.0.53") then Some (IP4 0x3500000a) else None
|}.
#[local] Existing Instances one_server toy_udp toy_udp_laws.

Definition no_pcbs : @unet toy_udp := [].
Definition dns_config : TunConfig := mkTunConfig [] [str "10.0.0.53"] [] 1500.
Definition configured : RtWorld := fst (apply_tun_config_and_output dns_config (new_runtime 1 no_pcbs)).

Lemma configured_run : rrun (new_runtime 1 no_pcbs) 0 true [] [] [] configured.
Proof.
  eapply rrun_quiet; [apply rrun_init|apply (quiet_apply dns_config)|].
  unfold configured. apply surjective_pairing.
Qed.

Lemma unit_eta {S} (x : S * outcome unit) : is_ret_b (snd x) = true -> x = (fst x, Ret tt).
Proof. by destruct x as [? [[]|?|]]. Qed.

Definition asked : RtWorld := fst (async_resolve (str "a.example") 7 configured).

(** A step whose number of ids and freshness are known. *)
Lemma rrun_index w0 k k' b b' acc lk dr (w : RtWorld) :
  rrun w0 k' b' acc lk dr w -> k' = k -> b' = b -> rrun w0 k b acc lk dr w.
Proof. by intros ? <- <-. Qed.

Lemma asked_run : rrun (new_runtime 1 no_pcbs) 1 true [7%nat] [] [] asked.
Proof.
  eapply rrun_index; [eapply (rrun_submit _ 0 true [] [] [] configured (str "a.example") 7);
    [exact configured_run|]|vm_compute; reflexivity..].
  unfold asked. refine (unit_eta (async_resolve (str "a.example") 7 configured) _).
  vm_compute. reflexivity.
Qed.

(** A query that leaked, and the counter back at its id. *)
Definition leaky : RtWorld := fst (async_resolve (str "..") 1 configured).
Definition around : RtWorld := leaky.[rlwip := rlwip leaky].[next_id := (next_id leaky + 65535) mod 2 ^ 32].

Definition leaked_tags : list nat :=
  if bool_decide (dom (queries leaky) = dom (queries configured)) then [] else [] ++ [1%nat].

Lemma leaky_run : rrun (new_runtime 1 no_pcbs) 1 true [] leaked_tags [] leaky.
Proof.
  eapply rrun_index; [apply (rrun_throw _ 0 true [] [] [] configured (str "..") 1 leaky (runtime_error (str "invalid DNS label")));
    [exact configured_run|]|vm_compute; reflexivity..].
  unfold leaky. rewrite (surjective_pairing (async_resolve _ _ _)) at 1. f_equal.
Qed.

Lemma around_run : rrun (new_runtime 1 no_pcbs) (1 + 65535) true [] leaked_tags [] around.
Proof.
  apply (rrun_env _ 1 true [] leaked_tags [] leaky (rlwip leaky) 65535 leaky_run); [|lia].
  intros u Hu%elem_of_dom. apply (ri_live leaky); [|done]. exact (rr_inv _ _ _ _ (rrun_inv _ _ _ _ _ _ _ _ leaky_run eq_refl)).
Qed.

Lemma resolver_exactly_once_witness : [7%nat] ++ [] ≡ₚ answered asked ++ [] ++ waiting asked.
Proof. exact (proj1 (resolver_exactly_once 1 no_pcbs 1 true [7%nat] [] [] asked asked_run (or_introl eq_refl))). Defined.

Lemma resolver_safe_witness : ropen (rcalls asked) = dom (qcallbacks asked).
Proof. exact (proj1 (proj2 (proj2 (resolver_safe 1 no_pcbs 1 [7%nat] [] [] asked asked_run)))). Defined.

Lemma resolver_bad_name_leaks_witness :
  exists w' q x e, async_resolve (str "..") 1 configured = (w', Exn e) /\ queries configured !! q = None /\
    queries w' !! q = Some x /\ q_handler x = 1%nat /\ q_timer x = None /\ is_Some (q_pcb x) /\
    posted w' = posted configured.
Proof.
  apply (resolver_bad_name_leaks 1 no_pcbs 0 [] [] [] configured (str "..") 1 (IP4 0x3500000a) 1%nat [1%nat]);
    [exact configured_run|..]; vm_compute; reflexivity.
Defined.

Lemma resolver_id_reuse_use_after_free_witness :
  exists w', async_resolve (str "a.example") 2 around = (w', Ret tt) /\
    queries w' = queries around /\ posted w' = posted around /\
    qcallbacks w' !! (2%nat : @upcb toy_udp) = Some (qnext around) /\ queries w' !! qnext around = None /\
    forall packet, snd (dns_recv (qnext around) packet w') = Ub.
Proof.
  apply (resolver_id_reuse_use_after_free 1 no_pcbs (1 + 65535) [] leaked_tags [] around (str "a.example") 2
    (IP4 0x3500000a) 2%nat [2%nat; 1%nat] 0 around_run); try (vm_compute; reflexivity); done.
Defined.
