(* ===== verification/TunBuilder.v ===== *)
(** * The tun builder

    [src/OpenVpnTunBuilder.cpp]: OpenVPN describes the interface call by call
    into [pending_], and [tun_builder_establish] hands the whole to the lwIP
    runtime.  The state is [pending_] with the runtime. *)
From S2P Require Import Prelude Types Text Lwip Dns Runtime.

Section TunBuilder.
Context `{!IpText, !UdpNet}.

Record Builder := mkBuilder { pending_ : TunConfig; runtime : RtWorld }.
#[export] Instance Builder_eta : Eta Builder := fun b => mkBuilder (pending_ b) (runtime b).
#[export] Instance TunConfig_eta : Eta TunConfig := fun c =>
  mkTunConfig (addresses c) (ipv4_dns c) (ipv6_dns c) (mtu c).

(** Code of the runtime. *)
Definition on_lwip {A} (m : M RtWorld A) : M Builder A :=
  zoom runtime (fun w b => b.[runtime := w]) m.
Definition set_pending (f : TunConfig -> TunConfig) : M Builder unit :=
  modify (fun b => b.[pending_ := f (pending_ b)]).

Definition tun_builder_new : M Builder bool :=
  _ ← set_pending (fun _ => default_TunConfig); mret true.

(** -1 when applying the configuration throws. *)
Definition tun_builder_establish : M Builder Z :=
  try_catch
    (b ← get; _ ← on_lwip (apply_tun_config_and_output (pending_ b)); mret 0)
    (mret (-1)).

Definition tun_builder_add_address (address : bytes) (prefix : Z) (gateway : bytes)
    (ipv6 net30 : bool) : M Builder bool :=
  _ ← set_pending (fun c => c.[addresses := addresses c ++ [mkTunAddress address gateway prefix ipv6 net30]]);
  mret true.

Definition tun_builder_set_mtu (m : Z) : M Builder bool :=
  _ ← set_pending (fun c => c.[mtu := m]); mret true.

Definition tun_builder_add_dns_server (address : bytes) (ipv6 : bool) : M Builder bool :=
  _ ← set_pending (fun c => if ipv6 then c.[ipv6_dns := ipv6_dns c ++ [address]]
                            else c.[ipv4_dns := ipv4_dns c ++ [address]]);
  mret true.

(** [address.find(':') != npos] *)
Definition has_colon (address : bytes) : bool := bool_decide (ch ":" ∈ address).

(** [dns.servers] in the order of its map, each with its addresses. *)
Definition tun_builder_set_dns_options (servers : list (list bytes)) : M Builder bool :=
  _ ← each (fun server : list bytes =>
        each (fun a => _ ← tun_builder_add_dns_server a (has_colon a); mret tt) server) servers;
  mret true.

(** Routes, session name and proxies are accepted and ignored. *)
Definition tun_builder_add_route (address : bytes) (prefix metric : Z) (ipv6 : bool)
  : M Builder bool := mret true.
Definition tun_builder_reroute_gw (ipv4 ipv6 : bool) (flags : Z) : M Builder bool := mret true.
Definition tun_builder_exclude_route (address : bytes) (prefix metric : Z) (ipv6 : bool)
  : M Builder bool := mret true.
Definition tun_builder_set_remote_address (address : bytes) (ipv6 : bool) : M Builder bool := mret true.
Definition tun_builder_set_session_name (name : bytes) : M Builder bool := mret true.
Definition tun_builder_add_proxy_bypass (bypass_host : bytes) : M Builder bool := mret true.
Definition tun_builder_set_proxy_auto_config_url (url : bytes) : M Builder bool := mret true.
Definition tun_builder_set_proxy_http (h : bytes) (p : Z) : M Builder bool := mret true.
Definition tun_builder_set_proxy_https (h : bytes) (p : Z) : M Builder bool := mret true.

Definition tun_builder_teardown (disconnect : bool) : M Builder unit :=
  on_lwip (set_packet_output false).

(** Packets from OpenVPN; exceptions are swallowed. *)
Definition inject_from_openvpn (packet : bytes) : M Builder unit :=
  try_catch (on_lwip (post_inject_l3_packet packet)) (mret tt).

(* ------------------------------------------------------------------ *)
(** ** What OpenVPN may call between [new] and [establish] *)

Inductive tun_call :=
| AddAddress (address : bytes) (prefix : Z) (gateway : bytes) (ipv6 net30 : bool)
| SetMtu (m : Z)
| SetDnsOptions (servers : list (list bytes))
| AddRoute (address : bytes) (prefix metric : Z) (ipv6 : bool)
| RerouteGw (ipv4 ipv6 : bool) (flags : Z)
| ExcludeRoute (address : bytes) (prefix metric : Z) (ipv6 : bool)
| SetRemoteAddress (address : bytes) (ipv6 : bool)
| SetSessionName (name : bytes)
| AddProxyBypass (bypass_host : bytes)
| SetProxyAutoConfigUrl (url : bytes)
| SetProxyHttp (h : bytes) (p : Z)
| SetProxyHttps (h : bytes) (p : Z).

Definition tun_builder_call (c : tun_call) : M Builder bool :=
  match c with
  | AddAddress a p g v6 n30 => tun_builder_add_address a p g v6 n30
  | SetMtu m => tun_builder_set_mtu m
  | SetDnsOptions s => tun_builder_set_dns_options s
  | AddRoute a p m v6 => tun_builder_add_route a p m v6
  | RerouteGw v4 v6 f => tun_builder_reroute_gw v4 v6 f
  | ExcludeRoute a p m v6 => tun_builder_exclude_route a p m v6
  | SetRemoteAddress a v6 => tun_builder_set_remote_address a v6
  | SetSessionName n => tun_builder_set_session_name n
  | AddProxyBypass h => tun_builder_add_proxy_bypass h
  | SetProxyAutoConfigUrl u => tun_builder_set_proxy_auto_config_url u
  | SetProxyHttp h p => tun_builder_set_proxy_http h p
  | SetProxyHttps h p => tun_builder_set_proxy_https h p
  end.

(** A session of calls; OpenVPN gives up at the first that answers [false]. *)
Fixpoint tun_builder_calls (cs : list tun_call) : M Builder bool :=
  match cs with
  | [] => mret true
  | c :: cs => ok ← tun_builder_call c; if (ok : bool) then tun_builder_calls cs else mret false
  end.

End TunBuilder.
