(* ===== verification/TunSpec.v ===== *)
(** * The tun builder: properties

    What a session of builder calls stages, what establishing it does to the
    interface, and what a failure leaves behind. *)
From S2P Require Import Prelude Types Text Lwip Dns Runtime TunBuilder.

(* ------------------------------------------------------------------ *)
(** ** The configuration a list of calls describes *)

Definition call_address (c : tun_call) : list TunAddress :=
  match c with AddAddress a p g v6 n30 => [mkTunAddress a g p v6 n30] | _ => [] end.
Definition call_dns (v6 : bool) (c : tun_call) : list bytes :=
  match c with
  | SetDnsOptions servers => filter (fun a => has_colon a = v6) (concat servers)
  | _ => []
  end.
Definition call_mtu (c : tun_call) : list Z := match c with SetMtu m => [m] | _ => [] end.

Definition staged (cs : list tun_call) : TunConfig :=
  mkTunConfig (concat (call_address <$> cs)) (concat (call_dns false <$> cs))
    (concat (call_dns true <$> cs)) (List.last (concat (call_mtu <$> cs)) 1500).

(** What one address does to the interface, and when it is one. *)
Section Interface.
Context `{!IpText}.

Definition address_ok (a : TunAddress) : bool :=
  bool_decide (is_Some (ipaddr_aton (c_str (ta_address a)))) &&
  (ta_ipv6 a ||
   (0 <=? prefix_length a) && (prefix_length a <=? 32) &&
   (bool_decide (ta_gateway a = []) || bool_decide (is_Some (ipaddr_aton (c_str (ta_gateway a)))))).

Definition ip_of (text : bytes) : ip_addr_t := default (IP4 0) (ipaddr_aton (c_str text)).

Definition with_address (n : Netif) (a : TunAddress) : Netif :=
  if ta_ipv6 a then n.[n_ip6 := Some (ip_2_ip6 (ip_of (ta_address a)))]
  else n.[n_ip4 := ip_2_ip4 (ip_of (ta_address a))]
        .[n_netmask := ret_value 0 (prefix_to_netmask (prefix_length a))]
        .[n_gw := if decide (ta_gateway a = []) then 0 else ip_2_ip4 (ip_of (ta_gateway a))].

(** The addresses in front of the first that is not valid. *)
Fixpoint usable (l : list TunAddress) : list TunAddress :=
  match l with
  | [] => []
  | a :: l => if address_ok a then a :: usable l else []
  end.

(** The interface for a configuration. *)
Definition netif_for (n : Netif) (c : TunConfig) : Netif :=
  foldl with_address (n.[n_mtu := u16 (if 0 <? mtu c then mtu c else 1500)]) (usable (addresses c)).

End Interface.

Section Spec.
Context `{!IpText, !UdpNet}.
Implicit Types (b : Builder) (w : RtWorld).

(* ------------------------------------------------------------------ *)
(** ** Staging *)

(** [c] followed by what a call adds. *)
Definition add_call (c : TunConfig) (k : tun_call) : TunConfig :=
  mkTunConfig (addresses c ++ call_address k) (ipv4_dns c ++ call_dns false k)
    (ipv6_dns c ++ call_dns true k) (List.last (mtu c :: call_mtu k) 1500).

Lemma add_dns_run a v6 b :
  tun_builder_add_dns_server a v6 b =
  (b.[pending_ := if v6 then (pending_ b).[ipv6_dns := ipv6_dns (pending_ b) ++ [a]]
                  else (pending_ b).[ipv4_dns := ipv4_dns (pending_ b) ++ [a]]], Ret true).
Proof. done. Qed.

Lemma add_server_run server b :
  each (fun a => _ ← tun_builder_add_dns_server a (has_colon a); mret tt) server b =
  (mkBuilder (mkTunConfig (addresses (pending_ b))
      (ipv4_dns (pending_ b) ++ filter (fun a => has_colon a = false) server)
      (ipv6_dns (pending_ b) ++ filter (fun a => has_colon a = true) server) (mtu (pending_ b)))
    (runtime b), Ret tt).
Proof.
  revert b. induction server as [|a server IH]; intros b; cbn [each].
  { rewrite !filter_nil, !app_nil_r. by destruct b as [[] ?]. }
  unfold mbind, M_bind. rewrite add_dns_run. cbn [mret M_ret]. rewrite IH.
  rewrite !filter_cons. destruct (has_colon a).
  - rewrite (decide_False (P := true = false)), (decide_True (P := true = true)) by done.
    cbn -[filter]. by rewrite <- app_assoc.
  - rewrite (decide_True (P := false = false)), (decide_False (P := false = true)) by done.
    cbn -[filter]. by rewrite <- app_assoc.
Qed.

Lemma add_servers_run servers b :
  each (fun server : list bytes =>
    each (fun a => _ ← tun_builder_add_dns_server a (has_colon a); mret tt) server) servers b =
  (mkBuilder (mkTunConfig (addresses (pending_ b))
      (ipv4_dns (pending_ b) ++ filter (fun a => has_colon a = false) (concat servers))
      (ipv6_dns (pending_ b) ++ filter (fun a => has_colon a = true) (concat servers)) (mtu (pending_ b)))
    (runtime b), Ret tt).
Proof.
  revert b. induction servers as [|s servers IH]; intros b; cbn [each concat].
  { rewrite !filter_nil, !app_nil_r. by destruct b as [[] ?]. }
  unfold mbind, M_bind at 1. rewrite add_server_run, IH. cbn.
  by rewrite !filter_app, !app_assoc.
Qed.

Lemma call_run k b : tun_builder_call k b = (b.[pending_ := add_call (pending_ b) k], Ret true).
Proof.
  destruct b as [[ads v4 v6 m] w]. unfold add_call.
  destruct k; cbn -[each filter]; rewrite ?app_nil_r; try done.
  unfold tun_builder_set_dns_options, mbind, M_bind. rewrite add_servers_run. done.
Qed.

Lemma calls_run ks b :
  tun_builder_calls ks b = (b.[pending_ := foldl add_call (pending_ b) ks], Ret true).
Proof.
  revert b. induction ks as [|k ks IH]; intros b; cbn [tun_builder_calls foldl]; [by destruct b|].
  unfold mbind, M_bind. rewrite call_run, IH. done.
Qed.

Lemma last_app_cons {A} (l1 l2 : list A) x d :
  List.last (l1 ++ x :: l2) d = List.last (x :: l2) d.
Proof. induction l1 as [|y l1 IH]; [done|]. cbn [app]. rewrite <- IH. by destruct l1. Qed.

Lemma foldl_add_call ks c :
  foldl add_call c ks =
  mkTunConfig (addresses c ++ concat (call_address <$> ks)) (ipv4_dns c ++ concat (call_dns false <$> ks))
    (ipv6_dns c ++ concat (call_dns true <$> ks)) (List.last (mtu c :: concat (call_mtu <$> ks)) 1500).
Proof.
  revert c. induction ks as [|k ks IH]; intros c; cbn [foldl fmap list_fmap concat].
  { rewrite !app_nil_r. by destruct c. }
  rewrite IH. unfold add_call. cbn [addresses ipv4_dns ipv6_dns mtu]. rewrite <- !app_assoc. f_equal.
  by destruct k.
Qed.

(* ------------------------------------------------------------------ *)
(** ** Establishing *)

#[local] Ltac answer := first [by exists (runtime_error []) | by eexists].

Lemma apply_address_run a w :
  exists e, apply_address a w =
  if address_ok a
  then (w.[rt := (rt w).[netif_ := with_address (netif_ (rt w)) a]], Ret tt)
  else (w, Exn e).
Proof.
  unfold apply_address, address_ok, with_address, ip_of, mbind, M_bind, lift, parse_ip_addr.
  destruct (ta_ipv6 a).
  { destruct (ipaddr_aton (c_str (ta_address a))); answer. }
  destruct (ipaddr_aton (c_str (ta_address a))) as [ip|]; [|answer].
  rewrite bool_decide_true by done. cbn [andb orb].
  unfold prefix_to_netmask.
  destruct (Z.ltb_spec (prefix_length a) 0), (Z.leb_spec 0 (prefix_length a)); try lia; [answer|].
  destruct (Z.ltb_spec 32 (prefix_length a)), (Z.leb_spec (prefix_length a) 32); try lia; [answer|].
  cbn [andb orb]. destruct (decide (ta_gateway a = [])) as [Eg|Eg].
  { rewrite bool_decide_true by done. answer. }
  rewrite bool_decide_false by done.
  destruct (ipaddr_aton (c_str (ta_gateway a))); answer.
Qed.

Lemma apply_addresses_run l w :
  exists e, apply_addresses l w =
  (w.[rt := (rt w).[netif_ := foldl with_address (netif_ (rt w)) (usable l)]],
   if forallb address_ok l then Ret tt else Exn e).
Proof.
  revert w. induction l as [|a l IH]; intros w; cbn [apply_addresses usable forallb].
  { exists (runtime_error []). by destruct w as [[] ? ? ? ? ? ? ? ? ?]. }
  unfold mbind, M_bind. destruct (apply_address_run a w) as [e ->].
  destruct (address_ok a); cbn [andb].
  - edestruct IH as [e' ->]. exists e'. done.
  - exists e. by destruct w as [[] ? ? ? ? ? ? ? ? ?].
Qed.

Lemma establish_run b :
  let w := runtime b in
  let c := pending_ b in
  let r := (rt w).[active_config_ := c].[netif_ := netif_for (netif_ (rt w)) c] in
  tun_builder_establish b =
  if forallb address_ok (addresses c)
  then (b.[runtime := w.[rt := r.[packet_output_ := true]]], Ret 0)
  else (b.[runtime := w.[rt := r]], Ret (-1)).
Proof.
  cbv zeta. unfold tun_builder_establish, try_catch, on_lwip, zoom, apply_tun_config_and_output,
    apply_tun_config, mbind, M_bind, get, set_rt, modify. cbv beta iota.
  match goal with |- context [apply_addresses _ ?v] => set (w1 := v) end.
  destruct (apply_addresses_run (addresses (pending_ b)) w1) as [e ->].
  destruct (forallb address_ok (addresses (pending_ b))); done.
Qed.

(* ------------------------------------------------------------------ *)
(** ** Properties *)

(** A session of builder calls stages exactly what it describes: the
    addresses in order, the name servers of each family in order, the last
    MTU given and 1500 otherwise; nothing of an earlier session remains, every
    call is accepted, and the runtime is not touched before establishing. *)
Theorem tun_builder_stages b ks :
  exists b', (_ ← tun_builder_new; tun_builder_calls ks) b = (b', Ret true) /\
    pending_ b' = staged ks /\ runtime b' = runtime b.
Proof.
  unfold mbind, M_bind. change (tun_builder_new b) with (b.[pending_ := default_TunConfig], @Ret bool true).
  cbv beta iota. rewrite calls_run. eexists. split; [done|]. split; [|done].
  cbn [pending_ update]. etransitivity; [apply foldl_add_call|]. unfold staged. f_equal.
  cbn [mtu default_TunConfig]. by destruct (concat (call_mtu <$> ks)).
Qed.

(** C35.  [tun_builder_establish] succeeds exactly when every staged address is
    valid.  It then makes the staged configuration the active one, sets the
    interface to it and connects the output.  When an address is not valid it
    answers -1 and leaves the output as it was, but the new configuration,
    name servers and MTU included, is already active and the addresses before
    the bad one are set. *)
Theorem tun_establish b :
  exists b' z, tun_builder_establish b = (b', Ret z) /\
    z = (if forallb address_ok (addresses (pending_ b)) then 0 else -1) /\
    pending_ b' = pending_ b /\
    active_config_ (rt (runtime b')) = pending_ b /\
    netif_ (rt (runtime b')) = netif_for (netif_ (rt (runtime b))) (pending_ b) /\
    packet_output_ (rt (runtime b')) =
      (forallb address_ok (addresses (pending_ b)) || packet_output_ (rt (runtime b))) /\
    dns_queries_ (rt (runtime b')) = dns_queries_ (rt (runtime b)).
Proof.
  rewrite (establish_run b). destruct (forallb address_ok (addresses (pending_ b)));
    eexists _, _; (split; [done|]); by split_and!.
Qed.

(** A packet OpenVPN delivers reaches lwIP once and whole, in the order of
    delivery, provided it has at most 65535 bytes, the runtime runs and the
    pool has a buffer; and what lwIP sends goes out unchanged while the
    output is connected, and is refused with [ERR_RTE] after the teardown. *)
Theorem tun_packet_paths b packet :
  packet <> [] -> Z.of_nat (length packet) <= 65535 ->
  rt_running_ (rt (runtime b)) = true -> token_holds_ (rt (runtime b)) = true ->
  fst (pbuf_alloc (Z.of_nat (length packet)) (rlwip (runtime b))) = true ->
  (exists b', inject_from_openvpn packet b = (b', Ret tt) /\
     injected (runtime b') = injected (runtime b) ++ [(packet, token_ (rt (runtime b)))] /\
     exists w', run_injected packet (token_ (rt (runtime b))) (runtime b') = (w', Ret tt) /\
       rcalls w' = rcalls (runtime b) ++ [RInput packet]) /\
  (packet_output_ (rt (runtime b)) = true ->
     exists w', emit_packet packet (runtime b) = (w', Ret ERR_OK) /\
       rcalls w' = rcalls (runtime b) ++ [ROutput packet]) /\
  exists b', tun_builder_teardown true b = (b', Ret tt) /\
    emit_packet packet (runtime b') = (runtime b', Ret ERR_RTE).
Proof.
  intros Hne Hlen Hrun Htok Hbuf. split; [|split].
  - destruct b as [c w]. unfold inject_from_openvpn, try_catch, on_lwip, zoom, post_inject_l3_packet.
    rewrite decide_False by done. eexists. split; [done|]. split; [done|]. cbn [runtime update] in *.
    unfold run_injected, mbind, M_bind, get. cbv beta iota.
    rewrite bool_decide_true by done. cbn -[inject_l3_packet]. rewrite Hrun, Htok.
    cbn -[inject_l3_packet]. unfold inject_l3_packet. rewrite decide_False by done.
    rewrite u16_small by lia. unfold mbind, M_bind, rstack. cbn -[take].
    destruct (pbuf_alloc _ _) as [ok n]. cbn in Hbuf. subst ok.
    eexists. split; [done|]. cbn -[take]. rewrite Nat2Z.id, take_ge by done. done.
  - intros Hout. unfold emit_packet, mbind, M_bind, get. rewrite Hout. by eexists.
  - eexists. split; [done|]. done.
Qed.

End Spec.

(* ------------------------------------------------------------------ *)
(** ** Witness *)

Definition no_literals : IpText := {| ipaddr_aton := fun _ => None |}.
#[local] Existing Instances no_literals toy_udp.

Definition running_builder : Builder :=
  mkBuilder default_TunConfig (fst (start_runtime (new_runtime 1 ([] : @unet toy_udp)))).

Lemma tun_packet_paths_witness :
  (exists b', inject_from_openvpn [x45] running_builder = (b', Ret tt) /\
     injected (runtime b') = [([x45], 0%nat)] /\
     exists w', run_injected [x45] 0 (runtime b') = (w', Ret tt) /\ rcalls w' = [RInput [x45]]) /\
  (packet_output_ (rt (runtime running_builder)) = true ->
     exists w', emit_packet [x45] (runtime running_builder) = (w', Ret ERR_OK) /\
       rcalls w' = [ROutput [x45]]) /\
  exists b', tun_builder_teardown true running_builder = (b', Ret tt) /\
    emit_packet [x45] (runtime b') = (runtime b', Ret ERR_RTE).
Proof. apply (tun_packet_paths running_builder [x45]); done. Defined.
