(* ===== verification/OpenVpn.v ===== *)
(** * The OpenVPN client

    [src/OpenVpnClient.cpp], the build with openvpn3: the memory tun that
    OpenVPN reads and writes instead of a device, the profile scan, [start]
    and [stop], and the thread that connects again and again.

    openvpn3 is the environment: it makes tun clients and calls them, runs the
    functions posted to its event loop, and answers [connect] and
    [eval_config].  The text of the profile is given. *)
From S2P Require Import Prelude Types Text Regex Lwip Dns Runtime TunBuilder.

(* ------------------------------------------------------------------ *)
(** ** The profile scan *)

(** [std::string::find(needle) != npos] *)
Fixpoint starts_with (needle s : bytes) : bool :=
  match needle, s with
  | [], _ => true
  | c :: needle, d :: s => bool_decide (c = d) && starts_with needle s
  | _ :: _, [] => false
  end.
Fixpoint contains (needle s : bytes) : bool :=
  starts_with needle s || match s with [] => false | _ :: s => contains needle s end.

(** [^\s*(?:data-)?cipher\s+(\S+)], with [icase] and [multiline] *)
Definition cipher_re : regex :=
  (RBol · RStar (RClass is_space) · ROpt (RText (str "data-")) · RText (str "cipher") ·
   RPlus (RClass is_space) · RGroup (RPlus (RClass (fun c => negb (is_space c)))))%re.

Definition AEAD_CIPHERS : list bytes :=
  [str "AES-128-GCM"; str "AES-192-GCM"; str "AES-256-GCM"; str "CHACHA20-POLY1305"].

Definition scan_ovpn_for_non_aead_cipher (content : bytes) : bool :=
  existsb (fun cipher =>
    let cipher := filter (fun c => c <> x0d) cipher in
    bool_decide (cipher <> str "none") && bool_decide (cipher ∉ AEAD_CIPHERS))
    (regex_matches cipher_re content).

(* ------------------------------------------------------------------ *)
(** ** State *)

Section OpenVpn.
Context `{!IpText, !UdpNet}.

(** What the client does to its surroundings. *)
Inductive ocall :=
| TunError (setup : bool) | TunConnected | TunRecv (packet : bytes)
| ReadyHandler | DisconnectHandler | CoreStop | ThreadStarted | ThreadStopRequested.

(** [tuns]: the [connected] flag of every memory tun, which are reference
    counted by openvpn3; [memory_tun] is the core client's; [core_posts] are
    the functions posted to OpenVPN's event loop. *)
Record OpenVpnClient := mkOpenVpnClient {
  tun_builder_ : Builder;
  tuns : list bool;
  memory_tun : option nat;
  core_posts : list (nat * bytes);
  vpn_running_ : bool;
  needs_downgrade_ : bool;
  ready_handler_ : bool;
  disconnect_handler_ : bool;
  ocalls : list ocall
}.
#[export] Instance OpenVpnClient_eta : Eta OpenVpnClient := fun o =>
  mkOpenVpnClient (tun_builder_ o) (tuns o) (memory_tun o) (core_posts o) (vpn_running_ o)
    (needs_downgrade_ o) (ready_handler_ o) (disconnect_handler_ o) (ocalls o).

Definition olog (c : ocall) : M OpenVpnClient unit := modify (fun o => o.[ocalls := ocalls o ++ [c]]).
(** [CoreClient] forwards the builder's calls to the owner's builder. *)
Definition on_builder {A} (m : M Builder A) : M OpenVpnClient A :=
  zoom tun_builder_ (fun b o => o.[tun_builder_ := b]) m.
Definition set_connected (t : nat) (c : bool) : M OpenVpnClient unit :=
  modify (fun o => o.[tuns := <[t := c]> (tuns o)]).
Definition is_connected (t : nat) (o : OpenVpnClient) : bool := default false (tuns o !! t).

Definition set_ready_handler (h : bool) : M OpenVpnClient unit := modify (fun o => o.[ready_handler_ := h]).
Definition set_disconnect_handler (h : bool) : M OpenVpnClient unit :=
  modify (fun o => o.[disconnect_handler_ := h]).
Definition notify_tun_ready : M OpenVpnClient unit :=
  o ← get; if ready_handler_ o then olog ReadyHandler else mret tt.
Definition notify_tun_down : M OpenVpnClient unit :=
  o ← get; if disconnect_handler_ o then olog DisconnectHandler else mret tt.

(* ------------------------------------------------------------------ *)
(** ** The memory tun *)

Definition set_memory_tun (t : nat) : M OpenVpnClient unit := modify (fun o => o.[memory_tun := Some t]).

Definition new_tun_client_obj : M OpenVpnClient nat :=
  o ← get;
  _ ← modify (fun o => o.[tuns := tuns o ++ [false]]);
  _ ← set_memory_tun (length (tuns o));
  mret (length (tuns o)).

(** [tun_start]: [configure_builder] makes the calls [cs] and may throw. *)
Definition tun_start (t : nat) (cs : list tun_call) (throws : option exn) : M OpenVpnClient unit :=
  fresh ← on_builder tun_builder_new;
  if (fresh : bool) then
    try_catch
      (_ ← on_builder (tun_builder_calls cs);
       _ ← match throws with Some e => lift (Exn e) | None => mret tt end;
       z ← on_builder tun_builder_establish;
       if decide (z = 0) then
         _ ← set_connected t true;
         _ ← olog TunConnected;
         notify_tun_ready
       else olog (TunError false))
      (olog (TunError true))
  else olog (TunError true).

(** [stop] and [set_disconnect] of the memory tun *)
Definition tun_stop (t : nat) : M OpenVpnClient unit :=
  _ ← set_connected t false;
  _ ← on_builder (tun_builder_teardown true);
  notify_tun_down.
Definition set_disconnect (t : nat) : M OpenVpnClient unit :=
  _ ← set_connected t false; notify_tun_down.

(** [tun_send]: a packet from the server. *)
Definition tun_send (t : nat) (buf : bytes) : M OpenVpnClient bool :=
  if decide (buf = []) then mret true
  else _ ← on_builder (inject_from_openvpn buf); mret true.

(** [MemoryTunClient::inject_l3_packet], and the function it posts. *)
Definition tun_inject (t : nat) (packet : bytes) : M OpenVpnClient unit :=
  o ← get;
  if negb (is_connected t o) || bool_decide (packet = []) then mret tt
  else modify (fun o => o.[core_posts := core_posts o ++ [(t, packet)]]).
Definition run_core_post (t : nat) (packet : bytes) : M OpenVpnClient unit :=
  o ← get; if is_connected t o then olog (TunRecv packet) else mret tt.

(* ------------------------------------------------------------------ *)
(** ** The core client *)

Definition core_inject_l3_packet (packet : bytes) : M OpenVpnClient unit :=
  o ← get; match memory_tun o with Some t => tun_inject t packet | None => mret tt end.

(** [impl_.reset(new Impl)]: the core client, and with it its hold on the
    memory tun, is replaced. *)
Definition reset_impl : M OpenVpnClient unit := modify (fun o => o.[memory_tun := None]).

Definition core_event (name : bytes) : M OpenVpnClient unit :=
  if decide (name = str "DISCONNECTED")
  then _ ← modify (fun o => o.[memory_tun := None]); notify_tun_down
  else mret tt.

Definition core_log (text : bytes) : M OpenVpnClient unit :=
  o ← get;
  if decide (text = []) then mret tt
  else if negb (needs_downgrade_ o) &&
          (contains (str "bad cipher for data channel") text ||
           contains (str "server-pushed cipher") text ||
           contains (str "Problem accepting server-pushed cipher") text)
  then _ ← modify (fun o => o.[needs_downgrade_ := true]); olog CoreStop
  else mret tt.

(* ------------------------------------------------------------------ *)
(** ** Answers to openvpn3 *)

(** [TunProp::State], which [configure_builder] fills, as far as it is read;
    an address that is not [specified()] is [None], another is its
    [to_string()]. *)
Record TunState := mkTunState {
  vpn_ip4_addr : option bytes; vpn_ip6_addr : option bytes;
  vpn_ip4_gw : option bytes; vpn_ip6_gw : option bytes; state_mtu : Z
}.
Definition tun_name : bytes := str "ovpn2ss-memory-tun".
Definition vpn_ip4 (state : option TunState) : bytes := default [] (state ≫= vpn_ip4_addr).
Definition vpn_ip6 (state : option TunState) : bytes := default [] (state ≫= vpn_ip6_addr).
Definition vpn_gw4 (state : option TunState) : bytes := default [] (state ≫= vpn_ip4_gw).
Definition vpn_gw6 (state : option TunState) : bytes := default [] (state ≫= vpn_ip6_gw).
Definition vpn_mtu (state : option TunState) (conf_mtu : Z) : Z :=
  match state with Some s => state_mtu s | None => conf_mtu end.
Definition supports_epoch_data : bool := true.
Definition pause_on_connection_timeout : bool := false.
Definition socket_protect : bool := true.

(** [external_pki_cert_request] and [external_pki_sign_request] on the
    request's [error] and [errorText]. *)
Record PkiRequest := mkPkiRequest { error : bool; errorText : bytes }.
Definition external_pki_cert_request (req : PkiRequest) : PkiRequest :=
  mkPkiRequest true (str "external PKI is not configured").
Definition external_pki_sign_request (req : PkiRequest) : PkiRequest :=
  mkPkiRequest true (str "external PKI is not configured").

(* ------------------------------------------------------------------ *)
(** ** The client *)

(** [start] up to the thread: [content] is the profile, [None] when it cannot
    be opened; [eval_ok] is the answer of [eval_config], whose message is left
    out of the exception's text; the result is whether the thread begins with
    the non-preferred algorithms. *)
Definition start_client (path : bytes) (content : option bytes) (eval_ok : bool -> bool)
  : M OpenVpnClient (option bool) :=
  o ← get;
  if vpn_running_ o then mret None
  else
    _ ← modify (fun o => o.[vpn_running_ := true]);
    match content with
    | None =>
        _ ← modify (fun o => o.[vpn_running_ := false]);
        lift (Exn (runtime_error (str "cannot open ovpn config: " ++ path)))
    | Some content =>
        non_preferred ← (if scan_ovpn_for_non_aead_cipher content then mret true
                         else
                           _ ← modify (fun o => o.[needs_downgrade_ := false]);
                           mret (needs_downgrade_ o));
        if (eval_ok non_preferred : bool)
        then _ ← olog ThreadStarted; mret (Some non_preferred)
        else
          _ ← modify (fun o => o.[vpn_running_ := false]);
          lift (throw "openvpn config eval failed")
    end.

Definition stop_client : M OpenVpnClient unit :=
  o ← get;
  _ ← modify (fun o => o.[vpn_running_ := false]);
  if vpn_running_ o then _ ← olog ThreadStopRequested; olog CoreStop else mret tt.

(** [send_l3_packet]: what lwIP sends, through the builder's [send_from_lwip]. *)
Definition send_l3_packet (packet : bytes) : M OpenVpnClient unit :=
  o ← get;
  if negb (vpn_running_ o) || bool_decide (packet = []) then mret tt
  else core_inject_l3_packet packet.
Definition send_from_lwip (packet : bytes) : M OpenVpnClient unit :=
  try_catch (send_l3_packet packet) (mret tt).

(** The constructor. *)
Definition new_client (b : Builder) : OpenVpnClient :=
  mkOpenVpnClient b [] None [] false false false false [].

(* ------------------------------------------------------------------ *)
(** ** Events *)

(** What may happen to a client: calls by openvpn3 on its event loop, packets
    from lwIP, calls by the owner. *)
Inductive vevent :=
| VNewTun | VTunStart (t : nat) (cs : list tun_call) (throws : option exn)
| VTunStop (t : nat) | VSetDisconnect (t : nat) | VTunSend (t : nat) (buf : bytes)
| VFromLwip (packet : bytes) | VCorePost
| VEvent (name : bytes) | VLog (text : bytes) | VResetImpl
| VStart (path : bytes) (content : option bytes) (eval_ok : bool -> bool) | VStop
| VReadyHandler (h : bool) | VDisconnectHandler (h : bool).

Definition next_core_post : M OpenVpnClient unit :=
  o ← get;
  match core_posts o with
  | [] => mret tt
  | (t, p) :: q => _ ← modify (fun o => o.[core_posts := q]); run_core_post t p
  end.

Definition vstep (o : OpenVpnClient) (e : vevent) : OpenVpnClient :=
  match e with
  | VNewTun => fst (new_tun_client_obj o)
  | VTunStart t cs throws => fst (tun_start t cs throws o)
  | VTunStop t => fst (tun_stop t o)
  | VSetDisconnect t => fst (set_disconnect t o)
  | VTunSend t buf => fst (tun_send t buf o)
  | VFromLwip p => fst (send_from_lwip p o)
  | VCorePost => fst (next_core_post o)
  | VEvent name => fst (core_event name o)
  | VLog text => fst (core_log text o)
  | VResetImpl => fst (reset_impl o)
  | VStart path content eval_ok => fst (start_client path content eval_ok o)
  | VStop => fst (stop_client o)
  | VReadyHandler h => fst (set_ready_handler h o)
  | VDisconnectHandler h => fst (set_disconnect_handler h o)
  end.
End OpenVpn.

(* ------------------------------------------------------------------ *)
(** ** The connecting thread

    [checks] are the answers of [running_ && !stop_requested()], one for each
    time the thread asks; when they are used up every answer is [false].
    [rounds] are what [connect] does, whether the cipher negotiation failed
    meanwhile ([needs_downgrade_] was set and [running_] still is), and
    whether the [eval_config] that follows fails. *)

Inductive connect_result := Returned (error : bool) | Threw.
Record Round := mkRound { connect : connect_result; downgrade : bool; eval_error : bool }.
Definition default_round : Round := mkRound (Returned true) false false.

Inductive action :=
| ProvideCreds | Connect | StopCore | Wait (ms : Z) | Sleep | NewImpl (non_preferred : bool) | ClearRunning.

Record Loop := mkLoop {
  using_non_preferred : bool;
  reconnect_delay_ms : Z;
  checks : list bool;
  rounds : list Round;
  trace : list action
}.
#[export] Instance Loop_eta : Eta Loop := fun l =>
  mkLoop (using_non_preferred l) (reconnect_delay_ms l) (checks l) (rounds l) (trace l).

Definition act (a : action) (l : Loop) : Loop := l.[trace := trace l ++ [a]].
Definition check (l : Loop) : bool * Loop :=
  match checks l with [] => (false, l) | b :: cs => (b, l.[checks := cs]) end.
Definition next_round (l : Loop) : Round * Loop :=
  match rounds l with [] => (default_round, l) | r :: rs => (r, l.[rounds := rs]) end.

Definition max_reconnect_delay_ms : Z := 30000.

(** [for (elapsed = 0; elapsed < delay && ...; elapsed += 200)] *)
Fixpoint sleep_loop (fuel : nat) (elapsed : Z) (l : Loop) : option Loop :=
  match fuel with
  | O => None
  | S fuel =>
      if elapsed <? reconnect_delay_ms l then
        match check l with
        | (true, l) => sleep_loop fuel (elapsed + 200) (act Sleep l)
        | (false, l) => Some l
        end
      else Some l
  end.

(** [impl_.reset(new Impl)] and [eval_config]. *)
Definition renew_impl (l : Loop) : Loop := act (NewImpl (using_non_preferred l)) l.

(** Behind the loop, where its condition and [break] lead; the two early
    returns clear [running_] themselves. *)
Definition after_loop (l : Loop) : option Loop := Some (act ClearRunning l).

(** The second half of the loop's body, from the check before the wait on;
    [again] is the next iteration. *)
Definition wait_and_reconnect (again : Loop -> option Loop) (r : Round) (l : Loop) : option Loop :=
  match check l with
  | (false, l) => after_loop l
  | (true, l) =>
      l ← sleep_loop (2 + Z.to_nat (reconnect_delay_ms l / 200)) 0
            (act (Wait (reconnect_delay_ms l)) l);
      match check l with
      | (false, l) => after_loop l
      | (true, l) =>
          let l := l.[reconnect_delay_ms := Z.min (reconnect_delay_ms l * 2) max_reconnect_delay_ms] in
          let l := renew_impl l in
          if eval_error r then Some (act ClearRunning l) else again l
      end
  end.

(** The loop; [None] means that the fuel ran out. *)
Fixpoint vpn_loop (fuel : nat) (creds : bool) (l : Loop) : option Loop :=
  match fuel with
  | O => None
  | S fuel =>
      match check l with
      | (false, l) => after_loop l
      | (true, l) =>
          let l := if creds then act ProvideCreds l else l in
          let '(r, l) := next_round (act Connect l) in
          match connect r with
          | Threw => wait_and_reconnect (vpn_loop fuel creds) r l
          | Returned _ =>
              let l := l.[reconnect_delay_ms := 2000] in
              if downgrade r && negb (using_non_preferred l) then
                let l := renew_impl (act StopCore (l.[using_non_preferred := true])) in
                if eval_error r then Some (act ClearRunning l) else vpn_loop fuel creds l
              else wait_and_reconnect (vpn_loop fuel creds) r l
          end
      end
  end.

(** The thread function. *)
Definition vpn_thread (creds non_preferred : bool) (cs : list bool) (rs : list Round) : option Loop :=
  vpn_loop (S (length cs)) creds (mkLoop non_preferred 2000 cs rs []).
