(* ===== verification/ScanSpec.v ===== *)
(** * The profile scan: properties

    The backtracking search of the expression is equivalent to a linear scan,
    and the scan finds exactly the directives it is meant to find. *)
From S2P Require Import Prelude Types Text Regex OpenVpn.

Implicit Types (s pre rest word w : bytes).

(* ------------------------------------------------------------------ *)
(** ** A scan without backtracking

    None of the repetitions of the expression can give up a character that the
    rest needs, so each can take all it can get at once. *)

Fixpoint skip_spaces (s : bytes) : bytes :=
  match s with
  | c :: s' => if is_space c then skip_spaces s' else s
  | [] => []
  end.
Fixpoint take_word (s : bytes) : bytes * bytes :=
  match s with
  | c :: s' => if is_space c then ([], s) else let '(w, r) := take_word s' in (c :: w, r)
  | [] => ([], [])
  end.
(** What follows [word], compared without case. *)
Fixpoint after_word (word s : bytes) : option bytes :=
  match word, s with
  | [], _ => Some s
  | c :: word, d :: s => if bool_decide (c = lower d) then after_word word s else None
  | _ :: _, [] => None
  end.

(** A match that begins here: the captured word and the rest. *)
Definition cipher_match (s : bytes) : option (bytes * bytes) :=
  let s := skip_spaces s in
  let s := default s (after_word (str "data-") s) in
  match after_word (str "cipher") s with
  | Some ((c :: _) as s) =>
      if is_space c then
        match take_word (skip_spaces s) with
        | ([], _) => None
        | (w, r) => Some (w, r)
        end
      else None
  | _ => None
  end.

(** The captured words of all matches, in order; [bol]: a line begins here. *)
Fixpoint ciphers (fuel : nat) (bol : bool) (s : bytes) : list bytes :=
  match fuel with
  | O => []
  | S fuel =>
      match (if bol then cipher_match s else None), s with
      | Some (w, r), _ => w :: ciphers fuel false r
      | None, [] => []
      | None, c :: s => ciphers fuel (is_newline c) s
      end
  end.

(* ------------------------------------------------------------------ *)
(** ** The expression is matched as by this scan *)

(** Where a run of the class [f] ends. *)
Fixpoint run_end (f : byte -> bool) (prev : option byte) s : pos :=
  match s with
  | c :: s' => if f c then run_end f (Some c) s' else (prev, s)
  | [] => (prev, [])
  end.

(** A greedy repetition of a class takes the whole run, if what follows fails
    in front of the rest of a run at whose end it fails. *)
Lemma star_class f k fuel prev s cap :
  (length s <= fuel)%nat ->
  (forall q c s', f c = true -> k (run_end f (Some c) s') cap = None -> k (q, c :: s') cap = None) ->
  star_loop (rmatch (RClass f)) k fuel (prev, s) cap = k (run_end f prev s) cap.
Proof.
  intros Hf Hk. revert fuel prev Hf. induction s as [|c s IH]; intros fuel prev Hf.
  - by destruct fuel.
  - destruct fuel as [|fuel]; [cbn in Hf; lia|]. cbn [star_loop rmatch snd run_end].
    destruct (f c) eqn:Ec; [|done]. rewrite (proj2 (Nat.ltb_lt _ _)) by (cbn; lia).
    rewrite IH by (cbn in Hf; lia). destruct (k (run_end f (Some c) s) cap) eqn:E; [done|]. by apply Hk.
Qed.

Lemma run_end_spaces prev s : (run_end is_space prev s).2 = skip_spaces s.
Proof. revert prev. induction s as [|c s IH]; intros prev; [done|]. cbn. by destruct (is_space c). Qed.

Lemma run_end_word prev s :
  run_end (fun c => negb (is_space c)) prev s =
    (match last (take_word s).1 with Some c => Some c | None => prev end, (take_word s).2).
Proof.
  revert prev. induction s as [|c s IH]; intros prev; [done|]. cbn. destruct (is_space c); [done|]. cbn [negb].
  rewrite IH. destruct (take_word s) as [w r]. cbn [fst snd]. rewrite last_cons. by destruct (last w).
Qed.

Lemma take_word_app s : (take_word s).1 ++ (take_word s).2 = s.
Proof.
  induction s as [|c s IH]; [done|]. cbn. destruct (is_space c); [done|].
  destruct (take_word s) as [w r]. cbn in *. by rewrite IH.
Qed.

(** The pieces of the expression from the end: what [match_at] makes of each
    depends only on the text behind the position. *)
Abbreviation finish := (fun p cap => Some (cap, p) : option result).
Definition word_then (s : bytes) : option result :=
  match take_word s with
  | ([], _) => None
  | (w, r) => Some (Some w, (last w, r))
  end.
Definition spaces_then (s : bytes) : option result :=
  match s with
  | c :: s => if is_space c then word_then (skip_spaces s) else None
  | [] => None
  end.
Definition cipher_then (s : bytes) : option result := after_word (str "cipher") s ≫= spaces_then.

Lemma match_word p cap :
  rmatch (RGroup (RPlus (RClass (fun c => negb (is_space c))))) p cap finish = word_then p.2.
Proof.
  destruct p as [prev [|c s]]; [done|]. unfold word_then, RPlus. rewrite rmatch_group, rmatch_seq, rmatch_class.
  cbn [snd take_word]. destruct (is_space c) eqn:Ec; [done|]. cbn [negb]. rewrite rmatch_star, star_class by done. rewrite run_end_word.
  pose proof (take_word_app s) as Es. destruct (take_word s) as [w r]. cbn in Es |- *. subst s.
  do 2 f_equal.
  - f_equal. rewrite length_app. replace (S (length w + length r) - length r)%nat with (S (length w)) by lia.
    cbn. by rewrite take_app_length.
  - f_equal. by rewrite last_cons.
Qed.

Lemma match_spaces p cap :
  rmatch (RPlus (RClass is_space)) p cap
    (fun p cap => rmatch (RGroup (RPlus (RClass (fun c => negb (is_space c))))) p cap finish) = spaces_then p.2.
Proof.
  destruct p as [prev [|c s]]; [done|]. unfold RPlus at 1. rewrite rmatch_seq, rmatch_class. cbn [snd spaces_then].
  destruct (is_space c); [|done].
  rewrite rmatch_star, star_class; [by rewrite match_word, run_end_spaces|done|].
  intros q d s' Hd _. rewrite match_word. cbn. unfold word_then. cbn. by rewrite Hd.
Qed.

(** A text, when what follows only looks behind the position. *)
Lemma match_text word p cap (k : pos -> option bytes -> option result) (g : bytes -> option result) :
  (forall q, k q cap = g q.2) -> rmatch (RText word) p cap k = after_word (lower <$> word) p.2 ≫= g.
Proof.
  intros Hk. revert p. induction word as [|c word IH]; intros p; [apply Hk|].
  cbn [RText]. rewrite rmatch_seq, rmatch_class. destruct p as [prev [|d s]]; [done|]. cbn [snd fmap list_fmap after_word].
  case_bool_decide; [apply IH|done].
Qed.

Lemma after_word_length word s r : after_word word s = Some r -> (length r + length word = length s)%nat.
Proof.
  revert s. induction word as [|c word IH]; intros s; [intros [= ->]; cbn; lia|].
  destruct s as [|d s]; [done|]. cbn. case_bool_decide; [|done]. intros E%IH. lia.
Qed.
Lemma after_word_head c word d s r : after_word (c :: word) (d :: s) = Some r -> lower d = c.
Proof. cbn. by case_bool_decide. Qed.

Definition data_then (s : bytes) : option result := cipher_then (default s (after_word (str "data-") s)).

Lemma cipher_then_head d s : lower d <> ch "c" -> cipher_then (d :: s) = None.
Proof.
  intros Hd. unfold cipher_then. destruct (after_word (str "cipher") (d :: s)) eqn:E; [|done].
  by apply after_word_head in E.
Qed.

Lemma match_data p cap :
  rmatch (ROpt (RText (str "data-"))) p cap (fun p cap => rmatch (RText (str "cipher")) p cap (fun p cap =>
    rmatch (RPlus (RClass is_space)) p cap (fun p cap =>
      rmatch (RGroup (RPlus (RClass (fun c => negb (is_space c))))) p cap finish))) = data_then p.2.
Proof.
  assert (forall q, rmatch (RText (str "cipher")) q cap (fun p cap =>
    rmatch (RPlus (RClass is_space)) p cap (fun p cap =>
      rmatch (RGroup (RPlus (RClass (fun c => negb (is_space c))))) p cap finish)) = cipher_then q.2) as Hc.
  { intros q. apply (match_text (str "cipher")). intros q'. apply match_spaces. }
  rewrite rmatch_opt, Hc.
  rewrite (match_text (str "data-") p cap _
    (fun s => if (length s <? length p.2)%nat then cipher_then s else None)) by (intros q; by rewrite Hc).
  change (lower <$> str "data-") with (str "data-"). unfold data_then.
  destruct (after_word (str "data-") p.2) as [r|] eqn:E; [|done]. change (default p.2 (Some r)) with r.
  change (Some r ≫= ?g) with (g r). cbv beta.
  rewrite (proj2 (Nat.ltb_lt _ _)) by (apply after_word_length in E; cbn in E; lia).
  destruct (cipher_then r); [done|]. destruct p as [prev [|d s]]; [done|]. apply cipher_then_head.
  apply after_word_head in E. cbn in E. by rewrite E.
Qed.

Lemma space_letter c : is_space c = true -> lower c <> ch "c" /\ lower c <> ch "d".
Proof. intros Hc. split; intros E; revert c Hc E; check_all_bytes. Qed.

Lemma match_directive p cap :
  rmatch (ROpt (RText (str "data-")) · RText (str "cipher") · RPlus (RClass is_space) ·
    RGroup (RPlus (RClass (fun c => negb (is_space c)))))%re p cap finish = data_then p.2.
Proof. exact (match_data p cap). Qed.

(** The whole expression at a position. *)
Lemma match_cipher p :
  match_at cipher_re p = if at_bol p then data_then (skip_spaces p.2) else None.
Proof.
  unfold match_at, cipher_re. rewrite rmatch_seq, rmatch_bol. destruct (at_bol p); [|done].
  rewrite rmatch_seq, rmatch_star. destruct p as [prev s]. cbn [snd].
  rewrite star_class; [by rewrite match_directive, run_end_spaces|done|].
  intros q c s' Hc _. rewrite match_directive. unfold data_then. cbn [snd].
  destruct (space_letter c Hc) as [Hl1 Hl2].
  destruct (after_word (str "data-") (c :: s')) eqn:E; [by apply after_word_head in E|]. by apply cipher_then_head.
Qed.

(** The same as [cipher_match], with the last character of the word. *)
Lemma cipher_match_result s :
  data_then (skip_spaces s) =
    match cipher_match s with Some (w, r) => Some (Some w, (last w, r)) | None => None end.
Proof.
  unfold data_then, cipher_match, cipher_then. cbv zeta. set (s' := default _ _).
  destruct (after_word (str "cipher") s') as [[|c s2]|]; [done| |done].
  change (Some (c :: s2) ≫= spaces_then) with (spaces_then (c :: s2)). cbn [spaces_then].
  destruct (is_space c) eqn:Ec; [|done]. cbn [skip_spaces]. rewrite Ec. unfold word_then.
  by destruct (take_word (skip_spaces s2)) as [[|d w] r].
Qed.

Lemma skip_spaces_length s : (length (skip_spaces s) <= length s)%nat.
Proof. induction s as [|c s IH]; [done|]. cbn. destruct (is_space c); cbn; lia. Qed.
Lemma take_word_solid_word s : Forall (fun c => is_space c = false) (take_word s).1.
Proof.
  induction s as [|c s IH]; [constructor|]. cbn. destruct (is_space c) eqn:Ec; [constructor|].
  destruct (take_word s) as [w r]. by constructor.
Qed.

(** A match takes something, and ends behind a character of a word. *)
Lemma cipher_match_shrinks s w r :
  cipher_match s = Some (w, r) -> (length r < length s)%nat /\ at_bol (last w, r) = false.
Proof.
  unfold cipher_match. cbv zeta. pose proof (skip_spaces_length s) as Hs. set (s1 := skip_spaces s) in *.
  assert (length (default s1 (after_word (str "data-") s1)) <= length s1)%nat as Hd.
  { destruct (after_word (str "data-") s1) eqn:E; [|done]. apply after_word_length in E. cbn. lia. }
  destruct (after_word (str "cipher") _) as [[|c s3]|] eqn:E3; [done| |done]. apply after_word_length in E3.
  destruct (is_space c); [|done]. pose proof (take_word_app (skip_spaces (c :: s3))) as Et.
  pose proof (take_word_solid_word (skip_spaces (c :: s3))) as Hw. pose proof (skip_spaces_length (c :: s3)).
  destruct (take_word (skip_spaces (c :: s3))) as [[|d w'] r']; [done|]. intros [= <- <-]. cbn [fst snd] in *.
  split; [apply (f_equal length) in Et; rewrite length_app in Et; cbn in *; lia|].
  unfold at_bol. cbn [fst]. destruct (last (d :: w')) as [e|] eqn:El; [|by rewrite last_None in El].
  rewrite Forall_forall in Hw. assert (is_space e = false) as He by (apply Hw; by apply last_Some_elem_of).
  revert He. clear. revert e. check_all_bytes.
Qed.

Lemma matches_ciphers n m prev s :
  (length s < n)%nat -> (length s < m)%nat ->
  matches_from cipher_re m (prev, s) = ciphers n (at_bol (prev, s)) s.
Proof.
  revert m prev s. induction n as [|n IH]; intros m prev s Hn Hm; [lia|]. destruct m as [|m]; [lia|].
  cbn [matches_from ciphers fst snd].
  assert (search_from cipher_re prev s =
    match (if at_bol (prev, s) then data_then (skip_spaces s) else None), s with
    | Some x, _ => Some x | None, [] => None | None, c :: s' => search_from cipher_re (Some c) s' end) as ->.
  { destruct s as [|c s]; cbn [search_from]; rewrite match_cipher; by destruct (at_bol _). }
  rewrite cipher_match_result.
  destruct (if at_bol (prev, s) then cipher_match s else None) as [[w r]|] eqn:E.
  - destruct (at_bol (prev, s)); [|done]. rewrite E. destruct (cipher_match_shrinks s w r E) as [Hl Hb].
    cbn [default]. rewrite (IH m (last w) r) by lia. by rewrite Hb.
  - replace (if at_bol (prev, s) then _ else None) with (@None result) by (destruct (at_bol _); by rewrite ?E).
    destruct s as [|c s]; [done|]. cbn in Hn, Hm.
    change (is_newline c) with (at_bol (Some c, s)). by rewrite <- (IH (S m) (Some c) s) by lia.
Qed.

(* ------------------------------------------------------------------ *)
(** ** What the scan finds *)

Definition spaces s : Prop := Forall (fun c => is_space c = true) s.
Definition solid s : Prop := Forall (fun c => is_space c = false) s.

(** A position where a line begins. *)
Definition line_start (bol : bool) pre : Prop :=
  match last pre with Some c => is_newline c = true | None => bol = true end.

Lemma newline_space e : is_newline e = true -> is_space e = true /\ lower e = e /\ e ∉ str "data-cipher".
Proof.
  intros [->%bool_decide_eq_true| ->%bool_decide_eq_true]%orb_true_iff; (split_and!; [done|done|]);
    intros He; by repeat (apply elem_of_cons in He as [He|He]; [done|]); apply elem_of_nil in He.
Qed.

Lemma line_start_snoc bol pre : line_start bol pre -> pre = [] /\ bol = true \/
  exists pre' e, pre = pre' ++ [e] /\ is_newline e = true.
Proof.
  unfold line_start. destruct pre as [|e pre _] using rev_ind; [by left|]. rewrite last_snoc. right. eauto.
Qed.

(** Matching only looks behind the leading spaces. *)
Lemma cipher_match_skip s : cipher_match s = cipher_match (skip_spaces s).
Proof.
  unfold cipher_match. assert (skip_spaces (skip_spaces s) = skip_spaces s) as ->; [|done].
  induction s as [|c s IH]; [done|]. cbn. destruct (is_space c) eqn:Ec; [done|]. cbn. by rewrite Ec.
Qed.

(** The pieces of the matcher in front of a line end [e]. *)
Lemma skip_spaces_app s rest : spaces s -> skip_spaces (s ++ rest) = skip_spaces rest.
Proof. induction 1 as [|c s Hc Hs IH]; [done|]. cbn. by rewrite Hc. Qed.

Lemma skip_spaces_solid c rest : is_space c = false -> skip_spaces (c :: rest) = c :: rest.
Proof. cbn. by intros ->. Qed.

Section LineEnd.
Context (e : byte) (He : is_newline e = true).

(** A text is blank, or has a word somewhere. *)
Lemma skip_spaces_cases pre rest :
  spaces pre \/ exists c pre', is_space c = false /\ (length pre' < length pre)%nat /\
    skip_spaces (pre ++ e :: rest) = c :: pre' ++ e :: rest.
Proof.
  induction pre as [|d pre [IH|(c & pre' & Hc & Hl & IH)]]; [by left; constructor|..].
  - destruct (is_space d) eqn:Ed; [left; by constructor|right]. exists d, pre.
    split_and!; [done|cbn; lia|]. cbn. by rewrite Ed.
  - right. destruct (is_space d) eqn:Ed.
    + exists c, pre'. split_and!; [done|cbn; lia|]. cbn. by rewrite Ed.
    + exists d, pre. split_and!; [done|cbn; lia|]. cbn. by rewrite Ed.
Qed.

Lemma after_word_split word pre rest r :
  after_word word (pre ++ e :: rest) = Some r -> e ∉ word ->
  exists pre', r = pre' ++ e :: rest /\ (length pre' + length word = length pre)%nat.
Proof.
  revert pre. induction word as [|c word IH]; intros pre E Hn; [injection E as <-; exists pre; split; [done|cbn; lia]|].
  apply not_elem_of_cons in Hn as [Hc Hn]. destruct pre as [|d pre]; cbn [after_word app] in E.
  - case_bool_decide as Ec; [|done]. by rewrite (proj1 (proj2 (newline_space e He))) in Ec.
  - case_bool_decide; [|done]. destruct (IH pre E Hn) as (pre' & -> & Hl). exists pre'. split; [done|cbn; lia].
Qed.

Lemma take_word_split pre rest :
  exists w pre', take_word (pre ++ e :: rest) = (w, pre' ++ e :: rest) /\ (length pre' <= length pre)%nat.
Proof.
  induction pre as [|c pre (w & pre' & E & Hl)].
  - exists [], []. cbn. by rewrite (proj1 (newline_space e He)).
  - cbn [app take_word]. destruct (is_space c); [by exists [], (c :: pre)|]. rewrite E. exists (c :: w), pre'.
    split; [done|cbn; lia].
Qed.

(** A match that begins in front of a line end stays in front of it, or begins
    with the next line's first word, or takes that word. *)
Lemma cipher_match_split pre rest c r :
  cipher_match (pre ++ e :: rest) = Some (c, r) ->
  (exists pre', r = pre' ++ e :: rest /\ (length pre' < length pre)%nat) \/
  cipher_match rest = Some (c, r) \/ take_word (skip_spaces rest) = (c, r).
Proof.
  destruct (newline_space e He) as (Hes & _ & Hew). change (str "data-cipher") with (str "data-" ++ str "cipher") in Hew.
  apply not_elem_of_app in Hew as [Hew1 Hew2].
  intros E. destruct (skip_spaces_cases pre rest) as [Hp|(d & pre1 & Hd & Hl & Es)].
  { right; left. rewrite cipher_match_skip, skip_spaces_app in E by done. cbn [skip_spaces] in E. rewrite Hes in E.
    by rewrite <- cipher_match_skip in E. }
  rewrite cipher_match_skip, Es in E. unfold cipher_match in E. rewrite skip_spaces_solid in E by done.
  set (s2 := default _ _) in E.
  assert (exists pre2, s2 = pre2 ++ e :: rest /\ (length pre2 <= S (length pre1))%nat) as (pre2 & E2 & Hl2).
  { subst s2. destruct (after_word (str "data-") (d :: pre1 ++ e :: rest)) as [s2|] eqn:Ea; cbn [default].
    - apply (after_word_split _ (d :: pre1)) in Ea as (pre2 & -> & Hl2); [|done].
      exists pre2. split; [done|]. cbn in Hl2. lia.
    - by exists (d :: pre1). }
  rewrite E2 in E. destruct (after_word (str "cipher") (pre2 ++ e :: rest)) as [s3|] eqn:Ea; [|done].
  apply after_word_split in Ea as (pre3 & -> & Hl3); [|done].
  change (length (str "cipher")) with 6%nat in Hl3.
  destruct (pre3 ++ e :: rest) as [|x s4] eqn:E3; [done|]. destruct (is_space x) eqn:Ee; [|done].
  rewrite <- E3 in E. destruct (skip_spaces_cases pre3 rest) as [Hp|(f & pre4 & Hf & Hl4 & Es4)].
  - right; right. rewrite skip_spaces_app in E by done. cbn [skip_spaces] in E. rewrite Hes in E.
    destruct (take_word (skip_spaces rest)) as [[|y w] r']; [done|]. by injection E as <- <-.
  - left. rewrite Es4 in E. destruct (take_word_split (f :: pre4) rest) as (w & pre5 & Ew & Hl5).
    cbn [app] in Ew. rewrite Ew in E. exists pre5. destruct w as [|y w]; [done|]. injection E as <- <-.
    split; [done|]. cbn in Hl5. lia.
Qed.

End LineEnd.

Lemma take_word_solid w rest :
  solid w -> match rest with [] => True | c :: _ => is_space c = true end -> take_word (w ++ rest) = (w, rest).
Proof.
  induction 1 as [|c w Hc Hw IH]; intros Hr; cbn [app take_word].
  - destruct rest as [|c rest]; [done|]. cbn. by rewrite Hr.
  - rewrite Hc, IH by done. done.
Qed.

(** A line with a cipher. *)
Definition key k : Prop := (lower <$> k) = str "cipher" \/ (lower <$> k) = str "data-cipher".

Lemma after_word_key word k rest : (lower <$> k) = word -> after_word word (k ++ rest) = Some rest.
Proof.
  revert word. induction k as [|c k IH]; intros word <-; [done|]. cbn. rewrite bool_decide_true by done. by apply IH.
Qed.

Lemma lower_space c : is_space c = true -> lower c = c.
Proof. revert c. check_all_bytes. Qed.

Lemma key_solid k : key k -> solid k.
Proof.
  assert (forall c, is_space (lower c) = false -> is_space c = false) as Hl by check_all_bytes.
  intros Hk. assert (Forall (fun c => is_space c = false) (lower <$> k)) as Hs by (destruct Hk as [->| ->]; by repeat constructor).
  apply Forall_fmap in Hs. eapply Forall_impl; [exact Hs|]. exact Hl.
Qed.

Lemma directive_match k sp w post :
  key k -> spaces sp -> sp <> [] -> solid w -> w <> [] ->
  match post with [] => True | c :: _ => is_space c = true end ->
  cipher_match (k ++ sp ++ w ++ post) = Some (w, post).
Proof.
  intros Hk Hsp Hne Hw Hwne Hpost.
  assert (match after_word (str "cipher") (default (k ++ sp ++ w ++ post)
            (after_word (str "data-") (k ++ sp ++ w ++ post))) with
          | Some s => s = sp ++ w ++ post | None => False end) as Ha.
  { destruct Hk as [Hk|Hk].
    - destruct k as [|c k]; [done|]. cbn [fmap list_fmap] in Hk. injection Hk as Hc Hk.
      assert (after_word (str "data-") ((c :: k) ++ sp ++ w ++ post) = None) as ->.
      { cbn. rewrite Hc. by rewrite bool_decide_false. }
      cbn [default]. rewrite after_word_key; [done|]. cbn. by rewrite Hc, Hk.
    - assert (exists k1 k2, k = k1 ++ k2 /\ (lower <$> k1) = str "data-" /\ (lower <$> k2) = str "cipher")
        as (k1 & k2 & -> & Hk1 & Hk2).
      { exists (take 5 k), (drop 5 k). by rewrite take_drop, fmap_take, fmap_drop, Hk. }
      rewrite <- app_assoc, (after_word_key (str "data-") k1) by done.
      change (default ?x (Some ?y)) with y. by rewrite after_word_key. }
  pose proof (key_solid k Hk) as Hks.
  assert (skip_spaces (k ++ sp ++ w ++ post) = k ++ sp ++ w ++ post) as Hskip.
  { destruct Hks as [|c k Hc _]; [by destruct Hk|]. by apply skip_spaces_solid. }
  unfold cipher_match. rewrite Hskip. cbv zeta. destruct (after_word (str "cipher") _) as [s|]; [|done]. subst s.
  assert (skip_spaces (sp ++ w ++ post) = w ++ post) as Hskip2.
  { rewrite skip_spaces_app by done. destruct Hw as [|c w Hc _]; [done|]. by apply skip_spaces_solid. }
  destruct Hsp as [|c sp Hc Hsp]; [done|]. cbn [app] in *. rewrite Hc, Hskip2, take_word_solid by done.
  by destruct w.
Qed.

(** A word that the scan reports. *)
Definition reported w : Prop := w <> str "none" /\ w ∉ AEAD_CIPHERS.

Lemma key_reported k : key k -> reported k.
Proof.
  assert (Forall (fun w => (lower <$> w) <> str "cipher" /\ (lower <$> w) <> str "data-cipher")
            (str "none" :: AEAD_CIPHERS)) as Hall by (repeat constructor; by vm_compute).
  rewrite Forall_forall in Hall. intros Hk.
  assert (k ∉ str "none" :: AEAD_CIPHERS) as Hn by (intros Hin; destruct (Hall k Hin), Hk; done).
  by apply not_elem_of_cons in Hn.
Qed.

Lemma solid_filter c : solid c -> filter (fun c => c <> x0d) c = c.
Proof.
  induction 1 as [|d c Hd Hc IH]; [done|]. rewrite filter_cons_True, IH; [done|]. by intros ->.
Qed.

(** Whether a captured word is reported. *)
Definition report (cipher : bytes) : bool :=
  let cipher := filter (fun c => c <> x0d) cipher in
  bool_decide (cipher <> str "none") && bool_decide (cipher ∉ AEAD_CIPHERS).

Lemma scan_linear content :
  scan_ovpn_for_non_aead_cipher content = existsb report (ciphers (S (length content)) true content).
Proof. unfold scan_ovpn_for_non_aead_cipher, regex_matches. by rewrite (matches_ciphers (S (length content))) by lia. Qed.

(** The word [w] stands in the text as the cipher of a directive: [cipher] or
    [data-cipher], in any case, as the first word of a line (or of the lines
    behind blank ones), then spaces, then [w] up to a space or the end. *)
Inductive directive (bol : bool) s w : Prop :=
| directive_at pre sp0 k sp post :
    s = pre ++ sp0 ++ k ++ sp ++ w ++ post -> line_start bol pre -> spaces sp0 -> key k -> spaces sp -> sp <> [] ->
    solid w -> w <> [] -> match post with [] => True | c :: _ => is_space c = true end -> directive bol s w.

Lemma skip_spaces_split s : exists sp, spaces sp /\ s = sp ++ skip_spaces s.
Proof.
  induction s as [|c s (sp & Hsp & E)]; [by exists []; split; [constructor|]|]. cbn.
  destruct (is_space c) eqn:Ec; [|by exists []; split; [constructor|]].
  exists (c :: sp). split; [by constructor|]. cbn. by rewrite <- E.
Qed.
Lemma after_word_key_split word s r : after_word word s = Some r -> exists k, s = k ++ r /\ (lower <$> k) = word.
Proof.
  revert s. induction word as [|c word IH]; intros s; [intros [= ->]; by exists []|].
  destruct s as [|d s]; [done|]. cbn. case_bool_decide as Ed; [|done]. intros (k & -> & <-)%IH. exists (d :: k). by rewrite Ed.
Qed.

(** What a match is. *)
Lemma cipher_match_directive s w r : cipher_match s = Some (w, r) -> exists sp0 k sp,
  s = sp0 ++ k ++ sp ++ w ++ r /\ spaces sp0 /\ key k /\ spaces sp /\ sp <> [] /\ solid w /\ w <> [] /\
  match r with [] => True | c :: _ => is_space c = true end.
Proof.
  unfold cipher_match. cbv zeta. destruct (skip_spaces_split s) as (sp0 & Hsp0 & E0). set (s1 := skip_spaces s) in *.
  assert (exists k1, s1 = k1 ++ default s1 (after_word (str "data-") s1) /\
    ((lower <$> k1) = [] \/ (lower <$> k1) = str "data-")) as (k1 & E1 & Hk1).
  { destruct (after_word (str "data-") s1) as [r1|] eqn:Ea; [|by exists []; split; [|left]].
    apply after_word_key_split in Ea as (k1 & -> & Hk1). exists k1. split; [done|by right]. }
  destruct (after_word (str "cipher") _) as [[|c s3]|] eqn:E3; [done| |done].
  apply after_word_key_split in E3 as (k2 & E2 & Hk2). destruct (is_space c) eqn:Ec; [|done].
  destruct (skip_spaces_split (c :: s3)) as (sp & Hsp & Esp).
  pose proof (take_word_app (skip_spaces (c :: s3))) as Et.
  pose proof (take_word_solid_word (skip_spaces (c :: s3))) as Hw.
  assert (match (take_word (skip_spaces (c :: s3))).2 with [] => True | d :: _ => is_space d = true end) as Hend.
  { clear. induction (skip_spaces (c :: s3)) as [|d l IH]; [done|]. cbn. destruct (is_space d) eqn:Ed; [done|].
    by destruct (take_word l). }
  destruct (take_word (skip_spaces (c :: s3))) as [[|d w'] r']; [done|]. intros [= <- <-]. cbn [fst snd] in *.
  exists sp0, (k1 ++ k2), sp. rewrite Et, <- Esp, <- app_assoc, <- E2, <- E1. split_and!; try done.
  - unfold key. rewrite fmap_app, Hk2. destruct Hk1 as [-> | ->]; auto.
  - intros ->. apply (f_equal length) in Esp. cbn in Esp. rewrite Ec in Esp. pose proof (skip_spaces_length s3). lia.
Qed.

Lemma line_start_app bol pre pre' : line_start false pre' -> line_start bol (pre ++ pre').
Proof.
  intros [[_ ?]|(l & e & -> & He)]%line_start_snoc; [done|]. unfold line_start. by rewrite app_assoc, last_snoc.
Qed.

(** Everything found is a directive. *)
Lemma ciphers_sound fuel bol s w : w ∈ ciphers fuel bol s -> directive bol s w.
Proof.
  revert bol s. induction fuel as [|fuel IH]; intros bol s; cbn [ciphers]; [by intros ?%elem_of_nil|].
  destruct (if bol then cipher_match s else None) as [[c r]|] eqn:E.
  - destruct bol; [|done]. apply cipher_match_directive in E as (sp0 & k & sp & -> & H0 & Hk & Hs & Hne & Hc & Hcne & Hr).
    intros [->|[pre sp0' k' sp' post Er Hl ? ? ? ? ? ? ?]%IH]%elem_of_cons.
    + by apply (directive_at true _ _ [] sp0 k sp r).
    + apply (directive_at true _ _ ((sp0 ++ k ++ sp ++ c) ++ pre) sp0' k' sp' post); try done; [by rewrite Er, <- !app_assoc|].
      by apply line_start_app.
  - destruct s as [|d s]; [by intros ?%elem_of_nil|]. intros [pre sp0 k sp post -> Hl ? ? ? ? ? ? ?]%IH.
    apply (directive_at bol _ _ (d :: pre) sp0 k sp post); try done. unfold line_start in *. rewrite last_cons. by destruct (last pre).
Qed.

(** A directive is found, or a word that stands in its way and is reported. *)
Lemma ciphers_complete fuel bol pre sp0 k sp w post :
  line_start bol pre -> spaces sp0 -> key k -> spaces sp -> sp <> [] -> solid w -> w <> [] -> reported w ->
  match post with [] => True | c :: _ => is_space c = true end -> (length pre < fuel)%nat ->
  exists c, c ∈ ciphers fuel bol (pre ++ sp0 ++ k ++ sp ++ w ++ post) /\ reported c.
Proof.
  intros Hl H0 Hk Hsp Hne Hw Hwne Hrep Hpost. revert bol pre Hl.
  pose proof (directive_match k sp w post Hk Hsp Hne Hw Hwne Hpost) as Hm.
  set (line := k ++ sp ++ w ++ post) in *.
  rewrite cipher_match_skip, <- (skip_spaces_app sp0 line H0), <- cipher_match_skip in Hm.
  assert (take_word (skip_spaces (sp0 ++ line)) = (k, sp ++ w ++ post)) as Ht.
  { rewrite skip_spaces_app by done. pose proof (key_solid k Hk) as Hks. subst line.
    rewrite <- (take_word_solid k (sp ++ w ++ post)) by (done || by destruct Hsp). f_equal.
    destruct Hks as [|c k0 Hc _]; [by destruct Hk|]. by apply skip_spaces_solid. }
  induction fuel as [|fuel IH]; intros bol pre Hl Hf; [lia|]. cbn [ciphers].
  pose proof Hl as [[-> ->]|(pre' & e & -> & He)]%line_start_snoc.
  { cbn [app]. rewrite Hm. exists w. split; [apply list_elem_of_here|done]. }
  rewrite <- app_assoc. cbn [app].
  destruct (if bol then cipher_match (pre' ++ e :: sp0 ++ line) else None) as [[c r]|] eqn:E.
  - destruct bol; [|done]. apply (cipher_match_split e He) in E as [(pre2 & -> & Hlt)|[E|E]].
    + destruct (IH false (pre2 ++ [e])) as (x & Hx & Hr); [unfold line_start; by rewrite last_snoc| |].
      { rewrite !length_app in *. cbn in *. lia. }
      exists x. split; [|done]. apply list_elem_of_further. by rewrite <- app_assoc in Hx.
    + rewrite Hm in E. injection E as <- <-. exists w. split; [apply list_elem_of_here|done].
    + rewrite Ht in E. injection E as <- <-. exists k. split; [apply list_elem_of_here|by apply key_reported].
  - rewrite length_app in Hf. cbn in Hf. destruct pre' as [|d pre']; cbn [app].
    + apply (IH (is_newline e) []); [done|cbn; lia].
    + destruct (IH (is_newline d) (pre' ++ [e])) as (x & Hx & Hr); [unfold line_start; by rewrite last_snoc| |].
      { rewrite length_app. cbn in *. lia. }
      exists x. split; [|done]. by rewrite <- app_assoc in Hx.
Qed.

Lemma report_solid c : solid c -> report c = true <-> reported c.
Proof. intros Hc. unfold report, reported. by rewrite (solid_filter c Hc), andb_true_iff, !bool_decide_eq_true. Qed.

(** C34.  The profile scan, which runs a backtracking regular expression over the
    profile, answers true exactly when some directive [cipher X] or
    [data-cipher X] of the profile (in any case, behind any blanks, at the
    beginning of a line) names a cipher that is neither [none] nor one of the
    AEAD ciphers. *)
Theorem scan_exact content :
  scan_ovpn_for_non_aead_cipher content = true <-> exists w, directive true content w /\ reported w.
Proof.
  rewrite scan_linear, existsb_exists. split.
  - intros (w & Hw%list_elem_of_In%ciphers_sound & Hr). exists w. split; [done|]. apply report_solid; [by destruct Hw|done].
  - intros (w & [pre sp0 k sp post -> Hl H0 Hk Hs Hne Hw Hwne Hp] & Hr).
    destruct (ciphers_complete (S (length (pre ++ sp0 ++ k ++ sp ++ w ++ post))) true pre sp0 k sp w post)
      as (c & Hc & Hrc); try done; [rewrite !length_app; lia|].
    exists c. split; [by apply list_elem_of_In|]. apply report_solid; [|done]. by destruct (ciphers_sound _ _ _ _ Hc).
Qed.
