(* ===== verification/OpenVpnSpec.v ===== *)
(** * The OpenVPN client: properties

    The connecting thread always ends, waits as its reference says, and
    retries at once at most once; packets cross the memory tun in order and
    only while it is connected; what [tun_start] answers. *)
From S2P Require Import Prelude Types Text Lwip Dns Runtime TunBuilder TunSpec OpenVpn.

(* ------------------------------------------------------------------ *)
(** ** The connecting thread *)

#[global] Instance action_eq_dec : EqDecision action.
Proof. solve_decision. Defined.

Definition waits (t : list action) : list Z :=
  omap (fun a => match a with Wait ms => Some ms | _ => None end) t.
Definition downgrades (t : list action) : nat := length (filter (fun a => a = StopCore) t).

Lemma waits_snoc t a : waits (t ++ [a]) = waits t ++ waits [a].
Proof. apply omap_app. Qed.
Lemma downgrades_snoc t a : downgrades (t ++ [a]) = (downgrades t + downgrades [a])%nat.
Proof. unfold downgrades. by rewrite filter_app, length_app. Qed.

(** The delays a sequence of rounds is followed by. *)
Fixpoint backoff (delay : Z) (non_preferred : bool) (rs : list Round) : list Z :=
  match rs with
  | [] => []
  | r :: rs =>
      match connect r with
      | Threw => delay :: backoff (Z.min (delay * 2) 30000) non_preferred rs
      | Returned _ =>
          if downgrade r && negb non_preferred then backoff 2000 true rs
          else 2000 :: backoff 4000 non_preferred rs
      end
  end.

(** Actions that are neither a wait nor a downgrade. *)
Definition quiet (a : action) : bool := match a with Wait _ | StopCore => false | _ => true end.

Lemma quiet_trace t ts :
  forallb quiet ts = true -> waits (t ++ ts) = waits t /\ downgrades (t ++ ts) = downgrades t.
Proof.
  revert t. induction ts as [|a ts IH]; intros t Hq; [by rewrite app_nil_r|].
  cbn in Hq. apply andb_true_iff in Hq as [Ha Hq]. rewrite cons_middle, app_assoc.
  destruct (IH (t ++ [a]) Hq) as [-> ->]. rewrite waits_snoc, downgrades_snoc.
  destruct a; try done; cbn; by rewrite app_nil_r, Nat.add_0_r.
Qed.

(** [l'] is [l] after some quiet actions and some checks. *)
Record slept (l l' : Loop) : Prop := {
  sl_np : using_non_preferred l' = using_non_preferred l;
  sl_delay : reconnect_delay_ms l' = reconnect_delay_ms l;
  sl_rounds : rounds l' = rounds l;
  sl_checks : (length (checks l') <= length (checks l))%nat;
  sl_trace : exists ts, trace l' = trace l ++ ts /\ forallb quiet ts = true
}.

Lemma check_slept l : slept l (snd (check l)).
Proof.
  unfold check. destruct (checks l) as [|b cs] eqn:E; constructor; cbn; rewrite ?E; try done; cbn; try lia;
    exists []; by rewrite app_nil_r.
Qed.

Lemma check_true l l' : check l = (true, l') -> slept l l' /\ (length (checks l') < length (checks l))%nat.
Proof.
  intros E. split; [by pose proof (check_slept l) as H; rewrite E in H|].
  unfold check in E. destruct (checks l) as [|b cs]; [done|]. injection E as -> <-. cbn. lia.
Qed.

Lemma slept_trans l1 l2 l3 : slept l1 l2 -> slept l2 l3 -> slept l1 l3.
Proof.
  intros [] []. constructor; try congruence; try lia.
  destruct sl_trace0 as (t1 & E1 & Q1), sl_trace1 as (t2 & E2 & Q2).
  exists (t1 ++ t2). rewrite E2, E1, app_assoc. split; [done|]. by rewrite forallb_app, Q1, Q2.
Qed.

Lemma act_slept a l : quiet a = true -> slept l (act a l).
Proof. intros Q. constructor; cbn; try done. exists [a]. cbn. by rewrite Q. Qed.

(** The sleeping loop ends. *)
Lemma sleep_loop_total fuel elapsed l :
  reconnect_delay_ms l - elapsed < 200 * (Z.of_nat fuel - 1) + 1 -> (0 < fuel)%nat ->
  exists l', sleep_loop fuel elapsed l = Some l' /\ slept l l'.
Proof.
  revert elapsed l. induction fuel as [|fuel IH]; intros elapsed l Hf H0; [lia|]. cbn [sleep_loop].
  assert (slept l l) as Hrefl by (constructor; try done; exists []; by rewrite app_nil_r).
  destruct (Z.ltb_spec elapsed (reconnect_delay_ms l)); [|by exists l].
  destruct (check l) as [b l1] eqn:E. pose proof (check_slept l) as Hs. rewrite E in Hs. cbn in Hs.
  destruct b; [|by exists l1].
  destruct (IH (elapsed + 200) (act Sleep l1)) as (l' & El & Hl).
  - cbn. rewrite (sl_delay _ _ Hs). lia.
  - lia.
  - exists l'. split; [done|]. eapply slept_trans; [exact Hs|]. eapply slept_trans; [exact (act_slept Sleep l1 eq_refl)|done].
Qed.

Lemma slept_refl l : slept l l.
Proof. constructor; try done. exists []. by rewrite app_nil_r. Qed.

(** From [l] to [l'] the thread waited for [ws] and downgraded [d] times. *)
Record emits (l l' : Loop) (ws : list Z) (d : nat) : Prop := {
  em_waits : waits (trace l') = waits (trace l) ++ ws;
  em_downgrades : downgrades (trace l') = (downgrades (trace l) + d)%nat
}.

Lemma emits_slept l l' : slept l l' -> emits l l' [] 0.
Proof.
  intros []. destruct sl_trace0 as (ts & E & Q). destruct (quiet_trace (trace l) ts Q) as [Ew Ed].
  constructor; rewrite E; [by rewrite Ew, app_nil_r|by rewrite Ed, Nat.add_0_r].
Qed.
Lemma emits_trans l1 l2 l3 ws ws' d d' :
  emits l1 l2 ws d -> emits l2 l3 ws' d' -> emits l1 l3 (ws ++ ws') (d + d').
Proof.
  intros [E1 D1] [E2 D2]. constructor; [by rewrite E2, E1, app_assoc|]. rewrite D2, D1. lia.
Qed.
Lemma emits_act a l l' : trace l' = trace l ++ [a] -> emits l l' (waits [a]) (downgrades [a]).
Proof. intros E. constructor; rewrite E; [apply waits_snoc|apply downgrades_snoc]. Qed.

(** What a run of the thread from [l] ensures, with the waits [expected] ahead. *)
Definition runs_well (l : Loop) (expected : list Z) (l' : Loop) : Prop :=
  exists ws d, emits l l' ws d /\ ws `prefix_of` expected /\
    (d <= if using_non_preferred l then 0 else 1)%nat /\ last (trace l') = Some ClearRunning.

Lemma runs_well_stop l l' ws : slept l l' -> runs_well l ws (act ClearRunning l').
Proof.
  intros H. exists [], O. split_and!; [|apply prefix_nil|lia|apply last_snoc].
  apply emits_slept. eapply slept_trans; [exact H|]. by apply act_slept.
Qed.

Lemma runs_well_after l l1 l' ws ws' d :
  emits l l1 ws d -> runs_well l1 ws' l' ->
  (d + (if using_non_preferred l1 then 0 else 1) <= if using_non_preferred l then 0 else 1)%nat ->
  runs_well l (ws ++ ws') l'.
Proof.
  intros E (ws1 & d1 & E1 & Hp & Hd1 & Hl) Hd. exists (ws ++ ws1), (d + d1)%nat.
  split_and!; [by eapply emits_trans|by apply prefix_app| |done]. destruct (using_non_preferred l1), (using_non_preferred l); lia.
Qed.

Lemma runs_well_slept l l1 l' ws : slept l l1 -> runs_well l1 ws l' -> runs_well l ws l'.
Proof.
  intros Hs H. eapply (runs_well_after l l1 l' [] ws 0); [by apply emits_slept|done|].
  by rewrite (sl_np _ _ Hs).
Qed.

(** The wait itself. *)
Lemma sleep_emits l l1 :
  slept l l1 -> 0 <= reconnect_delay_ms l ->
  exists l2, sleep_loop (2 + Z.to_nat (reconnect_delay_ms l1 / 200)) 0 (act (Wait (reconnect_delay_ms l1)) l1) = Some l2 /\
    emits l l2 [reconnect_delay_ms l] 0 /\ using_non_preferred l2 = using_non_preferred l /\
    reconnect_delay_ms l2 = reconnect_delay_ms l /\ rounds l2 = rounds l /\
    (length (checks l2) <= length (checks l1))%nat.
Proof.
  intros Hs1 Hd. pose proof (sl_delay _ _ Hs1) as Hd1.
  destruct (sleep_loop_total (2 + Z.to_nat (reconnect_delay_ms l1 / 200)) 0
              (act (Wait (reconnect_delay_ms l1)) l1)) as (l2 & E2 & Hs2); [|lia|].
  { change (reconnect_delay_ms (act _ l1)) with (reconnect_delay_ms l1). rewrite Hd1.
    pose proof (Z.div_mod (reconnect_delay_ms l) 200). pose proof (Z.mod_pos_bound (reconnect_delay_ms l) 200).
    assert (0 <= reconnect_delay_ms l / 200) by (apply Z.div_pos; lia). lia. }
  exists l2. split_and!; [done| | | | |exact (sl_checks _ _ Hs2)].
  - rewrite <- Hd1. apply (emits_trans l l1 l2 [] [_] 0 0); [by apply emits_slept|].
    apply (emits_trans l1 (act (Wait (reconnect_delay_ms l1)) l1) l2 [_] [] 0 0); [|by apply emits_slept].
    by apply (emits_act (Wait (reconnect_delay_ms l1))).
  - rewrite (sl_np _ _ Hs2). exact (sl_np _ _ Hs1).
  - rewrite (sl_delay _ _ Hs2). exact Hd1.
  - rewrite (sl_rounds _ _ Hs2). exact (sl_rounds _ _ Hs1).
Qed.

(** The second half of an iteration. *)
Lemma wait_well again r l rs :
  0 <= reconnect_delay_ms l ->
  (forall l1, (length (checks l1) < length (checks l))%nat -> 0 <= reconnect_delay_ms l1 ->
     rounds l1 = rounds l ->
     exists l', again l1 = Some l' /\
       runs_well l1 (backoff (reconnect_delay_ms l1) (using_non_preferred l1) rs) l') ->
  exists l', wait_and_reconnect again r l = Some l' /\
    runs_well l (reconnect_delay_ms l ::
      backoff (Z.min (reconnect_delay_ms l * 2) 30000) (using_non_preferred l) rs) l'.
Proof.
  intros Hd Hagain. unfold wait_and_reconnect.
  destruct (check l) as [[] l1] eqn:E1; cycle 1.
  { eexists. split; [done|]. apply runs_well_stop. pose proof (check_slept l) as Hs. by rewrite E1 in Hs. }
  apply check_true in E1 as [Hs1 Hc1].
  destruct (sleep_emits l l1 Hs1 Hd) as (l2 & E2 & Em & Hnp & Hd2 & Hr2 & Hc2).
  rewrite E2. cbn [mbind option_bind].
  destruct (check l2) as [b l3] eqn:E3. pose proof (check_slept l2) as Hs3. rewrite E3 in Hs3. cbn in Hs3.
  rewrite <- Hnp, <- (sl_np _ _ Hs3), <- Hd2, <- (sl_delay _ _ Hs3).
  rewrite <- Hd2, <- (sl_delay _ _ Hs3) in Em.
  assert (emits l l3 [reconnect_delay_ms l3] 0) as Em3.
  { exact (emits_trans _ _ _ [_] [] 0 0 Em (emits_slept _ _ Hs3)). }
  destruct b.
  2:{ eexists. split; [done|]. eapply (runs_well_after l l3 _ [_] _ 0 Em3); [apply runs_well_stop, slept_refl|].
      by rewrite (sl_np _ _ Hs3), Hnp. }
  set (l4 := renew_impl _).
  assert (forall l', runs_well l4 (backoff (reconnect_delay_ms l4) (using_non_preferred l4) rs) l' ->
    runs_well l (reconnect_delay_ms l3 :: backoff (reconnect_delay_ms l4) (using_non_preferred l4) rs) l') as Hgo.
  { intros l' Hw. eapply (runs_well_after l l4 l' [_] _ 0); [|exact Hw|].
    - exact (emits_trans _ _ _ [_] [] 0 0 Em3 (emits_act (NewImpl (using_non_preferred l3)) l3 l4 eq_refl)).
    - change (using_non_preferred l4) with (using_non_preferred l3). by rewrite (sl_np _ _ Hs3), Hnp. }
  destruct (eval_error r).
  - eexists. split; [done|]. apply Hgo, runs_well_stop, slept_refl.
  - destruct (Hagain l4) as (l' & El & Hw).
    + change (length (checks l3) < length (checks l))%nat. pose proof (sl_checks _ _ Hs3). lia.
    + change (0 <= Z.min (reconnect_delay_ms l3 * 2) 30000). rewrite (sl_delay _ _ Hs3), Hd2. lia.
    + change (rounds l3 = rounds l). by rewrite (sl_rounds _ _ Hs3), Hr2.
    + exists l'. split; [done|]. by apply Hgo.
Qed.

Lemma backoff_returned r delay np rs :
  connect r <> Threw ->
  backoff delay np (r :: rs) =
    if downgrade r && negb np then backoff 2000 true rs else 2000 :: backoff 4000 np rs.
Proof. cbn. by destruct (connect r). Qed.

(** The rounds that can still come: every iteration asks at least once. *)
Definition ahead (l : Loop) (n : nat) : list Round := rounds l ++ replicate n default_round.

(** The first half of an iteration, up to [connect]. *)
Lemma next_round_spec creds l r l2 n :
  next_round (act Connect (if creds : bool then act ProvideCreds l else l)) = (r, l2) -> (0 < n)%nat ->
  emits l l2 [] 0 /\ using_non_preferred l2 = using_non_preferred l /\
  reconnect_delay_ms l2 = reconnect_delay_ms l /\ checks l2 = checks l /\
  exists m, ahead l n = r :: ahead l2 m /\ (n - 1 <= m)%nat.
Proof.
  intros E Hn. unfold next_round in E.
  assert (emits l (act Connect (if creds then act ProvideCreds l else l)) [] 0) as Hem.
  { destruct creds; [|exact (emits_act Connect l (act Connect l) eq_refl)].
    exact (emits_trans l (act ProvideCreds l) _ [] [] 0 0 (emits_act ProvideCreds l (act ProvideCreds l) eq_refl)
             (emits_act Connect (act ProvideCreds l) (act Connect (act ProvideCreds l)) eq_refl)). }
  assert (rounds (act Connect (if creds then act ProvideCreds l else l)) = rounds l) as Hr by by destruct creds.
  rewrite Hr in E. unfold ahead. destruct (rounds l) as [|r' rs] eqn:El; injection E as <- <-.
  - split_and!; [done|by destruct creds..|]. exists (n - 1)%nat. rewrite Hr. split; [|lia].
    destruct n; [lia|]. cbn. by rewrite Nat.sub_0_r.
  - split_and!; [by destruct Hem; constructor|by destruct creds..|]. exists n. split; [done|lia].
Qed.

Lemma vpn_loop_spec creds fuel n l :
  (length (checks l) < fuel)%nat -> (length (checks l) <= n)%nat -> 0 <= reconnect_delay_ms l ->
  exists l', vpn_loop fuel creds l = Some l' /\
    runs_well l (backoff (reconnect_delay_ms l) (using_non_preferred l) (ahead l n)) l'.
Proof.
  revert n l. induction fuel as [|fuel IH]; intros n l Hf Hn Hd; [lia|]. cbn [vpn_loop].
  destruct (check l) as [[] l1] eqn:E1; cycle 1.
  { eexists. split; [done|]. apply runs_well_stop. pose proof (check_slept l) as Hs. by rewrite E1 in Hs. }
  apply check_true in E1 as [Hs1 Hc1]. cbv beta iota zeta.
  destruct (next_round _) as [r l2] eqn:E2. apply (next_round_spec _ _ _ _ n) in E2; [|lia].
  destruct E2 as (Em2 & Hnp2 & Hd2 & Hc2 & m & Ha & Hm).
  assert (ahead l n = ahead l1 n) as -> by (unfold ahead; by rewrite (sl_rounds _ _ Hs1)).
  rewrite Ha, <- (sl_np _ _ Hs1), <- (sl_delay _ _ Hs1), <- Hnp2, <- Hd2.
  assert (forall ws l', runs_well l2 ws l' -> runs_well l ws l') as Hgo.
  { intros ws l' Hw. eapply (runs_well_slept l l1); [done|].
    eapply (runs_well_after l1 l2 l' [] ws 0 Em2); [done|]. by rewrite Hnp2. }
  assert (forall l3, checks l3 = checks l2 -> rounds l3 = rounds l2 -> 0 <= reconnect_delay_ms l3 ->
    exists l', wait_and_reconnect (vpn_loop fuel creds) r l3 = Some l' /\
      runs_well l3 (reconnect_delay_ms l3 ::
        backoff (Z.min (reconnect_delay_ms l3 * 2) 30000) (using_non_preferred l3) (ahead l2 m)) l') as Hwait.
  { intros l3 Hc3 Hr3 Hd3. apply wait_well; [done|]. intros l4 Hc4 Hd4 Hr4.
    destruct (IH m l4) as (l' & El & Hw); [rewrite Hc3, Hc2 in Hc4; lia..|done|].
    exists l'. split; [done|]. unfold ahead in *. by rewrite Hr4, Hr3 in Hw. }
  destruct (connect r) eqn:Ec.
  - assert (emits l2 (l2.[reconnect_delay_ms := 2000]) [] 0) as Emd by (constructor; cbn; by rewrite ?app_nil_r, ?Nat.add_0_r).
    rewrite backoff_returned by (by rewrite Ec).
    change (using_non_preferred (l2.[reconnect_delay_ms := 2000])) with (using_non_preferred l2).
    destruct (downgrade r && negb (using_non_preferred l2)) eqn:Edg.
    + apply andb_true_iff in Edg as [_ Hnp%negb_true_iff].
      set (l4 := renew_impl _). set (l3 := act StopCore _) in l4.
      assert (emits l2 l4 [] 1) as Em4.
      { exact (emits_trans l2 l3 l4 [] [] 1 0 (emits_act StopCore l2 l3 eq_refl) (emits_act (NewImpl true) l3 l4 eq_refl)). }
      assert (forall ws l', runs_well l4 ws l' -> runs_well l ws l') as Hgo'.
      { intros ws l' Hw. apply Hgo. eapply (runs_well_after l2 l4 l' [] ws 1 Em4 Hw). by rewrite Hnp. }
      destruct (eval_error r); [eexists; split; [done|]; apply Hgo', runs_well_stop, slept_refl|].
      destruct (IH m l4) as (l' & El & Hw); [change (checks l4) with (checks l2); rewrite Hc2; lia..|done|].
      exists l'. split; [done|]. by apply Hgo'.
    + destruct (Hwait (l2.[reconnect_delay_ms := 2000])) as (l' & El & Hw); [done..|].
      exists l'. split; [done|]. apply Hgo. eapply (runs_well_after l2 _ l' [] _ 0 Emd Hw). done.
  - destruct (Hwait l2) as (l' & El & Hw); [done..|rewrite Hd2, (sl_delay _ _ Hs1); done|].
    exists l'. split; [done|]. apply Hgo. cbn [backoff]. by rewrite Ec.
Qed.

Lemma vpn_thread_spec creds np cs rs :
  exists l, vpn_thread creds np cs rs = Some l /\
    last (trace l) = Some ClearRunning /\
    waits (trace l) `prefix_of` backoff 2000 np (rs ++ replicate (length cs) default_round) /\
    (downgrades (trace l) <= if np then 0 else 1)%nat.
Proof.
  destruct (vpn_loop_spec creds (S (length cs)) (length cs) (mkLoop np 2000 cs rs []))
    as (l & El & ws & d & [Ew Ed] & Hp & Hd & Hl); [cbn; lia..|].
  exists l. rewrite Ew, Ed. by split_and!.
Qed.

Lemma backoff_bounds delay np rs :
  2000 <= delay <= 30000 -> Forall (fun ms => 2000 <= ms <= 30000) (backoff delay np rs).
Proof.
  revert delay np. induction rs as [|r rs IH]; intros delay np Hd; cbn [backoff]; [constructor|].
  destruct (connect r).
  - destruct (downgrade r && negb np); [apply IH; lia|]. constructor; [lia|]. apply IH. lia.
  - constructor; [done|]. apply IH. lia.
Qed.

Lemma backoff_flat delay np rs :
  Forall (fun r => connect r <> Threw) rs -> Forall (eq 2000) (backoff delay np rs).
Proof.
  intros H. revert delay np. induction H as [|r rs Hr H IH]; intros delay np; [constructor|].
  rewrite backoff_returned by done. destruct (downgrade r && negb np); [apply IH|].
  constructor; [done|apply IH].
Qed.

Lemma Forall_prefix {A} (P : A -> Prop) l1 l2 : l1 `prefix_of` l2 -> Forall P l2 -> Forall P l1.
Proof. intros [k ->] H. by apply Forall_app in H as [? _]. Qed.

(** C25.  The connecting thread ends whenever the client is stopped: however
    [connect] and [eval_config] answer, once the running test has been true
    for the last time the thread returns, and it leaves [running_] false. *)
Theorem reconnect_terminates creds np cs rs :
  exists l, vpn_thread creds np cs rs = Some l /\ last (trace l) = Some ClearRunning.
Proof. destruct (vpn_thread_spec creds np cs rs) as (l & E & Hl & _). by exists l. Qed.

(** The thread's schedule without interruption: each entry is what the thread
    does between two answers of the running test.  An attempt is followed by
    its wait, slept in pieces of 200 ms, and by a new client, except that the
    first failed negotiation is followed at once by a client with the
    non-preferred algorithms; a configuration that is refused ends it. *)
Fixpoint schedule (creds : bool) (delay : Z) (np : bool) (rs : list Round) : list (list action) :=
  match rs with
  | [] => []
  | r :: rs =>
      let attempt := (if creds then [ProvideCreds] else []) ++ [Connect] in
      let waiting ms :=
        attempt :: [Wait ms] :: replicate (Z.to_nat (ms / 200)) [Sleep] ++
        [NewImpl np] :: (if eval_error r then [] else schedule creds (Z.min (ms * 2) 30000) np rs) in
      match connect r with
      | Threw => waiting delay
      | Returned _ =>
          if downgrade r && negb np
          then (attempt ++ [StopCore; NewImpl true]) :: (if eval_error r then [] else schedule creds 2000 true rs)
          else waiting 2000
      end
  end.

(** The running test answers yes [n] more times. *)
Definition asked (n : nat) (l : Loop) : Prop := checks l = replicate n true.

Lemma check_yes n l : asked (S n) l -> check l = (true, l.[checks := replicate n true]).
Proof. unfold check, asked. by intros ->. Qed.
Lemma check_no l : asked 0 l -> check l = (false, l).
Proof. unfold check, asked. by intros ->. Qed.

Lemma sleep_loop_asked m fuel n l elapsed :
  asked n l -> reconnect_delay_ms l = elapsed + 200 * Z.of_nat m -> (m < fuel)%nat ->
  sleep_loop fuel elapsed l =
    Some (l.[trace := trace l ++ replicate (Nat.min n m) Sleep].[checks := replicate (n - m) true]).
Proof.
  revert fuel n l elapsed. induction m as [|m IH]; intros [|fuel] n l elapsed Hn Hd Hf; try lia; cbn [sleep_loop].
  - rewrite (proj2 (Z.ltb_ge _ _)) by lia. rewrite Nat.min_0_r, Nat.sub_0_r, app_nil_r. unfold asked in Hn. rewrite <- Hn. by destruct l.
  - rewrite (proj2 (Z.ltb_lt _ _)) by lia. destruct n as [|n].
    + rewrite check_no by done. destruct l as [? ? cs ? ?]. unfold asked in Hn. cbn in Hn. subst cs. cbn. by rewrite app_nil_r.
    + rewrite (check_yes n) by done. rewrite (IH fuel n); [|done|cbn; lia|lia]. cbn. by rewrite <- app_assoc.
Qed.

(** What [n] answers allow of a schedule. *)
Definition allowed (n : nat) (sch : list (list action)) : list action := concat (take n sch).

Lemma allowed_cons n a sch : allowed (S n) (a :: sch) = a ++ allowed n sch.
Proof. done. Qed.
Lemma allowed_sleeps n m sch :
  allowed n (replicate m [Sleep] ++ sch) = replicate (Nat.min n m) Sleep ++ allowed (n - m) sch.
Proof.
  revert n. induction m as [|m IH]; intros n; [by rewrite Nat.min_0_r, Nat.sub_0_r|].
  destruct n as [|n]; [done|]. cbn [replicate app]. rewrite allowed_cons, IH. done.
Qed.

(** The second half of an iteration follows the schedule. *)
Lemma wait_scheduled again r l n m sch :
  asked n l -> reconnect_delay_ms l = 200 * Z.of_nat m ->
  (forall k l1, (k < n)%nat -> asked k l1 ->
     reconnect_delay_ms l1 = Z.min (reconnect_delay_ms l * 2) 30000 ->
     using_non_preferred l1 = using_non_preferred l -> rounds l1 = rounds l ->
     exists l', again l1 = Some l' /\ trace l' = trace l1 ++ allowed k sch ++ [ClearRunning]) ->
  exists l', wait_and_reconnect again r l = Some l' /\
    trace l' = trace l ++ allowed n ([Wait (reconnect_delay_ms l)] ::
      replicate (Z.to_nat (reconnect_delay_ms l / 200)) [Sleep] ++
      [NewImpl (using_non_preferred l)] :: (if eval_error r then [] else sch)) ++ [ClearRunning].
Proof.
  intros Hn Hm Hagain. unfold wait_and_reconnect. destruct n as [|n]; [rewrite check_no by done; by eexists|].
  rewrite (check_yes n) by done.
  set (l1 := act _ _). change (reconnect_delay_ms l.[checks := replicate n true]) with (reconnect_delay_ms l).
  assert (Z.to_nat (reconnect_delay_ms l / 200) = m) as Ediv.
  { rewrite Hm, Z.mul_comm, Z.div_mul by lia. apply Nat2Z.id. }
  rewrite (sleep_loop_asked m _ n l1 0) by (done || exact Hm || (rewrite Ediv; lia)).
  set (l2 := l1.[trace := _].[checks := _]). cbn [mbind option_bind].
  assert (trace l2 = trace l ++ [Wait (reconnect_delay_ms l)] ++ replicate (Nat.min n m) Sleep) as Et
    by (cbn; by rewrite <- app_assoc).
  rewrite Ediv, allowed_cons, allowed_sleeps, <- !app_assoc.
  assert (asked (n - m) l2) as Hn2 by done. remember (n - m)%nat as k eqn:Ek. destruct k as [|k].
  { rewrite check_no by done. eexists. split; [done|]. change (trace (act ClearRunning l2)) with (trace l2 ++ [ClearRunning]).
    rewrite Et, <- !app_assoc. done. }
  rewrite (check_yes k) by done. rewrite allowed_cons. cbv zeta. set (l3 := renew_impl _).
  assert (trace l3 = trace l2 ++ [NewImpl (using_non_preferred l)]) as Et3 by done.
  destruct (eval_error r).
  - eexists. split; [done|]. change (trace (act ClearRunning l3)) with (trace l3 ++ [ClearRunning]).
    rewrite Et3, Et, <- !app_assoc. unfold allowed. rewrite take_nil. done.
  - destruct (Hagain k l3) as (l' & E & Ht); [lia|done|done|done|done|]. exists l'. split; [done|].
    rewrite Ht, Et3, Et, <- !app_assoc. done.
Qed.

Lemma round_taken l r l2 k :
  next_round (act Connect l) = (r, l2) -> (0 < k)%nat ->
  exists j, ahead l k = r :: ahead l2 j /\ (pred k <= j)%nat /\ trace l2 = trace l ++ [Connect] /\
    checks l2 = checks l /\ reconnect_delay_ms l2 = reconnect_delay_ms l /\
    using_non_preferred l2 = using_non_preferred l.
Proof.
  unfold next_round, ahead. cbn. destruct (rounds l) as [|r' rs] eqn:E; intros [= <- <-] Hk; cbn.
  - destruct k as [|k]; [lia|]. exists k. rewrite E. by split_and!.
  - exists k. split_and!; [done|lia|done..].
Qed.

Lemma vpn_loop_scheduled creds fuel n k l m :
  asked n l -> (n < fuel)%nat -> (n <= k)%nat -> reconnect_delay_ms l = 200 * Z.of_nat m ->
  exists l', vpn_loop fuel creds l = Some l' /\
    trace l' = trace l ++
      allowed n (schedule creds (reconnect_delay_ms l) (using_non_preferred l) (ahead l k)) ++ [ClearRunning].
Proof.
  revert n k l m. induction fuel as [|fuel IH]; intros n k l m Hn Hf Hk Hm; [lia|]. cbn [vpn_loop].
  destruct n as [|n]; [rewrite check_no by done; by eexists|]. rewrite (check_yes n) by done. cbv beta iota zeta.
  set (l1 := if creds then _ else _).
  destruct (next_round (act Connect l1)) as [r l2] eqn:Er.
  assert (trace l1 = trace l ++ (if creds then [ProvideCreds] else []) /\ checks l1 = replicate n true /\
    reconnect_delay_ms l1 = reconnect_delay_ms l /\ using_non_preferred l1 = using_non_preferred l /\
    rounds l1 = rounds l) as (Ht1 & Hc1 & Hd1 & Hnp1 & Hr1) by (unfold l1; destruct creds; cbn; by rewrite ?app_nil_r).
  destruct (round_taken l1 r l2 k Er) as (j & Ha & Hj & Ht2 & Hc2 & Hd2 & Hnp2); [lia|].
  rewrite Hc1 in Hc2. rewrite Hd1 in Hd2. rewrite Hnp1 in Hnp2. rewrite Ht1, <- app_assoc in Ht2.
  unfold ahead in Ha. rewrite Hr1 in Ha. fold (ahead l k) in Ha. fold (ahead l2 j) in Ha. rewrite Ha. cbn [schedule].
  set (attempt := (if creds then [ProvideCreds] else []) ++ [Connect]) in *.
  assert (forall l3 m3, checks l3 = checks l2 -> rounds l3 = rounds l2 -> trace l3 = trace l2 ->
    using_non_preferred l3 = using_non_preferred l -> reconnect_delay_ms l3 = 200 * Z.of_nat m3 ->
    exists l', wait_and_reconnect (vpn_loop fuel creds) r l3 = Some l' /\
      trace l' = trace l ++ allowed (S n) (attempt :: [Wait (reconnect_delay_ms l3)] ::
        replicate (Z.to_nat (reconnect_delay_ms l3 / 200)) [Sleep] ++ [NewImpl (using_non_preferred l)] ::
        (if eval_error r then [] else
          schedule creds (Z.min (reconnect_delay_ms l3 * 2) 30000) (using_non_preferred l) (ahead l2 j))) ++ [ClearRunning]) as Hwait.
  { intros l3 m3 Hc3 Hr3 Ht3 Hnp3 Hm3.
    destruct (wait_scheduled (vpn_loop fuel creds) r l3 n m3
      (schedule creds (Z.min (reconnect_delay_ms l3 * 2) 30000) (using_non_preferred l) (ahead l2 j)))
      as (l' & E & Ht); [unfold asked; congruence|done| |].
    - intros i l4 Hi Hi4 Hd4 Hnp4 Hr4.
      destruct (IH i j l4 (Nat.min (m3 * 2) 150)) as (l' & E & Ht); [done|lia|lia|rewrite Hd4, Hm3; lia|].
      exists l'. split; [done|]. by rewrite Ht, Hd4, Hnp4, Hnp3; unfold ahead; rewrite Hr4, Hr3.
    - exists l'. split; [done|]. rewrite Ht, Ht3, Ht2, Hnp3, allowed_cons, <- !app_assoc. done. }
  destruct (connect r).
  - change (using_non_preferred (l2.[reconnect_delay_ms := 2000])) with (using_non_preferred l2). rewrite Hnp2.
    destruct (downgrade r && negb (using_non_preferred l)).
    + set (l3 := renew_impl _). rewrite allowed_cons.
      assert (trace l3 = trace l2 ++ [StopCore; NewImpl true]) as Ht3 by (cbn; by rewrite <- app_assoc).
      destruct (eval_error r).
      * eexists. split; [done|]. change (trace (act ClearRunning l3)) with (trace l3 ++ [ClearRunning]).
        rewrite Ht3, Ht2, <- !app_assoc. unfold allowed. by rewrite take_nil.
      * destruct (IH n j l3 10%nat) as (l' & E & Ht); [exact Hc2|lia|lia|done|]. exists l'. split; [done|].
        rewrite Ht, Ht3, Ht2, <- !app_assoc. done.
    + destruct (Hwait (l2.[reconnect_delay_ms := 2000]) 10%nat) as (l' & E & Ht); [done..|]. by exists l'.
  - destruct (Hwait l2 m) as (l' & E & Ht); [done..|congruence|]. rewrite Hd2 in Ht. by exists l'.
Qed.

(** The attempts that follow another one without a wait between them. *)
Fixpoint unwaited (tried : bool) (t : list action) : nat :=
  match t with
  | [] => 0
  | Connect :: t => (if tried then 1 else 0) + unwaited true t
  | Wait _ :: t => unwaited false t
  | _ :: t => unwaited tried t
  end.

Lemma unwaited_prefix tried t t' : (unwaited tried t <= unwaited tried (t ++ t'))%nat.
Proof.
  revert tried. induction t as [|a t IH]; intros tried; cbn [app unwaited]; [lia|].
  destruct a; auto. specialize (IH true). destruct tried; lia.
Qed.
Lemma unwaited_end tried t : unwaited tried (t ++ [ClearRunning]) = unwaited tried t.
Proof. revert tried. induction t as [|a t IH]; intros tried; [done|]. destruct a; cbn; auto. Qed.
Lemma unwaited_sleeps tried m t : unwaited tried (concat (replicate m [Sleep]) ++ t) = unwaited tried t.
Proof. induction m; cbn; auto. Qed.

Lemma schedule_unwaited creds delay np rs :
  (unwaited false (concat (schedule creds delay np rs)) <= if np then 0 else 1)%nat /\
  (np = true -> unwaited true (concat (schedule creds delay np rs)) <= 1)%nat.
Proof.
  revert delay np. induction rs as [|r rs IH]; intros delay np; [cbn; by destruct np; split; intros; lia|].
  assert (forall tried rest, unwaited tried (((if creds then [ProvideCreds] else []) ++ [Connect]) ++ rest) =
    (if tried then 1 else 0) + unwaited true rest)%nat as Hat by (by intros [] rest; destruct creds).
  assert (forall tried ms, (unwaited tried (concat ((((if creds then [ProvideCreds] else []) ++ [Connect]) :: [Wait ms] ::
     replicate (Z.to_nat (ms / 200)) [Sleep] ++ [NewImpl np] ::
     (if eval_error r then [] else schedule creds (Z.min (ms * 2) 30000) np rs)))) <=
     (if tried then 1 else 0) + if np then 0 else 1)%nat) as Hwait.
  { intros tried ms. cbn [concat]. rewrite Hat. cbn [app unwaited]. rewrite concat_app, unwaited_sleeps. cbn [concat app unwaited].
    destruct (eval_error r); [cbn; lia|]. destruct (IH (Z.min (ms * 2) 30000) np). lia. }
  cbn [schedule]. destruct (connect r); [destruct (downgrade r && negb np) eqn:Edg|].
  - apply andb_true_iff in Edg as [_ ->%negb_true_iff]. split; [|done]. cbn [concat]. rewrite <- app_assoc, Hat. cbn [app unwaited].
    destruct (eval_error r); [cbn; lia|]. destruct (IH 2000 true) as [_ Ht]. specialize (Ht eq_refl). lia.
  - split; [apply (Hwait false)|]. intros ->. apply (Hwait true).
  - split; [apply (Hwait false)|]. intros ->. apply (Hwait true).
Qed.

(** C26.  What the connecting thread does, action by action, when the running
    test answers yes [n] times and no from then on: its trace is the part of
    the schedule that the [n] answers allow, whatever [connect] and
    [eval_config] answer, and it clears [running_] at the end.  So between two
    attempts there is the whole wait, 2000 ms after an attempt that returned
    and twice the last one after one that threw, never less than 2000 or more
    than 30000 ms, except that at most once, for the downgrade, and never when
    the thread began with the non-preferred algorithms, an attempt follows
    without a wait. *)
Theorem reconnect_backoff creds np n rs :
  exists l, vpn_thread creds np (replicate n true) rs = Some l /\
    trace l = concat (take n (schedule creds 2000 np (rs ++ replicate n default_round))) ++ [ClearRunning] /\
    Forall (fun ms => 2000 <= ms <= max_reconnect_delay_ms) (waits (trace l)) /\
    (unwaited false (trace l) <= if np then 0 else 1)%nat.
Proof.
  destruct (vpn_thread_spec creds np (replicate n true) rs) as (l & E & _ & Hp & _). exists l. split; [done|].
  destruct (vpn_loop_scheduled creds (S n) n n (mkLoop np 2000 (replicate n true) rs []) 10)
    as (l' & E' & Ht); [done|lia|lia|done|].
  assert (l' = l) as -> by (unfold vpn_thread in E; rewrite length_replicate in E; congruence).
  split_and!; [exact Ht|eapply Forall_prefix; [exact Hp|]; by apply backoff_bounds|]. rewrite Ht. cbn [trace app].
  rewrite unwaited_end. set (sch := schedule _ _ _ _).
  pose proof (unwaited_prefix false (concat (take n sch)) (concat (drop n sch))) as Hle.
  rewrite <- concat_app, take_drop in Hle.
  pose proof (proj1 (schedule_unwaited creds 2000 np (rs ++ replicate n default_round))). unfold allowed.
  change sch with (schedule creds 2000 np (rs ++ replicate n default_round)) in *. lia.
Qed.

(** When every [connect] returns, failed or not, every delay is 2000 ms:
    the delay is reset before it is doubled, so repeated failures that
    [connect] reports by its status never make the thread wait longer. *)
Theorem reconnect_no_backoff creds np cs rs l :
  Forall (fun r => connect r <> Threw) rs -> vpn_thread creds np cs rs = Some l ->
  Forall (eq 2000) (waits (trace l)).
Proof.
  intros Hr E. destruct (vpn_thread_spec creds np cs rs) as (l' & E' & _ & Hp & _).
  rewrite E in E'. injection E' as <-. eapply Forall_prefix; [exact Hp|].
  apply backoff_flat, Forall_app. split; [done|]. by apply Forall_replicate.
Qed.

(** Three refused connections, one after the other. *)
Definition refused : Round := mkRound (Returned true) false false.
Definition three_refusals : Loop :=
  default (mkLoop false 0 [] [] []) (vpn_thread false false (replicate 37 true) (replicate 3 refused)).

Lemma reconnect_no_backoff_witness :
  waits (trace three_refusals) = [2000; 2000; 2000] /\ Forall (eq 2000) (waits (trace three_refusals)).
Proof.
  split; [by vm_compute|].
  apply (reconnect_no_backoff false false (replicate 37 true) (replicate 3 refused)); [|by vm_compute].
  by repeat constructor.
Defined.

(* ------------------------------------------------------------------ *)
(** ** The memory tun *)

Section MemoryTun.
Context `{!IpText, !UdpNet}.
Implicit Types (o : OpenVpnClient).

Definition vrun (es : list vevent) (o : OpenVpnClient) : OpenVpnClient := foldl vstep o es.

(** Packets handed to OpenVPN, on their way, and given by lwIP. *)
Definition recv_of (c : ocall) : option bytes := match c with TunRecv p => Some p | _ => None end.
Definition delivered (o : OpenVpnClient) : list bytes := omap recv_of (ocalls o).
Definition pending (o : OpenVpnClient) : list bytes := snd <$> core_posts o.
Definition uplink (e : vevent) : list bytes := match e with VFromLwip p => [p] | _ => [] end.
Definition starts_tun (e : vevent) : bool := match e with VTunStart _ _ _ => true | _ => false end.
Definition all_down (o : OpenVpnClient) : Prop := Forall (eq false) (tuns o).

(** The calls a step can log besides a delivery. *)
Record still (o o' : OpenVpnClient) : Prop := {
  st_delivered : delivered o' = delivered o;
  st_pending : core_posts o' = core_posts o;
  st_tuns : tuns o' = tuns o
}.

Lemma still_refl o : still o o.
Proof. done. Qed.
Lemma still_trans o1 o2 o3 : still o1 o2 -> still o2 o3 -> still o1 o3.
Proof. intros [] []. constructor; congruence. Qed.

Lemma delivered_log c o : delivered (o.[ocalls := ocalls o ++ [c]]) = delivered o ++ omap recv_of [c].
Proof. unfold delivered. apply omap_app. Qed.

(** A triple in which the state stays still. *)
Lemma olog_still c o : recv_of c = None -> still o (fst (olog c o)).
Proof.
  intros Hc. constructor; try done. cbn -[delivered]. etransitivity; [apply delivered_log|].
  cbn. rewrite Hc. by rewrite app_nil_r.
Qed.
Lemma notify_ready_still o : still o (fst (notify_tun_ready o)).
Proof. unfold notify_tun_ready, mbind, M_bind, get. destruct (ready_handler_ o); [by apply olog_still|done]. Qed.
Lemma notify_down_still o : still o (fst (notify_tun_down o)).
Proof. unfold notify_tun_down, mbind, M_bind, get. destruct (disconnect_handler_ o); [by apply olog_still|done]. Qed.
Lemma on_builder_still {A} (m : M Builder A) o : still o (fst (on_builder m o)).
Proof. unfold on_builder, zoom. by destruct (m (tun_builder_ o)). Qed.

(** The builder in front of [establish], and what establishing leaves. *)
Definition configured (cs : list tun_call) (o : OpenVpnClient) : Builder :=
  (tun_builder_ o).[pending_ := staged cs].
Definition established (cs : list tun_call) (o : OpenVpnClient) : Builder :=
  fst (tun_builder_establish (configured cs o)).
Definition valid (cs : list tun_call) : bool := forallb address_ok (addresses (staged cs)).

Lemma staged_fold cs : foldl add_call default_TunConfig cs = staged cs.
Proof.
  rewrite foldl_add_call. unfold staged. f_equal. cbn [mtu default_TunConfig].
  by destruct (concat (call_mtu <$> cs)).
Qed.

Lemma establish_answer cs o :
  tun_builder_establish (configured cs o) = (established cs o, Ret (if valid cs then 0 else -1)).
Proof.
  unfold established, valid. rewrite establish_run. cbn [pending_ configured update].
  by destruct (forallb address_ok (addresses (staged cs))).
Qed.

Lemma established_active cs o :
  valid cs = true ->
  active_config_ (rt (runtime (established cs o))) = staged cs /\
  packet_output_ (rt (runtime (established cs o))) = true.
Proof.
  unfold valid, established. intros Ev. rewrite establish_run. cbn [pending_ configured update].
  by rewrite Ev.
Qed.

Lemma tun_start_run t cs throws o :
  tun_start t cs throws o =
  match throws with
  | Some _ => olog (TunError true) (o.[tun_builder_ := configured cs o])
  | None =>
      if valid cs
      then (_ ← set_connected t true; _ ← olog TunConnected; notify_tun_ready)
             (o.[tun_builder_ := established cs o])
      else olog (TunError false) (o.[tun_builder_ := established cs o])
  end.
Proof.
  unfold tun_start, try_catch, on_builder, zoom, mbind, M_bind.
  change (tun_builder_new (tun_builder_ o)) with ((tun_builder_ o).[pending_ := default_TunConfig], @Ret bool true).
  cbv beta iota. rewrite calls_run. cbn [pending_ update tun_builder_]. rewrite staged_fold.
  destruct throws as [e|]; [done|]. cbv beta iota delta [mret M_ret lift].
  change (tun_builder_establish _) with (tun_builder_establish (configured cs o)).
  rewrite establish_answer. cbv beta iota.
  destruct (valid cs); [|done]. rewrite decide_True by done.
  unfold notify_tun_ready, olog, modify, mbind, M_bind, get. cbn -[established].
  by destruct (ready_handler_ o).
Qed.

Lemma tun_start_still t cs throws o :
  delivered (fst (tun_start t cs throws o)) = delivered o /\
  core_posts (fst (tun_start t cs throws o)) = core_posts o.
Proof.
  rewrite tun_start_run. destruct throws as [e|].
  { destruct (olog_still (TunError true) (o.[tun_builder_ := configured cs o]) eq_refl). done. }
  destruct (valid cs).
  - set (o1 := o.[tun_builder_ := established cs o]).
    destruct (olog_still TunConnected (fst (set_connected t true o1)) eq_refl) as [D1 P1 _].
    destruct (notify_ready_still (fst (olog TunConnected (fst (set_connected t true o1))))) as [D2 P2 _].
    split; [exact (eq_trans D2 D1)|exact (eq_trans P2 P1)].
  - destruct (olog_still (TunError false) (o.[tun_builder_ := established cs o]) eq_refl). done.
Qed.

(** Deliveries and posts after a step, but for the three that concern them. *)
Definition plain (e : vevent) : bool :=
  match e with VFromLwip _ | VCorePost => false | _ => true end.

Lemma plain_step e o :
  plain e = true -> delivered (vstep o e) = delivered o /\ core_posts (vstep o e) = core_posts o.
Proof.
  intros He. destruct e; try done; cbn [vstep].
  - apply tun_start_still.
  - unfold tun_stop, mbind, M_bind. 
    pose proof (on_builder_still (tun_builder_teardown true) (fst (set_connected t false o))) as [D1 P1 _].
    pose proof (notify_down_still (fst (on_builder (tun_builder_teardown true) (fst (set_connected t false o))))) as [D2 P2 _].
    split; [exact (eq_trans D2 D1)|exact (eq_trans P2 P1)].
  - by pose proof (notify_down_still (fst (set_connected t false o))) as [D1 P1 _].
  - unfold tun_send. case_decide; [done|]. unfold mbind, M_bind.
    pose proof (on_builder_still (inject_from_openvpn buf) o) as [D1 P1 _].
    by destruct (on_builder (inject_from_openvpn buf) o) as [o' []].
  - unfold core_event. case_decide; [|done].
    by pose proof (notify_down_still (o.[memory_tun := None])) as [D1 P1 _].
  - unfold core_log, mbind, M_bind, get. case_decide; [done|].
    match goal with |- context [if ?b then _ else _] => destruct b end; [|done].
    by pose proof (olog_still CoreStop (o.[needs_downgrade_ := true]) eq_refl) as [D1 P1 _].
  - unfold start_client, mbind, M_bind, get. destruct (vpn_running_ o); [done|].
    destruct content as [content|]; [|done].
    destruct (scan_ovpn_for_non_aead_cipher content); cbn -[olog delivered];
      (destruct (eval_ok _); [|done]).
    + by destruct (olog_still ThreadStarted (o.[vpn_running_ := true]) eq_refl).
    + by destruct (olog_still ThreadStarted (o.[vpn_running_ := true].[needs_downgrade_ := false]) eq_refl).
  - unfold stop_client, mbind, M_bind, get. destruct (vpn_running_ o); [|done].
    destruct (olog_still ThreadStopRequested (o.[vpn_running_ := false]) eq_refl) as [D1 P1 _].
    destruct (olog_still CoreStop (fst (olog ThreadStopRequested (o.[vpn_running_ := false]))) eq_refl) as [D2 P2 _].
    split; [exact (eq_trans D2 D1)|exact (eq_trans P2 P1)].
Qed.

(** The packets that lwIP sends. *)
Definition accepts (o : OpenVpnClient) (t : nat) (packet : bytes) : Prop :=
  vpn_running_ o = true /\ memory_tun o = Some t /\ is_connected t o = true /\ packet <> [].

Lemma from_lwip_cases p o :
  (exists t, accepts o t p /\ vstep o (VFromLwip p) = o.[core_posts := core_posts o ++ [(t, p)]]) \/
  vstep o (VFromLwip p) = o.
Proof.
  cbn [vstep]. unfold send_from_lwip, try_catch, send_l3_packet, core_inject_l3_packet, tun_inject, mbind, M_bind, get.
  destruct (vpn_running_ o) eqn:Er; [|by right].
  destruct (decide (p = [])) as [->|Hp]; [by right|].
  rewrite bool_decide_false by done. cbn [negb orb].
  destruct (memory_tun o) as [t|] eqn:Em; [|by right].
  destruct (is_connected t o) eqn:Ec; [|by right]. left. exists t. done.
Qed.

Lemma core_post_cases o :
  match core_posts o with
  | [] => vstep o VCorePost = o
  | (t, p) :: q =>
      core_posts (vstep o VCorePost) = q /\
      delivered (vstep o VCorePost) = delivered o ++ if is_connected t o then [p] else []
  end.
Proof.
  cbn [vstep]. unfold next_core_post, run_core_post, mbind, M_bind, get.
  destruct (core_posts o) as [|[t p] q]; [done|].
  unfold modify. cbv beta iota.
  change (is_connected t (o.[core_posts := q])) with (is_connected t o).
  destruct (is_connected t o); [|by rewrite app_nil_r].
  split; [done|]. exact (delivered_log (TunRecv p) (o.[core_posts := q])).
Qed.

(** Nothing is invented, doubled or reordered by a step. *)
Lemma step_in_order o e :
  delivered (vstep o e) ++ pending (vstep o e) `sublist_of` (delivered o ++ pending o) ++ uplink e.
Proof.
  destruct (plain e) eqn:Hp.
  { destruct (plain_step e o Hp) as [-> P]. unfold pending. rewrite P.
    by apply sublist_inserts_r. }
  destruct e; try done.
  - destruct (from_lwip_cases packet o) as [(t & _ & ->)| ->].
    + unfold pending. cbn -[delivered]. rewrite fmap_app, app_assoc. done.
    + apply sublist_inserts_r. done.
  - pose proof (core_post_cases o) as H1. unfold pending. destruct (core_posts o) as [|[t p] q] eqn:Ep.
    + rewrite H1, Ep. cbn. by rewrite !app_nil_r.
    + destruct H1 as [-> ->]. cbn. rewrite app_nil_r, <- app_assoc. apply sublist_app; [done|].
      destruct (is_connected t o); cbn; [done|]. by apply sublist_cons.
Qed.

Lemma run_in_order es o :
  delivered (vrun es o) ++ pending (vrun es o) `sublist_of` delivered o ++ pending o ++ concat (uplink <$> es).
Proof.
  revert o. induction es as [|e es IH]; intros o; cbn [vrun foldl fmap list_fmap concat].
  { by rewrite app_nil_r. }
  etransitivity; [apply IH|]. rewrite !app_assoc. apply sublist_app; [|done]. apply step_in_order.
Qed.

(** While no tun is connected nothing is delivered. *)
Lemma Forall_false_insert t (l : list bool) : Forall (eq false) l -> Forall (eq false) (<[t := false]> l).
Proof. intros H1. by apply Forall_insert. Qed.

Lemma all_down_not t o : all_down o -> is_connected t o = false.
Proof.
  unfold all_down, is_connected. intros Hd. destruct (tuns o !! t) as [b|] eqn:E; [|done].
  by rewrite Forall_lookup in Hd; rewrite (Hd _ _ E).
Qed.

(** What a step other than [tun_start] does to the tuns. *)
Lemma tuns_step e o :
  starts_tun e = false ->
  tuns (vstep o e) = tuns o \/ tuns (vstep o e) = tuns o ++ [false] \/
  exists t, tuns (vstep o e) = <[t := false]> (tuns o).
Proof.
  intros He. destruct e; try done; cbn [vstep].
  - right; by left.
  - right; right. exists t. unfold tun_stop, mbind, M_bind.
    exact (st_tuns _ _ (notify_down_still (fst (on_builder (tun_builder_teardown true) (fst (set_connected t false o)))))).
  - right; right. exists t. exact (st_tuns _ _ (notify_down_still (fst (set_connected t false o)))).
  - left. unfold tun_send. case_decide; [done|]. unfold mbind, M_bind.
    pose proof (on_builder_still (inject_from_openvpn buf) o) as [_ _ T1].
    by destruct (on_builder (inject_from_openvpn buf) o) as [o' []].
  - left. by destruct (from_lwip_cases packet o) as [(t & _ & E)|E]; cbn [vstep] in E; rewrite E.
  - left. unfold next_core_post, run_core_post, mbind, M_bind, get. destruct (core_posts o) as [|[t p] q]; [done|].
    unfold modify. cbv beta iota. by destruct (is_connected _ _).
  - left. unfold core_event. case_decide; [|done]. exact (st_tuns _ _ (notify_down_still (o.[memory_tun := None]))).
  - left. unfold core_log, mbind, M_bind, get. case_decide; [done|].
    by match goal with |- context [if ?b then _ else _] => destruct b end.
  - by left.
  - left. unfold start_client, mbind, M_bind, get. destruct (vpn_running_ o); [done|].
    destruct content as [content|]; [|done].
    by destruct (scan_ovpn_for_non_aead_cipher content); cbn; destruct (eval_ok _).
  - left. unfold stop_client, mbind, M_bind, get. by destruct (vpn_running_ o).
  - by left.
  - by left.
Qed.

Lemma all_down_step e o :
  starts_tun e = false -> all_down o -> all_down (vstep o e) /\ delivered (vstep o e) = delivered o.
Proof.
  intros He Hd. split; [unfold all_down; destruct (tuns_step e o He) as [->|[->|[t ->]]]|].
  - done.
  - apply Forall_app. split; [done|by constructor].
  - by apply Forall_false_insert.
  - destruct (plain e) eqn:Hp; [by destruct (plain_step e o Hp)|]. destruct e; try done.
    + by destruct (from_lwip_cases packet o) as [(t & (_ & _ & Hc & _) & _)| ->]; [rewrite all_down_not in Hc|].
    + pose proof (core_post_cases o) as H1. destruct (core_posts o) as [|[t p] q]; [by rewrite H1|].
      destruct H1 as [_ ->]. by rewrite all_down_not, app_nil_r.
Qed.

(** A connected tun: what lwIP sends arrives. *)
Record uplink_open (t : nat) (o : OpenVpnClient) : Prop := {
  uo_running : vpn_running_ o = true;
  uo_tun : memory_tun o = Some t;
  uo_connected : is_connected t o = true;
  uo_posts : Forall (fun p => is_connected p.1 o = true) (core_posts o)
}.

Lemma open_send t p o :
  uplink_open t o -> p <> [] ->
  uplink_open t (vstep o (VFromLwip p)) /\ delivered (vstep o (VFromLwip p)) = delivered o /\
  pending (vstep o (VFromLwip p)) = pending o ++ [p].
Proof.
  intros [Hr Ht Hc Hp] Hne. cbn [vstep].
  unfold send_from_lwip, try_catch, send_l3_packet, core_inject_l3_packet, tun_inject, mbind, M_bind, get.
  rewrite Hr, (bool_decide_false (p = [])) by done. cbn [negb orb]. rewrite Ht, Hc. cbn [negb orb fst modify].
  split_and!; [|done|unfold pending; cbn; by rewrite fmap_app].
  constructor; try done. cbn [core_posts update]. apply Forall_app. split; [exact Hp|]. by constructor.
Qed.

Lemma open_sends t ps o :
  uplink_open t o -> Forall (.≠ []) ps ->
  uplink_open t (vrun (VFromLwip <$> ps) o) /\ delivered (vrun (VFromLwip <$> ps) o) = delivered o /\
  pending (vrun (VFromLwip <$> ps) o) = pending o ++ ps.
Proof.
  intros Ho Hps. revert o Ho. induction Hps as [|p ps Hp Hps IH]; intros o Ho; [by rewrite app_nil_r|].
  change (vrun (VFromLwip <$> p :: ps) o) with (vrun (VFromLwip <$> ps) (vstep o (VFromLwip p))).
  destruct (open_send t p o Ho Hp) as (Ho1 & D1 & P1). destruct (IH _ Ho1) as (Ho2 & D2 & P2).
  split_and!; [done|by rewrite D2|by rewrite P2, P1, <- app_assoc].
Qed.

Lemma post_tuns o : tuns (vstep o VCorePost) = tuns o.
Proof.
  cbn [vstep]. unfold next_core_post, run_core_post, mbind, M_bind, get.
  destruct (core_posts o) as [|[t p] q]; [done|]. unfold modify. cbv beta iota. by destruct (is_connected _ _).
Qed.

Lemma drain n o :
  Forall (fun p => is_connected p.1 o = true) (core_posts o) -> length (core_posts o) = n ->
  delivered (vrun (replicate n VCorePost) o) = delivered o ++ pending o /\
  pending (vrun (replicate n VCorePost) o) = [].
Proof.
  revert o. induction n as [|n IH]; intros o Hp Hn.
  { apply nil_length_inv in Hn. cbn. unfold pending. by rewrite Hn, app_nil_r. }
  change (vrun (replicate (S n) VCorePost) o) with (vrun (replicate n VCorePost) (vstep o VCorePost)).
  pose proof (core_post_cases o) as H1. destruct (core_posts o) as [|[t p] q] eqn:E; [done|].
  destruct H1 as [P1 D1]. inversion_clear Hp as [|? ? Hc Hq]. cbn in Hc. rewrite Hc in D1.
  destruct (IH (vstep o VCorePost)) as [D2 P2].
  - rewrite P1. eapply Forall_impl; [exact Hq|]. intros x. unfold is_connected. by rewrite post_tuns.
  - rewrite P1. cbn in Hn. lia.
  - split; [|done]. etransitivity; [exact D2|]. unfold pending. rewrite D1, P1, E. by rewrite <- app_assoc.
Qed.

(** C23.  The memory tun, whatever openvpn3, lwIP and the owner do in whatever
    order: the packets OpenVPN receives are packets lwIP sent, each at most
    once and in their order; and from when no tun is connected until the next
    [tun_start], OpenVPN receives none, also none that was on its way. *)
Theorem memory_tun_in_order es o :
  delivered (vrun es o) `sublist_of` delivered o ++ pending o ++ concat (uplink <$> es) /\
  (all_down o -> forallb (fun e => negb (starts_tun e)) es = true -> delivered (vrun es o) = delivered o).
Proof.
  split; [etransitivity; [|apply run_in_order]; by apply sublist_inserts_r|].
  revert o. induction es as [|e es IH]; intros o Hd Hes; [done|].
  cbn in Hes. apply andb_true_iff in Hes as [He Hes]. apply negb_true_iff in He.
  destruct (all_down_step e o He Hd) as [Hd1 Ed]. cbn [vrun foldl]. etransitivity; [by apply IH|done].
Qed.

(** C24.  While the client runs and its tun is connected, every packet lwIP
    sends that is not empty reaches OpenVPN, unchanged and in order, behind
    what was on its way, once the event loop has run its posts. *)
Theorem memory_tun_delivers t ps o :
  uplink_open t o -> Forall (.≠ []) ps ->
  let o' := vrun ((VFromLwip <$> ps) ++ replicate (length (core_posts o) + length ps) VCorePost) o in
  delivered o' = delivered o ++ pending o ++ ps /\ pending o' = [].
Proof.
  intros Ho Hps o'. destruct (open_sends t ps o Ho Hps) as (Ho1 & D1 & P1).
  subst o'. unfold vrun at 1 2. rewrite foldl_app.
  destruct (drain (length (core_posts o) + length ps) (vrun (VFromLwip <$> ps) o)) as [D2 P2].
  - exact (uo_posts _ _ Ho1).
  - apply (f_equal length) in P1. unfold pending in P1. by rewrite length_fmap, length_app, length_fmap in P1.
  - split; [|exact P2]. etransitivity; [exact D2|]. by rewrite D1, P1.
Qed.

(** [tun_start] answers openvpn3 once: the tun is connected and the ready
    handler called exactly when [configure_builder] did not throw and every
    address it gave is valid; then lwIP has the staged configuration and its
    output is connected to the tunnel.  Otherwise an error is reported, the
    tun is not connected and the handler is not called. *)
Theorem tun_start_outcome t cs throws o :
  (t < length (tuns o))%nat ->
  exists o', tun_start t cs throws o = (o', Ret tt) /\
    let ok := bool_decide (throws = None) && valid cs in
    is_connected t o' = (ok || is_connected t o) /\
    ocalls o' = ocalls o ++
      (if ok then TunConnected :: (if ready_handler_ o then [ReadyHandler] else [])
       else [TunError (bool_decide (throws <> None))]) /\
    (ok = true ->
       active_config_ (rt (runtime (tun_builder_ o'))) = staged cs /\
       packet_output_ (rt (runtime (tun_builder_ o'))) = true).
Proof.
  intros Ht. rewrite tun_start_run. destruct throws as [e|].
  { eexists. split; [done|]. rewrite (bool_decide_false (Some e = None)), (bool_decide_true (Some e <> None)) by done.
    by split_and!. }
  rewrite (bool_decide_true (None = None)), (bool_decide_false (None <> None)) by naive_solver.
  cbn [andb]. destruct (valid cs) eqn:Ev; [|eexists; split; [done|]; by split_and!].
  destruct (established_active cs o Ev) as [Ha Hout].
  unfold notify_tun_ready, olog, modify, mbind, M_bind, get. cbn -[established].
  unfold is_connected.
  destruct (ready_handler_ o); (eexists; split; [done|]); cbn -[established];
    rewrite <- ?app_assoc; by rewrite list_lookup_insert_eq.
Qed.

End MemoryTun.

(* ------------------------------------------------------------------ *)
(** ** Witnesses *)

#[local] Existing Instances no_literals toy_udp.

(** A client whose tunnel is up, with one packet on its way. *)
Definition started_client : OpenVpnClient :=
  vrun [VReadyHandler true; VStart [] (Some (str "client")) (fun _ => true); VNewTun]
    (new_client running_builder).
Definition tunnel_up : OpenVpnClient :=
  vrun [VTunStart 0 [SetMtu 1400] None; VFromLwip [x45]] started_client.

Lemma memory_tun_delivers_witness :
  uplink_open 0 tunnel_up /\
  delivered (vrun ((VFromLwip <$> [[x46]; [x47]]) ++ replicate 3 VCorePost) tunnel_up) = [[x45]; [x46]; [x47]].
Proof.
  assert (uplink_open 0 tunnel_up) as Ho by (constructor; [done..|by repeat constructor]).
  split; [exact Ho|]. apply (memory_tun_delivers 0 [[x46]; [x47]] tunnel_up); [exact Ho|by repeat constructor].
Defined.

Lemma tun_start_outcome_witness :
  exists o', tun_start 0 [SetMtu 1400] None started_client = (o', Ret tt) /\
    is_connected 0 o' = true /\ ocalls o' = [ThreadStarted; TunConnected; ReadyHandler] /\
    mtu (active_config_ (rt (runtime (tun_builder_ o')))) = 1400.
Proof.
  destruct (tun_start_outcome 0 [SetMtu 1400] None started_client) as (o' & E & Hc & Hl & Ha); [apply Nat.ltb_lt; by vm_compute|].
  exists o'. split_and!; [exact E|exact Hc|exact Hl|].
  destruct (Ha eq_refl) as [-> _]. done.
Defined.
