(* ===== verification/Inbound.v ===== *)
(** * The Shadowsocks inbound

    [src/ShadowsocksInbound.cpp]: the listening socket with its accept loop,
    and the UDP relay it owns.  The operating system is the environment: it
    answers [open], [setsockopt], [bind] and [listen], and completes accepts. *)
From S2P Require Import Prelude Types Mbedtls Text Aead Address Lwip Udp.

(* ------------------------------------------------------------------ *)
(** ** What the inbound needs of a UDP relay

    [relay_new] is a session whose socket is bound; [relay_stop] is [stop]
    followed by the release of the inbound's [shared_ptr]. *)

Class UdpService := {
  relay : Type;
  relay_new : relay;
  relay_start : M relay unit;
  relay_stop : M relay unit
}.

(** [serving]: the relay is started and the inbound holds it; [relay_moves]:
    what its own events do to it meanwhile. *)
Class UdpServiceLaws `{!UdpService} := {
  serving : relay -> Prop;
  relay_moves : relay -> relay -> Prop;
  serving_moves r r' : serving r -> relay_moves r r' -> serving r';
  relay_start_serves : exists r, relay_start relay_new = (r, Ret tt) /\ serving r;
  relay_stop_returns r : serving r -> exists r', relay_stop r = (r', Ret tt)
}.

(* ------------------------------------------------------------------ *)
(** ** State *)

Section Inbound.
Context `{!MakeAddress, !UdpService}.

Inductive icall :=
| AsyncAccept | SessionStart | AcceptorClose | RelayNew | RelayStart | RelayStop.

(** [accepting]: accepts the acceptor waits for; [failing]: accept handlers
    that are queued with an error; [answers]: of the system calls to come,
    which succeed when there is none. *)
Record Inbound := mkInbound {
  in_config : ShadowsocksConfig;
  started_ : bool;
  acc_open : bool;
  acc_listening : bool;
  accepting : nat;
  failing : nat;
  udp_ : option relay;
  answers : list bool;
  icalls : list icall
}.
#[export] Instance Inbound_eta : Eta Inbound := fun i =>
  mkInbound (in_config i) (started_ i) (acc_open i) (acc_listening i) (accepting i) (failing i)
    (udp_ i) (answers i) (icalls i).

Definition ilog (c : icall) : M Inbound unit := modify (fun i => i.[icalls := icalls i ++ [c]]).

(** A system call that throws on failure. *)
Definition syscall (what : string) : M Inbound unit := fun i =>
  match answers i with
  | [] => (i, Ret tt)
  | ok :: l => (i.[answers := l], if ok then Ret tt else Exn (system_error (str what)))
  end.

(** [make_address]: either family. *)
Definition make_address_checked (h : bytes) : outcome unit :=
  match make_address_v4 h, make_address_v6 h with
  | None, None => Exn (system_error (str "make_address"))
  | _, _ => Ret tt
  end.

(** [asio::ip::tcp::acceptor::close]: the accepts it waits for are aborted. *)
Definition close_acceptor : M Inbound unit :=
  modify (fun i => i.[acc_open := false].[acc_listening := false]
                    .[failing := (failing i + accepting i)%nat].[accepting := O]
                    .[icalls := icalls i ++ [AcceptorClose]]).

(* ------------------------------------------------------------------ *)
(** ** Operations *)

Definition new_inbound (c : ShadowsocksConfig) (l : list bool) : Inbound :=
  mkInbound c false false false 0 0 None l [].

Definition open_tcp_acceptor : M Inbound unit :=
  i ← get;
  if acc_open i then mret tt
  else
    _ ← lift (make_address_checked (listen_host (in_config i)));
    _ ← syscall "open";
    _ ← modify (fun i => i.[acc_open := true]);
    _ ← syscall "set_option";
    _ ← syscall "bind";
    _ ← syscall "listen";
    modify (fun i => i.[acc_listening := true]).

(** [accept_loop]: an acceptor that does not listen completes with an error. *)
Definition accept_loop : M Inbound unit :=
  _ ← ilog AsyncAccept;
  modify (fun i => if acc_listening i then i.[accepting := S (accepting i)]
                   else i.[failing := S (failing i)]).

(** Its handler; [ok] is [!ec]. *)
Definition accept_handler (ok : bool) : M Inbound unit :=
  _ ← (if ok then ilog SessionStart else mret tt);
  i ← get;
  if acc_open i then accept_loop else mret tt.

(** A call on the relay [r]; when it has returned the relay is held on or
    released. *)
Definition on_relay (m : M relay unit) (r : relay) (hold : bool) : M Inbound unit := fun i =>
  let '(r', o) := m r in
  (i.[udp_ := match o with Ret _ => if hold then Some r' else None | _ => Some r' end], o).

(** The second half of [start]: the relay is made when there is none and a
    port for it, and started. *)
Definition start_relay : M Inbound unit :=
  i ← get;
  _ ← (if decide (udp_port (in_config i) <> 0 /\ udp_ i = None) then
         _ ← lift (make_address_checked (listen_host (in_config i)));
         _ ← syscall "bind";
         _ ← ilog RelayNew;
         modify (fun i => i.[udp_ := Some relay_new])
       else mret tt);
  i ← get;
  match udp_ i with
  | None => mret tt
  | Some r => _ ← ilog RelayStart; on_relay relay_start r true
  end.

Definition start_inbound : M Inbound unit :=
  i ← get;
  if started_ i then mret tt
  else
    _ ← modify (fun i => i.[started_ := true]);
    _ ← open_tcp_acceptor;
    _ ← accept_loop;
    start_relay.

Definition stop_inbound : M Inbound unit :=
  _ ← modify (fun i => i.[started_ := false]);
  _ ← close_acceptor;
  i ← get;
  match udp_ i with
  | None => mret tt
  | Some r => _ ← ilog RelayStop; on_relay relay_stop r false
  end.

(* ------------------------------------------------------------------ *)
(** ** Events *)

Inductive ievent :=
| InStart | InStop
| InAccepted                (* a client connects *)
| InAcceptError             (* accept fails *)
| InFailed.                 (* a queued handler with an error runs *)

Definition ienabled (e : ievent) (i : Inbound) : bool :=
  match e with
  | InAccepted | InAcceptError => (0 <? accepting i)%nat
  | InFailed => (0 <? failing i)%nat
  | _ => true
  end.

Definition ideliver (e : ievent) : M Inbound unit :=
  match e with
  | InStart => start_inbound
  | InStop => stop_inbound
  | InAccepted => _ ← modify (fun i => i.[accepting := pred (accepting i)]); accept_handler true
  | InAcceptError => _ ← modify (fun i => i.[accepting := pred (accepting i)]); accept_handler false
  | InFailed => _ ← modify (fun i => i.[failing := pred (failing i)]); accept_handler false
  end.

End Inbound.
