(* ===== verification/InboundSpec.v ===== *)
(** * The Shadowsocks inbound: properties

    The UDP relay of [Udp.v] is what the inbound needs; the invariant of the
    listener; one session for each connection; what a failed start and a quick
    restart leave behind. *)
From S2P Require Import Prelude Types Mbedtls Text Aead AeadStream AeadSpec Address AddressSpec Lwip.
From S2P Require Import Udp UdpFacts UdpRun UdpSpec Inbound.

(* ------------------------------------------------------------------ *)
(** ** The UDP relay implements the service *)

Section Relay.
Context `{!Mbedtls, !MbedtlsLaws, !MakeAddress, !IpText, !IpPrint, !IpPrintLaws}.
Context `{!ClientAddress, !UdpNet, !UdpNetLaws, !UdpResolver, !UdpResolverLaws}.

Definition udp_relay (f : AeadFactory) (g : Csprng) (n : unet) : UdpService := {|
  relay := UdpWorld;
  relay_new := constructed f g n;
  relay_start := start_udp;
  relay_stop := udeliver OnStop
|}.

(** Between the inbound's calls the relay takes its own events, and the stack
    keeps its pcbs. *)
Inductive relay_event (w : UdpWorld) : UdpWorld -> Prop :=
| relay_stack n : dom (callbacks w) ⊆ live n -> relay_event w (w.[ulwip := n])
| relay_deliver e w' r : e <> OnStop -> uenabled e w = true -> uready e w -> udeliver e w = (w', r) ->
    relay_event w w'.

Lemma deliver_keeps_inbound f w e w' r :
  URunInv f w -> e <> OnStop -> uenabled e w = true -> uready e w -> udeliver e w = (w', r) -> inbound w' = inbound w.
Proof.
  intros Hr He Hen Hrd E. destruct e as [x|u payload addr p|i err ip|k|i|]; [..|done].
  - destruct (step_datagram f w x Hr Hen Hrd) as (w1 & E1 & _ & Hi & _). congruence.
  - destruct (step_reply f w u payload addr p Hr) as (w1 & r1 & E1 & _ & Hi & _). congruence.
  - destruct (step_answer f w i err ip Hr) as (w1 & E1 & _ & Hi & _). congruence.
  - destruct (step_expires f w k Hr Hen) as (w1 & E1 & _ & Hi & _). congruence.
  - destruct (step_idle f w i Hr) as (w1 & E1 & _ & Hi & _). congruence.
Qed.

#[refine] Definition udp_relay_laws f g n : @UdpServiceLaws (udp_relay f g n) := {|
  serving := (fun w => URunInv f w /\ inbound w = true) : @relay (udp_relay f g n) -> Prop;
  relay_moves := relay_event : @relay (udp_relay f g n) -> @relay (udp_relay f g n) -> Prop
|}.
Proof.
  - intros w w' [Hr Hi] [n' Hn|e w1 r He Hen Hrd Hd].
    + split; [by apply URunInv_stack|done].
    + destruct (udp_step_any f w e Hr Hen Hrd) as (w2 & r2 & E & _ & Hr2 & _).
      split; [congruence|]. by rewrite (deliver_keeps_inbound f w e w1 r).
  - exists (listening f g n). split; [done|]. split; [apply listening_inv|done].
  - intros w [Hr Hi]. destruct (step_stop f w Hr Hi) as (w' & E & _). by exists w'.
Defined.

End Relay.

(* ------------------------------------------------------------------ *)
(** ** Runs and the invariant *)

#[global] Instance icall_eq_dec : EqDecision icall.
Proof. solve_decision. Defined.

Section Spec.
Context `{!MakeAddress, !UdpService, !UdpServiceLaws}.
Implicit Types (i : Inbound) (evs : list ievent).

(** Events in any order, calls that throw included. *)
Inductive irun (i0 : Inbound) : list ievent -> Inbound -> Prop :=
| irun_nil : irun i0 [] i0
| irun_relay evs i r r' :
    irun i0 evs i -> udp_ i = Some r -> relay_moves r r' -> irun i0 evs (i.[udp_ := Some r'])
| irun_snoc evs i e i' o :
    irun i0 evs i -> ienabled e i = true -> ideliver e i = (i', o) -> irun i0 (evs ++ [e]) i'.

Record IInv i : Prop := {
  ii_stopped : started_ i = false -> acc_open i = false /\ udp_ i = None;
  ii_loop : acc_listening i = true -> acc_open i = true /\ (1 <= accepting i + failing i)%nat;
  ii_idle : acc_listening i = false -> accepting i = 0%nat;
  ii_relay r : udp_ i = Some r -> serving r /\ acc_listening i = true
}.

Definition sessions i : nat := length (filter (fun c => c = SessionStart) (icalls i)).

Lemma sessions_snoc i c : length (filter (fun c => c = SessionStart) (icalls i ++ [c])) =
  (sessions i + if decide (c = SessionStart) then 1 else 0)%nat.
Proof. rewrite filter_app, length_app. unfold sessions. rewrite filter_cons, filter_nil. by case_decide. Qed.

Lemma filter_nil_inv (cs : list icall) : SessionStart ∉ cs -> filter (fun c => c = SessionStart) cs = [].
Proof.
  induction cs as [|c cs IH]; intros Hn; [done|]. rewrite filter_cons, decide_False by set_solver.
  apply IH. set_solver.
Qed.

(** Sessions after a few logged calls. *)
#[local] Ltac count :=
  unfold sessions; cbn -[filter length app]; rewrite ?app_nil_r, ?filter_app, ?length_app;
  repeat match goal with |- context [length (filter ?P [?c])] =>
    let v := eval vm_compute in (length (filter P [c])) in change (length (filter P [c])) with v
  end; lia.

(** What a system call leaves. *)
Lemma syscall_run what i :
  exists l o, syscall what i = (i.[answers := l], o) /\ (o = Ret tt \/ exists e, o = Exn e).
Proof.
  unfold syscall. destruct (answers i) as [|[] l] eqn:E.
  - exists [], (Ret tt). rewrite <- E. by destruct i; cbn; auto.
  - exists l, (Ret tt). auto.
  - exists l, (Exn (system_error (str what))). eauto.
Qed.

Lemma address_checked_run h : make_address_checked h = Ret tt \/ exists e, make_address_checked h = Exn e.
Proof. unfold make_address_checked. destruct (make_address_v4 h), (make_address_v6 h); eauto. Qed.

#[local] Ltac gives_up l b e :=
  exists l, b, (Exn e); split; [|by right; exists e];
  rewrite bool_decide_false by done; f_equal;
  match goal with i : Inbound |- _ => destruct i; cbn in *; by subst end.

(** Opening a closed acceptor. *)
Lemma open_run i :
  acc_open i = false -> acc_listening i = false ->
  exists l b o, open_tcp_acceptor i = (i.[answers := l].[acc_open := b].[acc_listening := bool_decide (o = Ret tt)], o) /\
    (o = Ret tt /\ b = true \/ exists e, o = Exn e).
Proof.
  intros Ho Hl. unfold open_tcp_acceptor, mbind, M_bind, get, lift. rewrite Ho.
  destruct (address_checked_run (listen_host (in_config i))) as [->|[e ->]]; [|gives_up (answers i) false e].
  destruct (syscall_run "open" i) as (l1 & o1 & -> & [->|[e ->]]); [|gives_up l1 false e].
  unfold modify. cbv beta iota. set (i1 := i.[answers := l1].[acc_open := true]).
  destruct (syscall_run "set_option" i1) as (l2 & o2 & -> & [->|[e ->]]); [|gives_up l2 true e].
  destruct (syscall_run "bind" (i1.[answers := l2])) as (l3 & o3 & -> & [->|[e ->]]); [|gives_up l3 true e].
  destruct (syscall_run "listen" (i1.[answers := l2].[answers := l3])) as (l4 & o4 & -> & [->|[e ->]]);
    [|gives_up l4 true e].
  exists l4, true, (Ret tt). split; [|by left]. rewrite bool_decide_true by done. done.
Qed.

(** The second half of [start], without a relay. *)
Lemma start_relay_run i :
  udp_ i = None ->
  exists l u cs o, start_relay i = (i.[answers := l].[udp_ := u].[icalls := icalls i ++ cs], o) /\
    (SessionStart ∉ cs) /\ (forall r, u = Some r -> serving r) /\
    (o = Ret tt /\ (is_Some u <-> udp_port (in_config i) <> 0) \/ exists e, o = Exn e).
Proof.
  intros Hu. unfold start_relay, mbind, M_bind, get, lift.
  destruct (decide (udp_port (in_config i) <> 0 /\ udp_ i = None)) as [[Hp _]|Hn].
  - destruct (address_checked_run (listen_host (in_config i))) as [->|[e ->]].
    2:{ exists (answers i), None, [], (Exn e). split_and!; [|set_solver|done|by right; exists e].
        rewrite app_nil_r, <- Hu. by destruct i. }
    destruct (syscall_run "bind" i) as (l & o & -> & [->|[e ->]]).
    2:{ exists l, None, [], (Exn e). split_and!; [|set_solver|done|by right; exists e].
        rewrite app_nil_r, <- Hu. by destruct i. }
    destruct relay_start_serves as (r & Er & Hs).
    exists l, (Some r), [RelayNew; RelayStart], (Ret tt). split_and!.
    + unfold ilog, modify, on_relay. cbn -[relay_start]. rewrite Er. cbn. by rewrite <- app_assoc.
    + set_solver.
    + by intros ? [= <-].
    + left. split; [done|]. by split.
  - exists (answers i), None, [], (Ret tt). cbn [mret M_ret]. rewrite Hu.
    split_and!; [|set_solver|done|]. { rewrite app_nil_r, <- Hu. by destruct i. }
    left. split; [done|]. split; [by intros []|]. tauto.
Qed.

(** What [start] does to a stopped inbound. *)
Lemma start_run i :
  IInv i -> started_ i = false ->
  exists i' o, start_inbound i = (i', o) /\ IInv i' /\ started_ i' = true /\ sessions i' = sessions i /\
    failing i' = failing i /\
    (o = Ret tt /\ acc_listening i' = true /\ accepting i' = 1%nat /\
       (is_Some (udp_ i') <-> udp_port (in_config i) <> 0) \/
     exists e, o = Exn e).
Proof.
  intros [Hst Hloop Hidle Hrel] Es. destruct (Hst Es) as [Ho Hu].
  assert (acc_listening i = false) as Hl by (destruct (acc_listening i) eqn:E; [by destruct (Hloop eq_refl); congruence|done]).
  unfold start_inbound, mbind, M_bind, get, modify. rewrite Es. cbv beta iota.
  destruct (open_run (i.[started_ := true])) as (l & b & o & -> & [[-> ->]|[e ->]]); [done..| |].
  2:{ eexists _, (Exn e). split; [done|]. rewrite bool_decide_false by done.
      split_and!; [|done..|right; by exists e]. constructor; cbn; try done.
      - intros _. by apply Hidle.
      - intros r. by rewrite Hu. }
  rewrite bool_decide_true by done. unfold accept_loop, ilog, mbind, M_bind, modify. cbn -[start_relay].
  match goal with |- context [start_relay ?x] => set (i1 := x) end.
  destruct (start_relay_run i1) as (l' & u & cs & o' & -> & Hcs & Hsv & Ho'); [done|].
  assert (accepting i1 = 1%nat) as Ha by (cbn; by rewrite (Hidle Hl)).
  eexists _, o'. split; [done|]. split_and!.
  - constructor; try done; cbn -[i1].
    + intros _. split; [done|]. lia.
    + intros r ->. split; [by apply Hsv|done].
  - done.
  - unfold sessions. cbn -[filter]. rewrite !filter_app, !length_app.
    rewrite (filter_nil_inv cs), filter_cons, filter_nil, decide_False by done. cbn. lia.
  - done.
  - destruct Ho' as [[-> Hp]|[e ->]]; [left|right; by exists e]. done.
Qed.

Lemma stop_run i :
  IInv i ->
  exists i', stop_inbound i = (i', Ret tt) /\ IInv i' /\ started_ i' = false /\ acc_open i' = false /\
    acc_listening i' = false /\ udp_ i' = None /\ accepting i' = 0%nat /\
    failing i' = (failing i + accepting i)%nat /\ sessions i' = sessions i.
Proof.
  intros [_ _ _ Hrel]. unfold stop_inbound, close_acceptor, mbind, M_bind, modify, get. cbn -[on_relay].
  destruct (udp_ i) as [r|] eqn:Eu.
  - destruct (Hrel r eq_refl) as [Hs _]. destruct (relay_stop_returns r Hs) as [r' Er].
    unfold on_relay. rewrite Er. eexists. split; [done|]. split; [by constructor|].
    split_and!; try done. count.
  - eexists. split; [done|]. split; [constructor; cbn; try done; intros r; by rewrite Eu|].
    split_and!; try done. count.
Qed.

(** A completed accept, [a] and [f] being what remains of the others. *)
Lemma handler_run ok a f i :
  IInv i -> (a + f + 1 = accepting i + failing i)%nat -> (acc_listening i = false -> a = 0%nat) ->
  exists i', accept_handler ok (i.[accepting := a].[failing := f]) = (i', Ret tt) /\ IInv i' /\
    started_ i' = started_ i /\ acc_listening i' = acc_listening i /\ udp_ i' = udp_ i /\
    (accepting i' + failing i' = if acc_open i then accepting i + failing i else a + f)%nat /\
    sessions i' = (sessions i + if ok then 1 else 0)%nat.
Proof.
  intros [Hst Hloop Hidle Hrel] Hn Ha. unfold accept_handler, mbind, M_bind, get.
  set (i1 := i.[accepting := a].[failing := f]).
  assert (exists i2, (if ok then ilog SessionStart else mret tt) i1 = (i2, Ret tt) /\
    i2 = i1.[icalls := icalls i ++ if ok then [SessionStart] else []]) as (i2 & -> & ->).
  { eexists. split; [|done]. destruct ok; [done|]. rewrite app_nil_r. by destruct i. }
  change (acc_open (i1.[icalls := _])) with (acc_open i).
  destruct (acc_open i) eqn:Eo.
  - unfold accept_loop, mbind, M_bind, ilog, modify. cbn -[filter].
    destruct (acc_listening i) eqn:El; (eexists; split; [done|]); split_and!; try done; cbn;
      try (destruct ok; count); try lia.
    + constructor; cbn; rewrite ?El, ?Eo; try done. intros _. split; [done|lia].
    + constructor; cbn; rewrite ?El, ?Eo; done.
  - assert (acc_listening i = false) as El by (destruct (acc_listening i); [by destruct (Hloop eq_refl)|done]).
    eexists. split; [done|]. split_and!; try done.
    + constructor; cbn; rewrite ?El, ?Eo; try done; [by auto|]. intros r Er. destruct (Hrel r Er); congruence.
    + destruct ok; count.
Qed.

Lemma accept_counts i a :
  i.[accepting := a].[failing := failing i] = i.[accepting := a].
Proof. by destruct i. Qed.
Lemma fail_counts i f : i.[accepting := accepting i].[failing := f] = i.[failing := f].
Proof. by destruct i. Qed.

#[global] Instance ievent_eq_dec : EqDecision ievent.
Proof. solve_decision. Defined.

#[local] Ltac tally :=
  first [rewrite decide_True by done|rewrite decide_False by done]; lia.

(** Every event keeps the invariant, and only [start] can throw. *)
Lemma istep e i :
  IInv i -> ienabled e i = true ->
  exists i' o, ideliver e i = (i', o) /\ IInv i' /\
    (o = Ret tt \/ e = InStart /\ started_ i = false /\ exists x, o = Exn x) /\
    sessions i' = (sessions i + if decide (e = InAccepted) then 1 else 0)%nat.
Proof.
  intros Hi Hen. destruct e; cbn [ideliver].
  - destruct (started_ i) eqn:Es.
    + exists i, (Ret tt). unfold start_inbound, mbind, M_bind, get. rewrite Es. split_and!; auto; tally.
    + destruct (start_run i Hi Es) as (i' & o & E & Hi' & _ & Hs & _ & Ho). exists i', o.
      split_and!; [done|done| |tally]. destruct Ho as [[-> _]|[x ->]]; [by left|right; eauto].
  - destruct (stop_run i Hi) as (i' & E & Hi' & _ & _ & _ & _ & _ & _ & Hs). exists i', (Ret tt).
    split_and!; [done|done|by left|tally].
  - unfold ienabled in Hen. apply Nat.ltb_lt in Hen.
    destruct (handler_run true (pred (accepting i)) (failing i) i Hi) as (i' & E & Hi' & _ & _ & _ & _ & Hs);
      [lia|intros Hl; by rewrite (ii_idle i Hi Hl)|]. rewrite accept_counts in E.
    exists i', (Ret tt). split_and!; [exact E|done|by left|tally].
  - unfold ienabled in Hen. apply Nat.ltb_lt in Hen.
    destruct (handler_run false (pred (accepting i)) (failing i) i Hi) as (i' & E & Hi' & _ & _ & _ & _ & Hs);
      [lia|intros Hl; by rewrite (ii_idle i Hi Hl)|]. rewrite accept_counts in E.
    exists i', (Ret tt). split_and!; [exact E|done|by left|tally].
  - unfold ienabled in Hen. apply Nat.ltb_lt in Hen.
    destruct (handler_run false (accepting i) (pred (failing i)) i Hi) as (i' & E & Hi' & _ & _ & _ & _ & Hs);
      [lia|apply Hi|]. rewrite fail_counts in E.
    exists i', (Ret tt). split_and!; [exact E|done|by left|tally].
Qed.

Lemma new_inv c l : IInv (new_inbound c l).
Proof. by constructor. Qed.

Lemma irun_inv c l evs i :
  irun (new_inbound c l) evs i -> IInv i /\ sessions i = length (filter (fun e => e = InAccepted) evs).
Proof.
  induction 1 as [|evs i r r' Hrun [Hi Hs] Hu Hm|evs i e i' o Hrun [Hi Hs] Hen Hd].
  - split; [apply new_inv|done].
  - split; [|done]. destruct Hi as [Hst Hloop Hidle Hrel]. destruct (Hrel r Hu) as [Hsv Hl].
    constructor; cbn; try done.
    + intros Es. destruct (Hst Es). congruence.
    + intros r1 [= <-]. split; [by eapply serving_moves|done].
  - destruct (istep e i Hi Hen) as (i1 & o1 & E & Hi1 & _ & Hs1). rewrite Hd in E. injection E as <- <-.
    split; [done|]. rewrite Hs1, Hs, filter_app, length_app. f_equal. rewrite filter_cons, filter_nil. by case_decide.
Qed.

(** C27.  The inbound, whatever is called and whatever happens in whatever order,
    failed starts included: nothing it does is undefined; a stopped inbound
    has no listening socket and no relay; while its socket listens, an accept
    is outstanding or about to be renewed, so no client waits for ever; the
    relay it holds serves; and each accepted connection gets one session. *)
Theorem inbound_invariant c l evs i :
  irun (new_inbound c l) evs i ->
  (started_ i = false -> acc_open i = false /\ udp_ i = None) /\
  (acc_listening i = true -> (1 <= accepting i + failing i)%nat) /\
  (forall r, udp_ i = Some r -> serving r /\ acc_listening i = true) /\
  sessions i = length (filter (fun e => e = InAccepted) evs) /\
  (forall e, ienabled e i = true -> snd (ideliver e i) <> Ub).
Proof.
  intros Hrun. destruct (irun_inv c l evs i Hrun) as [Hi Hs]. pose proof Hi as [Hst Hloop Hidle Hrel].
  split_and!; [done|intros Hl; by destruct (Hloop Hl)|done|done|].
  intros e Hen. destruct (istep e i Hi Hen) as (i' & o & -> & _ & Ho & _). cbn.
  by destruct Ho as [->|(_ & _ & x & ->)].
Qed.

(** [start] on a stopped inbound either listens on both ports, with one
    accept outstanding and a relay exactly when a UDP port is given, or
    throws.  A [stop] then releases everything.  But after a [start] that
    threw the inbound counts as started: every further [start] returns at
    once and changes nothing, until it is stopped. *)
Theorem inbound_start_outcome c l evs i :
  irun (new_inbound c l) evs i -> started_ i = false ->
  exists i' o, start_inbound i = (i', o) /\
    (o = Ret tt /\ acc_listening i' = true /\ accepting i' = 1%nat /\
       (is_Some (udp_ i') <-> udp_port (in_config i) <> 0) \/
     exists e, o = Exn e) /\
    start_inbound i' = (i', Ret tt) /\
    exists i'', stop_inbound i' = (i'', Ret tt) /\ started_ i'' = false /\ acc_open i'' = false /\ udp_ i'' = None.
Proof.
  intros Hrun Es. destruct (irun_inv c l evs i Hrun) as [Hi _].
  destruct (start_run i Hi Es) as (i' & o & E & Hi' & Es' & _ & _ & Ho).
  destruct (stop_run i' Hi') as (i'' & E'' & _ & Es'' & Ho'' & _ & Hu'' & _).
  exists i', o. split_and!; [done|done| |by exists i'']. unfold start_inbound, mbind, M_bind, get. by rewrite Es'.
Qed.

(** A [stop] and a [start] with no handler between them leave the aborted
    accept behind the new one, and its handler finds the acceptor open and
    accepts as well: the number of outstanding accepts grows by one with each
    such restart. *)
Theorem inbound_restart_adds_loop c l evs i :
  irun (new_inbound c l) evs i -> acc_listening i = true ->
  forall i1 i2, stop_inbound i = (i1, Ret tt) -> start_inbound i1 = (i2, Ret tt) ->
    (accepting i2 + failing i2 = S (accepting i + failing i))%nat.
Proof.
  intros Hrun Hl i1 i2 E1 E2. destruct (irun_inv c l evs i Hrun) as [Hi _].
  destruct (stop_run i Hi) as (i1' & E1' & Hi1 & Es1 & _ & _ & _ & Ha1 & Hf1 & _).
  rewrite E1 in E1'. injection E1' as <-.
  destruct (start_run i1 Hi1 Es1) as (i2' & o & E2' & _ & _ & _ & Hf2 & Ho).
  rewrite E2 in E2'. injection E2' as <- <-. destruct Ho as [(_ & _ & Ha2 & _)|[e He]]; [lia|done].
Qed.

(** A script of events. *)
Definition iafter (script : list ievent) i : Inbound := foldl (fun i e => fst (ideliver e i)) i script.
Fixpoint iable (script : list ievent) i : bool :=
  match script with
  | [] => true
  | e :: script => ienabled e i && iable script (fst (ideliver e i))
  end.

Lemma iafter_run script i0 evs i :
  irun i0 evs i -> iable script i = true -> irun i0 (evs ++ script) (iafter script i).
Proof.
  revert evs i. induction script as [|e script IH]; intros evs i Hr Ha; [by rewrite app_nil_r|].
  cbn in Ha. apply andb_true_iff in Ha as [He Ha]. rewrite cons_middle, app_assoc.
  apply (IH (evs ++ [e])); [|done]. eapply irun_snoc; [done|done|apply surjective_pairing].
Qed.

End Spec.

(* ------------------------------------------------------------------ *)
(** ** Witnesses: an inbound with the UDP relay of [Udp.v] *)

#[local] Existing Instances toy_mbedtls toy_mbedtls_laws pton_make_address toy_print toy_print_laws
  toy_aton toy_address toy_address_laws toy_udp toy_udp_laws toy_resolver toy_resolver_laws.

Definition toy_service : UdpService := udp_relay (new_factory toy_pw) toy_rng toy_net.
Definition toy_service_laws : @UdpServiceLaws toy_service := udp_relay_laws (new_factory toy_pw) toy_rng toy_net.
#[local] Existing Instances toy_service toy_service_laws.

Definition toy_config : ShadowsocksConfig :=
  mkShadowsocksConfig (str "127.0.0.1") 8388 8388 (str "chacha20-ietf-poly1305") toy_pw.

(** One client is served. *)
Definition served : Inbound := iafter [InStart; InAccepted] (new_inbound toy_config []).
Lemma served_run : irun (new_inbound toy_config []) [InStart; InAccepted] served.
Proof. apply (iafter_run _ _ []); [constructor|]. vm_compute. reflexivity. Qed.

Lemma inbound_invariant_witness :
  acc_listening served = true /\ (1 <= accepting served + failing served)%nat /\ sessions served = 1%nat.
Proof.
  destruct (inbound_invariant toy_config [] _ served served_run) as (_ & Hl & _ & Hs & _).
  split; [vm_compute; reflexivity|]. split; [apply Hl; vm_compute; reflexivity|]. rewrite Hs. reflexivity.
Defined.

(** [bind] fails: the inbound throws, and stays as it is on the next [start]. *)
Definition no_port : Inbound := new_inbound toy_config [true; true; false].

Lemma inbound_start_outcome_witness :
  exists i' o, start_inbound no_port = (i', o) /\
    (o = Ret tt /\ acc_listening i' = true /\ accepting i' = 1%nat /\
       (is_Some (udp_ i') <-> udp_port (in_config no_port) <> 0) \/
     exists e, o = Exn e) /\
    start_inbound i' = (i', Ret tt) /\
    exists i'', stop_inbound i' = (i'', Ret tt) /\ started_ i'' = false /\ acc_open i'' = false /\ udp_ i'' = None.
Proof. apply (inbound_start_outcome toy_config [true; true; false] [] no_port); [constructor|reflexivity]. Defined.

Definition stopped_again : Inbound := fst (stop_inbound served).
Definition restarted : Inbound := fst (start_inbound stopped_again).

Lemma ret_pair {A} (p : A * outcome unit) : snd p = Ret tt -> p = (fst p, Ret tt).
Proof. destruct p; cbn. by intros ->. Qed.

Lemma inbound_restart_adds_loop_witness :
  (accepting restarted + failing restarted = S (accepting served + failing served))%nat /\
  accepting (iafter [InFailed] restarted) = 2%nat.
Proof.
  split; [|vm_compute; reflexivity].
  assert (acc_listening served = true) as Hl by (vm_compute; reflexivity).
  assert (snd (stop_inbound served) = Ret tt) as E1 by (vm_compute; reflexivity).
  assert (snd (start_inbound stopped_again) = Ret tt) as E2 by (vm_compute; reflexivity).
  exact (inbound_restart_adds_loop toy_config [] _ served served_run Hl stopped_again restarted
    (ret_pair _ E1) (ret_pair _ E2)).
Defined.
