(* ===== verification/Manager.v ===== *)
(** * Instances and their manager

    [src/MultiInstanceManager.cpp] (all but the configuration loader) and
    [src/main.cpp]: each instance owns an event loop with its thread, an lwIP
    runtime, an OpenVPN client and an inbound.  The client's handlers post to
    the loop, which starts and stops the inbound. *)
From S2P Require Import Prelude Types Mbedtls Text Aead Address Lwip Dns Udp Runtime TunBuilder OpenVpn Inbound.

(** The profiles on disk, and what [eval_config] says to them. *)
Class Profiles := {
  profile : bytes -> option bytes;
  eval_profile : bytes -> bool -> bool
}.

Section Manager.
Context `{!IpText, !UdpNet, !MakeAddress, !UdpService, !Profiles}.

(* ------------------------------------------------------------------ *)
(** ** An instance *)

(** What is posted to an instance's loop. *)
Inductive task := BootTask | ReadyTask | DownTask | ShutdownTask.

(** [InstanceRuntime]; the runtime is part of the client's tun builder.
    [io_alive]: the thread is in [io->run()]; [stopped]: the promise of
    [stop]. *)
Record Instance := mkInstance {
  inst_config : InstanceConfig;
  vpn : OpenVpnClient;
  ss : Inbound;
  io_queue : list task;
  io_alive : bool;
  stopped : bool
}.
#[export] Instance Instance_eta : Eta Instance := fun i =>
  mkInstance (inst_config i) (vpn i) (ss i) (io_queue i) (io_alive i) (stopped i).

(** The handlers the manager gives the client post a task each. *)
Definition handler_post (c : ocall) : option task :=
  match c with
  | ReadyHandler => Some ReadyTask
  | DisconnectHandler => Some DownTask
  | _ => None
  end.

(** Code of the client, with what its handlers post meanwhile. *)
Definition after_vpn (o : OpenVpnClient) (i : Instance) : Instance :=
  i.[io_queue := io_queue i ++ omap handler_post (drop (length (ocalls (vpn i))) (ocalls o))].[vpn := o].
Definition on_vpn {A} (m : M OpenVpnClient A) : M Instance A := zoom vpn after_vpn m.
Definition on_ss {A} (m : M Inbound A) : M Instance A := zoom ss (fun s i => i.[ss := s]) m.
Definition on_runtime {A} (m : M RtWorld A) : M Instance A := on_vpn (on_builder (on_lwip m)).

Definition post_task (t : task) : M Instance unit := modify (fun i => i.[io_queue := io_queue i ++ [t]]).

(** The posted functions; [running] is the manager's flag. *)
Definition boot_task : M Instance unit :=
  try_catch
    (_ ← on_runtime start_runtime;
     i ← get;
     let path := ovpn_path (inst_config i) in
     _ ← on_vpn (start_client path (profile path) (eval_profile path));
     mret tt)
    (on_runtime stop_runtime).
Definition ready_task (running : bool) : M Instance unit :=
  if running then on_ss start_inbound else mret tt.
Definition down_task (running : bool) : M Instance unit :=
  if running then on_ss stop_inbound else mret tt.
Definition shutdown_task : M Instance unit :=
  _ ← on_vpn (set_ready_handler false);
  _ ← on_vpn (set_disconnect_handler false);
  _ ← on_ss stop_inbound;
  _ ← on_vpn stop_client;
  _ ← on_runtime stop_runtime;
  modify (fun i => i.[stopped := true]).

Definition run_task (running : bool) (t : task) : M Instance unit :=
  match t with
  | BootTask => boot_task
  | ReadyTask => ready_task running
  | DownTask => down_task running
  | ShutdownTask => shutdown_task
  end.

(** One turn of the loop; what a function throws ends [run] and the thread. *)
Definition io_run_one (running : bool) : M Instance unit := fun i =>
  match io_alive i, io_queue i with
  | true, t :: q =>
      try_catch (run_task running t) (modify (fun i => i.[io_alive := false])) (i.[io_queue := q])
  | _, _ => (i, Ret tt)
  end.

(** The members as [start] makes them, with the handlers set. *)
Definition make_instance (cfg : InstanceConfig) (id : Z) (n : unet) (l : list bool) : Instance :=
  mkInstance cfg
    ((new_client (mkBuilder default_TunConfig (new_runtime id n))).[ready_handler_ := true].[disconnect_handler_ := true])
    (new_inbound (shadowsocks cfg) l) [] false false.

(** [start_instance]; [err]: what the constructor of the thread throws. *)
Definition start_instance (err : option exn) : M Instance unit :=
  _ ← post_task BootTask;
  match err with
  | None => modify (fun i => i.[io_alive := true])
  | Some e => lift (Exn e)
  end.

(** [stop] for one instance: the loop gets through [turns] turns in the two
    seconds that [stop] waits. *)
Definition stop_instance (turns : nat) : M Instance unit :=
  _ ← post_task ShutdownTask;
  _ ← each (fun _ => io_run_one false) (replicate turns tt);
  modify (fun i => i.[io_alive := false]).

(** The destructor: the thread is joined, then the members go in reverse
    order, each with its own: the inbound's [udp_] and acceptor, the client,
    the runtime. *)
Definition destroy_instance : M Instance unit :=
  _ ← modify (fun i => i.[io_alive := false]);
  _ ← on_ss (modify (fun s => s.[udp_ := None]));
  _ ← on_ss close_acceptor;
  _ ← on_vpn stop_client;
  on_runtime stop_runtime.

(* ------------------------------------------------------------------ *)
(** ** The manager *)

(** [gone]: the instances that were destroyed. *)
Record Manager := mkManager {
  config_ : ManagerConfig;
  instances_ : list Instance;
  mgr_running_ : bool;
  gone : list Instance
}.
#[export] Instance Manager_eta : Eta Manager := fun m =>
  mkManager (config_ m) (instances_ m) (mgr_running_ m) (gone m).

Definition new_manager (c : ManagerConfig) : Manager := mkManager c [] false [].

(** Code that runs on each instance in turn, until it throws. *)
Fixpoint run_all (f : M Instance unit) (l : list Instance) : list Instance * outcome unit :=
  match l with
  | [] => ([], Ret tt)
  | i :: l =>
      match f i with
      | (i', Ret _) => let '(l', r) := run_all f l in (i' :: l', r)
      | (i', r) => (i' :: l, r)
      end
  end.
Definition on_instances (f : M Instance unit) : M Manager unit := fun m =>
  let '(l, r) := run_all f (instances_ m) in (m.[instances_ := l], r).

(** The system's part in the start of instance [k]: what making its members
    throws, or the DNS counter, the stack and the system calls' answers that
    they begin with and what the constructor of its thread throws. *)
Definition resources : Type := nat -> exn + (Z * unet * list bool * option exn).

(** The loop of [start]: an exception leaves the instances started so far, and
    the one in the making is destroyed. *)
Fixpoint start_loop (sys : resources) (k : nat) (cfgs : list InstanceConfig) : M Manager unit :=
  match cfgs with
  | [] => mret tt
  | cfg :: cfgs =>
      match sys k with
      | inl e => lift (Exn e)
      | inr (id, n, l, err) =>
          match start_instance err (make_instance cfg id n l) with
          | (i, Ret _) =>
              _ ← modify (fun m => m.[instances_ := instances_ m ++ [i]]);
              start_loop sys (S k) cfgs
          | (i, Exn e) =>
              _ ← modify (fun m => m.[gone := gone m ++ [fst (destroy_instance i)]]); lift (Exn e)
          | (_, Ub) => lift Ub
          end
      end
  end.

Definition start_manager (sys : resources) : M Manager unit :=
  m ← get;
  if mgr_running_ m then mret tt
  else
    _ ← modify (fun m => m.[mgr_running_ := true]);
    start_loop sys 0 (instances (config_ m)).

Definition stop_manager (turns : nat) : M Manager unit :=
  m ← get;
  if negb (mgr_running_ m) then mret tt
  else
    _ ← modify (fun m => m.[mgr_running_ := false]);
    _ ← on_instances (stop_instance turns);
    _ ← on_instances destroy_instance;
    modify (fun m => m.[gone := gone m ++ instances_ m].[instances_ := []]).

(** [~MultiInstanceManager] *)
Definition destroy_manager (turns : nat) : M Manager unit := stop_manager turns.

(** [main]: the exit code, and the manager if one was made, whose destructor
    runs on both ways out of the block; what leaves the destructor ends the
    program without an exit code.  [loaded] is what [load_json_config] does,
    [meanwhile] what the instances do until the signal, or until the
    exception of [start] has reached the destructor. *)
Definition main (argc : Z) (loaded : outcome ManagerConfig) (sys : resources)
    (meanwhile : Manager -> Manager) (turns : nat) : outcome (Z * option Manager) :=
  if decide (argc <> 2) then Ret (2, None)
  else match loaded with
       | Ret config =>
           let '(m, started) := start_manager sys (new_manager config) in
           let m := meanwhile m in
           let '(m, r) := match started with Ret _ => stop_manager turns m | _ => (m, started) end in
           match r, destroy_manager turns m with
           | Ret _, (m, Ret _) => Ret (0, Some m)
           | Exn _, (m, Ret _) => Ret (1, Some m)
           | _, _ => Ub
           end
       | Exn _ => Ret (1, None)
       | Ub => Ub
       end.

(* ------------------------------------------------------------------ *)
(** ** Events of a running instance *)

Inductive mevent :=
| OnVpn (e : vevent)        (* OpenVPN's threads, and packets *)
| OnLoop                    (* the loop runs what was posted *)
| OnAccept (e : ievent).    (* the loop runs an accept handler *)

Definition accept_event (a : ievent) : bool := match a with InStart | InStop => false | _ => true end.
Definition mstep (running : bool) (i : Instance) (e : mevent) : Instance :=
  match e with
  | OnVpn v => after_vpn (vstep (vpn i) v) i
  | OnLoop => fst (io_run_one running i)
  | OnAccept a =>
      if io_alive i && ienabled a (ss i) && accept_event a
      then fst (on_ss (ideliver a) i) else i
  end.
Definition mrun (running : bool) (es : list mevent) (i : Instance) : Instance := foldl (mstep running) i es.

End Manager.
