(* ===== verification/ManagerSpec.v ===== *)
(** * Instances and their manager: properties

    The inbound follows the tunnel; what a failed start of the inbound does to
    its instance; what stopping releases. *)
From S2P Require Import Prelude Types Mbedtls Text Aead AeadStream AeadSpec Address AddressSpec Lwip Dns DnsFacts.
From S2P Require Import Udp UdpFacts UdpRun UdpSpec Runtime RuntimeFacts TunBuilder TunSpec OpenVpn OpenVpnSpec.
From S2P Require Import Inbound InboundSpec Manager.

(* ------------------------------------------------------------------ *)
(** ** The client only appends to its log *)

Section Appends.
Context `{!IpText, !UdpNet}.

Definition appends {A} (m : M OpenVpnClient A) : Prop := forall o, ocalls o `prefix_of` ocalls (fst (m o)).

Lemma appends_ret {A} (a : A) : appends (mret a).
Proof. intros o. exists []. by rewrite app_nil_r. Qed.
Lemma appends_lift {A} (r : outcome A) : appends (lift r).
Proof. intros o. exists []. by rewrite app_nil_r. Qed.
Lemma appends_get : appends get.
Proof. intros o. exists []. by rewrite app_nil_r. Qed.
Lemma appends_bind {A B} (m : M OpenVpnClient A) (f : A -> M OpenVpnClient B) :
  appends m -> (forall a, appends (f a)) -> appends (m ≫= f).
Proof.
  intros Hm Hf o. unfold mbind, M_bind. specialize (Hm o). destruct (m o) as [o' [a|e|]]; [|done..].
  by etransitivity; [|apply Hf].
Qed.
Lemma appends_modify f : (forall o, ocalls (f o) = ocalls o) -> appends (modify f).
Proof. intros Hf o. cbn. by rewrite Hf. Qed.
Lemma appends_try {A} (m h : M OpenVpnClient A) : appends m -> appends h -> appends (try_catch m h).
Proof.
  intros Hm Hh o. unfold try_catch. specialize (Hm o). destruct (m o) as [o' [a|e|]]; [done| |done].
  by etransitivity; [|apply Hh].
Qed.
Lemma appends_builder {A} (m : M Builder A) : appends (on_builder m).
Proof. intros o. unfold on_builder, zoom. by destruct (m (tun_builder_ o)). Qed.
Lemma appends_log c : appends (olog c).
Proof. intros o. by apply prefix_app_r. Qed.

End Appends.

Create HintDb log.
#[export] Hint Resolve appends_ret appends_lift appends_get appends_bind appends_try appends_builder appends_log : log.
#[export] Hint Extern 1 (appends (modify _)) => by apply appends_modify : log.
#[export] Hint Extern 2 (appends (if ?b then _ else _)) => destruct b : log.
#[export] Hint Extern 2 (appends (match ?b with _ => _ end)) => destruct b : log.

Section Client.
Context `{!IpText, !UdpNet}.

Lemma vstep_appends e o : ocalls o `prefix_of` ocalls (vstep o e).
Proof.
  destruct e; cbn [vstep];
    match goal with |- _ `prefix_of` ocalls (fst (?m o)) => assert (appends m) as Ha; [|exact (Ha o)] end.
  all: unfold new_tun_client_obj, set_memory_tun, tun_start, tun_stop, set_disconnect, tun_send, send_from_lwip,
    send_l3_packet, core_inject_l3_packet, tun_inject, next_core_post, run_core_post, core_event, core_log,
    reset_impl, start_client, stop_client, set_ready_handler, set_disconnect_handler, notify_tun_ready,
    notify_tun_down, set_connected; eauto 20 with log.
Qed.

Lemma start_client_appends path content eval_ok : appends (start_client path content eval_ok).
Proof. intros o. exact (vstep_appends (VStart path content eval_ok) o). Qed.

End Client.

(* ------------------------------------------------------------------ *)
(** ** The inbound follows the tunnel *)

Section Follow.
Context `{!IpText, !UdpNet, !MakeAddress, !UdpService, !UdpServiceLaws, !Profiles}.
Implicit Types (i : Instance).

(** The tunnel's reports, up or down, and those the loop has not seen. *)
Definition note_of (t : task) : option bool :=
  match t with ReadyTask => Some true | DownTask => Some false | _ => None end.
Definition reports i : list bool := omap note_of (omap handler_post (ocalls (vpn i))).
Definition unseen i : list bool := omap note_of (io_queue i).

(** What holds of an instance whose manager runs. *)
Record MInv i (seen : list bool) : Prop := {
  mi_ss : IInv (ss i);
  mi_reports : reports i = seen ++ unseen i;
  mi_started : io_alive i = true -> started_ (ss i) = default false (last seen);
  mi_queue : ShutdownTask ∉ io_queue i
}.

Lemma omap_drop_prefix o o' :
  ocalls o `prefix_of` ocalls o' -> ocalls o' = ocalls o ++ drop (length (ocalls o)) (ocalls o').
Proof. intros [l ->]. by rewrite drop_app_length. Qed.

(** Code of the client. *)
Lemma MInv_vpn i seen o :
  MInv i seen -> ocalls (vpn i) `prefix_of` ocalls o -> MInv (after_vpn o i) seen.
Proof.
  intros [Hs Hr Hst Hq] Hp. apply omap_drop_prefix in Hp. constructor; [exact Hs| |exact Hst|].
  - unfold reports, unseen, after_vpn in *. cbn -[omap]. rewrite Hp at 1.
    rewrite !omap_app, Hr, app_assoc. done.
  - cbn. rewrite not_elem_of_app. split; [done|]. rewrite list_elem_of_omap.
    by intros (c & _ & Hc); destruct c.
Qed.

Lemma MInv_on_vpn {A} (m : M OpenVpnClient A) i seen : appends m -> MInv i seen -> MInv (fst (on_vpn m i)) seen.
Proof.
  intros Hm Hi. unfold on_vpn, zoom. specialize (Hm (vpn i)). destruct (m (vpn i)) as [o r] eqn:E. cbn.
  by apply MInv_vpn.
Qed.
Lemma MInv_on_runtime {A} (m : M RtWorld A) i seen : MInv i seen -> MInv (fst (on_runtime m i)) seen.
Proof. apply MInv_on_vpn, appends_builder. Qed.

(** The first function of the loop. *)
Lemma MInv_boot running i seen : MInv i seen -> MInv (fst (run_task running BootTask i)) seen.
Proof.
  intros Hi. cbn [run_task]. unfold boot_task, try_catch, mbind, M_bind, get.
  pose proof (MInv_on_runtime start_runtime i seen Hi) as H1'.
  destruct (on_runtime start_runtime i) as [i1 [?|?|]]; cbn [fst] in H1'; [|by apply MInv_on_runtime|done].
  set (path := ovpn_path (inst_config i1)).
  pose proof (MInv_on_vpn _ i1 seen (start_client_appends path (profile path) (eval_profile path)) H1') as H2'.
  destruct (on_vpn (start_client path (profile path) (eval_profile path)) i1) as [i2 [?|?|]]; cbn [fst] in H2';
    [done|by apply MInv_on_runtime|done].
Qed.

Lemma io_alive_vpn {A} (m : M OpenVpnClient A) i : io_alive (fst (on_vpn m i)) = io_alive i.
Proof. unfold on_vpn, zoom. by destruct (m (vpn i)). Qed.

Lemma start_started s :
  IInv s -> exists s' r, start_inbound s = (s', r) /\ r <> Ub /\ IInv s' /\ started_ s' = true.
Proof.
  intros Hi. destruct (started_ s) eqn:Es.
  - exists s, (Ret tt). unfold start_inbound, mbind, M_bind, get. by rewrite Es.
  - destruct (start_run s Hi Es) as (s' & r & E & Hi' & Es' & _ & _ & Ho). exists s', r.
    split_and!; try done. by destruct Ho as [[-> _]|[e ->]].
Qed.

(** The loop after a posted function returned or threw. *)
Lemma MInv_ran (m : M Instance unit) i seen :
  MInv (fst (m i)) seen -> MInv (fst (try_catch m (modify (fun i => i.[io_alive := false])) i)) seen.
Proof. unfold try_catch. destruct (m i) as [i' [?|?|]]; [done| |done]. intros [Hs Hr Hst Hq]. by constructor. Qed.

Lemma MInv_popped i seen t q :
  MInv i seen -> io_alive i = true -> io_queue i = t :: q ->
  IInv (ss i) /\ reports (i.[io_queue := q]) = (seen ++ omap note_of [t]) ++ unseen (i.[io_queue := q]) /\
  t <> ShutdownTask /\ ShutdownTask ∉ q.
Proof.
  intros [Hs Hr Hst Hq] Ha Eq. rewrite Eq in Hq. apply not_elem_of_cons in Hq as [Ht Hq].
  split_and!; [done| |congruence|done].
  unfold reports, unseen in *. cbn -[omap]. rewrite Eq in Hr. rewrite Hr, <- app_assoc, <- omap_app. done.
Qed.

Lemma MInv_loop i seen : MInv i seen -> exists seen', MInv (fst (io_run_one true i)) seen'.
Proof.
  intros Hi. unfold io_run_one. destruct (io_alive i) eqn:Ha; [|by exists seen].
  destruct (io_queue i) as [|t q] eqn:Eq; [by exists seen|].
  destruct (MInv_popped i seen t q Hi Ha Eq) as (Hs & Hr & Ht & Hq).
  exists (seen ++ omap note_of [t]). apply MInv_ran. destruct t; [| | |done].
  - apply MInv_boot. rewrite app_nil_r in *. constructor; try done. apply Hi.
  - destruct (start_started (ss i) Hs) as (s' & r & E & _ & Hs' & Es'). cbn [run_task boot_task ready_task down_task shutdown_task].
    unfold on_ss, zoom. change (ss (i.[io_queue := q])) with (ss i). rewrite E. constructor; try done.
    intros _. cbn. by rewrite last_snoc.
  - destruct (stop_run (ss i) Hs) as (s' & E & Hs' & Es' & _). cbn [run_task boot_task ready_task down_task shutdown_task].
    unfold on_ss, zoom. change (ss (i.[io_queue := q])) with (ss i). rewrite E. constructor; try done.
    intros _. cbn. by rewrite last_snoc.
Qed.

(** The accept handlers leave [started_] alone. *)
Lemma accept_started a s :
  IInv s -> ienabled a s = true -> accept_event a = true ->
  exists s', ideliver a s = (s', Ret tt) /\ IInv s' /\ started_ s' = started_ s.
Proof.
  intros Hi Hen Ha. destruct a; try done; unfold ienabled in Hen; apply Nat.ltb_lt in Hen.
  - destruct (handler_run true (pred (accepting s)) (failing s) s Hi) as (s' & E & Hi' & Es & _);
      [lia|intros Hl; by rewrite (ii_idle s Hi Hl)|]. rewrite accept_counts in E. by exists s'.
  - destruct (handler_run false (pred (accepting s)) (failing s) s Hi) as (s' & E & Hi' & Es & _);
      [lia|intros Hl; by rewrite (ii_idle s Hi Hl)|]. rewrite accept_counts in E. by exists s'.
  - destruct (handler_run false (accepting s) (pred (failing s)) s Hi) as (s' & E & Hi' & Es & _);
      [lia|apply Hi|]. rewrite fail_counts in E. by exists s'.
Qed.

Lemma MInv_step i seen e : MInv i seen -> exists seen', MInv (mstep true i e) seen'.
Proof.
  intros Hi. destruct e as [v| |a]; cbn [mstep].
  - exists seen. apply MInv_vpn; [done|apply vstep_appends].
  - by apply MInv_loop with seen.
  - exists seen. destruct (io_alive i && ienabled a (ss i) && accept_event a) eqn:E; [|done].
    apply andb_true_iff in E as [[Hal Hen]%andb_true_iff Ha]. destruct Hi as [Hs Hr Hst Hq].
    destruct (accept_started a (ss i) Hs Hen Ha) as (s' & E & Hs' & Es).
    unfold on_ss, zoom. rewrite E. constructor; try done. cbn. by rewrite Es.
Qed.

Lemma MInv_run es i seen : MInv i seen -> exists seen', MInv (mrun true es i) seen'.
Proof.
  revert i seen. induction es as [|e es IH]; intros i seen Hi; [by exists seen|].
  destruct (MInv_step i seen e Hi) as [seen1 H1']. exact (IH _ _ H1').
Qed.

(** A new instance, its thread running. *)
Definition launched (cfg : InstanceConfig) (id : Z) (n : unet) (l : list bool) : Instance :=
  fst (start_instance None (make_instance cfg id n l)).

Lemma launched_inv cfg id n l : MInv (launched cfg id n l) [].
Proof. constructor; [apply new_inv|done|done|cbn; set_solver]. Qed.

(** C3.  The inbound follows the tunnel: whatever OpenVPN's threads, the event
    loop and the clients do in whatever order, the loop sees the tunnel's
    reports in their order and none is lost, and while its thread runs the
    inbound is started exactly when the last report it has seen is that the
    tunnel is up; in particular a loop that has nothing left to do has the
    inbound started exactly when the tunnel is up. *)
Theorem inbound_follows_tunnel cfg id n l es :
  let i := mrun true es (launched cfg id n l) in
  exists seen, reports i = seen ++ unseen i /\
    (io_alive i = true -> started_ (ss i) = default false (last seen)) /\
    (io_alive i = true -> io_queue i = [] -> started_ (ss i) = default false (last (reports i))).
Proof.
  intros i. destruct (MInv_run es _ [] (launched_inv cfg id n l)) as [seen [Hs Hr Hst Hq]].
  exists seen. split_and!; [done|done|]. intros Ha Eq. fold i in Hr, Hst. rewrite Hr. unfold unseen.
  rewrite Eq. cbn. rewrite app_nil_r. by apply Hst.
Qed.

End Follow.

(* ------------------------------------------------------------------ *)
(** ** A thread that ended *)

Section Dead.
Context `{!IpText, !UdpNet, !MakeAddress, !UdpService, !Profiles}.
Implicit Types (i : Instance).

Lemma dead_step running e i :
  io_alive i = false ->
  let j := mstep running i e in
  io_alive j = false /\ ss j = ss i /\ stopped j = stopped i /\ io_queue i `prefix_of` io_queue j.
Proof.
  intros Ha. destruct e as [v| |a]; cbn [mstep].
  - split_and!; try done. cbn. by apply prefix_app_r.
  - unfold io_run_one. by rewrite Ha.
  - by rewrite Ha.
Qed.

Lemma dead_run running es i :
  io_alive i = false ->
  let j := mrun running es i in
  io_alive j = false /\ ss j = ss i /\ stopped j = stopped i /\ io_queue i `prefix_of` io_queue j.
Proof.
  revert i. induction es as [|e es IH]; intros i Ha; [done|].
  destruct (dead_step running e i Ha) as (Ha1 & Hs1 & Hp1 & Hq1).
  destruct (IH _ Ha1) as (Ha2 & Hs2 & Hp2 & Hq2).
  split_and!; [exact Ha2|exact (eq_trans Hs2 Hs1)|exact (eq_trans Hp2 Hp1)|].
  exact (transitivity Hq1 Hq2).
Qed.

Lemma dead_turns turns i :
  io_alive i = false -> each (fun _ => io_run_one false) (replicate turns tt) i = (i, Ret tt).
Proof.
  intros Ha. induction turns as [|turns IH]; [done|]. cbn [replicate each]. unfold mbind, M_bind.
  unfold io_run_one at 1. by rewrite Ha.
Qed.

(** C36.  When the inbound cannot be started (its port is taken, say), the
    exception ends the instance's thread: whatever follows, nothing that is
    posted runs any more, so the inbound stays as the failed start left it
    though the tunnel comes and goes, and the function that [stop] posts is
    not run either. *)
Theorem inbound_failure_ends_instance i q e es turns :
  io_alive i = true -> io_queue i = ReadyTask :: q -> snd (start_inbound (ss i)) = Exn e ->
  let j := mrun true (OnLoop :: es) i in
  io_alive j = false /\ ss j = fst (start_inbound (ss i)) /\ q `prefix_of` io_queue j /\
  stopped (fst (stop_instance turns j)) = stopped i /\ ss (fst (stop_instance turns j)) = ss j.
Proof.
  intros Ha Hq He j.
  set (i1 := (i.[io_queue := q].[ss := fst (start_inbound (ss i))]).[io_alive := false]).
  assert (mstep true i OnLoop = i1) as E1.
  { cbn [mstep]. unfold io_run_one, try_catch. rewrite Ha, Hq. cbn [run_task boot_task ready_task down_task shutdown_task]. unfold on_ss, zoom.
    change (ss (i.[io_queue := q])) with (ss i). by destruct (start_inbound (ss i)) as [s' r]; cbn in He; subst r. }
  assert (j = mrun true es i1) as -> by (unfold j, mrun; cbn [foldl]; by rewrite E1).
  destruct (dead_run true es i1 eq_refl) as (Ha2 & Hs2 & Hp2 & Hq2).
  split_and!; [done|exact Hs2|exact Hq2|..];
    unfold stop_instance, mbind, M_bind; cbn [post_task modify]; rewrite dead_turns by done; [exact Hp2|done].
Qed.

End Dead.

(* ------------------------------------------------------------------ *)
(** ** The resolver's table under the client's events *)

Section Table.
Context `{!IpText, !UdpNet, !UdpNetLaws}.

Definition table_ok (o : OpenVpnClient) : Prop := RInv (runtime (tun_builder_ o)).

Lemma keep_modify f : (forall o, tun_builder_ (f o) = tun_builder_ o) -> preserves table_ok (modify f).
Proof. intros Hf o Ho. unfold table_ok. cbn. by rewrite Hf. Qed.
Lemma keep_builder {A} (m : M Builder A) :
  preserves (fun b => RInv (runtime b)) m -> preserves table_ok (on_builder m).
Proof.
  intros Hm o Ho. unfold on_builder, zoom, table_ok. specialize (Hm _ Ho). by destruct (m (tun_builder_ o)).
Qed.

(** Changes of the runtime that leave the table alone. *)
Lemma keep_rt w f :
  RInv w -> (forall r, dns_queries_ (f r) = dns_queries_ r /\ token_ (f r) = token_ r /\ token_holds_ (f r) = token_holds_ r) ->
  RInv (w.[rt := f (rt w)]).
Proof.
  intros Hw Hf. destruct (Hf (rt w)) as (E1 & E2 & E3). eapply RInv_same; [exact Hw|try done..]; cbn.
  by rewrite E2, E3.
Qed.

Lemma keep_new : preserves (fun b => RInv (runtime b)) tun_builder_new.
Proof. by intros b. Qed.
Lemma keep_calls cs : preserves (fun b => RInv (runtime b)) (tun_builder_calls cs).
Proof. intros b Hb. by rewrite calls_run. Qed.
Lemma keep_establish : preserves (fun b => RInv (runtime b)) tun_builder_establish.
Proof.
  intros b Hb. rewrite establish_run. set (n := netif_for _ _).
  destruct (forallb _ _); cbn [fst runtime update].
  - exact (keep_rt (runtime b) (fun r => r.[active_config_ := pending_ b].[netif_ := n].[packet_output_ := true]) Hb ltac:(done)).
  - exact (keep_rt (runtime b) (fun r => r.[active_config_ := pending_ b].[netif_ := n]) Hb ltac:(done)).
Qed.
Lemma keep_teardown d : preserves (fun b => RInv (runtime b)) (tun_builder_teardown d).
Proof. intros b Hb. exact (keep_rt (runtime b) (fun r => r.[packet_output_ := false]) Hb ltac:(done)). Qed.
Lemma keep_inject packet : preserves (fun b => RInv (runtime b)) (inject_from_openvpn packet).
Proof.
  intros b Hb. unfold inject_from_openvpn, try_catch, on_lwip, zoom, post_inject_l3_packet. case_decide; [done|].
  cbn. by eapply RInv_same; [exact Hb|try done..].
Qed.

#[local] Hint Resolve keep_builder keep_new keep_calls keep_establish keep_teardown keep_inject : keep.
#[local] Hint Extern 1 (preserves table_ok (modify _)) => by apply keep_modify : keep.

Lemma vstep_table e o : table_ok o -> table_ok (vstep o e).
Proof.
  intros Ho. destruct e; cbn [vstep];
    match goal with |- table_ok (fst (?m o)) => assert (preserves table_ok m) as Ha; [|exact (Ha o Ho)] end.
  all: unfold new_tun_client_obj, set_memory_tun, tun_start, tun_stop, set_disconnect, tun_send, send_from_lwip,
    send_l3_packet, core_inject_l3_packet, tun_inject, next_core_post, run_core_post, core_event, core_log,
    reset_impl, start_client, stop_client, set_ready_handler, set_disconnect_handler, notify_tun_ready,
    notify_tun_down, set_connected, olog; eauto 20 with keep.
Qed.

End Table.

(* ------------------------------------------------------------------ *)
(** ** Stopping *)

Section Shutdown.
Context `{!IpText, !UdpNet, !UdpNetLaws, !MakeAddress, !UdpService, !UdpServiceLaws, !Profiles}.
Implicit Types (i : Instance).

Definition rtw i : RtWorld := runtime (tun_builder_ (vpn i)).

(** Client code that calls no handler. *)
Definition no_handler {A} (m : M OpenVpnClient A) : Prop :=
  forall o, exists l, ocalls (fst (m o)) = ocalls o ++ l /\ omap handler_post l = [].

Lemma on_vpn_run {A} (m : M OpenVpnClient A) i :
  no_handler m -> on_vpn m i = (i.[vpn := fst (m (vpn i))], snd (m (vpn i))).
Proof.
  intros Hm. destruct (Hm (vpn i)) as (l & El & Hl). unfold on_vpn, zoom, after_vpn.
  destruct (m (vpn i)) as [o r] eqn:E. cbn [fst snd] in *. rewrite El, drop_app_length, Hl, app_nil_r.
  by destruct i.
Qed.

Lemma no_handler_builder {A} (m : M Builder A) : no_handler (on_builder m).
Proof. intros o. exists []. unfold on_builder, zoom. destruct (m (tun_builder_ o)). by rewrite app_nil_r. Qed.
Lemma no_handler_set_ready h : no_handler (set_ready_handler h).
Proof. intros o. exists []. by rewrite app_nil_r. Qed.
Lemma no_handler_set_disconnect h : no_handler (set_disconnect_handler h).
Proof. intros o. exists []. by rewrite app_nil_r. Qed.

Lemma no_handler_stop : no_handler stop_client.
Proof.
  intros o. unfold stop_client, mbind, M_bind, get. destruct (vpn_running_ o).
  - exists [ThreadStopRequested; CoreStop]. cbn. by rewrite <- app_assoc.
  - exists []. cbn. by rewrite app_nil_r.
Qed.
Lemma no_handler_start path content eval_ok : no_handler (start_client path content eval_ok).
Proof.
  intros o. unfold start_client, mbind, M_bind, get.
  destruct (vpn_running_ o); [exists []; by rewrite app_nil_r|].
  destruct content as [content|]; [|exists []; cbn; by rewrite app_nil_r].
  destruct (scan_ovpn_for_non_aead_cipher content); cbn; (destruct (eval_ok _); [by exists [ThreadStarted]|]);
    exists []; cbn; by rewrite app_nil_r.
Qed.

Lemma on_runtime_run {A} (m : M RtWorld A) i w' r :
  m (rtw i) = (w', r) ->
  on_runtime m i = (i.[vpn := (vpn i).[tun_builder_ := (tun_builder_ (vpn i)).[runtime := w']]], r).
Proof.
  intros E. unfold on_runtime. rewrite on_vpn_run by apply no_handler_builder.
  unfold on_builder, on_lwip, zoom. fold (rtw i). by rewrite E.
Qed.

(** What a posted function leaves alone. *)
Definition same_loop i i' : Prop :=
  io_queue i' = io_queue i /\ io_alive i' = io_alive i /\ inst_config i' = inst_config i.

Lemma start_runtime_inv w :
  RInv w -> exists w', start_runtime w = (w', Ret tt) /\ RInv w'.
Proof.
  intros Hi. unfold start_runtime, arm_timer, mbind, M_bind, get. destruct (rt_running_ (rt w)); [by exists w|].
  eexists. split; [done|]. by eapply RInv_same; [exact Hi|try done..].
Qed.

Lemma start_client_builder path content eval_ok o :
  tun_builder_ (fst (start_client path content eval_ok o)) = tun_builder_ o /\
  snd (start_client path content eval_ok o) <> Ub.
Proof.
  unfold start_client, mbind, M_bind, get. destruct (vpn_running_ o); [done|].
  destruct content as [content|]; [|done].
  by destruct (scan_ovpn_for_non_aead_cipher content); cbn; destruct (eval_ok _).
Qed.

Lemma boot_run running i :
  RInv (rtw i) ->
  exists i', run_task running BootTask i = (i', Ret tt) /\ RInv (rtw i') /\ ss i' = ss i /\ same_loop i i'.
Proof.
  intros Hi. cbn [run_task]. unfold boot_task, try_catch, mbind, M_bind, get.
  destruct (start_runtime_inv _ Hi) as (w1 & E1 & Hw1). rewrite (on_runtime_run _ _ _ _ E1).
  set (i1 := i.[vpn := _]). set (path := ovpn_path (inst_config i1)).
  rewrite on_vpn_run by apply no_handler_start.
  pose proof (start_client_builder path (profile path) (eval_profile path) (vpn i1)) as [Hb Hub].
  destruct (start_client path (profile path) (eval_profile path) (vpn i1)) as [o [a|e|]]; cbn [fst snd] in *; [| |done].
  - eexists. split; [done|]. split; [|done]. unfold rtw. cbn. by rewrite Hb.
  - assert (RInv (rtw (i1.[vpn := o]))) as Hw2 by (unfold rtw; cbn; by rewrite Hb).
    destruct (stop_runtime_spec _ Hw2) as (w2 & E2 & Hw2' & _).
    rewrite (on_runtime_run _ _ _ _ E2). eexists. split; [done|]. split; [|done]. done.
Qed.

(** Nothing of the instance is left running. *)
Record released i : Prop := {
  rl_stopped : stopped i = true;
  rl_started : started_ (ss i) = false;
  rl_open : acc_open (ss i) = false;
  rl_udp : udp_ (ss i) = None;
  rl_vpn : vpn_running_ (vpn i) = false;
  rl_handlers : ready_handler_ (vpn i) = false /\ disconnect_handler_ (vpn i) = false;
  rl_lwip : rt_running_ (rt (rtw i)) = false /\ dns_queries_ (rt (rtw i)) = ∅;
  rl_table : RInv (rtw i)
}.

Lemma shutdown_run running i :
  IInv (ss i) -> RInv (rtw i) ->
  exists i', run_task running ShutdownTask i = (i', Ret tt) /\ released i' /\ same_loop i i'.
Proof.
  intros Hs Hr. cbn [run_task]. unfold shutdown_task, mbind, M_bind.
  rewrite on_vpn_run by apply no_handler_set_ready. cbn [set_ready_handler modify fst snd].
  rewrite on_vpn_run by apply no_handler_set_disconnect. cbn [set_disconnect_handler modify fst snd].
  unfold on_ss at 1, zoom at 1. cbn [ss update vpn].
  destruct (stop_run (ss i) Hs) as (s' & -> & _ & Es & Eo & _ & Eu & _).
  rewrite on_vpn_run by apply no_handler_stop. cbn [vpn update].
  set (o := (vpn i).[ready_handler_ := false].[disconnect_handler_ := false]).
  assert (exists o', stop_client o = (o', Ret tt) /\ tun_builder_ o' = tun_builder_ o /\ vpn_running_ o' = false /\
    ready_handler_ o' = false /\ disconnect_handler_ o' = false) as (o' & -> & Hb & Hv & Hh1 & Hh2).
  { unfold stop_client, mbind, M_bind, get. by destruct (vpn_running_ o); eexists. }
  cbn [fst snd].
  match goal with |- context [on_runtime stop_runtime ?x] => set (i2 := x) end.
  assert (RInv (rtw i2)) as Hr2 by (unfold rtw; cbn; by rewrite Hb).
  destruct (stop_runtime_spec _ Hr2) as (w & E2 & Hw & _ & _ & _ & _ & _ & Ert & _).
  rewrite (on_runtime_run _ _ _ _ E2). eexists. split; [done|]. split; [|done].
  constructor; try done. cbn. by rewrite Ert.
Qed.

(** The loop gets to the shutdown. *)
Lemma turns_run turns q i :
  io_alive i = true -> io_queue i = q ++ [ShutdownTask] -> ShutdownTask ∉ q -> (length q < turns)%nat ->
  IInv (ss i) -> RInv (rtw i) ->
  exists i', each (fun _ => io_run_one false) (replicate turns tt) i = (i', Ret tt) /\ released i'.
Proof.
  revert q i. induction turns as [|turns IH]; intros q i Ha Hq Hn Ht Hs Hr; [lia|].
  cbn [replicate each]. unfold mbind, M_bind. unfold io_run_one at 1, try_catch. rewrite Ha, Hq.
  destruct q as [|t q]; cbn [app].
  - destruct (shutdown_run false (i.[io_queue := []])) as (i' & -> & Hrel & (Eq & _ & _)); [done..|].
    exists i'. split; [|done]. clear IH Ht. induction turns as [|turns IH]; [done|].
    cbn [replicate each]. unfold mbind, M_bind. unfold io_run_one at 1. rewrite Eq. by destruct (io_alive i').
  - apply not_elem_of_cons in Hn as [Hnt Hn]. cbn in Ht.
    destruct t; [|apply (IH q); by auto with lia..|done].
    match goal with |- context [run_task _ _ ?x] =>
      destruct (boot_run false x Hr) as (i' & E & Hr' & Es & (Eq & Ea & _)) end.
    rewrite E. apply (IH q); try done; [by rewrite Ea|lia|by rewrite Es].
Qed.

Lemma table_step e i :
  ShutdownTask ∉ io_queue i -> table_ok (vpn i) -> table_ok (vpn (mstep true i e)).
Proof.
  intros Hq Hi. destruct e as [v| |a]; cbn [mstep].
  - by apply vstep_table.
  - unfold io_run_one. destruct (io_alive i); [|done]. destruct (io_queue i) as [|t q]; [done|].
    unfold try_catch. apply not_elem_of_cons in Hq as [Hn _]. destruct t; [| | |done].
    + match goal with |- context [run_task _ _ ?x] =>
        destruct (boot_run true x Hi) as (i' & E & Hr & _) end. by rewrite E.
    + cbn [run_task boot_task ready_task down_task shutdown_task]. unfold on_ss, zoom. by destruct (start_inbound _) as [s' [?|?|]].
    + cbn [run_task boot_task ready_task down_task shutdown_task]. unfold on_ss, zoom. by destruct (stop_inbound _) as [s' [?|?|]].
  - destruct (io_alive i && ienabled a (ss i) && accept_event a); [|done].
    unfold on_ss, zoom. by destruct (ideliver a (ss i)).
Qed.

Lemma run_ok es i seen :
  MInv i seen -> table_ok (vpn i) ->
  IInv (ss (mrun true es i)) /\ RInv (rtw (mrun true es i)) /\ ShutdownTask ∉ io_queue (mrun true es i).
Proof.
  revert i seen. induction es as [|e es IH]; intros i seen Hi Ht; [by destruct Hi|].
  destruct (MInv_step i seen e Hi) as [seen1 Hi1]. apply (IH (mstep true i e) seen1); [done|].
  apply table_step; [apply Hi|done].
Qed.

(** An instance stops. *)
Lemma instance_stop_run cfg id n l es turns :
  let i := mrun true es (launched cfg id n l) in
  io_alive i = true -> (length (io_queue i) < turns)%nat ->
  exists j, stop_instance turns i = (j, Ret tt) /\ released j.
Proof.
  intros i Ha Ht.
  destruct (run_ok es (launched cfg id n l) [] (launched_inv cfg id n l)) as (Hs & Hr & Hq).
  { apply new_runtime_inv. }
  unfold stop_instance, mbind, M_bind. cbn [post_task modify].
  destruct (turns_run turns (io_queue i) (i.[io_queue := io_queue i ++ [ShutdownTask]])) as (j & E & Hj);
    [done..|]. cbn in E. rewrite E. eexists. split; [done|]. by destruct Hj.
Qed.

Lemma destroy_released i : released i -> exists j, destroy_instance i = (j, Ret tt) /\ released j.
Proof.
  intros [H1' H2' H3' H4' H5' [H6' H7'] [H8' H9'] H10']. unfold destroy_instance, mbind, M_bind.
  unfold on_ss, zoom. cbn [close_acceptor modify]. rewrite on_vpn_run by apply no_handler_stop.
  cbn [vpn update]. unfold stop_client, mbind, M_bind, get. rewrite H5'. cbn [modify fst snd mret M_ret].
  match goal with |- context [on_runtime stop_runtime ?x] => set (i2 := x) end.
  destruct (stop_runtime_spec (rtw i2) H10') as (w & E2 & Hw & _ & _ & _ & _ & _ & Ert & _).
  rewrite (on_runtime_run _ _ _ _ E2). eexists. split; [done|]. constructor; try done. cbn. by rewrite Ert.
Qed.

Lemma run_all_Ret (f : M Instance unit) (P : Instance -> Prop) l :
  Forall (fun i => exists j, f i = (j, Ret tt) /\ P j) l ->
  exists js, run_all f l = (js, Ret tt) /\ length js = length l /\ Forall P js.
Proof.
  induction 1 as [|i l (j & E & Hj) _ (js & Ejs & Hlen & Hjs)]; [by exists []|].
  exists (j :: js). cbn. rewrite E, Ejs, Hlen. auto.
Qed.

(** Stopping the manager: however its instances got to where they are, when
    their threads run and the loops get through their queues in the time that
    [stop] waits, it ends with no instance, and all it destroyed are released;
    what was posted before, a late start included, does not change that.  A
    second [stop] does nothing. *)
Lemma manager_stop_releases m turns :
  mgr_running_ m = true ->
  Forall (fun i => (exists cfg id n l es, i = mrun true es (launched cfg id n l)) /\
                   io_alive i = true /\ (length (io_queue i) < turns)%nat) (instances_ m) ->
  exists m' gs, stop_manager turns m = (m', Ret tt) /\ instances_ m' = [] /\ mgr_running_ m' = false /\
    gone m' = gone m ++ gs /\ length gs = length (instances_ m) /\ Forall released gs /\
    stop_manager turns m' = (m', Ret tt).
Proof.
  intros Hm Hall.
  destruct (run_all_Ret (stop_instance turns) released (instances_ m)) as (js & Ejs & Ljs & Hjs).
  { eapply Forall_impl; [exact Hall|]. intros i ((cfg & id & n & l & es & ->) & Ha & Ht).
    by apply instance_stop_run. }
  destruct (run_all_Ret destroy_instance released js) as (gs & Egs & Lgs & Hgs).
  { eapply Forall_impl; [exact Hjs|]. exact destroy_released. }
  unfold stop_manager at 1, on_instances, mbind, M_bind, get. rewrite Hm. cbn -[run_all]. rewrite Ejs. cbn -[run_all].
  rewrite Egs. eexists _, gs. split; [done|]. split_and!; [done..|congruence|done|done].
Qed.

(** The instances that [start] starts before something throws, from instance
    [k] on. *)
Fixpoint launches (sys : resources) (k : nat) (cfgs : list InstanceConfig) : list Instance :=
  match cfgs with
  | [] => []
  | cfg :: cfgs =>
      match sys k with
      | inr (id, n, l, None) => launched cfg id n l :: launches sys (S k) cfgs
      | _ => []
      end
  end.

(** An instance that was destroyed without ever running. *)
Record unused i : Prop := {
  un_started : started_ (ss i) = false;
  un_open : acc_open (ss i) = false;
  un_udp : udp_ (ss i) = None;
  un_vpn : vpn_running_ (vpn i) = false;
  un_lwip : rt_running_ (rt (rtw i)) = false /\ dns_queries_ (rt (rtw i)) = ∅
}.

Lemma destroy_unused cfg id n l e :
  unused (fst (destroy_instance (fst (start_instance (Some e) (make_instance cfg id n l))))).
Proof.
  unfold destroy_instance, mbind, M_bind. unfold on_ss, zoom. cbn [close_acceptor modify].
  rewrite on_vpn_run by apply no_handler_stop. cbn [vpn update].
  match goal with |- context [on_runtime stop_runtime ?x] => set (i2 := x) end.
  destruct (stop_runtime_spec (rtw i2)) as (w & E2 & Hw & _ & _ & _ & _ & _ & Ert & _); [apply new_runtime_inv|].
  change (snd (stop_client _)) with (@Ret unit tt). cbv beta iota. rewrite (on_runtime_run _ _ _ _ E2).
  constructor; try done. cbn. by rewrite Ert.
Qed.

Lemma start_loop_spec sys cfgs k m :
  exists crashed r,
    start_loop sys k cfgs m =
      (m.[instances_ := instances_ m ++ launches sys k cfgs].[gone := gone m ++ crashed], r) /\
    Forall unused crashed /\ (length crashed <= 1)%nat /\
    if decide (length (launches sys k cfgs) = length cfgs) then r = Ret tt /\ crashed = [] else exists e, r = Exn e.
Proof.
  revert k m. induction cfgs as [|cfg cfgs IH]; intros k m; cbn [start_loop launches].
  { exists [], (Ret tt). rewrite !app_nil_r. destruct m. split_and!; [done|done|cbn; lia|by rewrite decide_True]. }
  destruct (sys k) as [e|[[[id n] l] [e|]]].
  - exists [], (Exn e). rewrite !app_nil_r. destruct m. split_and!; [done|done|cbn; lia|]. rewrite decide_False by done. by exists e.
  - exists [fst (destroy_instance (fst (start_instance (Some e) (make_instance cfg id n l))))], (Exn e).
    rewrite !app_nil_r. destruct m. split_and!; [done| |cbn; lia|rewrite decide_False by done; by exists e].
    apply Forall_singleton, destroy_unused.
  - destruct (IH (S k) (m.[instances_ := instances_ m ++ [launched cfg id n l]])) as (crashed & r & E & Hc & Hl & Hr).
    exists crashed, r. split_and!; [|done|done|].
    + transitivity (start_loop sys (S k) cfgs (m.[instances_ := instances_ m ++ [launched cfg id n l]])); [done|].
      rewrite E. destruct m. cbn. by rewrite <- app_assoc.
    + cbn [length]. repeat case_decide; try lia; done.
Qed.

(** What the instances do between [start] and [stop]: the events [es k] happen
    to instance [k]. *)
Definition until_signal (es : nat -> list mevent) (m : Manager) : Manager :=
  m.[instances_ := imap (fun k i => mrun true (es k) i) (instances_ m)].

Lemma launches_elem sys k cfgs i :
  i ∈ launches sys k cfgs -> exists cfg id n l, i = launched cfg id n l.
Proof.
  revert k. induction cfgs as [|cfg cfgs IH]; intros k; cbn; [by intros ?%elem_of_nil|].
  destruct (sys k) as [e|[[[id n] l] [e|]]]; [by intros ?%elem_of_nil..|].
  intros [->|?]%elem_of_cons; [by eauto|by eapply IH].
Qed.

(** C16.  The program from its first line to its last.  Without exactly one
    argument it exits with 2, and with a configuration that does not load it
    exits with 1, and nothing was started.  Otherwise it starts the instances
    of the configuration, all of them unless the system refuses one its
    members or its thread, and whatever then happens to them in whatever
    order, provided that at the signal (or when the exception of the failed
    start reaches the manager's destructor) the thread of every started
    instance still runs and its loop gets through what is queued in the time
    that [stop] waits: the program exits with 0, or with 1 if the start
    failed, every instance has been destroyed, and of each started one the
    inbound listens no more and has no relay, the OpenVPN client is stopped
    and calls no handler, and the lwIP runtime is stopped with no query
    outstanding; what was posted before the signal, a late start included,
    does not change that.  An instance whose thread could not be made is
    destroyed without having run. *)
Theorem program_lifecycle argc loaded sys es turns :
  (forall config k i, loaded = Ret config -> launches sys 0 (instances config) !! k = Some i ->
     io_alive (mrun true (es k) i) = true /\ (length (io_queue (mrun true (es k) i)) < turns)%nat) ->
  match argc =? 2, loaded with
  | false, _ => main argc loaded sys (until_signal es) turns = Ret (2, None)
  | true, Exn _ => main argc loaded sys (until_signal es) turns = Ret (1, None)
  | true, Ub => main argc loaded sys (until_signal es) turns = Ub
  | true, Ret config =>
      let up := launches sys 0 (instances config) in
      exists m crashed gs,
        main argc loaded sys (until_signal es) turns =
          Ret (if decide (length up = length (instances config)) then 0 else 1, Some m) /\
        instances_ m = [] /\ mgr_running_ m = false /\ gone m = crashed ++ gs /\
        length gs = length up /\ Forall released gs /\ (length crashed <= 1)%nat /\ Forall unused crashed
  end.
Proof.
  intros Hok. unfold main. destruct (Z.eqb_spec argc 2) as [->|Hargc]; [|by rewrite decide_True].
  rewrite decide_False by (intros Hne; by apply Hne). destruct loaded as [config|e|]; [|done..]. cbv zeta.
  destruct (start_loop_spec sys (instances config) 0 (mkManager config [] true [])) as (crashed & r & E & Hc & Hl & Hr).
  change (start_manager sys (new_manager config)) with (start_loop sys 0 (instances config) (mkManager config [] true [])).
  rewrite E. set (m1 := until_signal es _).
  destruct (manager_stop_releases m1 turns) as (m' & gs & Es & Hi & Hrun & Hg & Hlen & Hrel & Eagain); [done| |].
  { apply Forall_lookup. cbn [m1 until_signal instances_ update]. intros k i Hk. rewrite list_lookup_imap in Hk.
    apply fmap_Some in Hk as (i0 & Hi0 & ->). split; [|by apply (Hok config)].
    destruct (launches_elem sys 0 (instances config) i0) as (cfg & id & n & l & ->); [by eapply list_elem_of_lookup_2|].
    by eexists _, _, _, _, (es k). }
  cbn [m1 until_signal instances_ gone] in Hlen, Hg. exists m', crashed, gs. unfold destroy_manager.
  case_decide.
  - destruct Hr as [-> _]. rewrite Es, Eagain. split_and!; try done. by rewrite Hlen; cbn; rewrite length_imap.
  - destruct Hr as [e ->]. rewrite Es. split_and!; try done. by rewrite Hlen; cbn; rewrite length_imap.
Qed.

End Shutdown.

(* ------------------------------------------------------------------ *)
(** ** Witnesses *)

#[local] Existing Instances toy_mbedtls toy_mbedtls_laws pton_make_address toy_print toy_print_laws
  toy_aton toy_address toy_address_laws toy_udp toy_udp_laws toy_resolver toy_resolver_laws
  toy_service toy_service_laws.

#[local] Instance toy_profiles : Profiles := {|
  profile := fun _ => Some (str "client");
  eval_profile := fun _ _ => true
|}.

Definition toy_instance : InstanceConfig :=
  mkInstanceConfig (str "a") (str "a.ovpn") toy_config true [] [].

(** The tunnel comes up and the inbound with it. *)
Definition up_events : list mevent :=
  [OnLoop; OnVpn VNewTun; OnVpn (VTunStart 0 [SetMtu 1400] None); OnLoop; OnAccept InAccepted].

Definition toy_program : ManagerConfig := mkManagerConfig [] [toy_instance; toy_instance].

(** The system makes [up] threads and refuses the next. *)
Definition toy_resources (up k : nat) : exn + (Z * @unet toy_udp * list bool * option exn) :=
  inr (1, toy_net, [], if (k <? up)%nat then None else Some (system_error (str "thread"))).

(** Two instances run with their inbounds started, and the program ends; and
    the second thread is refused while the first instance runs. *)
Lemma program_lifecycle_witness :
  (exists m crashed gs, main 2 (Ret toy_program) (toy_resources 2) (until_signal (fun _ => up_events)) 1 = Ret (0, Some m) /\
    instances_ m = [] /\ mgr_running_ m = false /\ gone m = crashed ++ gs /\ length gs = 2%nat /\ Forall released gs /\
    (length crashed <= 1)%nat /\ Forall unused crashed) /\
  (exists m crashed gs, main 2 (Ret toy_program) (toy_resources 1) (until_signal (fun _ => up_events)) 1 = Ret (1, Some m) /\
    instances_ m = [] /\ mgr_running_ m = false /\ gone m = crashed ++ gs /\ length gs = 1%nat /\ Forall released gs /\
    (length crashed <= 1)%nat /\ Forall unused crashed).
Proof.
  split.
  - refine (program_lifecycle 2 (Ret toy_program) (toy_resources 2) (fun _ => up_events) 1 _).
    intros config k i [= <-] Hk. assert (i = launched toy_instance 1 toy_net []) as -> by (destruct k as [|[|k]]; by simplify_eq/=).
    split; [vm_compute; reflexivity|]. apply Nat.ltb_lt. vm_compute. reflexivity.
  - refine (program_lifecycle 2 (Ret toy_program) (toy_resources 1) (fun _ => up_events) 1 _).
    intros config k i [= <-] Hk. assert (i = launched toy_instance 1 toy_net []) as -> by (destruct k as [|k]; by simplify_eq/=).
    split; [vm_compute; reflexivity|]. apply Nat.ltb_lt. vm_compute. reflexivity.
Defined.

(** The port is taken when the tunnel comes up. *)
Definition blocked : Instance :=
  mrun true [OnLoop; OnVpn VNewTun; OnVpn (VTunStart 0 [SetMtu 1400] None)]
    (launched toy_instance 1 toy_net [true; true; false]).
Definition port_error : exn := system_error (str "bind").

Lemma inbound_failure_ends_instance_witness :
  io_alive (mrun true [OnLoop; OnVpn (VTunStop 0); OnLoop] blocked) = false /\
  io_queue (mrun true [OnLoop; OnVpn (VTunStop 0); OnLoop] blocked) = [DownTask] /\
  stopped (fst (stop_instance 5 (mrun true [OnLoop; OnVpn (VTunStop 0); OnLoop] blocked))) = false.
Proof.
  assert (io_alive blocked = true) as Ha by (vm_compute; reflexivity).
  assert (io_queue blocked = [ReadyTask]) as Hq by (vm_compute; reflexivity).
  assert (snd (start_inbound (ss blocked)) = Exn port_error) as He by (vm_compute; reflexivity).
  destruct (inbound_failure_ends_instance blocked [] port_error [OnVpn (VTunStop 0); OnLoop] 5 Ha Hq He)
    as (Ha' & _ & _ & Hst & _).
  split; [exact Ha'|]. split; [vm_compute; reflexivity|]. rewrite Hst. vm_compute. reflexivity.
Defined.
