(* ===== verification/Node.v ===== *)
(** * The UDP relay on the runtime

    [Udp] leaves the stack and [async_resolve] open; here they are the runtime
    of [Runtime].  The relay's calls go to the same lwIP as the resolver's, the
    runtime is the resolver, and a handler is the number of the call.  A node
    is a relay whose stack is the runtime; its steps are the events of the
    relay, those of the runtime, and the loop's turns that run what the
    runtime has posted. *)
From S2P Require Import Prelude Types Mbedtls Text Aead AeadStream Address Lwip Dns DnsFacts.
From S2P Require Import Udp UdpFacts UdpFrame UdpRun Runtime RuntimeFacts RuntimeSpec.

(* ------------------------------------------------------------------ *)
(** ** The runtime as the relay's stack and resolver *)

Section Net.
Context `{!IpText} {U : UdpNet}.

Record RtNet := mkRtNet {
  rn_world : RtWorld;
  rn_calls : nat              (* calls of [async_resolve] so far *)
}.
#[export] Instance RtNet_eta : Eta RtNet := fun s => mkRtNet (rn_world s) (rn_calls s).

(** The stack of the runtime. *)
Definition on_stack {A} (f : unet -> A * unet) (s : RtNet) : A * RtNet :=
  let '(a, n) := f (rlwip (rn_world s)) in (a, s.[rn_world := (rn_world s).[rlwip := n]]).

Definition runtime_net : UdpNet := {|
  unet := RtNet;
  upcb := upcb;
  upcb_eq_dec := _;
  upcb_countable := _;
  udp_new := on_stack udp_new;
  udp_remove u s := snd (on_stack (fun n => (tt, udp_remove u n)) s);
  udp_recv u b s := snd (on_stack (fun n => (tt, udp_recv u b n)) s);
  pbuf_alloc z := on_stack (pbuf_alloc z);
  udp_sendto u d ip p := on_stack (udp_sendto u d ip p)
|}.

Definition runtime_resolver : @UdpResolver runtime_net := {|
  uasync_resolve h (s : @unet runtime_net) :=
    let '(w, r) := async_resolve h (rn_calls s) (rn_world s) in
    (mkRtNet w (S (rn_calls s)) : @unet runtime_net, match r with Exn e => Some e | _ => None end)
|}.

Context {L : UdpNetLaws}.

#[refine] Definition runtime_net_laws : @UdpNetLaws runtime_net := {|
  live (s : @unet runtime_net) := live (rlwip (rn_world s)) : gset (@upcb runtime_net)
|}.
Proof.
  - intros n u n'. cbn. unfold on_stack. destruct (udp_new _) as [r m] eqn:E. intros [= -> <-].
    by apply udp_new_some in E.
  - intros n n'. cbn. unfold on_stack. destruct (udp_new _) as [r m] eqn:E. intros [= -> <-].
    by apply udp_new_none in E.
  - intros u n. cbn. apply (@udp_remove_live U L).
  - intros u b n. cbn. apply (@udp_recv_live U L).
  - intros z n. cbn. unfold on_stack. pose proof (@pbuf_alloc_live U L z (rlwip (rn_world n))) as E.
    by destruct (pbuf_alloc _ _).
  - intros u d ip p n. cbn. unfold on_stack. pose proof (@udp_sendto_live U L u d ip p (rlwip (rn_world n))) as E.
    by destruct (udp_sendto _ _ _ _ _).
Defined.

(** Between calls the table is consistent; a call must not draw an id that a
    query in the table has. *)
#[refine] Definition runtime_resolver_laws : @UdpResolverLaws runtime_net runtime_net_laws runtime_resolver := {|
  resolver_ready h (s : @unet runtime_net) :=
    RInv (rn_world s) /\ fresh_draw (rn_world s) (fst (async_resolve h (rn_calls s) (rn_world s))) = true
|}.
Proof.
  intros h n [Hi Hf]. cbn.
  destruct (async_resolve_spec h (rn_calls n) (rn_world n) Hi Hf) as (w' & r & E & _ & _ & Hl & _).
  rewrite E. exact Hl.
Defined.

End Net.

(** A lwIP with its promises. *)
Record Base := mkBase { base_net : UdpNet; base_laws : @UdpNetLaws base_net }.

(* ------------------------------------------------------------------ *)
(** ** Nodes *)

Section Node.
Context `{!Mbedtls, !MakeAddress, !IpText, !IpPrint, !ClientAddress}.
Context {B : Base}.
#[local] Instance base_net_laws : @UdpNetLaws (base_net B) := base_laws B.
#[local] Instance node_net : UdpNet := @runtime_net (base_net B).
#[local] Instance node_resolver : @UdpResolver node_net := runtime_resolver.

(** The relay, whose stack is the runtime, and the number of the call for each
    resolution it waits for; the calls that took their handler, those that
    threw too late, and those a stop of the runtime dropped. *)
Record Node := mkNode {
  nd_relay : UdpWorld;
  nd_tags : list nat;
  nd_accepted : list nat;
  nd_late : list nat;
  nd_dropped : list nat
}.
#[export] Instance Node_eta : Eta Node := fun x =>
  mkNode (nd_relay x) (nd_tags x) (nd_accepted x) (nd_late x) (nd_dropped x).

Abbreviation rtworld := (@RtWorld (base_net B)).
Definition runtime_of (w : UdpWorld) : rtworld := rn_world (ulwip w).
Definition calls_of (w : UdpWorld) : nat := rn_calls (ulwip w).
Definition set_stack (s : @RtNet (base_net B)) (w : UdpWorld) : UdpWorld := w.[ulwip := s].
Definition after_call (W : rtworld) (w : UdpWorld) : UdpWorld := set_stack (mkRtNet W (S (calls_of w))) w.
Definition set_runtime (W : rtworld) (w : UdpWorld) : UdpWorld := set_stack (mkRtNet W (calls_of w)) w.

(** The call of [async_resolve] between two states, if there was one. *)
Definition took_tags (w w' : UdpWorld) : list nat :=
  if (length (resolving w) <? length (resolving w'))%nat then [calls_of w] else [].
Definition late_tags (w w' : UdpWorld) : list nat :=
  if (calls_of w <? calls_of w')%nat && negb (length (resolving w) <? length (resolving w'))%nat &&
     negb (bool_decide (dom (queries (runtime_of w')) = dom (queries (runtime_of w))))
  then [calls_of w] else [].

(** The numbers a call that ended with [r] adds. *)
Definition accepted_by (tag : nat) (r : outcome unit) : list nat := if is_ret_b r then [tag] else [].
Definition late_by (tag : nat) (r : outcome unit) (W W' : rtworld) : list nat :=
  if is_ret_b r || bool_decide (dom (queries W') = dom (queries W)) then [] else [tag].

(** Steps of the runtime, with the calls they drop. *)
Inductive rt_event (W : rtworld) : list nat -> rtworld -> Prop :=
| re_quiet m W' r : quiet_op m -> m W = (W', r) -> rt_event W [] W'
| re_reply u q packet W' :
    qcallbacks W !! u = Some q -> dns_recv q packet W = (W', Ret tt) -> rt_event W [] W'
| re_expire q x t :
    queries W !! q = Some x -> q_timer x = Some t ->
    rt_event W [] (W.[queries := <[q := x.[q_timer := None]]> (queries W)]
                    .[timeouts := timeouts W ++ [(q_id x, t)]])
| re_timeout i id t W' :
    timeouts W !! i = Some (id, t) ->
    timeout_handler id t (W.[timeouts := delete i (timeouts W)]) = (W', Ret tt) -> rt_event W [] W'
| re_stop W' : stop_runtime W = (W', Ret tt) -> rt_event W (waiting W) W'.

(** An event of the relay; a call of [async_resolve] by another component; an
    event of the runtime; other components' use of the stack and of the id
    counter; a posted answer for the relay.  The flag says whether the step drew
    no id for a query, or one that no query in the table had. *)
Inductive node_step (x : Node) : bool -> Node -> Prop :=
| ns_relay ev w' r :
    (forall i err ip, ev <> OnAnswer i err ip) -> uenabled ev (nd_relay x) = true ->
    udeliver ev (nd_relay x) = (w', r) ->
    node_step x (fresh_draw (runtime_of (nd_relay x)) (runtime_of w'))
      (mkNode w' (nd_tags x ++ took_tags (nd_relay x) w')
        (nd_accepted x ++ took_tags (nd_relay x) w') (nd_late x ++ late_tags (nd_relay x) w') (nd_dropped x))
| ns_call h W' r :
    async_resolve h (calls_of (nd_relay x)) (runtime_of (nd_relay x)) = (W', r) ->
    node_step x (fresh_draw (runtime_of (nd_relay x)) W')
      (mkNode (after_call W' (nd_relay x)) (nd_tags x)
        (nd_accepted x ++ accepted_by (calls_of (nd_relay x)) r)
        (nd_late x ++ late_by (calls_of (nd_relay x)) r (runtime_of (nd_relay x)) W') (nd_dropped x))
| ns_runtime ds W' :
    rt_event (runtime_of (nd_relay x)) ds W' ->
    node_step x true (x.[nd_relay := set_runtime W' (nd_relay x)].[nd_dropped := nd_dropped x ++ ds])
| ns_others n id :
    dom (callbacks (nd_relay x)) ∪ dom (qcallbacks (runtime_of (nd_relay x))) ⊆ live n ->
    node_step x true (x.[nd_relay :=
      set_runtime ((runtime_of (nd_relay x)).[rlwip := n].[next_id := id]) (nd_relay x)])
| ns_answer i tag err ip w' :
    nd_tags x !! i = Some tag -> (tag, err, ip) ∈ posted (runtime_of (nd_relay x)) ->
    udeliver (OnAnswer i err ip) (nd_relay x) = (w', Ret tt) ->
    node_step x true (x.[nd_relay := w'].[nd_tags := delete i (nd_tags x)]).

(** A relay that has started, on a new runtime. *)
Definition new_node (f : AeadFactory) (g : Csprng) (id : Z) (n : @unet (base_net B)) : Node :=
  mkNode (listening f g (mkRtNet (new_runtime id n) 0)) [] [] [] [].

(** Runs, and whether each of their steps was [fresh]. *)
Inductive node_run (x0 : Node) : bool -> Node -> Prop :=
| node_init : node_run x0 true x0
| node_next b x b' x' : node_run x0 b x -> node_step x b' x' -> node_run x0 (b && b') x'.

End Node.
