(* ===== verification/NodeSpec.v ===== *)
(** * The UDP relay on the runtime: properties

    The invariants of relay and resolver hold together, and a datagram for a
    domain reaches the address that the name server answers. *)
From S2P Require Import Prelude Types Mbedtls Text Aead AeadStream AeadSpec Address AddressSpec Lwip Dns DnsFacts.
From S2P Require Import Udp UdpFacts UdpFrame UdpRun UdpSpec Runtime RuntimeFacts RuntimeSpec Node.

(* ------------------------------------------------------------------ *)
(** ** The resolver spares the pcbs of others *)

Section Spares.
Context `{!IpText, !UdpNet, !UdpNetLaws}.
Implicit Types (W : RtWorld).

Lemma complete_spares id err ip W W' r :
  RInv W -> complete_dns_query id err ip W = (W', r) -> rspares W W'.
Proof.
  intros Hi E. destruct (dns_queries_ (rt W) !! id) as [q|] eqn:Ed.
  2:{ rewrite complete_absent in E by done. by injection E as <- _. }
  destruct (complete_present id err ip W q Hi Ed) as (x & W1 & Hx & _ & E1 & Hi1 & _ & Hq1 & _ & _ & Hl1 & _).
  rewrite E in E1. injection E1 as <- _. destruct (ri_pcb W Hi q x Hx) as [u Hu].
  apply rspares_queries; [done|done| |].
  - unfold rforeign. rewrite (Hl1 u Hu).
    assert (u ∈ dom (qcallbacks W)) by (apply elem_of_dom; exists q; apply (ri_cb W Hi); eauto). set_solver.
  - intros j y v Hy Hp _. rewrite Hq1 in Hy. apply lookup_delete_Some in Hy as [_ Hy]. eauto.
Qed.

Lemma resolve_spares h tag W W' r :
  RInv W -> async_resolve h tag W = (W', r) -> fresh_draw W W' = true -> rspares W W'.
Proof.
  intros Hi E Hf.
  destruct (async_resolve_spec h tag W Hi) as (W1 & r1 & E1 & Hi1 & _ & Hl & _ & _ & _ & Hr); [by rewrite E|].
  rewrite E in E1. injection E1 as <- <-. apply rspares_queries; [done|done|unfold rforeign; set_solver|].
  intros q y u Hy Hp Hu.
  destruct Hr as [err ip _ Hq _|j x _ _ Hq _ _ _ _ Hx|e _ Hq _|j x e _ _ Hq _ _ _ _ Hx]; rewrite Hq in Hy; eauto;
    (apply lookup_insert_Some in Hy as [[<- <-]|[_ Hy]]; [by destruct (Hx u Hp)|eauto]).
Qed.

Lemma same_table_spares W W' : same_table W W' -> rspares W W'.
Proof. intros (_ & _ & Ec & _ & _ & El & _). unfold rspares, rforeign. by rewrite Ec, El. Qed.

End Spares.

(* ------------------------------------------------------------------ *)
(** ** The invariant *)

Section Spec.
Context `{!Mbedtls, !MbedtlsLaws, !MakeAddress, !IpText, !IpPrint, !IpPrintLaws, !ClientAddress, !ClientAddressLaws}.
Context {B : Base}.
#[local] Existing Instances base_net_laws node_resolver.
#[local] Instance node_laws : @UdpNetLaws (@node_net B) := runtime_net_laws.
#[local] Instance node_resolver_laws : @UdpResolverLaws (@node_net B) node_laws node_resolver :=
  runtime_resolver_laws.
Abbreviation Node := (@Node _ _ B).
Abbreviation rtworld := (@RtWorld (base_net B)).
Implicit Types (x : Node) (W : rtworld).

Implicit Types (w : @UdpWorld _ _ (@node_net B)).

(** Calls of the stack alone. *)
Definition stacked (s0 s : @RtNet (base_net B)) : Prop :=
  rn_calls s = rn_calls s0 /\ exists n : @unet (base_net B), rn_world s = (rn_world s0).[rlwip := n].

Lemma stacked_refl s : stacked s s.
Proof. split; [done|]. exists (rlwip (rn_world s)). by destruct (rn_world s). Qed.
Lemma stacked_on {A} (g : @unet (base_net B) -> A * @unet (base_net B)) s0 s :
  stacked s0 s -> stacked s0 (snd (on_stack g s)).
Proof.
  intros [Ec [n En]]. unfold on_stack. destruct (g _) as [a n']. split; [done|]. exists n'. cbn. by rewrite En.
Qed.

Lemma deliver_stacked ev w :
  match ev with OnDatagram _ => False | _ => True end -> stacked (ulwip w) (ulwip (fst (udeliver ev w))).
Proof.
  intros Hev. refine (keeps_deliver (stacked (ulwip w) : @unet (@node_net B) -> Prop) _ _ _ _ _ ev Hev w (stacked_refl _));
    intros; by apply stacked_on.
Qed.

Record NInv (f : AeadFactory) x : Prop := {
  ni_relay : URunInv f (nd_relay x);
  ni_resolver : RRun (nd_accepted x) (nd_late x) (nd_dropped x) (runtime_of (nd_relay x));
  ni_apart : dom (callbacks (nd_relay x)) ## dom (qcallbacks (runtime_of (nd_relay x)));
  ni_tags : length (nd_tags x) = length (resolving (nd_relay x));
  ni_unique : NoDup (nd_accepted x ++ nd_late x);
  ni_fresh t : t ∈ nd_accepted x ++ nd_late x -> (t < calls_of (nd_relay x))%nat;
  ni_mine : NoDup (nd_tags x) /\ nd_tags x ⊆ nd_accepted x
}.

Lemma relay_pcbs f x : NInv f x -> dom (callbacks (nd_relay x)) ⊆ rforeign (runtime_of (nd_relay x)).
Proof.
  intros Hx u Hu. apply elem_of_difference. split.
  - apply (uc_live _ (proj1 (ur_inv f _ (ni_relay f x Hx)))). by apply elem_of_dom.
  - pose proof (ni_apart f x Hx). set_solver.
Qed.
Lemma resolver_pcbs f x : NInv f x -> dom (qcallbacks (runtime_of (nd_relay x))) ⊆ foreign (nd_relay x).
Proof.
  intros Hx u Hu. apply elem_of_difference. split.
  - apply (ri_live _ (rr_inv _ _ _ _ (ni_resolver f x Hx))). by apply elem_of_dom.
  - pose proof (ni_apart f x Hx). set_solver.
Qed.

(** The runtime when only its stack was used. *)
Lemma RRun_stack acc lk dr W (n : @unet (base_net B)) :
  RRun acc lk dr W -> dom (qcallbacks W) ⊆ live n -> RRun acc lk dr (W.[rlwip := n]).
Proof.
  intros [Hi Ho Ht] Hn. constructor; try done. destruct Hi as [T N C P L G K].
  constructor; try done. cbn. intros u Hu. by apply Hn, elem_of_dom.
Qed.

Lemma NInv_stacked f x w' ts :
  NInv f x -> URunInv f w' -> spares (nd_relay x) w' -> stacked (ulwip (nd_relay x)) (ulwip w') ->
  length ts = length (resolving w') -> NoDup ts -> ts ⊆ nd_accepted x ->
  NInv f (mkNode w' ts (nd_accepted x) (nd_late x) (nd_dropped x)).
Proof.
  intros Hx Hr Hsp [Ec [n En]] Hl Hnd Hts.
  assert (dom (qcallbacks (runtime_of (nd_relay x))) ⊆ foreign w') as Hq
    by (etransitivity; [by eapply resolver_pcbs|exact Hsp]).
  destruct Hx as [H1' H2' H3' H4' H5' H6' H7']. constructor; cbn; try done.
  - unfold runtime_of in *. rewrite En. apply RRun_stack; [done|]. intros u Hu%Hq.
    unfold foreign in Hu. apply elem_of_difference in Hu as [Hu _].
    change (u ∈ live (rlwip (rn_world (ulwip w')))) in Hu. by rewrite En in Hu.
  - unfold runtime_of in *. rewrite En. cbn. unfold foreign in Hq. set_solver.
  - intros t Ht. unfold calls_of in *. rewrite Ec. by apply H6'.
Qed.

Lemma no_call w w' :
  calls_of w' = calls_of w -> resolving w' = resolving w -> took_tags w w' = [] /\ late_tags w w' = [].
Proof.
  intros Ec Er. unfold took_tags, late_tags. rewrite Ec, Er, !Nat.ltb_irrefl. done.
Qed.

(** Events of the relay that do not resolve. *)
Lemma NInv_quiet f x w' :
  NInv f x -> URunInv f w' -> spares (nd_relay x) w' -> stacked (ulwip (nd_relay x)) (ulwip w') ->
  resolving w' = resolving (nd_relay x) ->
  NInv f (mkNode w' (nd_tags x ++ took_tags (nd_relay x) w') (nd_accepted x ++ took_tags (nd_relay x) w')
    (nd_late x ++ late_tags (nd_relay x) w') (nd_dropped x)).
Proof.
  intros Hx Hr Hsp Hst Hre. destruct (no_call (nd_relay x) w') as [-> ->]; [apply Hst|done|].
  rewrite !app_nil_r. pose proof (ni_mine f x Hx) as [? ?].
  apply NInv_stacked; try done. rewrite Hre. apply (ni_tags f x Hx).
Qed.

Lemma NoDup_app_tag (l k : list nat) t : NoDup (l ++ k) -> t ∉ l ++ k -> NoDup (l ++ [t] ++ k).
Proof.
  intros Hnd Ht. rewrite Permutation_app_comm, <- app_assoc. cbn. apply NoDup_cons. split; [set_solver|].
  by rewrite Permutation_app_comm.
Qed.

(** The numbers a call of the relay takes. *)
Lemma call_tags w w' W1 n (r : outcome unit) rs :
  calls_of w' = S (calls_of w) -> runtime_of w' = W1.[rlwip := n] -> r <> Ub ->
  resolving w' = resolving w ++ rs -> length rs = (if is_ret_b r then 1 else 0)%nat ->
  took_tags w w' = accepted_by (calls_of w) r /\ late_tags w w' = late_by (calls_of w) r (runtime_of w) W1.
Proof.
  intros Ec EW Hub Hre Hrs. unfold took_tags, late_tags, accepted_by, late_by.
  rewrite Hre, length_app, Hrs, Ec, EW. rewrite (proj2 (Nat.ltb_lt (calls_of w) _)) by lia.
  destruct r; cbn -[Nat.ltb]; [|rewrite Nat.add_0_r, Nat.ltb_irrefl; cbn; by case_bool_decide|done].
  by rewrite (proj2 (Nat.ltb_lt _ (_ + 1))) by lia.
Qed.

(** The pcbs after a call. *)
Lemma call_pcbs f x w1 w' h tag r W1 :
  NInv f x -> fresh_draw (runtime_of (nd_relay x)) W1 = true -> async_resolve h tag (runtime_of (nd_relay x)) = (W1, r) ->
  RInv W1 -> rn_world (ulwip w1) = W1 -> callbacks w1 = callbacks (nd_relay x) -> spares w1 w' ->
  dom (qcallbacks W1) ⊆ live (rlwip (runtime_of w')) /\ dom (callbacks w') ## dom (qcallbacks W1).
Proof.
  intros Hx Hf E Hi1 En1 Ec1 Hsp. pose proof (relay_pcbs f x Hx) as Hpcbs.
  pose proof (resolve_spares h tag _ W1 r (rr_inv _ _ _ _ (ni_resolver f x Hx)) E Hf) as Hsp1.
  assert (dom (qcallbacks W1) ⊆ foreign w') as Hq.
  { etransitivity; [|exact Hsp]. intros u Hu. unfold foreign. rewrite Ec1. apply elem_of_difference. split.
    - change (u ∈ live (rlwip (rn_world (ulwip w1)))). rewrite En1. apply (ri_live W1 Hi1). by apply elem_of_dom.
    - intros Hu'. apply Hpcbs, Hsp1 in Hu'. unfold rforeign in Hu'. set_solver. }
  unfold foreign in Hq. split; [|set_solver].
  intros u Hu%Hq. by apply elem_of_difference in Hu as [Hu _].
Qed.

(** A call of the resolver: the relay [w'] and its numbers [ts] after it. *)
Lemma NInv_called f x w1 w' h r W1 ts :
  let tag := calls_of (nd_relay x) in
  NInv f x -> fresh_draw (runtime_of (nd_relay x)) W1 = true ->
  async_resolve h tag (runtime_of (nd_relay x)) = (W1, r) ->
  ulwip w1 = mkRtNet W1 (S tag) -> callbacks w1 = callbacks (nd_relay x) ->
  URunInv f w' -> spares w1 w' -> stacked (ulwip w1) (ulwip w') ->
  length ts = length (resolving w') -> NoDup ts -> ts ⊆ nd_accepted x ++ accepted_by tag r ->
  NInv f (mkNode w' ts (nd_accepted x ++ accepted_by tag r)
    (nd_late x ++ late_by tag r (runtime_of (nd_relay x)) W1) (nd_dropped x)).
Proof.
  intros tag Hx Hf E En1 Ec1 Hr Hsp [Ec [n En]] Hts Hnd Hsub.
  pose proof (RRun_submit _ _ _ _ _ _ _ _ (ni_resolver f x Hx) E Hf) as Hrun.
  assert (RInv W1) as Hi1 by (destruct r; [apply Hrun|apply Hrun|done]).
  destruct (call_pcbs f x w1 w' _ _ _ _ Hx Hf E Hi1) as [Hn Hap]; [by rewrite En1|done|done|].
  rewrite En1 in Ec, En. cbn in Ec, En.
  assert (runtime_of w' = W1.[rlwip := n]) as EW by exact En.
  destruct Hx as [_ _ _ _ H5' H6' _].
  assert (tag ∉ nd_accepted x ++ nd_late x) as Hnew by (intros Ht%H6'; fold tag in Ht; lia).
  assert (forall l, l ⊆ tag :: nd_accepted x ++ nd_late x -> forall t, t ∈ l -> (t < calls_of w')%nat) as Hlt.
  { intros l Hl t [->|Ht%H6']%Hl%elem_of_cons; change (calls_of w') with (rn_calls (ulwip w')); [lia|]. fold tag in Ht. lia. }
  rewrite EW in Hn. pose proof (fun a k d H => RRun_stack a k d W1 n H Hn) as Hst.
  unfold accepted_by, late_by in *. destruct r as [[]|e|]; cbn [is_ret_b orb] in *; [| |done]; rewrite ?app_nil_r in *;
    constructor; cbn; rewrite ?EW; try done.
  - by apply Hst.
  - rewrite <- app_assoc. apply (NoDup_app_tag _ _ _ H5' Hnew).
  - apply Hlt. set_solver.
  - case_bool_decide; rewrite ?app_nil_r; by apply Hst.
  - case_bool_decide; [by rewrite app_nil_r|]. rewrite app_assoc. apply NoDup_app.
    split_and!; [done| |apply NoDup_singleton]. by intros t Ht ->%list_elem_of_singleton.
  - apply Hlt. case_bool_decide; set_solver.
Qed.

(** A datagram that names a domain calls the resolver once. *)
Lemma NInv_call f x w1 w' h r W1 res :
  NInv f x -> fresh_draw (runtime_of (nd_relay x)) W1 = true ->
  async_resolve h (calls_of (nd_relay x)) (runtime_of (nd_relay x)) = (W1, r) ->
  ulwip w1 = mkRtNet W1 (S (calls_of (nd_relay x))) -> callbacks w1 = callbacks (nd_relay x) ->
  URunInv f w' -> spares w1 w' -> stacked (ulwip w1) (ulwip w') ->
  resolving w' = resolving (nd_relay x) ++ match r with Exn _ => [] | _ => [res] end ->
  NInv f (mkNode w' (nd_tags x ++ took_tags (nd_relay x) w') (nd_accepted x ++ took_tags (nd_relay x) w')
    (nd_late x ++ late_tags (nd_relay x) w') (nd_dropped x)).
Proof.
  intros Hx Hf E En1 Ec1 Hr Hsp [Ec [n En]] Hre. pose proof (ni_mine f x Hx) as [Hnd Hsub].
  pose proof (RRun_submit _ _ _ _ _ _ _ _ (ni_resolver f x Hx) E Hf) as Hrun.
  assert (r <> Ub) as Hub by by destruct r.
  pose proof En as EW. pose proof Ec as Ec'. rewrite En1 in EW, Ec'.
  destruct (call_tags (nd_relay x) w' W1 n r _ Ec' EW Hub Hre) as [-> ->]; [by destruct r|].
  eapply (NInv_called f x w1); try done; [by split; [|exists n]| | |].
  - rewrite Hre, !length_app, (ni_tags f x Hx). by destruct r.
  - unfold accepted_by. destruct (is_ret_b r); [|by rewrite app_nil_r].
    apply NoDup_app. split_and!; [done| |apply NoDup_singleton].
    intros t Ht%Hsub ->%list_elem_of_singleton.
    assert (calls_of (nd_relay x) < calls_of (nd_relay x))%nat by (apply (ni_fresh f x Hx); set_solver). lia.
  - set_solver.
Qed.

(** A call of another component. *)
Lemma NInv_other_call f x h r W1 :
  let tag := calls_of (nd_relay x) in
  NInv f x -> fresh_draw (runtime_of (nd_relay x)) W1 = true ->
  async_resolve h tag (runtime_of (nd_relay x)) = (W1, r) ->
  NInv f (mkNode (after_call W1 (nd_relay x)) (nd_tags x) (nd_accepted x ++ accepted_by tag r)
    (nd_late x ++ late_by tag r (runtime_of (nd_relay x)) W1) (nd_dropped x)).
Proof.
  intros tag Hx Hf E. pose proof (ni_mine f x Hx) as [Hnd Hsub].
  pose proof (resolve_spares h tag _ W1 r (rr_inv _ _ _ _ (ni_resolver f x Hx)) E Hf) as Hsp.
  eapply (NInv_called f x (after_call W1 (nd_relay x))); try done.
  - apply URunInv_stack; [apply (ni_relay f x Hx)|]. cbn. intros u Hu%(relay_pcbs f x Hx)%Hsp.
    unfold rforeign in Hu. set_solver.
  - apply stacked_refl.
  - apply (ni_tags f x Hx).
  - set_solver.
Qed.

(** The counter after a datagram that names a domain. *)
Lemma datagram_draws f w d c t payload :
  URunInv f w -> uenabled (OnDatagram (IoOk (d, c))) w = true -> asks f d (Some (t, payload)) -> ta_type t = Domain ->
  next_id (runtime_of (fst (udeliver (OnDatagram (IoOk (d, c))) w))) =
  next_id (fst (async_resolve (host t) (calls_of w) (runtime_of w))).
Proof.
  intros Hr Hen Hq Hdom. unfold uenabled in Hen. apply andb_true_iff in Hen as [Hop%Nat.ltb_lt _].
  pose proof (alive_op f w Hr Hop) as Ha.
  refine (keeps_datagram (fun s : @unet (@node_net B) =>
    next_id (rn_world s) = next_id (fst (async_resolve (host t) (calls_of w) (runtime_of w)))) _ (IoOk (d, c)) w _).
  - by intros g s Hs.
  - cbn [handed]. rewrite (send_to_lwip_domain d c _ t payload); [|done|by rewrite <- (ur_crypto f w Hr) in Hq|done].
    cbn. unfold runtime_of, calls_of. by destruct (async_resolve _ _ _).
Qed.

Lemma domain_ready f x r w' o :
  NInv f x -> fresh_draw (runtime_of (nd_relay x)) (runtime_of w') = true ->
  uenabled (OnDatagram r) (nd_relay x) = true -> udeliver (OnDatagram r) (nd_relay x) = (w', o) ->
  uready (OnDatagram r) (nd_relay x).
Proof.
  intros Hx Hf Hen E. pose proof (ni_relay f x Hx) as Hr.
  destruct r as [[d c]| | |]; try done. intros [[t payload]|] Hq; [|done]. intros Hdom.
  rewrite (ur_crypto f _ Hr) in Hq. pose proof (datagram_draws f _ d c t payload Hr Hen Hq Hdom) as Hn.
  rewrite E in Hn. cbn in Hn. split; [apply (ni_resolver f x Hx)|].
  by rewrite <- (fresh_draw_next _ _ _ Hn).
Qed.

Lemma NInv_datagram f x r w' o :
  NInv f x -> fresh_draw (runtime_of (nd_relay x)) (runtime_of w') = true -> uenabled (OnDatagram r) (nd_relay x) = true ->
  udeliver (OnDatagram r) (nd_relay x) = (w', o) ->
  NInv f (mkNode w' (nd_tags x ++ took_tags (nd_relay x) w') (nd_accepted x ++ took_tags (nd_relay x) w')
    (nd_late x ++ late_tags (nd_relay x) w') (nd_dropped x)).
Proof.
  intros Hx Hf Hen E. pose proof (ni_relay f x Hx) as Hr. set (w := nd_relay x) in *.
  destruct (step_datagram f w r Hr Hen (domain_ready f x r w' o Hx Hf Hen E)) as (w2 & E2 & Hr2 & _ & _ & Sp & Hd).
  rewrite E in E2. injection E2 as <- ->.
  assert (forall s, stacked s (ulwip (fst (handed r (w.[op_recv := pred (op_recv w)].[uheld := true])))) ->
    stacked s (ulwip w')) as Hst.
  { intros s Hs. replace w' with (fst (udeliver (OnDatagram r) w)) by by rewrite E.
    refine (keeps_datagram (stacked s : @unet (@node_net B) -> Prop) _ r w Hs). intros. by apply stacked_on. }
  destruct r as [[d c]| | |].
  2-4: apply NInv_quiet; [done|done|done|by apply Hst, stacked_refl|done].
  destruct Hd as (q & w1 & Hq & E1 & Hsent & _ & Hre & Sp1 & _). set (w0 := w.[op_recv := _].[uheld := true]) in *.
  cbn [handed] in Hst. rewrite E1 in Hst. cbn [fst] in Hst.
  assert (names_domain q \/ ~ names_domain q) as [Hn|Hn]
    by (destruct q as [[t payload]|]; [destruct (decide (ta_type t = Domain)); auto|auto]).
  - destruct q as [[t payload]|]; [|done]. cbn [names_domain] in Hn. cbn [sent_to_lwip] in Hsent.
    rewrite decide_True in Hsent by done. destruct Hsent as (Hre1 & _ & Hn1 & Hc1).
    cbn in Hre1, Hn1. unfold uasync_resolve in *.
    destruct (async_resolve (host t) (rn_calls (ulwip w)) (rn_world (ulwip w))) as [W1 r1] eqn:Er.
    assert (fresh_draw (runtime_of w) W1 = true) as HfW.
    { destruct (Hst _ (stacked_refl _)) as [_ [n En]]. rewrite <- Hf. apply fresh_draw_next.
      unfold runtime_of. by rewrite En, Hn1. }
    eapply (NInv_call f x w1 w' (host t) r1 W1); try done; [by apply Hst, stacked_refl|].
    rewrite Hre, Hre1. by destruct r1.
  - unfold uenabled in Hen. apply andb_true_iff in Hen as [Hop%Nat.ltb_lt _].
    pose proof (alive_op f w Hr Hop) as Ha.
    apply NInv_quiet; try done.
    + apply Hst. replace w1 with (fst (send_to_lwip d c w0)) by by rewrite E1.
      eapply (keeps_send_to_lwip (stacked (ulwip w) : @unet (@node_net B) -> Prop));
        [intros; by apply stacked_on..|done| |exact Hn|apply stacked_refl].
      cbn. by rewrite (ur_crypto f w Hr).
    + rewrite Hre. destruct q as [[t payload]|]; cbn [sent_to_lwip] in Hsent; [|by subst w1].
      rewrite decide_False in Hsent by done. destruct (ipaddr_aton _); [apply Hsent|by subst w1].
Qed.

(** Every other event of the relay. *)
Lemma NInv_event f x ev w' r :
  NInv f x -> fresh_draw (runtime_of (nd_relay x)) (runtime_of w') = true -> (forall i err ip, ev <> OnAnswer i err ip) ->
  uenabled ev (nd_relay x) = true -> udeliver ev (nd_relay x) = (w', r) ->
  NInv f (mkNode w' (nd_tags x ++ took_tags (nd_relay x) w') (nd_accepted x ++ took_tags (nd_relay x) w')
    (nd_late x ++ late_tags (nd_relay x) w') (nd_dropped x)).
Proof.
  intros Hx Hf Hev Hen E. pose proof (ni_relay f x Hx) as Hr.
  assert (match ev with OnDatagram _ => False | _ => True end ->
    stacked (ulwip (nd_relay x)) (ulwip w')) as Hst
    by (intros Hev'; pose proof (deliver_stacked ev (nd_relay x) Hev') as Hs; by rewrite E in Hs).
  destruct ev as [d|u payload addr p|i err ip|k|i|].
  - by eapply NInv_datagram.
  - destruct (step_reply f _ u payload addr p Hr) as (w1 & r1 & E1 & Hr1 & _ & Hre & Sp & _).
    rewrite E in E1. injection E1 as <- <-. apply NInv_quiet; auto.
  - by destruct (Hev i err ip).
  - destruct (step_expires f _ k Hr Hen) as (w1 & E1 & Hr1 & _ & Hre & Sp).
    rewrite E in E1. injection E1 as <- ->. apply NInv_quiet; auto.
  - destruct (step_idle f _ i Hr) as (w1 & E1 & Hr1 & _ & Hre & Sp & _).
    rewrite E in E1. injection E1 as <- ->. apply NInv_quiet; auto.
  - destruct (step_stop f _ Hr Hen) as (w1 & E1 & Hr1 & _ & Hre & Sp).
    rewrite E in E1. injection E1 as <- ->. apply NInv_quiet; auto.
Qed.

Lemma delete_sub (l : list nat) i : delete i l ⊆ l.
Proof. intros t Ht. by apply list_elem_of_delete_inv in Ht. Qed.

(** Steps of the runtime. *)
Lemma rt_event_keeps acc lk dr W ds W' :
  RRun acc lk dr W -> rt_event W ds W' -> RRun acc lk (dr ++ ds) W' /\ rspares W W'.
Proof.
  intros Hr He. pose proof (rr_inv _ _ _ _ Hr) as Hi.
  destruct He as [m W' r Hm E|u q packet W' Hcb E|q y t Hy Ht|i id t W' Hti E|W' E]; rewrite ?app_nil_r.
  - pose proof (quiet_same m W W' r Hm E) as Hs. split; [by eapply RRun_same|by apply same_table_spares].
  - split; [by eapply RRun_reply|].
    pose proof Hcb as (y & Hy & _)%(ri_cb W Hi). unfold dns_recv, mbind, M_bind, get, lift in E.
    cbv beta iota in E. rewrite Hy in E.
    destruct (parse_dns_response_total packet (q_id y) (q_qtype y)) as [ip Eip]. rewrite Eip in E.
    by eapply complete_spares.
  - split; [|by unfold rspares, rforeign]. by eapply RRun_expire.
  - split; [by eapply RRun_timeout|].
    set (W0 := W.[timeouts := delete i (timeouts W)]) in *.
    assert (RInv W0) as Hi0 by (by eapply RInv_same; [exact Hi|..]).
    transitivity W0; [by unfold rspares, rforeign|].
    unfold timeout_handler, mbind, M_bind, get in E. cbv beta iota in E.
    destruct (_ && _); [by eapply complete_spares|by injection E as <-].
  - destruct (stop_runtime_spec W Hi) as (W1 & E1 & _ & _ & _ & _ & _ & _ & _ & Sp).
    rewrite E in E1. injection E1 as <-. split; [by eapply RRun_stop|done].
Qed.

Lemma NInv_step f x b x' : NInv f x -> node_step x b x' -> b = true -> NInv f x'.
Proof.
  intros Hx [ev w' r Hev Hen E|h W' r E|ds W' He|n id Hn|i tag err ip w' Ht Hp E] Hf.
  - by eapply NInv_event.
  - by eapply NInv_other_call.
  - pose proof (relay_pcbs f x Hx) as Hpcbs. destruct Hx as [H1' H2' H3' H4' H5' H6' H7'].
    destruct (rt_event_keeps _ _ _ _ _ _ H2' He) as [Hr Sp]. unfold rspares in Sp.
    constructor; cbn; try done.
    + apply URunInv_stack; [done|]. cbn. intros u Hu%Hpcbs%Sp. unfold rforeign in Hu. set_solver.
    + unfold runtime_of. cbn. intros u Hu%Hpcbs%Sp. unfold rforeign in Hu. set_solver.
  - destruct Hx as [H1' H2' H3' H4' H5' H6' H7']. constructor; cbn; try done.
    + apply URunInv_stack; [done|]. cbn. set_solver.
    + unfold runtime_of. cbn. destruct (RRun_stack _ _ _ _ n H2') as [Hi Ho Hti]; [set_solver|].
      constructor; try done. by eapply RInv_same; [exact Hi|..].
  - pose proof (ni_relay f x Hx) as Hr.
    destruct (step_answer f _ i err ip Hr) as (w1 & E1 & Hr1 & _ & Hre & Sp & _).
    rewrite E in E1. injection E1 as <-. pose proof (ni_mine f x Hx) as [Hnd Hsub].
    apply (NInv_stacked f x); try done.
    + pose proof (deliver_stacked (OnAnswer i err ip) (nd_relay x) I) as Hs. by rewrite E in Hs.
    + cbn. rewrite Hre. apply lookup_lt_Some in Ht as Hlt. pose proof (ni_tags f x Hx) as Hl.
      rewrite !length_delete by (apply lookup_lt_is_Some; lia). lia.
    + by eapply sublist_NoDup, sublist_delete.
    + etransitivity; [apply delete_sub|done].
Qed.

Lemma node_run_inv f g id (n : @unet (base_net B)) b x : node_run (new_node f g id n) b x -> b = true -> NInv f x.
Proof.
  induction 1 as [|b x b' x' _ IH Hs]; [intros _|intros [? ?]%andb_true_iff; eapply NInv_step; eauto].
  constructor; cbn; try done.
  - apply listening_inv.
  - constructor; [apply new_runtime_inv|done..].
  - constructor.
  - by intros t Ht%elem_of_nil.
  - split; [constructor|done].
Qed.

(* ------------------------------------------------------------------ *)
(** ** A datagram for a domain *)

Lemma domain_length t : target_ok t -> ta_type t = Domain -> (length (host t) <= 255)%nat.
Proof. intros [wire []]; try done. intros _. cbn. pose proof (byte_to_Z_range l). lia. Qed.

(** The node after a datagram, as [node_step] has it. *)
Definition node_after x w' : Node :=
  mkNode w' (nd_tags x ++ took_tags (nd_relay x) w') (nd_accepted x ++ took_tags (nd_relay x) w')
    (nd_late x ++ late_tags (nd_relay x) w') (nd_dropped x).

(** A datagram for a domain whose query was sent: it waits for the answer. *)
Lemma domain_datagram f x d c t payload W1 :
  NInv f x -> inbound (nd_relay x) = true -> uenabled (OnDatagram (IoOk (d, c))) (nd_relay x) = true ->
  id_free (runtime_of (nd_relay x)) -> asks f d (Some (t, payload)) -> ta_type t = Domain ->
  async_resolve (host t) (calls_of (nd_relay x)) (runtime_of (nd_relay x)) = (W1, Ret tt) ->
  exists w' n tok, udeliver (OnDatagram (IoOk (d, c))) (nd_relay x) = (w', Ret tt) /\
    NInv f (node_after x w') /\ inbound w' = true /\ runtime_of w' = W1.[rlwip := n] /\
    resolving w' = resolving (nd_relay x) ++ [mkResolution (Some tok) payload c t] /\
    tokens w' !! tok = Some true /\
    ucalls w' = ucalls (nd_relay x) ++ [UdpResolve (host t); ReceiveFrom].
Proof.
  intros Hx Hin Hen Hf Hq Hdom E1. set (w := nd_relay x) in *.
  destruct (step_datagram f w (IoOk (d, c)) (ni_relay f x Hx) Hen) as (w' & E & Hr' & In' & _ & _ & Hd).
  { intros [[t' p']|] _; [|done]. intros _. split; [apply (ni_resolver f x Hx)|by apply fresh_draw_free]. }
  destruct Hd as (q & w1 & Hq' & Es & Hsent & Hk & Hre & _ & Hal).
  assert (q = Some (t, payload)) as -> by (by eapply asks_unique).
  assert (inbound w' = true) as Hin' by congruence.
  destruct (Hal (alive_inbound f w' Hr' Hin')) as (_ & _ & Hse & Hca).
  cbn [sent_to_lwip] in Hsent. rewrite decide_True in Hsent by done. destruct Hsent as (Hre1 & Hca1 & Hn1 & _).
  cbn in Hre1, Hn1. unfold runtime_of, calls_of in E1. fold w in E1. rewrite E1 in Hre1, Hn1. cbn in Hre1, Hn1.
  destruct (ur_token f w' Hr' Hin') as (tok & Htok & Hto).
  destruct Hk as (_ & _ & _ & El & _). injection El as _ _ _ _ _ _ _ _ _ Htk.
  assert (stacked (ulwip w1) (ulwip w')) as [_ [n En]].
  { replace w' with (fst (udeliver (OnDatagram (IoOk (d, c))) w)) by by rewrite E.
    refine (keeps_datagram (stacked (ulwip w1) : @unet (@node_net B) -> Prop) _ _ w _);
      [intros; by apply stacked_on|]. cbn [handed]. rewrite Es. apply stacked_refl. }
  exists w', n, tok. split_and!; try done.
  - by apply (NInv_datagram f x (IoOk (d, c)) w' (Ret tt)); [|apply fresh_draw_free|..].
  - unfold runtime_of. rewrite En, Hn1. done.
  - rewrite Hre, Hre1. rewrite <- Htk, <- Hse, Htok. done.
  - rewrite Hca, Hca1, Hin, <- app_assoc. done.
Qed.

(* ------------------------------------------------------------------ *)
(** ** What the invariant gives *)

(** Relay and resolver do not disturb each other: no event of either touches
    freed memory. *)
Lemma node_safe f x :
  NInv f x ->
  dom (callbacks (nd_relay x)) ## dom (qcallbacks (runtime_of (nd_relay x))) /\
  (forall ev w' r, uenabled ev (nd_relay x) = true -> udeliver ev (nd_relay x) = (w', r) ->
     fresh_draw (runtime_of (nd_relay x)) (runtime_of w') = true -> r <> Ub /\
       (forall e, r = Exn e -> exists u payload addr p, ev = OnReply u payload addr p /\
          is_ret_b (snd (client_salt (make_session f, uprng (nd_relay x)))) = false)) /\
  (forall u q packet, qcallbacks (runtime_of (nd_relay x)) !! u = Some q ->
     exists W', dns_recv q packet (runtime_of (nd_relay x)) = (W', Ret tt)) /\
  (forall i t, exists W', timeout_handler i t (runtime_of (nd_relay x)) = (W', Ret tt)) /\
  (exists W', stop_runtime (runtime_of (nd_relay x)) = (W', Ret tt)).
Proof.
  intros Hx. pose proof (rr_inv _ _ _ _ (ni_resolver f x Hx)) as Hi.
  split; [apply (ni_apart f x Hx)|]. split.
  - intros ev w' r Hen E Hf.
    destruct (udp_step_any f (nd_relay x) ev (ni_relay f x Hx) Hen) as (w1 & r1 & E1 & Hub & _ & _ & He).
    { destruct ev; try done. by eapply domain_ready. }
    rewrite E in E1. by injection E1 as <- <-.
  - by apply resolver_events_return.
Qed.

(** Where a call that took its handler is: answered, dropped by a stop, or
    waiting with its timeout running or queued. *)
Definition settled W (dropped : list nat) (tag : nat) : Prop :=
  tag ∈ answered W \/ tag ∈ dropped \/
  exists q y, queries W !! q = Some y /\ q_handler y = tag /\
    (q_timer y = Some (token_ (rt W)) \/ (q_id y, token_ (rt W)) ∈ timeouts W).

Lemma accepted_settled f x tag :
  NInv f x -> tag ∈ nd_accepted x ->
  NoDup (answered (runtime_of (nd_relay x)) ++ nd_dropped x ++ waiting (runtime_of (nd_relay x))) /\
  settled (runtime_of (nd_relay x)) (nd_dropped x) tag.
Proof.
  intros [_ [Hr Ho Ht] _ Hl Hu _ _] Hacc. split; [by rewrite <- Ho|].
  assert (tag ∉ nd_late x) as Hlate by (apply NoDup_app in Hu as (_ & Hd & _); by apply Hd).
  assert (tag ∈ answered (runtime_of (nd_relay x)) ++ nd_dropped x ++ waiting (runtime_of (nd_relay x))) as Hin
    by (rewrite <- Ho; set_solver).
  apply elem_of_app in Hin as [?|[?|Hw]%elem_of_app]; [by left|by right; left|right; right].
  apply list_elem_of_fmap in Hw as ([q y] & -> & Hy%elem_of_map_to_list). exists q, y.
  split_and!; [done|done|]. destruct (Ht q y Hy) as [[? _]|[[? _]|?]]; [by left|by right|done].
Qed.

(** The number of a datagram that waits. *)
Lemma datagram_tag f x i :
  NInv f x -> is_Some (resolving (nd_relay x) !! i) ->
  exists tag, nd_tags x !! i = Some tag /\ tag ∈ nd_accepted x.
Proof.
  intros Hx Hi. destruct (lookup_lt_is_Some_2 (nd_tags x) i) as [tag Htag].
  { rewrite (ni_tags f x Hx). by apply lookup_lt_is_Some. }
  exists tag. split; [done|]. apply (proj2 (ni_mine f x Hx)). by eapply list_elem_of_lookup_2.
Qed.

(* ------------------------------------------------------------------ *)
(** ** Properties *)

(** C10.  A client's datagram for a domain, end to end, on a node all of whose
    queries so far got free ids: when the next id is free too, and lwIP has a pcb
    and a buffer and sends, the query for the name goes to the name server's
    port 53 and the relay's receive goes on; when a response that answers this
    query arrives at that pcb, the runtime posts the address to the handler of
    this datagram.  The handler, when lwIP in the state it is then in has a pcb
    (that of the mapping of this client and this target, or a new one) and then
    a buffer, sends the datagram's whole payload to that address and the port
    the client named, once, through the pcb of a mapping of this client and
    this target; otherwise it sends nothing. *)
Theorem relay_domain_forwarded f g id (n : @unet (base_net B)) x d c t payload server u n1 n2 n3 query :
  let w := nd_relay x in let W := runtime_of w in
  let qid := u16 (next_id W) in let qtype := if IP_IS_V6 server then DnsTypeAaaa else DnsTypeA in
  node_run (new_node f g id n) true x -> inbound w = true -> uenabled (OnDatagram (IoOk (d, c))) w = true ->
  asks f d (Some (t, payload)) -> ta_type t = Domain -> ipaddr_aton (c_str (host t)) = None ->
  id_free W -> dns_server (rt W) = Ret (Some server) -> make_dns_query qid (host t) qtype = Ret query ->
  udp_new (rlwip W) = (Some u, n1) ->
  pbuf_alloc (Z.of_nat (length query)) (udp_recv u true n1) = (true, n2) ->
  udp_sendto u query server DnsPort n2 = (ERR_OK, n3) ->
  exists w1 q, udeliver (OnDatagram (IoOk (d, c))) w = (w1, Ret tt) /\
    ucalls w1 = ucalls w ++ [UdpResolve (host t); ReceiveFrom] /\
    rcalls (runtime_of w1) = rcalls W ++ [RNew (Some u); RRecv u q; RSend u query server DnsPort ERR_OK] /\
    forall packet ip, parse_dns_response packet qid qtype = Ret (Some ip) ->
    exists W2 w3 cs, dns_recv q packet (runtime_of w1) = (W2, Ret tt) /\
      posted W2 = posted W ++ [(calls_of w, ERR_OK, Some ip)] /\
      udeliver (OnAnswer (length (resolving w)) ERR_OK (Some ip)) (set_runtime W2 w1) = (w3, Ret tt) /\
      ucalls w3 = ucalls w1 ++ cs /\
      if has_room (set_runtime W2 w1) c t (Z.of_nat (length payload))
      then sent_whole w3 c t ip payload cs else dropped cs.
Proof.
  intros w W qid qtype Hrun. pose proof (node_run_inv _ _ _ _ _ _ Hrun eq_refl) as Hx. intros Hin Hen Hq Hdom Hlit Hf Hserver Hquery Hnew Hbuf Hsend.
  destruct (datagram_bounds f w d c t payload Hen Hq) as (Hlen & Hep & Ht).
  assert (Z.of_nat (length query) < 65536) as Hql.
  { pose proof (make_dns_query_length _ _ _ _ Hquery). pose proof (domain_length t Ht Hdom). lia. }
  destruct (async_resolve_sends (host t) (calls_of w) W server u n1 n2 n3 query Hf Hlit Hserver Hquery Hql Hnew Hbuf Hsend)
    as (W1 & tm & E1 & Hcb & Hy & Htab & Hpo & Hca).
  destruct (domain_datagram f x d c t payload W1 Hx Hin Hen Hf Hq Hdom E1)
    as (w1 & m & tok & E & Hx1 & Hin1 & EW & Hre & Htok & Huc).
  pose proof (rr_inv _ _ _ _ (ni_resolver f _ Hx1)) as Hi1. cbn in Hi1.
  exists w1, (qnext W). split_and!; [done|done|by rewrite EW|]. intros packet ip Hp.
  destruct (complete_present qid ERR_OK (Some ip) (runtime_of w1) (qnext W) Hi1) as (y & W2 & Hy' & _ & E2 & _ & _ & _ & _ & Hpo2 & _).
  { by rewrite EW. }
  assert (y = mkDnsQuery (Some u) qid qtype (calls_of w) tm) as ->.
  { rewrite EW in Hy'. cbn in Hy'. rewrite Hy in Hy'. by injection Hy' as <-. }
  assert (dns_recv (qnext W) packet (runtime_of w1) = (W2, Ret tt)) as Erecv.
  { unfold dns_recv, mbind, M_bind, get, lift. cbv beta iota. rewrite Hy'. cbn [q_id q_qtype]. rewrite Hp. exact E2. }
  assert (NInv f (node_after x w1).[nd_relay := set_runtime W2 w1].[nd_dropped := nd_dropped x ++ []]) as Hx2.
  { eapply (NInv_step f (node_after x w1) true _ Hx1); [|done]. apply (ns_runtime (node_after x w1) [] W2).
    apply (re_reply (runtime_of w1) u (qnext W) packet); [by rewrite EW|done]. }
  pose proof (ni_relay f _ Hx2) as Hr2. cbn in Hr2.
  destruct (step_answer f (set_runtime W2 w1) (length (resolving w)) ERR_OK (Some ip) Hr2)
    as (w3 & E3 & Hr3 & _ & _ & _ & Hfw).
  destruct (Hfw (mkResolution (Some tok) payload c t) tok ip) as (w4 & Hw4 & Ew3); try done.
  { cbn. rewrite Hre. by apply list_lookup_middle. }
  { by apply (alive_inbound f _ Hr2). }
  { by rewrite (ur_running f _ Hr2). }
  destruct (forwarded_whole f _ w4 w3 c t ip payload Hw4 Hr3) as (cs & Ecs & Hcs); try done.
  { by rewrite Ew3. }
  exists W2, w3, cs. split_and!; [done|rewrite Hpo2, EW; cbn; by rewrite Hpo|done| |exact Hcs].
  rewrite Ew3. exact Ecs.
Qed.

End Spec.

(* ------------------------------------------------------------------ *)
(** ** A run on a concrete stack *)

#[local] Existing Instances toy_mbedtls toy_mbedtls_laws pton_make_address toy_print toy_print_laws
  one_server toy_address toy_address_laws.

Definition toy_base : Base := mkBase toy_udp toy_udp_laws.
#[local] Instance toy_node_resolver : @UdpResolver (@node_net toy_base) := node_resolver.
Abbreviation ToyNode := (@Node _ _ toy_base).

Definition fresh_node : ToyNode := new_node (B := toy_base) (new_factory toy_pw) toy_rng 1 no_pcbs.
Definition configured_node : ToyNode := fresh_node.[nd_relay := set_runtime (B := toy_base) configured (nd_relay fresh_node)].

Lemma configured_node_run : node_run fresh_node true configured_node.
Proof.
  eapply (node_next _ true _ true); [apply node_init|].
  assert (rt_event (runtime_of (nd_relay fresh_node)) [] (configured : @RtWorld (base_net toy_base))) as He.
  { eapply re_quiet; [apply (quiet_apply dns_config)|]. apply surjective_pairing. }
  exact (ns_runtime fresh_node [] configured He).
Qed.

Definition domain_target : TargetAddress := mkTargetAddress Domain (str "a.example") 80.
Definition domain_wire : bytes := x03 :: x09 :: str "a.example" ++ [x00; x50].
Definition domain_datagram_bytes : bytes :=
  ret_value [] (snd (encrypt_udp_packet (domain_wire ++ str "hello")
    (make_session (new_factory toy_pw), toy_rng))).
Abbreviation domain_send := (@OnDatagram toy_address (@node_net toy_base) (IoOk (domain_datagram_bytes, toy_client))).

Lemma domain_asks : asks (new_factory toy_pw) domain_datagram_bytes (Some (domain_target, str "hello")).
Proof.
  apply (asks_target _ _ _ domain_wire); [vm_compute; reflexivity|].
  exact (wire_domain x09 (str "a.example") x00 x50 eq_refl).
Qed.

Definition domain_query : bytes := ret_value [] (make_dns_query 1 (str "a.example") DnsTypeA).

Lemma domain_enabled : uenabled domain_send (nd_relay configured_node) = true.
Proof. vm_compute. reflexivity. Qed.
Lemma domain_id_free : id_free configured.
Proof. vm_compute. reflexivity. Qed.
Lemma domain_server : dns_server (rt configured) = Ret (Some (IP4 0x3500000a)).
Proof. vm_compute. reflexivity. Qed.
Lemma domain_encoded : make_dns_query (u16 (next_id configured)) (str "a.example") DnsTypeA = Ret domain_query.
Proof. vm_compute. reflexivity. Qed.
Lemma domain_pcb : udp_new (rlwip configured) = (Some 1%nat, [1%nat]).
Proof. vm_compute. reflexivity. Qed.

Lemma relay_domain_forwarded_witness :
  exists w1 q, udeliver domain_send (nd_relay configured_node) = (w1, Ret tt) /\
    rcalls (runtime_of w1) = rcalls configured ++
      [RNew (Some (1%nat : @upcb toy_udp)); RRecv (1%nat : @upcb toy_udp) q;
       RSend (1%nat : @upcb toy_udp) domain_query (IP4 0x3500000a) 53 ERR_OK].
Proof.
  pose proof (relay_domain_forwarded (B := toy_base) (new_factory toy_pw) toy_rng 1 no_pcbs configured_node
    domain_datagram_bytes toy_client domain_target (str "hello") (IP4 0x3500000a) 1%nat [1%nat] [1%nat] [1%nat]
    domain_query configured_node_run eq_refl domain_enabled domain_asks eq_refl eq_refl domain_id_free
    domain_server domain_encoded domain_pcb eq_refl eq_refl) as Hw.
  destruct Hw as (w1 & q & E & _ & Hc & _). exists w1, q. split; [exact E|exact Hc].
Defined.
