(* ===== verification/Plane.v ===== *)
(** * The data plane of an instance

    The relay and the runtime of [Node] with the TCP sessions of the inbound,
    all on one lwIP: a session's TCP calls go to the stack's TCP part, its
    [async_resolve] is the runtime's, numbered with those of the relay.  Every
    session is the model of [Tcp]; between two of its events the others work
    on the stack. *)
From S2P Require Import Prelude Types Mbedtls Text Aead AeadStream Address Lwip Tcp TcpFrame.
From S2P Require Import Udp UdpFacts UdpFrame UdpRun Dns DnsFacts Runtime RuntimeFacts RuntimeSpec Node.

(* ------------------------------------------------------------------ *)
(** ** The stack of a session *)

Section Net.
Context `{!IpText} {T : TcpNet} {U : UdpNet}.

(** lwIP's TCP, and the runtime. *)
Definition PlaneNet : Type := @net T * @RtNet U.
Definition on_tcp {A} (f : @net T -> A * @net T) (n : PlaneNet) : A * PlaneNet :=
  let '(a, t) := f n.1 in (a, (t, n.2)).
Definition on_tcp_ (f : @net T -> @net T) (n : PlaneNet) : PlaneNet := (f n.1, n.2).

Definition plane_net : TcpNet := {|
  net := PlaneNet;
  pcb := @pcb T;
  pcb_eq_dec := _;
  tcp_new_pcb := on_tcp tcp_new_pcb;
  tcp_callbacks p b := on_tcp_ (tcp_callbacks p b);
  tcp_connect p ip port := on_tcp (tcp_connect p ip port);
  tcp_sndbuf p n := tcp_sndbuf p n.1;
  tcp_sndqueuelen p n := tcp_sndqueuelen p n.1;
  tcp_state_of p n := tcp_state_of p n.1;
  tcp_write p d := on_tcp (tcp_write p d);
  tcp_output p := on_tcp_ (tcp_output p);
  tcp_recved p z := on_tcp_ (tcp_recved p z);
  tcp_shutdown_tx p := on_tcp (tcp_shutdown_tx p);
  tcp_close p := on_tcp (tcp_close p);
  tcp_abort p := on_tcp_ (tcp_abort p);
  Lwip.async_resolve h n := let '(s, e) := @uasync_resolve _ (@runtime_resolver _ U) h n.2 in ((n.1, s), e)
|}.

End Net.

(* ------------------------------------------------------------------ *)
(** ** Planes *)

Section Plane.
Context `{!Mbedtls, !MakeAddress, !IpText, !IpPrint, !ClientAddress}.
Context {T : TcpNet} {B : Base}.
#[local] Instance session_net : TcpNet := @plane_net _ T (base_net B).
Abbreviation Node := (@Node _ _ B).

(** The node, the TCP part of the stack, and the sessions, each with the
    number of its call of [async_resolve] while it waits for the answer. *)
Record Plane := mkPlane {
  pl_node : Node;
  pl_tcp : @net T;
  pl_sessions : list (World * option nat)
}.
#[export] Instance Plane_eta : Eta Plane := fun x => mkPlane (pl_node x) (pl_tcp x) (pl_sessions x).

Definition runtime_part (x : Plane) : @RtNet (base_net B) := ulwip (nd_relay (pl_node x)).

(** A session's view of the stack, and the stack after its event. *)
Definition on_plane (x : Plane) (w : World) : World := w.[lwip := (pl_tcp x, runtime_part x)].
Definition put_back (x : Plane) (i : nat) (w : World) (tag : option nat) (acc lk : list nat) : Plane :=
  let n := pl_node x in
  mkPlane (mkNode (set_stack (lwip w).2 (nd_relay n)) (nd_tags n) (nd_accepted n ++ acc) (nd_late n ++ lk)
      (nd_dropped n))
    (lwip w).1 (<[i := (w, tag)]> (pl_sessions x)).

(** Whether the event called the resolver, and whether the handler was taken. *)
Definition has_called (x : Plane) (w : World) : bool := (rn_calls (runtime_part x) <? rn_calls (lwip w).2)%nat.
Definition session_tags (x : Plane) (w : World) : list nat :=
  if has_called x w && bool_decide (is_Some (op_resolve w)) then [rn_calls (runtime_part x)] else [].
Definition session_late (x : Plane) (w : World) : list nat :=
  if has_called x w && negb (bool_decide (is_Some (op_resolve w))) &&
     negb (bool_decide (dom (queries (rn_world (lwip w).2)) = dom (queries (rn_world (runtime_part x)))))
  then [rn_calls (runtime_part x)] else [].
Definition session_tag (x : Plane) (w : World) (tag : option nat) : option nat :=
  match session_tags x w with [] => tag | t :: _ => Some t end.

(** A step of the node or of the TCP part of the stack, a new session, an event
    of a session, a posted answer for a session.  The flag says, as that of
    [node_step], whether the step drew no id for a query, or a free one. *)
Inductive plane_step (f : AeadFactory) (x : Plane) : bool -> Plane -> Prop :=
| ps_node b n : node_step (pl_node x) b n -> plane_step f x b (x.[pl_node := n])
| ps_tcp t : plane_step f x true (x.[pl_tcp := t])
| ps_accept g : plane_step f x true
    (x.[pl_sessions := pl_sessions x ++ [(accepted f g (pl_tcp x, runtime_part x), None)]])
| ps_event i w tag ev w' :
    pl_sessions x !! i = Some (w, tag) -> (forall err ip, ev <> OnResolved err ip) -> enabled ev w = true ->
    deliver ev (on_plane x w) = (w', Ret tt) ->
    plane_step f x (fresh_draw (rn_world (runtime_part x)) (rn_world (lwip w').2))
      (put_back x i w' (session_tag x w' tag) (session_tags x w') (session_late x w'))
| ps_resolved i w tag err ip w' :
    pl_sessions x !! i = Some (w, Some tag) -> (tag, err, ip) ∈ posted (rn_world (runtime_part x)) ->
    deliver (OnResolved err ip) (on_plane x w) = (w', Ret tt) ->
    plane_step f x true (put_back x i w' None [] []).

(** An inbound that has started, on a new runtime. *)
Definition new_plane (f : AeadFactory) (g : Csprng) (id : Z) (n : @unet (base_net B)) (t : @net T) : Plane :=
  mkPlane (new_node f g id n) t [].

(** Runs, and whether each of their steps was [fresh]. *)
Inductive plane_run (f : AeadFactory) (x0 : Plane) : bool -> Plane -> Prop :=
| plane_init : plane_run f x0 true x0
| plane_next b x b' x' : plane_run f x0 b x -> plane_step f x b' x' -> plane_run f x0 (b && b') x'.

End Plane.
