(* ===== verification/PlaneSpec.v ===== *)
(** * The data plane of an instance: properties

    The invariants of relay, resolver and every session hold together; each
    name a datagram or a session asks for is resolved once; and a session
    connects to the address that the name server answers. *)
From S2P Require Import Prelude Types Mbedtls Text Aead AeadStream AeadSpec Address AddressSpec Lwip.
From S2P Require Import Tcp TcpFrame TcpInv TcpFacts TcpRun TcpSpec Udp UdpFacts UdpFrame UdpRun UdpSpec.
From S2P Require Import Dns DnsFacts Runtime RuntimeFacts RuntimeSpec Node NodeSpec Plane.

Section Spec.
Context `{!Mbedtls, !MbedtlsLaws, !MakeAddress, !IpText, !IpPrint, !IpPrintLaws, !ClientAddress, !ClientAddressLaws}.
Context {T : TcpNet} {B : Base}.
#[local] Hint Extern 0 TcpNet => exact (@session_net _ T B) : typeclass_instances.
#[local] Existing Instances base_net_laws node_resolver node_laws node_resolver_laws.
Abbreviation Plane := (@Plane _ _ _ T B).
Implicit Types (x : Plane) (w : World).

(** [async_resolve] for a session is the runtime's. *)
Lemma session_resolve h (n : @net (@session_net _ T B)) :
  Lwip.async_resolve h n =
    let '(W, r) := async_resolve h (rn_calls n.2) (rn_world n.2) in
    ((n.1, mkRtNet W (S (rn_calls n.2))) : @net (@session_net _ T B), match r with Exn e => Some e | _ => None end).
Proof. cbn. by destruct (async_resolve _ _ _). Qed.

Lemma on_tcp_part {A} (f : @net T -> A * @net T) (n : @PlaneNet T (base_net B)) : (on_tcp f n).2.2 = n.2.
Proof. unfold on_tcp. by destruct (f n.1). Qed.

Definition rt_part (n : @net (@session_net _ T B)) : @RtNet (base_net B) := n.2.

(** What a session's event does to the runtime. *)
Lemma session_event w ev w' r :
  (forall err ip, ev <> OnResolved err ip) -> deliver ev w = (w', r) ->
  asks_once rt_part (rt_part (lwip w)) (op_resolve w) (got_target_ (self w)) w'.
Proof.
  intros Hev E. replace w' with (fst (deliver ev w)) by by rewrite E.
  apply deliver_asks; [..|done]; intros; first [done|apply on_tcp_part].
Qed.

Lemma session_answer w err ip w' r :
  got_target_ (self w) = true -> is_Some (op_resolve w) -> deliver (OnResolved err ip) w = (w', r) ->
  (lwip w').2 = (lwip w).2 /\ op_resolve w' = None.
Proof.
  intros Hg Ho E. replace w' with (fst (deliver (OnResolved err ip) w)) by by rewrite E.
  apply (answer_asks rt_part); [..|done|done]; intros; first [done|apply on_tcp_part].
Qed.

(* ------------------------------------------------------------------ *)
(** ** The invariant *)

(** A session of the factory [f] and its number, next to the node [n]. *)
Record session_ok (f : AeadFactory) (n : @Node _ _ B) w (tag : option nat) : Prop := {
  so_run : exists g m evs, run (accepted f g m) evs w;
  so_waits : is_Some (op_resolve w) <-> is_Some tag;
  so_tag t : tag = Some t -> t ∈ nd_accepted n /\ t ∉ nd_tags n
}.

Record PInv (f : AeadFactory) x : Prop := {
  pi_node : NInv f (pl_node x);
  pi_session i w tag : pl_sessions x !! i = Some (w, tag) -> session_ok f (pl_node x) w tag;
  pi_distinct i j w v t : pl_sessions x !! i = Some (w, Some t) -> pl_sessions x !! j = Some (v, Some t) -> i = j
}.

(** Numbers are kept, and new ones of the relay are fresh. *)
Lemma node_step_tags f (n n' : @Node _ _ B) b :
  NInv f n -> node_step n b n' ->
  nd_accepted n ⊆ nd_accepted n' /\ forall t, t ∈ nd_tags n' -> t ∈ nd_tags n \/ t ∉ nd_accepted n.
Proof.
  intros Hn Hs. destruct Hs as [ev w' r _ _ _|h W' r _|ds W' _|m id _|i tag err ip w' _ _ _]; cbn.
  - split; [set_solver|]. intros t [?|Ht]%elem_of_app; [by left|right]. intros Ha.
    assert (t < calls_of (nd_relay n))%nat as Hlt by (apply (ni_fresh f n Hn); set_solver).
    unfold took_tags in Ht. destruct (_ <? _)%nat; [|by apply elem_of_nil in Ht].
    apply list_elem_of_singleton in Ht. lia.
  - split; [set_solver|auto].
  - split; [set_solver|auto].
  - split; [set_solver|auto].
  - split; [set_solver|]. intros t Ht. left. by apply delete_sub in Ht.
Qed.

Lemma session_ok_node f n n' w tag :
  nd_accepted n ⊆ nd_accepted n' -> (forall t, t ∈ nd_tags n' -> t ∈ nd_tags n \/ t ∉ nd_accepted n) ->
  session_ok f n w tag -> session_ok f n' w tag.
Proof. intros Ha Ht [Hr Hw Htag]. constructor; [done..|]. intros t [? Hn]%Htag. split; [auto|]. intros [?|?]%Ht; auto. Qed.

Lemma PInv_node f x n :
  PInv f x -> NInv f n -> nd_accepted (pl_node x) ⊆ nd_accepted n ->
  (forall t, t ∈ nd_tags n -> t ∈ nd_tags (pl_node x) \/ t ∉ nd_accepted (pl_node x)) ->
  PInv f (x.[pl_node := n]).
Proof. intros [_ Hs Hd] Hn Ha Ht. constructor; [done| |done]. cbn. intros i w tag Hw. by eapply session_ok_node, Hs. Qed.

(** An event of a session: no call of the resolver, or one. *)
Lemma event_calls x w ev w' r :
  (op_resolve w <> None -> got_target_ (self w) = true) ->
  (forall err ip, ev <> OnResolved err ip) -> deliver ev (on_plane x w) = (w', r) ->
  (lwip w').2 = runtime_part x /\ op_resolve w' = op_resolve w \/
  exists h W1 r1, op_resolve w = None /\
    async_resolve h (rn_calls (runtime_part x)) (rn_world (runtime_part x)) = (W1, r1) /\
    (lwip w').2 = mkRtNet W1 (S (rn_calls (runtime_part x))) /\
    (is_Some (op_resolve w') <-> match r1 with Exn _ => False | _ => True end).
Proof.
  intros Hres Hev E. destruct (session_event _ _ _ _ Hev E) as [(E1 & E2 & _)|(Hg & _ & h & n & port & Hn & E1 & E2)]; [by left|right].
  assert (op_resolve w = None) as Ho.
  { destruct (op_resolve w) eqn:Eo; [|done]. cbn in Hg. rewrite Hres in Hg; done. }
  unfold rt_part in Hn. cbn in Hn. rewrite session_resolve, Hn in E1, E2.
  destruct (async_resolve h _ _) as [W1 r1] eqn:Er. exists h, W1, r1. split_and!; [done..|].
  rewrite E2. cbn. rewrite Ho. destruct r1; (split; [intros; try done|]); try done; by intros [].
Qed.

Lemma PInv_insert f x n t i w tag :
  PInv f x -> NInv f n -> nd_accepted (pl_node x) ⊆ nd_accepted n ->
  (forall t', t' ∈ nd_tags n -> t' ∈ nd_tags (pl_node x) \/ t' ∉ nd_accepted (pl_node x)) ->
  session_ok f n w tag ->
  (forall j v t', j <> i -> tag = Some t' -> pl_sessions x !! j = Some (v, Some t') -> False) ->
  PInv f (mkPlane n t (<[i := (w, tag)]> (pl_sessions x))).
Proof.
  intros [_ Hs Hd] Hn Ha Ht Hok Hnew. constructor; cbn; [done|..].
  - intros j v tg [(-> & Ev & _)|[_ Hj]]%list_lookup_insert_Some; [by injection Ev as -> ->|].
    by eapply session_ok_node, Hs.
  - intros j k v v' t' [(-> & Ej & _)|[Nj Hj]]%list_lookup_insert_Some [(-> & Ek & _)|[Nk Hk]]%list_lookup_insert_Some.
    + done.
    + injection Ej as <- E. exfalso. by eapply (Hnew k v' t').
    + injection Ek as <- E. exfalso. by eapply (Hnew j v t').
    + by eapply Hd.
Qed.

Lemma set_stack_same x s : s = runtime_part x -> set_stack s (nd_relay (pl_node x)) = nd_relay (pl_node x).
Proof. intros ->. unfold set_stack, runtime_part. by destruct (nd_relay (pl_node x)). Qed.
Lemma same_node x s : s = runtime_part x ->
  mkNode (set_stack s (nd_relay (pl_node x))) (nd_tags (pl_node x)) (nd_accepted (pl_node x) ++ [])
    (nd_late (pl_node x) ++ []) (nd_dropped (pl_node x)) = pl_node x.
Proof. intros Hs. rewrite set_stack_same, !app_nil_r by done. by destruct (pl_node x). Qed.

(** The session's invariant, on the plane. *)
Lemma session_inv f x i w tag :
  length (factory_master_key_ f) = KeySize -> PInv f x -> pl_sessions x !! i = Some (w, tag) ->
  exists evs, RunInv (factory_master_key_ f) evs w.
Proof. intros Hl Hx Hw. destruct (so_run _ _ _ _ (pi_session f x Hx i w tag Hw)) as (g & m & evs & Hr). eexists. by eapply run_inv. Qed.

Lemma enabled_plane x ev w : enabled ev (on_plane x w) = enabled ev w.
Proof. by destruct ev. Qed.

Lemma event_run f x w ev w' :
  (exists g m evs, run (accepted f g m) evs w) -> enabled ev w = true -> deliver ev (on_plane x w) = (w', Ret tt) ->
  exists g m evs, run (accepted f g m) evs w'.
Proof.
  intros (g & m & evs & Hr) He E. exists g, m, (evs ++ [ev]).
  apply (run_snoc _ evs (on_plane x w) ev w'); [by apply run_stack|by rewrite enabled_plane|done].
Qed.

Lemma PInv_event f x i w tag ev w' :
  length (factory_master_key_ f) = KeySize -> PInv f x -> pl_sessions x !! i = Some (w, tag) ->
  (forall err ip, ev <> OnResolved err ip) -> enabled ev w = true ->
  deliver ev (on_plane x w) = (w', Ret tt) ->
  fresh_draw (rn_world (runtime_part x)) (rn_world (lwip w').2) = true ->
  PInv f (put_back x i w' (session_tag x w' tag) (session_tags x w') (session_late x w')).
Proof.
  intros Hl Hx Hw Hev He E Hf. destruct (session_inv f x i w tag Hl Hx Hw) as [evs [(HI & _) _]].
  pose proof (pi_session f x Hx i w tag Hw) as Hok.
  pose proof (event_run f x w ev w' (so_run _ _ _ _ Hok) He E) as Hrun.
  unfold put_back, session_tag, session_tags, session_late, has_called.
  destruct (event_calls x w ev w' _ (inv_resolving w HI) Hev E) as [[Es Eo]|(h & W1 & r & Ho & Er & Es & Hres)].
  - rewrite Es, Nat.ltb_irrefl. cbn [andb]. rewrite same_node by done.
    apply PInv_insert; try done; [apply Hx|auto|..].
    + constructor; [done|rewrite Eo; apply Hok|apply Hok].
    + intros j v t Hj -> Hv. by eapply Hj, (pi_distinct f x Hx).
  - rewrite Es in Hf. cbn [rn_world] in Hf. assert (r <> Ub) as Hub.
    { pose proof (RRun_submit _ _ _ _ _ _ _ _ (ni_resolver f _ (pi_node f x Hx)) Er Hf) as Hs. by destruct r. }
    pose proof (ns_call (pl_node x) h W1 r Er) as Hstep.
    pose proof (NInv_step f _ _ _ (pi_node f x Hx) Hstep Hf) as Hn.
    destruct (node_step_tags f _ _ _ (pi_node f x Hx) Hstep) as [Ha Ht].
    assert (tag = None) as -> by (destruct tag; [|done]; destruct (proj2 (so_waits _ _ _ _ Hok)) as [? ?]; [eauto|congruence]).
    assert (forall t, t ∈ nd_accepted (pl_node x) -> (t < rn_calls (runtime_part x))%nat) as Hfresh
      by (intros t Hin; apply (ni_fresh f _ (pi_node f x Hx)); set_solver).
    rewrite Es. cbn [rn_calls rn_world]. rewrite (proj2 (Nat.ltb_lt _ (S _))) by lia. cbn [andb].
    unfold accepted_by, late_by, after_call in *. change (runtime_of (nd_relay (pl_node x))) with (rn_world (runtime_part x)) in *.
    change (calls_of (nd_relay (pl_node x))) with (rn_calls (runtime_part x)) in *.
    destruct r as [[]|e|]; [| |done]; cbn [is_ret_b orb] in *.
    + rewrite bool_decide_true by tauto. cbn [negb andb]. apply PInv_insert; try done.
      * constructor; [done|split; [eauto|tauto]|]. intros t [= <-]. cbn. split; [set_solver|].
        intros Hin. apply (proj2 (ni_mine f _ (pi_node f x Hx))) in Hin. apply Hfresh in Hin. lia.
      * intros j v t Hj [= <-] Hv. pose proof (proj1 (so_tag _ _ _ _ (pi_session f x Hx j v _ Hv) _ eq_refl)) as Hin.
        apply Hfresh in Hin. lia.
    + rewrite bool_decide_false by tauto. cbn [negb andb].
      replace (if negb (bool_decide _) then _ else _) with
        (if bool_decide (dom (queries W1) = dom (queries (rn_world (runtime_part x)))) then [] else [rn_calls (runtime_part x)])
        by by case_bool_decide.
      apply PInv_insert; try done. constructor; [done|split; [tauto|by intros []]|done].
Qed.

Lemma PInv_resolved f x i w tag err ip w' :
  length (factory_master_key_ f) = KeySize -> PInv f x -> pl_sessions x !! i = Some (w, Some tag) ->
  deliver (OnResolved err ip) (on_plane x w) = (w', Ret tt) -> PInv f (put_back x i w' None [] []).
Proof.
  intros Hl Hx Hw E. destruct (session_inv f x i w _ Hl Hx Hw) as [evs [(HI & _) _]].
  pose proof (pi_session f x Hx i w _ Hw) as Hok. destruct (proj2 (so_waits _ _ _ _ Hok)) as [port Ho]; [eauto|].
  assert (got_target_ (self w) = true) as Hg by (apply (inv_resolving w HI); congruence).
  destruct (session_answer (on_plane x w) err ip w' _ Hg (ex_intro _ port Ho) E) as [Es Eo].
  pose proof (event_run f x w (OnResolved err ip) w' (so_run _ _ _ _ Hok)) as Hrun.
  unfold put_back. rewrite same_node by done. apply PInv_insert; try done; [apply Hx|auto|].
  constructor; [|by rewrite Eo|done]. apply Hrun; [|done]. cbn. rewrite Ho. by apply bool_decide_eq_true_2.
Qed.

Lemma PInv_step f x b x' :
  length (factory_master_key_ f) = KeySize -> PInv f x -> plane_step f x b x' -> b = true -> PInv f x'.
Proof.
  intros Hl Hx [b' n Hs|t|g|i w tag ev w' Hw Hev He E|i w tag err ip w' Hw Hp E] Hf.
  - destruct (node_step_tags f _ _ _ (pi_node f x Hx) Hs) as [Ha Ht]. apply PInv_node; [done| |done..].
    eapply NInv_step; [apply Hx|exact Hs|done].
  - by destruct Hx.
  - destruct Hx as [Hn Hs Hd]. constructor; cbn; [done|..].
    + intros i w tag [Hw|[_ Hw]]%lookup_app_Some; [by eapply Hs|].
      apply list_lookup_singleton_Some in Hw as [_ [= <- <-]].
      constructor; [|split; by intros []|done]. eexists g, _, []. apply run_nil.
    + intros i j w v t Hi Hj. apply lookup_app_Some in Hi as [Hi|[_ Hi]], Hj as [Hj|[_ Hj]]; [by eapply Hd|..];
        try (by apply list_lookup_singleton_Some in Hi as [_ [= _ ?]]);
        by apply list_lookup_singleton_Some in Hj as [_ [= _ ?]].
  - by eapply PInv_event.
  - by eapply PInv_resolved.
Qed.

Lemma fresh_run_inv pw g id (n : @unet (base_net B)) (t : @net T) b x :
  plane_run (new_factory pw) (new_plane (new_factory pw) g id n t) b x -> b = true -> PInv (new_factory pw) x.
Proof.
  induction 1 as [|b x b' x' _ IH Hs].
  2:{ intros [? ?]%andb_true_iff. eapply PInv_step; [apply master_key_length|..]; eauto. }
  intros _. constructor; cbn; [|by intros ? ? ?..]. apply (node_run_inv _ g id n true); [apply node_init|done].
Qed.
Lemma plane_run_inv pw g id (n : @unet (base_net B)) (t : @net T) x :
  plane_run (new_factory pw) (new_plane (new_factory pw) g id n t) true x -> PInv (new_factory pw) x.
Proof. intros Hx. by eapply fresh_run_inv. Qed.

(* ------------------------------------------------------------------ *)
(** ** Properties *)

(** C11.  The data plane of an instance, with any number of TCP sessions, the
    UDP relay and the resolver on one stack, in every interleaving of their
    events in which no query was given an id that another query still had (the
    code takes any id, and C40 shows what follows when it is not free): the
    relay's and the resolver's pcbs are apart; no event of the relay that does
    not itself draw such an id touches freed memory or throws (but for a reply
    for which no salt can be drawn), no answer of a name server, no timeout and
    no stop of the runtime does; and every event of every session returns, as
    long as a socket operation of the session is outstanding or the event is
    not one of the two that may release the session before they return. *)
Theorem instance_safe pw g id (n : @unet (base_net B)) (t : @net T) x :
  plane_run (new_factory pw) (new_plane (new_factory pw) g id n t) true x ->
  let relay := nd_relay (pl_node x) in let W := runtime_of relay in
  dom (callbacks relay) ## dom (qcallbacks W) /\
  (forall ev v r, uenabled ev relay = true -> udeliver ev relay = (v, r) ->
     fresh_draw W (runtime_of v) = true -> r <> Ub /\
       (forall e, r = Exn e -> exists u payload addr p, ev = OnReply u payload addr p /\
          is_ret_b (snd (client_salt (make_session (new_factory pw), uprng relay))) = false)) /\
  (forall u q packet, qcallbacks W !! u = Some q -> exists W', dns_recv q packet W = (W', Ret tt)) /\
  (forall i tok, exists W', timeout_handler i tok W = (W', Ret tt)) /\
  (exists W', stop_runtime W = (W', Ret tt)) /\
  (forall i w tag ev, pl_sessions x !! i = Some (w, tag) -> enabled ev w = true ->
     anchored w = true \/ ev <> OnSent /\ ev <> OnRecv None ERR_OK ->
     exists w', deliver ev (on_plane x w) = (w', Ret tt)).
Proof.
  intros Hx%plane_run_inv. destruct (node_safe _ _ (pi_node _ x Hx)) as (Ha & Hr & Hd & Ht & Hs).
  split_and!; try done. intros i w tag ev Hw He Hev.
  destruct (session_inv _ x i w tag (master_key_length pw) Hx Hw) as [evs HR].
  assert (RunInv (factory_master_key_ (new_factory pw)) evs (on_plane x w)) as HR' by by apply RunInv_stack.
  rewrite <- (enabled_plane x) in He. pose proof (step_any _ _ ev _ HR' He) as Hok. unfold step_ok in Hok.
  destruct (deliver ev (on_plane x w)) as [w' [[]|e|]]; [by eauto|done|].
  destruct Hok as [Hanch Hcase]. change (anchored (on_plane x w)) with (anchored w) in Hanch.
  destruct Hev as [?|[? ?]]; [congruence|]. by destruct Hcase.
Qed.

(** Who may wait for a name: a datagram of the relay, or a session. *)
Inductive asker := ByDatagram (i : nat) | BySession (i : nat).
Definition asks_name x (a : asker) : Prop :=
  match a with
  | ByDatagram i => is_Some (resolving (nd_relay (pl_node x)) !! i)
  | BySession i => exists w tag, pl_sessions x !! i = Some (w, tag) /\ is_Some (op_resolve w)
  end.
Definition number_of x (a : asker) : option nat :=
  match a with
  | ByDatagram i => nd_tags (pl_node x) !! i
  | BySession i => pl_sessions x !! i ≫= snd
  end.

Lemma number_of_session x i t : number_of x (BySession i) = Some t -> exists w, pl_sessions x !! i = Some (w, Some t).
Proof. cbn. destruct (pl_sessions x !! i) as [[w tag]|]; [|done]. cbn. intros ->. eauto. Qed.

(** C12.  Every name is resolved once, in every interleaving in which no query
    was given an id that another query still had: each datagram and each session
    that waits for a name has a call of [async_resolve] of its own, shared with
    no other; each call that took its handler has been answered, waits, or was
    dropped by a stop of the runtime, and only one of these; and while it waits
    its timeout is running or queued.  So the handler of a datagram or session
    is called at most once, and is left without an answer only by a stop. *)
Theorem instance_resolves_once pw g id (n : @unet (base_net B)) (t : @net T) x a :
  plane_run (new_factory pw) (new_plane (new_factory pw) g id n t) true x -> asks_name x a ->
  let W := runtime_of (nd_relay (pl_node x)) in let dropped := nd_dropped (pl_node x) in
  exists tag, number_of x a = Some tag /\ (forall b, number_of x b = Some tag -> b = a) /\
    NoDup (answered W ++ dropped ++ waiting W) /\ settled W dropped tag.
Proof.
  intros Hx%plane_run_inv Ha. pose proof (pi_node _ x Hx) as Hn. cbv zeta.
  assert (exists tag, number_of x a = Some tag /\ tag ∈ nd_accepted (pl_node x) /\
    forall b, number_of x b = Some tag -> b = a) as (tag & Htag & Hacc & Huniq).
  { destruct a as [i|i]; cbn in Ha.
    - destruct (datagram_tag _ _ i Hn Ha) as (tag & Htag & Hacc). exists tag. split_and!; [done..|].
      intros [j|j] Hj; [f_equal; cbn in Hj; eapply NoDup_lookup; [apply (ni_mine _ _ Hn)|done..]|].
      apply number_of_session in Hj as [w Hw].
      destruct (so_tag _ _ _ _ (pi_session _ x Hx j w _ Hw) _ eq_refl) as [_ Hno].
      destruct Hno. by eapply list_elem_of_lookup_2.
    - destruct Ha as (w & tg & Hw & Ho). pose proof (pi_session _ x Hx i w tg Hw) as Hok.
      apply (so_waits _ _ _ _ Hok) in Ho as [tag ->]. destruct (so_tag _ _ _ _ Hok tag eq_refl) as [Hacc Hno].
      exists tag. split_and!; [cbn; by rewrite Hw|done|]. intros [j|j] Hj.
      + destruct Hno. by eapply list_elem_of_lookup_2.
      + apply number_of_session in Hj as [v Hv]. f_equal. by eapply (pi_distinct _ x Hx). }
  destruct (accepted_settled _ _ tag Hn Hacc) as [Hnd Hs]. by exists tag.
Qed.

(** C13.  A session that waits for a name connects to the address the name
    server answers: when a response that answers the session's query arrives
    at the query's pcb, the runtime posts the address under the session's
    number, and the session's handler, if the session is still open and lwIP has
    a pcb and accepts the connection, makes one pcb, registers its callbacks
    and connects it to that address and the port the client named. *)
Theorem session_connects_to_answer pw g id (n : @unet (base_net B)) (t : @net T) x i w tag port
    u q y packet ip (p : @pcb (@session_net _ T B)) t1 t2 :
  let W := runtime_of (nd_relay (pl_node x)) in
  plane_run (new_factory pw) (new_plane (new_factory pw) g id n t) true x ->
  pl_sessions x !! i = Some (w, Some tag) -> op_resolve w = Some port ->
  destroyed w = false -> closing_ (self w) = false ->
  qcallbacks W !! u = Some q -> queries W !! q = Some y -> q_handler y = tag ->
  parse_dns_response packet (q_id y) (q_qtype y) = Ret (Some ip) ->
  @tcp_new_pcb T (pl_tcp x) = (Some p, t1) -> @tcp_connect T p ip port (@tcp_callbacks T p true t1) = (ERR_OK, t2) ->
  exists W2 x2 w2 x3, dns_recv q packet W = (W2, Ret tt) /\
    posted W2 = posted W ++ [(tag, ERR_OK, Some ip)] /\
    plane_step (new_factory pw) x true x2 /\ runtime_of (nd_relay (pl_node x2)) = W2 /\
    plane_step (new_factory pw) x2 true x3 /\ pl_sessions x3 = <[i := (w2, None)]> (pl_sessions x) /\
    calls w2 = calls w ++ [TcpNew (Some p); TcpAttach p; TcpConnect p ip port ERR_OK] /\
    registered w2 = Some p.
Proof.
  intros W Hx%plane_run_inv Hw Ho Hd Hc Hcb Hy <- Hparse Hnew Hcon.
  pose proof (rr_inv _ _ _ _ (ni_resolver _ _ (pi_node _ x Hx))) as Hi. fold W in Hi.
  assert (dns_queries_ (rt W) !! q_id y = Some q) as Htab by (apply (ri_table W Hi); eauto).
  destruct (complete_present (q_id y) ERR_OK (Some ip) W q Hi Htab) as (y' & W2 & Hy' & _ & E2 & _ & _ & _ & _ & Hpo & _).
  rewrite Hy in Hy'. injection Hy' as <-.
  assert (dns_recv q packet W = (W2, Ret tt)) as Erecv.
  { unfold dns_recv, mbind, M_bind, get, lift. cbv beta iota. by rewrite Hy, Hparse. }
  set (x2 := x.[pl_node := (pl_node x).[nd_relay := set_runtime W2 (nd_relay (pl_node x))].[nd_dropped := nd_dropped (pl_node x) ++ []]]).
  destruct (answer_connects (on_plane x2 w) port ip p (t1, runtime_part x2) (t2, runtime_part x2))
    as (w2 & E & Hcalls & _ & Hreg & _); try done.
  { cbn. unfold on_tcp. cbn. by rewrite Hnew. }
  { cbn. unfold on_tcp. cbn. by rewrite Hcon. }
  exists W2, x2, w2, (put_back x2 i w2 None [] []). split_and!; try done.
  - apply ps_node, ns_runtime. by apply (re_reply W u q packet).
  - eapply (ps_resolved _ x2 i w (q_handler y) ERR_OK (Some ip)); [done| |done].
    cbn. rewrite Hpo. set_solver.
Qed.

End Spec.

(* ------------------------------------------------------------------ *)
(** ** A run on a concrete stack *)

#[local] Existing Instances toy_mbedtls toy_mbedtls_laws pton_make_address toy_print toy_print_laws
  one_server toy_address toy_address_laws.

Abbreviation ToyPlane := (@Plane _ _ _ toy_tcp toy_base).
Abbreviation toy_factory := (new_factory toy_pw).

Definition fresh_plane : ToyPlane := new_plane (T := toy_tcp) (B := toy_base) toy_factory toy_rng 1 no_pcbs (50000 : Z).
Definition listening_plane : ToyPlane :=
  let x := fresh_plane.[pl_node := configured_node] in
  x.[pl_sessions := [(@accepted _ (@session_net _ toy_tcp toy_base) toy_factory toy_rng (pl_tcp x, runtime_part x), None)]].

(** An event of a session, as a function. *)
Definition plane_event (i : nat) ev (x : ToyPlane) : ToyPlane :=
  match pl_sessions x !! i with
  | Some (w, tag) =>
      let w' := fst (deliver ev (on_plane x w)) in
      put_back x i w' (session_tag x w' tag) (session_tags x w') (session_late x w')
  | None => x
  end.
Definition plane_event_ok (i : nat) ev (x : ToyPlane) : bool :=
  match pl_sessions x !! i with
  | Some (w, _) =>
      match ev with OnResolved _ _ => false | _ => true end && enabled ev w &&
      fresh_draw (rn_world (runtime_part x)) (rn_world (lwip (fst (deliver ev (on_plane x w)))).2) &&
      is_ret_b (snd (deliver ev (on_plane x w)))
  | None => false
  end.

Lemma plane_event_run (x0 x : ToyPlane) i ev :
  plane_run toy_factory x0 true x -> plane_event_ok i ev x = true -> plane_run toy_factory x0 true (plane_event i ev x).
Proof.
  intros Hx Hok. unfold plane_event, plane_event_ok in *.
  destruct (pl_sessions x !! i) as [[w tag]|] eqn:Hw; [|done].
  rewrite !andb_true_iff in Hok. destruct Hok as [[[Hev He] Hf] Hr].
  assert (forall err ip, ev <> OnResolved err ip) as Hev' by by intros err ip ->.
  pose proof (plane_next toy_factory x0 true x _ _ Hx
    (ps_event toy_factory x i w tag ev _ Hw Hev' He (unit_eta _ Hr))) as Hs.
  rewrite Hf in Hs. exact Hs.
Qed.

Lemma listening_plane_run : plane_run toy_factory fresh_plane true listening_plane.
Proof.
  assert (node_step (pl_node fresh_plane) true configured_node) as Hs.
  { refine (ns_runtime fresh_node [] configured _).
    eapply re_quiet; [apply (quiet_apply dns_config)|]. apply surjective_pairing. }
  eapply (plane_next _ _ true _ true); [eapply (plane_next _ _ true _ true); [apply plane_init|apply (ps_node _ _ _ _ Hs)]|].
  exact (ps_accept toy_factory (fresh_plane.[pl_node := configured_node]) toy_rng).
Qed.

(** The client asks for a domain. *)
Definition waiting_plane : ToyPlane :=
  plane_event 0 (OnRead (IoOk (toy_stream [domain_wire ++ str "x"])))
    (plane_event 0 (OnSalt (IoOk toy_salt)) listening_plane).

Lemma waiting_plane_run : plane_run toy_factory fresh_plane true waiting_plane.
Proof.
  apply plane_event_run; [apply plane_event_run; [exact listening_plane_run|]|]; vm_compute; reflexivity.
Qed.

(** The session that waits, its query and the response. *)
Definition number_at (i : nat) (x : ToyPlane) : option nat := pl_sessions x !! i ≫= snd.
Definition session_at (i : nat) (x : ToyPlane) :=
  match pl_sessions x !! i with Some (w, _) => w | None => @accepted _ (@session_net _ toy_tcp toy_base) toy_factory toy_rng (pl_tcp x, runtime_part x) end.
Lemma session_at_spec i (x : ToyPlane) t :
  number_at i x = Some t -> pl_sessions x !! i = Some (session_at i x, Some t).
Proof. unfold number_at, session_at. destruct (pl_sessions x !! i) as [[w tag]|]; [|done]. cbn. by intros ->. Qed.

Abbreviation asked_runtime := (runtime_of (nd_relay (pl_node waiting_plane))).
Definition asked_query := default (mkDnsQuery (H0 := base_net toy_base) None 0 0 0 None) (queries asked_runtime !! 0%nat).
Definition domain_response : bytes :=
  be16 1 ++ be16 0x8180 ++ be16 1 ++ be16 1 ++ be16 0 ++ be16 0 ++
  question_name (str "a.example") ++ question_tail DnsTypeA ++
  [xc0; x0c] ++ be16 DnsTypeA ++ be16 DnsClassIn ++ [x00; x00; x00; x3c] ++ be16 4 ++ [xc0; x00; x02; x01].

Lemma session_number : number_at 0 waiting_plane = Some 0%nat.
Proof. vm_compute. reflexivity. Qed.
Lemma session_port : op_resolve (session_at 0 waiting_plane) = Some 80.
Proof. vm_compute. reflexivity. Qed.
Lemma session_open : destroyed (session_at 0 waiting_plane) = false /\ closing_ (self (session_at 0 waiting_plane)) = false.
Proof. split; vm_compute; reflexivity. Qed.
Lemma session_query : queries asked_runtime !! 0%nat = Some asked_query.
Proof. apply default_is_Some. vm_compute. reflexivity. Qed.
Lemma session_query_pcb : qcallbacks asked_runtime !! (1%nat : @upcb (base_net toy_base)) = Some 0%nat.
Proof. vm_compute. reflexivity. Qed.
Lemma session_handler : q_handler asked_query = 0%nat.
Proof. vm_compute. reflexivity. Qed.
Lemma session_answered : parse_dns_response domain_response (q_id asked_query) (q_qtype asked_query) = Ret (Some (IP4 0x010200c0)).
Proof. vm_compute. reflexivity. Qed.
Lemma session_pcb : @tcp_new_pcb toy_tcp (pl_tcp waiting_plane) = (Some 1%nat, 50000 : Z).
Proof. vm_compute. reflexivity. Qed.

(** The salt has arrived, the session reads. *)
Definition reading_plane : ToyPlane := plane_event 0 (OnSalt (IoOk toy_salt)) listening_plane.
Lemma reading_plane_run : plane_run toy_factory fresh_plane true reading_plane.
Proof. apply plane_event_run; [exact listening_plane_run|]; vm_compute; reflexivity. Qed.
Lemma reading_session : pl_sessions reading_plane !! 0%nat = Some (session_at 0 reading_plane, None).
Proof. unfold session_at. unfold reading_plane, plane_event. cbn. reflexivity. Qed.

Lemma instance_safe_witness :
  exists w', deliver (OnRead IoEof) (on_plane reading_plane (session_at 0 reading_plane)) = (w', Ret tt).
Proof.
  pose proof (instance_safe (T := toy_tcp) (B := toy_base) toy_pw toy_rng 1 no_pcbs (50000 : Z) reading_plane
    reading_plane_run) as Hw.
  destruct Hw as (_ & _ & _ & _ & _ & Hs).
  apply (Hs 0%nat (session_at 0 reading_plane) None (OnRead IoEof) reading_session); [vm_compute; reflexivity|].
  right. split; discriminate.
Defined.

Lemma session_connects_to_answer_witness :
  exists W2, dns_recv 0 domain_response asked_runtime = (W2, Ret tt) /\
    posted W2 = posted asked_runtime ++ [(0%nat, ERR_OK, Some (IP4 0x010200c0))].
Proof.
  pose proof (session_connects_to_answer (T := toy_tcp) (B := toy_base) toy_pw toy_rng 1 no_pcbs (50000 : Z) waiting_plane
    0 (session_at 0 waiting_plane) 0 80 (1%nat : @upcb (base_net toy_base)) 0 asked_query domain_response (IP4 0x010200c0) 1%nat
    (50000 : Z) (50000 : Z) waiting_plane_run (session_at_spec 0 waiting_plane 0 session_number) session_port
    (proj1 session_open) (proj2 session_open) session_query_pcb session_query session_handler session_answered
    session_pcb eq_refl) as Hw.
  destruct Hw as (W2 & _ & _ & _ & E & Hp & _). exists W2. split; [exact E|exact Hp].
Defined.

Lemma session_asks : asks_name waiting_plane (BySession 0).
Proof.
  exists (session_at 0 waiting_plane), (Some 0%nat).
  split; [exact (session_at_spec 0 waiting_plane 0 session_number)|rewrite session_port; eauto].
Qed.

Lemma instance_resolves_once_witness :
  exists tag, number_of waiting_plane (BySession 0) = Some tag /\
    forall b, number_of waiting_plane b = Some tag -> b = BySession 0.
Proof.
  pose proof (instance_resolves_once (T := toy_tcp) (B := toy_base) toy_pw toy_rng 1 no_pcbs (50000 : Z) waiting_plane
    (BySession 0) waiting_plane_run session_asks) as Hw.
  destruct Hw as (tag & Ht & Hu & _). exists tag. split; [exact Ht|exact Hu].
Defined.
