(* ===== verification/Sync.v ===== *)
(** * Threads and locks

    A small language for the synchronisation of code: what it accesses, which
    mutexes it holds meanwhile, which threads it starts and joins; branches
    and loops are left open.  A [lock_guard] is a scope, so the mutexes of a
    thread are the open scopes on its stack.  [SyncFacts] proves of every pool
    of threads that pass the static check of this file that no thread waits
    for ever, and that accesses kept apart do not race. *)
From S2P Require Import Prelude.

Section Sync.
Context {mutex field : Type} `{!EqDecision mutex}.

(* ------------------------------------------------------------------ *)
(** ** Code *)

(** Threads are numbered. *)
Inductive code :=
| Skip
| Access (f : field) (write : bool)
| Seq (a b : code)
| Choice (a b : code)          (* a branch, either way *)
| Star (a : code)              (* a loop, any number of times *)
| Guard (m : mutex) (a : code) (* a scope with a [lock_guard] *)
| Fork (j : nat) (a : code)    (* [a], then thread [j] is started *)
| After (j : nat) (a : code)   (* thread [j] is joined, then [a] *)
.

(** A thread is what it has still to do, the innermost scope first; one that
    is not started has [Idle] in front. *)
Inductive item :=
| Run (c : code) | Release (m : mutex) | Starts (j : nat) | Past (j : nat) | Idle.
Abbreviation thread := (list item).
Abbreviation pool := (list thread).

Definition active (t : thread) : bool :=
  match t with [] | Idle :: _ => false | _ => true end.

(** The mutexes a thread holds; the threads it is about to start; those that do
    not run while it is here, not yet or not any more. *)
Definition held (t : thread) : list mutex :=
  omap (fun i => match i with Release m => Some m | _ => None end) t.
Definition starting (t : thread) : list nat :=
  omap (fun i => match i with Starts j => Some j | _ => None end) t.
Definition past (t : thread) : list nat :=
  omap (fun i => match i with Past j => Some j | _ => None end) t.
Definition quiet (t : thread) : list nat :=
  omap (fun i => match i with Starts j | Past j => Some j | _ => None end) t.

(** [recursive m]: the mutex may be locked again by its owner. *)
Variable recursive : mutex -> bool.

(** A mutex is free for thread [i] when no other thread holds it; a
    [std::mutex] also not the thread itself. *)
Definition free_for (m : mutex) (i : nat) (p : pool) : Prop :=
  forall j t, p !! j = Some t -> m ∈ held t -> j = i /\ recursive m = true.

(** A step of a thread that does not concern the others. *)
Inductive thread_step : thread -> thread -> Prop :=
| ts_skip k : thread_step (Run Skip :: k) k
| ts_access f w k : thread_step (Run (Access f w) :: k) k
| ts_seq a b k : thread_step (Run (Seq a b) :: k) (Run a :: Run b :: k)
| ts_left a b k : thread_step (Run (Choice a b) :: k) (Run a :: k)
| ts_right a b k : thread_step (Run (Choice a b) :: k) (Run b :: k)
| ts_stop a k : thread_step (Run (Star a) :: k) k
| ts_again a k : thread_step (Run (Star a) :: k) (Run a :: Run (Star a) :: k)
| ts_no_fork j a k : thread_step (Run (Fork j a) :: k) k
| ts_release m k : thread_step (Release m :: k) k
| ts_past j k : thread_step (Past j :: k) k.

Definition started (j : nat) (p : pool) : pool :=
  match p !! j with Some (Idle :: t) => <[j := t]> p | _ => p end.

(** A thread that was not started by the time it is joined never is. *)
Inductive pool_step (p : pool) (i : nat) : pool -> Prop :=
| ps_thread t t' : p !! i = Some t -> thread_step t t' -> pool_step p i (<[i := t']> p)
| ps_lock m a k :
    p !! i = Some (Run (Guard m a) :: k) -> free_for m i p ->
    pool_step p i (<[i := Run a :: Release m :: k]> p)
| ps_fork j a k tj :
    p !! i = Some (Run (Fork j a) :: k) -> p !! j = Some (Idle :: tj) ->
    (forall i' t, p !! i' = Some t -> j ∉ starting t) ->
    pool_step p i (<[i := Run a :: Starts j :: k]> p)
| ps_start j k :
    p !! i = Some (Starts j :: k) -> pool_step p i (<[i := k]> (started j p))
| ps_join j a k tj :
    p !! i = Some (Run (After j a) :: k) -> p !! j = Some tj -> active tj = false ->
    pool_step p i (<[i := Run a :: Past j :: k]> (<[j := []]> p)).

Inductive reach (p0 : pool) : pool -> Prop :=
| reach_refl : reach p0 p0
| reach_step p i p' : reach p0 p -> pool_step p i p' -> reach p0 p'.

(** Two threads about to access the same field, one of them to write it. *)
Definition next_access (t : thread) : option (field * bool) :=
  match t with Run (Access f w) :: _ => Some (f, w) | _ => None end.
Definition race (f : field) (p : pool) : Prop :=
  exists i j ti tj wi wj, i <> j /\ p !! i = Some ti /\ p !! j = Some tj /\
    next_access ti = Some (f, wi) /\ next_access tj = Some (f, wj) /\ wi || wj = true.

(** Thread [i] waits for a mutex that thread [j] holds, or for its end. *)
Definition waits_for (p : pool) (i j : nat) : Prop :=
  (exists m a k t, p !! i = Some (Run (Guard m a) :: k) /\ p !! j = Some t /\ m ∈ held t) \/
  (exists a k t, p !! i = Some (Run (After j a) :: k) /\ p !! j = Some t /\ active t = true).
Definition can_step (p : pool) (i : nat) : Prop := exists p', pool_step p i p'.

(* ------------------------------------------------------------------ *)
(** ** The static check *)

Variable rank : mutex -> nat.

(** [m] may be locked while [h] is held: it comes behind all of them, or it is
    recursive and held already. *)
Definition may_lock (h : list mutex) (m : mutex) : bool :=
  forallb (fun m' => (rank m' <? rank m)%nat) h || recursive m && bool_decide (m ∈ h).

(** Code of thread [i] below [n]; it joins later threads, holding nothing. *)
Fixpoint ranked (n i : nat) (h : list mutex) (c : code) : bool :=
  match c with
  | Skip | Access _ _ => true
  | Seq a b | Choice a b => ranked n i h a && ranked n i h b
  | Star a => ranked n i h a
  | Guard m a => may_lock h m && ranked n i (m :: h) a
  | Fork j a => negb (i =? j)%nat && ranked n i h a
  | After j a => bool_decide (h = []) && (i <? j)%nat && (j <? n)%nat && ranked n i h a
  end.

(** The accesses of code, each with the mutexes held and the threads that do
    not run. *)
Definition access : Type := field * bool * list mutex * list nat.
Fixpoint accesses (h : list mutex) (q : list nat) (c : code) : list access :=
  match c with
  | Skip => []
  | Access f w => [(f, w, h, q)]
  | Seq a b | Choice a b => accesses h q a ++ accesses h q b
  | Star a => accesses h q a
  | Guard m a => accesses (m :: h) q a
  | Fork j a | After j a => accesses h (j :: q) a
  end.

(** Two accesses of threads [i] and [j] that cannot happen at once. *)
Definition apart (i j : nat) (x y : access) : Prop :=
  let '(_, _, h, q) := x in
  let '(_, _, h', q') := y in
  (exists m, m ∈ h /\ m ∈ h') \/ j ∈ q \/ i ∈ q'.

(** A field is kept apart in a pool of programs. *)
Definition exclusive (f : field) (cs : list code) : Prop :=
  forall i j ci cj w h q w' h' q', i <> j -> cs !! i = Some ci -> cs !! j = Some cj ->
    (f, w, h, q) ∈ accesses [] [] ci -> (f, w', h', q') ∈ accesses [] [] cj -> w || w' = true ->
    apart i j (f, w, h, q) (f, w', h', q').

(** The pool at the beginning: only the first thread runs. *)
Definition launch (cs : list code) : pool :=
  imap (fun i c => match i with O => [Run c] | _ => [Idle; Run c] end) cs.

(* ------------------------------------------------------------------ *)
(** ** Running a schedule *)

(** The step of thread [i]; [b] decides what is open: the left branch, another
    round of the loop, whether the thread is started. *)
Definition step_thread (p : pool) (i : nat) (b : bool) : option pool :=
  match p !! i with
  | Some (Run Skip :: k) | Some (Run (Access _ _) :: k)
  | Some (Release _ :: k) | Some (Past _ :: k) => Some (<[i := k]> p)
  | Some (Run (Seq x y) :: k) => Some (<[i := Run x :: Run y :: k]> p)
  | Some (Run (Choice x y) :: k) => Some (<[i := Run (if b then x else y) :: k]> p)
  | Some (Run (Star x) :: k) => Some (<[i := if b then Run x :: Run (Star x) :: k else k]> p)
  | Some (Run (Guard m x) :: k) =>
      if forallb (fun t => negb (bool_decide (m ∈ held t))) (<[i := []]> p)
         && (recursive m || negb (bool_decide (m ∈ held k)))
      then Some (<[i := Run x :: Release m :: k]> p) else None
  | Some (Run (Fork j x) :: k) =>
      if b then
        match p !! j with
        | Some (Idle :: _) =>
            if forallb (fun t => negb (bool_decide (j ∈ starting t))) p
            then Some (<[i := Run x :: Starts j :: k]> p) else None
        | _ => None
        end
      else Some (<[i := k]> p)
  | Some (Run (After j x) :: k) =>
      match p !! j with
      | Some tj => if active tj then None else Some (<[i := Run x :: Past j :: k]> (<[j := []]> p))
      | None => None
      end
  | Some (Starts j :: k) => Some (<[i := k]> (started j p))
  | _ => None
  end.

Fixpoint steps (p : pool) (i : nat) (bs : list bool) : option pool :=
  match bs with [] => Some p | b :: bs => p' ← step_thread p i b; steps p' i bs end.

(** The decisions that pass code by the shortest way, starting threads; those
    that lead to the first access with [P]. *)
Fixpoint pass (c : code) : list bool :=
  match c with
  | Skip | Access _ _ => [true]
  | Seq a b => true :: pass a ++ pass b
  | Choice _ b => false :: pass b
  | Star _ => [false]
  | Guard _ a | Fork _ a | After _ a => true :: pass a ++ [true]
  end.
Definition pass_item (x : item) : list bool := match x with Run c => pass c | _ => [true] end.

Fixpoint route (P : field -> bool -> bool) (c : code) : option (list bool) :=
  match c with
  | Skip => None
  | Access f w => if P f w then Some [] else None
  | Seq a b =>
      match route P a with
      | Some bs => Some (true :: bs)
      | None => bs ← route P b; Some (true :: pass a ++ bs)
      end
  | Choice a b =>
      match route P a with
      | Some bs => Some (true :: bs)
      | None => bs ← route P b; Some (false :: bs)
      end
  | Star a | Guard _ a | Fork _ a | After _ a => bs ← route P a; Some (true :: bs)
  end.
Fixpoint route_thread (P : field -> bool -> bool) (t : thread) : option (list bool) :=
  match t with
  | [] => None
  | x :: k =>
      match (match x with Run c => route P c | _ => None end) with
      | Some bs => Some bs
      | None => bs ← route_thread P k; Some (pass_item x ++ bs)
      end
  end.

(** A stretch of a schedule: thread [i] passes the first [n] items of its
    stack, or goes on to its next access of a field. *)
Inductive stretch := Passes (i n : nat) | Reaches (i : nat) (f : field) (w : bool).

Definition run_stretch `{!EqDecision field} (p : pool) (s : stretch) : option pool :=
  match s with
  | Passes i n => t ← p !! i; steps p i (flat_map pass_item (take n t))
  | Reaches i f w =>
      t ← p !! i;
      bs ← route_thread (fun f' w' => bool_decide (f' = f) && Bool.eqb w' w) t;
      steps p i bs
  end.
Fixpoint run_schedule `{!EqDecision field} (p : pool) (l : list stretch) : option pool :=
  match l with [] => Some p | s :: l => p' ← run_stretch p s; run_schedule p' l end.

End Sync.

#[global] Arguments code : clear implicits.
#[global] Arguments item : clear implicits.
