(* ===== verification/SyncFacts.v ===== *)
(** * Threads and locks: soundness of the check

    The invariant of a checked pool; from it, that every thread that waits
    waits for one that can go on, and that exclusive fields are not raced
    for. *)
From S2P Require Import Prelude Sync.

Section Facts.
Context {mutex field : Type} `{!EqDecision mutex}.
Variable (recursive : mutex -> bool) (rank : mutex -> nat) (top n : nat).
Hypothesis rank_top : forall m, (rank m <= top)%nat.
Variable A : nat -> list (@access mutex field).

Abbreviation thread := (list (item mutex field)).
Abbreviation pool := (list thread).
Abbreviation pool_step := (pool_step recursive).
Implicit Types (t k : thread) (p : pool) (c : code mutex field) (m : mutex) (i j : nat).

(* ------------------------------------------------------------------ *)
(** ** The invariant *)

(** Everything on the stack of thread [i] is checked under what it holds. *)
Fixpoint wf (i : nat) (t : thread) : Prop :=
  match t with
  | [] => True
  | Run c :: k =>
      ranked recursive rank n i (held k) c = true /\
      (forall x, x ∈ accesses (held k) (quiet k) c -> x ∈ A i) /\ wf i k
  | Idle :: k => held k = [] /\ wf i k
  | _ :: k => wf i k
  end.

Record ok (p : pool) : Prop := {
  ok_length : length p = n;
  ok_wf i t : p !! i = Some t -> wf i t;
  ok_mutex i j ti tj m : i <> j -> p !! i = Some ti -> p !! j = Some tj -> m ∈ held ti -> m ∉ held tj;
  ok_quiet i j ti tj : p !! i = Some ti -> p !! j = Some tj -> j ∈ quiet ti -> active tj = false;
  ok_past i j ti tj : p !! i = Some ti -> p !! j = Some tj -> j ∈ past ti -> tj = [];
  ok_starting i t : p !! i = Some t -> NoDup (starting t);
  ok_one_start i i' j t t' : i <> i' -> p !! i = Some t -> p !! i' = Some t' ->
    j ∈ starting t -> j ∉ starting t'
}.

Lemma quiet_elem j t : j ∈ quiet t <-> j ∈ starting t \/ j ∈ past t.
Proof.
  unfold quiet, starting, past. induction t as [|x t IH]; cbn; [set_solver|].
  destruct x; rewrite ?elem_of_cons, IH; tauto.
Qed.

(** A step that only unfolds code: scopes stay or end. *)
Lemma thread_step_wf i t t' : thread_step t t' -> wf i t -> wf i t'.
Proof.
  destruct 1; cbn; try tauto.
  - rewrite andb_true_iff. intros ([? ?] & Ha & ?). split_and!; try done; intros x Hx; apply Ha; set_solver.
  - rewrite andb_true_iff. intros ([? ?] & Ha & ?). split_and!; try done; intros x Hx; apply Ha; set_solver.
  - rewrite andb_true_iff. intros ([? ?] & Ha & ?). split_and!; try done; intros x Hx; apply Ha; set_solver.
Qed.

Lemma thread_step_sub t t' :
  thread_step t t' -> held t' ⊆ held t /\ quiet t' ⊆ quiet t /\ past t' ⊆ past t /\
    starting t' = starting t /\ active t = true.
Proof. destruct 1; cbn; set_solver. Qed.

(** Nobody counts on an active thread not to run. *)
Lemma active_not_quiet p i j ti tj :
  ok p -> p !! i = Some ti -> p !! j = Some tj -> active tj = true -> j ∉ quiet ti.
Proof. intros Hok Hi Hj Ha Hq. by rewrite (ok_quiet p Hok i j ti tj) in Ha. Qed.

Lemma past_quiet j t : j ∈ past t -> j ∈ quiet t.
Proof. rewrite quiet_elem. auto. Qed.
Lemma starting_quiet j t : j ∈ starting t -> j ∈ quiet t.
Proof. rewrite quiet_elem. auto. Qed.

(** Lookups after one thread changed. *)
#[local] Ltac cases H :=
  apply list_lookup_insert_Some in H as [(<- & <- & _)|[? H]].

Lemma ok_set p i t t' :
  ok p -> p !! i = Some t -> active t = true -> wf i t' ->
  (forall m, m ∈ held t' -> m ∈ held t \/ forall j tj, j <> i -> p !! j = Some tj -> m ∉ held tj) ->
  (forall j, j ∈ starting t' -> j ∈ starting t \/
     (j <> i /\ exists tj, p !! j = Some (Idle :: tj)) /\ forall i' t0, p !! i' = Some t0 -> j ∉ starting t0) ->
  NoDup (starting t') ->
  (forall j, j ∈ past t' -> j ∈ past t \/ j <> i /\ p !! j = Some []) ->
  ok (<[i := t']> p).
Proof.
  intros Hok Hi Ha Hwf Hheld Hstart Hnd Hpast.
  assert (forall j tj, p !! j = Some tj -> i ∉ quiet tj) as Hni by (intros; by eapply active_not_quiet).
  assert (forall j tj, j ∈ quiet t' -> p !! j = Some tj -> j <> i /\ active tj = false) as Hq'.
  { intros j tj [Hj|Hj]%quiet_elem Htj.
    - destruct (Hstart j Hj) as [Hj'|[[? [tj' E]] _]]; [|split; [done|by simplify_eq]].
      split; [intros ->; by apply (Hni i t Hi), starting_quiet|].
      by eapply (ok_quiet p Hok i j t tj), starting_quiet.
    - destruct (Hpast j Hj) as [Hj'|[? E]]; [|split; [done|by simplify_eq]].
      split; [intros ->; by apply (Hni i t Hi), past_quiet|].
      by eapply (ok_quiet p Hok i j t tj), past_quiet. }
  constructor.
  - by rewrite length_insert, (ok_length p Hok).
  - intros i0 t0 H0. cases H0; [done|]. by eapply ok_wf.
  - intros i0 j0 ti tj m Hne H0 H1 Hm Hm'. cases H0; cases H1; try done.
    + destruct (Hheld m Hm) as [Hm0|Hm0]; [by eapply (ok_mutex p Hok i j0)|by eapply Hm0].
    + destruct (Hheld m Hm') as [Hm0|Hm0]; [by eapply (ok_mutex p Hok i0 i)|by eapply (Hm0 i0)].
    + by eapply (ok_mutex p Hok i0 j0).
  - intros i0 j0 ti tj H0 H1 Hq. cases H0; cases H1.
    + by destruct (Hq' i t Hq Hi).
    + by eapply Hq'.
    + by apply (Hni i0 ti H0) in Hq.
    + by eapply (ok_quiet p Hok i0 j0).
  - intros i0 j0 ti tj H0 H1 Hq. cases H0; cases H1.
    + by destruct (Hq' i t (past_quiet _ _ Hq) Hi).
    + destruct (Hpast j0 Hq) as [Hq0|[_ E]]; [by eapply (ok_past p Hok i j0)|congruence].
    + by apply past_quiet, (Hni i0 ti H0) in Hq.
    + by eapply (ok_past p Hok i0 j0).
  - intros i0 t0 H0. cases H0; [done|]. by eapply ok_starting.
  - intros i0 i1 j0 t0 t1 Hne H0 H1 Hs Hs'. cases H0; cases H1; try done.
    + destruct (Hstart j0 Hs) as [Hs0|[_ Hs0]]; [by eapply (ok_one_start p Hok i i1)|by eapply Hs0].
    + destruct (Hstart j0 Hs') as [Hs0|[_ Hs0]]; [by eapply (ok_one_start p Hok i0 i)|by eapply Hs0].
    + by eapply (ok_one_start p Hok i0 i1).
Qed.

(** A thread that is not running becomes empty. *)
Lemma ok_kill p j t : ok p -> p !! j = Some t -> active t = false -> ok (<[j := []]> p).
Proof.
  intros Hok Hj Ha. constructor.
  - by rewrite length_insert, (ok_length p Hok).
  - intros i0 t0 H0. cases H0; [done|]. by eapply ok_wf.
  - intros i0 j0 ti tj m Hne H0 H1 Hm Hm'. cases H0; cases H1; try (done || set_solver).
    by eapply (ok_mutex p Hok i0 j0).
  - intros i0 j0 ti tj H0 H1 Hq. cases H0; cases H1; try (done || set_solver). by eapply (ok_quiet p Hok i0 j0).
  - intros i0 j0 ti tj H0 H1 Hq. cases H0; cases H1; try (done || set_solver). by eapply (ok_past p Hok i0 j0).
  - intros i0 t0 H0. cases H0; [constructor|]. by eapply ok_starting.
  - intros i0 i1 j0 t0 t1 Hne H0 H1 Hs Hs'. cases H0; cases H1; try (done || set_solver).
    by eapply (ok_one_start p Hok i0 i1).
Qed.

(** A thread that nobody is about to start any more begins. *)
Lemma ok_started p j : ok p -> (forall i t, p !! i = Some t -> j ∉ starting t) -> ok (started j p).
Proof.
  intros Hok Hs. unfold started. destruct (p !! j) as [[|[| | | |] t]|] eqn:Hj; try done.
  assert (forall i ti, p !! i = Some ti -> j ∉ quiet ti) as Hq.
  { intros i ti Hi [Hq|Hq]%quiet_elem; [by eapply Hs|]. by pose proof (ok_past p Hok i j ti _ Hi Hj Hq). }
  pose proof (ok_wf p Hok j _ Hj) as Hwf.
  assert (forall i ti m, i <> j -> p !! i = Some ti -> m ∈ held ti -> m ∉ held t) as Hm.
  { intros i ti m Hne Hi Hmi. exact (ok_mutex p Hok i j ti _ m Hne Hi Hj Hmi). }
  constructor.
  - by rewrite length_insert, (ok_length p Hok).
  - intros i0 t0 H0. cases H0; [by destruct Hwf|]. by eapply ok_wf.
  - intros i0 j0 ti tj m Hne H0 H1 Hmi Hmj. cases H0; cases H1; try done.
    + by eapply (Hm j0).
    + by eapply (Hm i0).
    + by eapply (ok_mutex p Hok i0 j0).
  - intros i0 j0 ti tj H0 H1 Hi. cases H1.
    + cases H0; [by destruct (Hq j (Idle :: t) Hj)|by destruct (Hq i0 ti H0)].
    + cases H0; [by eapply (ok_quiet p Hok j j0)|by eapply (ok_quiet p Hok i0 j0)].
  - intros i0 j0 ti tj H0 H1 Hi. cases H1.
    + apply past_quiet in Hi. cases H0; [by destruct (Hq j (Idle :: t) Hj)|by destruct (Hq i0 ti H0)].
    + cases H0; [by eapply (ok_past p Hok j j0)|by eapply (ok_past p Hok i0 j0)].
  - intros i0 t0 H0. cases H0; [exact (ok_starting p Hok j _ Hj)|by eapply ok_starting].
  - intros i0 i1 j0 t0 t1 Hne H0 H1 H2 H3. cases H0; cases H1; try done.
    + by eapply (ok_one_start p Hok j i1).
    + by eapply (ok_one_start p Hok i0 j).
    + by eapply (ok_one_start p Hok i0 i1).
Qed.

Lemma started_insert i j k p : i <> j -> <[i := k]> (started j p) = started j (<[i := k]> p).
Proof.
  intros Hne. unfold started. rewrite list_lookup_insert_ne by done.
  destruct (p !! j) as [[|[| | | |] t]|]; try done. by apply list_insert_insert_ne.
Qed.

Lemma ok_step p i p' : ok p -> pool_step p i p' -> ok p'.
Proof.
  intros Hok Hst. destruct Hst as [t t' Hi Ht|m a k Hi Hf|j a k tj Hi Hj Hf|j k Hi|j a k tj Hi Hj Ha].
  - destruct (thread_step_sub t t' Ht) as (Hh & _ & Hp & Hs & Ha). eapply ok_set; try done.
    + eapply thread_step_wf; [done|by eapply ok_wf].
    + intros m Hm. left. by apply Hh.
    + intros j. rewrite Hs. by left.
    + rewrite Hs. by eapply ok_starting.
    + intros j Hj. left. by apply Hp.
  - pose proof (ok_wf p Hok i _ Hi) as (Hr & Hacc & Hk). cbn in Hr. apply andb_true_iff in Hr as [_ Hr].
    eapply ok_set; try done; cbn; [|by left|exact (ok_starting p Hok i _ Hi)|by left].
    intros m' [->|?]%elem_of_cons; [right|by left]. intros j tj Hne Hj Hm. by destruct (Hf j tj Hj Hm).
  - pose proof (ok_wf p Hok i _ Hi) as (Hr & Hacc & Hk). cbn in Hr. apply andb_true_iff in Hr as [Hne Hr].
    apply negb_true_iff, Nat.eqb_neq in Hne.
    eapply ok_set; try done; cbn; [by left| | |by left].
    + intros j' [->|?]%elem_of_cons; [right|by left]. split; [|done]. split; [done|by exists tj].
    + constructor; [exact (Hf i _ Hi)|exact (ok_starting p Hok i _ Hi)].
  - assert (i <> j) as Hne.
    { intros <-. apply (active_not_quiet p i i _ _ Hok Hi Hi eq_refl). cbn. set_solver. }
    pose proof (ok_starting p Hok i _ Hi) as Hnd. cbn in Hnd. apply NoDup_cons in Hnd as [Hj Hnd].
    rewrite started_insert by done. apply ok_started.
    + eapply ok_set; try done; [exact (ok_wf p Hok i _ Hi)|by left| |by left].
      cbn. intros j' Hj'. left. set_solver.
    + intros i' t H0. cases H0; [done|]. eapply (ok_one_start p Hok i i'); try done. cbn. set_solver.
  - pose proof (ok_wf p Hok i _ Hi) as (Hr & Hacc & Hk). cbn in Hr.
    apply andb_true_iff in Hr as [[[_ Hlt]%andb_true_iff _]%andb_true_iff Hr]. apply Nat.ltb_lt in Hlt.
    assert (j < length p)%nat as Hl by by eapply lookup_lt_Some.
    eapply (ok_set (<[j := []]> p) i); try done.
    + by eapply ok_kill.
    + rewrite list_lookup_insert_ne by lia. exact Hi.
    + done.
    + by left.
    + by left.
    + exact (ok_starting p Hok i _ Hi).
    + cbn. intros j' [->|?]%elem_of_cons; [right|by left]. split; [lia|]. by rewrite list_lookup_insert_eq.
Qed.

(* ------------------------------------------------------------------ *)
(** ** Progress *)

#[local] Instance free_for_dec m i p : Decision (free_for recursive m i p).
Proof.
  refine (cast_if (decide (Forall (fun x => m ∈ held x.2 -> x.1 = i /\ recursive m = true) (imap pair p)))).
  - intros j t Hj Hm. rewrite Forall_forall in f.
    apply (f (j, t)); [|done]. apply elem_of_lookup_imap. by exists j, t.
  - intros Hf. apply n0. apply Forall_forall. intros [j t] (j' & t' & [= -> ->] & Hj)%elem_of_lookup_imap Hm.
    by eapply Hf.
Defined.

(** The thread that has the mutex. *)
Lemma not_free p m i :
  ~ free_for recursive m i p -> exists j t, p !! j = Some t /\ m ∈ held t /\ ~ (j = i /\ recursive m = true).
Proof.
  intros Hn. destruct (decide (Exists (fun x => m ∈ held x.2 /\ ~ (x.1 = i /\ recursive m = true)) (imap pair p))) as [He|He].
  - apply Exists_exists in He as ([j t] & (j' & t' & [= -> ->] & Hj)%elem_of_lookup_imap & Hm & Hx). by exists j', t'.
  - destruct Hn. intros j t Hj Hm. destruct (decide (j = i /\ recursive m = true)) as [|Hx]; [done|].
    destruct He. apply Exists_exists. exists (j, t). split; [|done]. apply elem_of_lookup_imap. by exists j, t.
Qed.

Lemma holder_active p j t m : ok p -> p !! j = Some t -> m ∈ held t -> active t = true.
Proof.
  intros Hok Hj Hm. pose proof (ok_wf p Hok j t Hj) as Hwf. destruct t as [|[] t]; try done.
  - by apply elem_of_nil in Hm.
  - destruct Hwf as [Hh _]. cbn in Hm. unfold held in Hh. rewrite Hh in Hm. by apply elem_of_nil in Hm.
Qed.

(** An active thread can go on, or waits for a mutex, or for another thread. *)
Lemma progress p i t :
  ok p -> p !! i = Some t -> active t = true ->
  can_step recursive p i \/
  (exists m a k, t = Run (Guard m a) :: k /\ may_lock recursive rank (held k) m = true /\ ~ free_for recursive m i p) \/
  (exists j a k tj, t = Run (After j a) :: k /\ held k = [] /\ (i < j < n)%nat /\ p !! j = Some tj /\ active tj = true).
Proof.
  intros Hok Hi Ha. pose proof (ok_wf p Hok i t Hi) as Hwf.
  destruct t as [|[[|f w|a b|a b|a|m a|j a|j a]|m|j|j|] k]; try done;
    try (left; eexists; eapply ps_thread; [done|by constructor]).
  - destruct (decide (free_for recursive m i p)); [left; eexists; by eapply ps_lock|].
    destruct Hwf as [Hr _]. cbn in Hr. apply andb_true_iff in Hr as [Hr _]. right; left. by exists m, a, k.
  - destruct Hwf as [Hr _]. cbn in Hr.
    apply andb_true_iff in Hr as [[[Hh%bool_decide_eq_true Hlt%Nat.ltb_lt]%andb_true_iff Hn%Nat.ltb_lt]%andb_true_iff _].
    destruct (lookup_lt_is_Some_2 p j) as [tj Hj]; [by rewrite (ok_length p Hok)|].
    destruct (active tj) eqn:Ea; [|left; eexists; by eapply ps_join].
    right; right. by exists j, a, k, tj.
  - left. eexists. by eapply ps_start.
Qed.

(** Along mutexes the ranks grow, so the chain ends at a thread that goes on. *)
Lemma lock_chain d p i m a k :
  ok p -> p !! i = Some (Run (Guard m a) :: k) -> may_lock recursive rank (held k) m = true ->
  ~ free_for recursive m i p -> (top - rank m <= d)%nat ->
  exists j, rtc (waits_for p) i j /\ can_step recursive p j.
Proof.
  revert i m a k. induction d as [|d IH]; intros i m a k Hok Hi Hml Hf Hd;
    destruct (not_free p m i Hf) as (j & t & Hj & Hm & Hne);
    pose proof (holder_active p j t m Hok Hj Hm) as Ha;
    (assert (waits_for p i j) as Hw by (left; by exists m, a, k, t));
    (destruct (progress p j t Hok Hj Ha) as [Hs|[(m' & a' & k' & -> & Hml' & Hf')|(j' & a' & k' & tj & -> & Hh & _)]];
     [by exists j; split; [apply rtc_once|]| |by cbn in Hm; unfold held in Hh; rewrite Hh in Hm; apply elem_of_nil in Hm]);
    (assert (rank m < rank m')%nat as Hlt; [|pose proof (rank_top m')]).
  1,3: apply orb_true_iff in Hml' as [Hr|[Hr Hin]%andb_true_iff];
    [rewrite forallb_forall in Hr; apply Nat.ltb_lt, Hr; by apply list_elem_of_In|];
    exfalso; apply bool_decide_eq_true in Hin;
    destruct (not_free p m' j Hf') as (j' & t' & Hj' & Hm' & Hne');
    destruct (decide (j' = j)) as [->|Hd']; [tauto|]; by eapply (ok_mutex p Hok j j').
  - lia.
  - destruct (IH j m' a' k') as (j' & Hr & Hs); try done; [lia|].
    exists j'. split; [by eapply rtc_l|done].
Qed.

Lemma join_chain d p i t :
  ok p -> p !! i = Some t -> active t = true -> (n - i <= d)%nat ->
  exists j, rtc (waits_for p) i j /\ can_step recursive p j.
Proof.
  revert i t. induction d as [|d IH]; intros i t Hok Hi Ha Hd;
    (destruct (progress p i t Hok Hi Ha) as [Hs|[(m & a & k & -> & Hml & Hf)|(j & a & k & tj & -> & Hh & Hij & Hj & Haj)]];
     [by exists i| |]).
  - by eapply lock_chain.
  - lia.
  - by eapply lock_chain.
  - destruct (IH j tj) as (j' & Hr & Hs); try done; [lia|]. exists j'. split; [|done].
    eapply rtc_l; [|done]. right. by exists a, k, tj.
Qed.

Lemma ok_progress p i t :
  ok p -> p !! i = Some t -> active t = true -> exists j, rtc (waits_for p) i j /\ can_step recursive p j.
Proof. intros Hok Hi Ha. by eapply join_chain. Qed.

(** Accesses on top of two stacks that are apart. *)
Lemma ok_no_race p f :
  ok p ->
  (forall i j w h q w' h' q', i <> j -> (f, w, h, q) ∈ A i -> (f, w', h', q') ∈ A j -> w || w' = true ->
     apart i j (f, w, h, q) (f, w', h', q')) ->
  ~ race f p.
Proof.
  intros Hok Hx (i & j & ti & tj & wi & wj & Hne & Hi & Hj & Hni & Hnj & Hw).
  destruct ti as [|[[| | | | | | |]| | | |] ki]; try done. injection Hni as -> ->.
  destruct tj as [|[[| | | | | | |]| | | |] kj]; try done. injection Hnj as -> ->.
  pose proof (ok_wf p Hok i _ Hi) as (_ & Hai & _). pose proof (ok_wf p Hok j _ Hj) as (_ & Haj & _).
  specialize (Hai _ (list_elem_of_here _ _)). specialize (Haj _ (list_elem_of_here _ _)).
  destruct (Hx i j _ _ _ _ _ _ Hne Hai Haj Hw) as [(m & Hm & Hm')|[Hq|Hq]].
  - by eapply (ok_mutex p Hok i j _ _ m Hne Hi Hj).
  - by eapply (active_not_quiet p i j _ _ Hok Hi Hj).
  - by eapply (active_not_quiet p j i _ _ Hok Hj Hi).
Qed.

End Facts.

(* ------------------------------------------------------------------ *)
(** ** Checked programs *)

Section Checked.
Context {mutex field : Type} `{!EqDecision mutex}.
Variable (recursive : mutex -> bool) (rank : mutex -> nat) (top : nat).
Hypothesis rank_top : forall m, (rank m <= top)%nat.
Variable cs : list (code mutex field).
Hypothesis checked : forall i c, cs !! i = Some c -> ranked recursive rank (length cs) i [] c = true.

Definition accesses_of (i : nat) : list (@access mutex field) :=
  match cs !! i with Some c => accesses [] [] c | None => [] end.

Lemma launch_lookup i t :
  launch cs !! i = Some t ->
  exists c, cs !! i = Some c /\ (t = [Run c] \/ t = [Idle; Run c]).
Proof.
  unfold launch. rewrite list_lookup_imap. intros (c & Hc & ->)%fmap_Some.
  exists c. split; [done|]. destruct i; auto.
Qed.

Lemma launch_ok : ok recursive rank (length cs) accesses_of (launch cs).
Proof.
  constructor.
  - apply length_imap.
  - intros i t Hi. destruct (launch_lookup i t Hi) as (c & Hc & Ht).
    assert (wf recursive rank (length cs) accesses_of i [Run c]) as Hw.
    { cbn. split_and!; [by apply checked|by unfold accesses_of; rewrite Hc|done]. }
    by destruct Ht as [-> | ->].
  - intros i j ti tj m _ Hi _ Hm. destruct (launch_lookup i ti Hi) as (c & _ & [-> | ->]); by apply elem_of_nil in Hm.
  - intros i j ti tj Hi _ Hm. destruct (launch_lookup i ti Hi) as (c & _ & [-> | ->]); by apply elem_of_nil in Hm.
  - intros i j ti tj Hi _ Hm. destruct (launch_lookup i ti Hi) as (c & _ & [-> | ->]); by apply elem_of_nil in Hm.
  - intros i t Hi. destruct (launch_lookup i t Hi) as (c & _ & [-> | ->]); constructor.
  - intros i i' j t t' _ Hi _ Hm. destruct (launch_lookup i t Hi) as (c & _ & [-> | ->]); by apply elem_of_nil in Hm.
Qed.

Lemma reach_ok p : reach recursive (launch cs) p -> ok recursive rank (length cs) accesses_of p.
Proof. induction 1 as [|p i p' _ IH Hs]; [apply launch_ok|]. by eapply ok_step. Qed.

(** Every thread that has begun and has not ended can go on, or waits, perhaps
    through others, for one that can. *)
Lemma checked_progress p i t :
  reach recursive (launch cs) p -> p !! i = Some t -> active t = true ->
  exists j, rtc (waits_for p) i j /\ can_step recursive p j.
Proof. intros Hr. eapply ok_progress; [done|by apply reach_ok]. Qed.

Lemma checked_no_race f p : exclusive f cs -> reach recursive (launch cs) p -> ~ race f p.
Proof.
  intros Hx Hr. eapply ok_no_race; [by apply reach_ok|]. intros i j w h q w' h' q' Hne Hi Hj Hw.
  unfold accesses_of in Hi, Hj.
  destruct (cs !! i) as [ci|] eqn:Ei; [|by apply elem_of_nil in Hi].
  destruct (cs !! j) as [cj|] eqn:Ej; [|by apply elem_of_nil in Hj]. by eapply Hx.
Qed.

End Checked.

(* ------------------------------------------------------------------ *)
(** ** Schedules are executions *)

Section Schedules.
Context {mutex field : Type} `{!EqDecision mutex, !EqDecision field}.
Variable (recursive : mutex -> bool).
Abbreviation pool := (list (list (item mutex field))).
Implicit Types (p : pool).

Lemma step_thread_sound p i b p' : step_thread recursive p i b = Some p' -> pool_step recursive p i p'.
Proof.
  unfold step_thread. intros Hs. destruct (p !! i) as [[|[c|m|j|j|] k]|] eqn:Hi; simplify_eq.
  - destruct c; simplify_eq; try (by eapply ps_thread; [done|constructor]).
    + destruct b; (eapply ps_thread; [done|constructor]).
    + destruct b; (eapply ps_thread; [done|constructor]).
    + destruct (forallb _ _) eqn:Hf, (recursive m || _) eqn:Hr; cbn in Hs; simplify_eq.
      apply ps_lock; [done|]. intros j t Hj Hm. rewrite forallb_forall in Hf.
      destruct (decide (j = i)) as [->|Hne].
      * rewrite Hj in Hi. injection Hi as ->. split; [done|]. cbn in Hm.
        apply orb_true_iff in Hr as [?|Hr]; [done|]. by apply negb_true_iff, bool_decide_eq_false in Hr.
      * assert (In t (<[i := []]> p)) as Hin.
        { apply list_elem_of_In, list_elem_of_lookup. exists j. by rewrite list_lookup_insert_ne. }
        by apply Hf, negb_true_iff, bool_decide_eq_false in Hin.
    + destruct b; simplify_eq; [|eapply ps_thread; [done|constructor]].
      destruct (p !! j) as [[|[| | | |] tj]|] eqn:Hj; try done. case_match eqn:Hf; simplify_eq.
      eapply ps_fork; [done..|]. intros i' t Ht. rewrite forallb_forall in Hf.
      apply (bool_decide_eq_false (j ∈ starting t)), negb_true_iff, Hf, list_elem_of_In. by eapply list_elem_of_lookup_2.
    + destruct (p !! j) as [tj|] eqn:Hj; [|done]. destruct (active tj) eqn:Ha; simplify_eq.
      by eapply ps_join.
  - eapply ps_thread; [done|constructor].
  - by apply ps_start.
  - eapply ps_thread; [done|constructor].
Qed.

Lemma steps_sound bs p0 p i p' :
  reach recursive p0 p -> steps recursive p i bs = Some p' -> reach recursive p0 p'.
Proof.
  revert p. induction bs as [|b bs IH]; cbn; intros p Hr Hs; simplify_eq; [done|].
  apply bind_Some in Hs as (p1 & H1 & Hs). eapply IH; [|done].
  eapply reach_step; [done|]. by eapply step_thread_sound.
Qed.

Lemma run_schedule_sound l p0 p p' :
  reach recursive p0 p -> run_schedule recursive p l = Some p' -> reach recursive p0 p'.
Proof.
  revert p. induction l as [|s l IH]; cbn; intros p Hr Hs; simplify_eq; [done|].
  apply bind_Some in Hs as (p1 & H1 & Hs). eapply IH; [|done].
  destruct s; cbn in H1; apply bind_Some in H1 as (t & _ & H1).
  - by eapply steps_sound.
  - apply bind_Some in H1 as (bs & _ & H1). by eapply steps_sound.
Qed.

End Schedules.
