(* ===== verification/Locking.v ===== *)
(** * The program's threads and locks

    For each function of the program that locks, is run by more than one
    thread or works on what another thread uses: its synchronisation, as code
    of [Sync].  Calls are the callee's code, so a definition holds everything
    that happens until it returns; what is posted or awaited runs in an event
    of the thread that runs the loop.  Conditions are open branches.  Objects
    are tracked by field, the TCP and UDP sessions of an instance as one;
    atomics and asio's loops synchronise themselves and are left out.  So is
    the initialisation of objects, which no other thread knows yet, and what
    is destroyed when the threads of the instance have ended.

    Thread 0 is [main]; instance [k] has the thread of its event loop and the
    one that connects.  lwIP is one stack for all instances: its timers, run
    by any loop, reach the sessions of every instance, as does a change of an
    address; a packet reaches the pcbs bound to its interface.  openvpn3 calls the client on the connecting
    thread only, holding no lock of the program. *)
From S2P Require Import Prelude Sync.

Definition io_tid (k : nat) : nat := 2 * k + 1.
Definition vpn_tid (k : nat) : nat := 2 * k + 2.

(** The mutexes: [global_mutex()], [impl_mutex_], [CoreClient::mutex] and
    [handler_mutex_]. *)
Inductive mutex := GlobalMutex | ImplMutex (k : nat) | CoreMutex (k : nat) | HandlerMutex (k : nat).
#[global] Instance mutex_eq_dec : EqDecision mutex.
Proof. solve_decision. Defined.

(** [global_mutex()] is a [std::recursive_mutex], the others are not. *)
Definition recursive (m : mutex) : bool := match m with GlobalMutex => true | _ => false end.

Inductive field :=
| Stack                         (* lwIP, with all its pcbs and interfaces *)
| Netif (k : nat) | ActiveConfig (k : nat) | PacketOutput (k : nat) | DnsQueries (k : nat)
| LifetimeToken (k : nat)       (* the [shared_ptr] *)
| TokenFlag (k : nat)           (* the [bool] it points to *)
| LwipRunning (k : nat) | LwipTimer (k : nat)
| Pending (k : nat)
| ImplPtr (k : nat) | VpnThread (k : nat) | ReadyHandler (k : nat) | DisconnectHandler (k : nat)
| MemoryTun (k : nat) | Connected (k : nat)
| Sessions (k : nat)            (* the relay sessions *)
| Listener (k : nat).           (* the inbound *)

#[global] Instance field_eq_dec : EqDecision field.
Proof. solve_decision. Defined.

Abbreviation code := (Sync.code mutex field).
Declare Scope sync_scope.
Delimit Scope sync_scope with sync.
#[local] Open Scope sync_scope.
Notation "a ;; b" := (Seq a b) : sync_scope.
Definition rd (f : field) : code := Access f false.
Definition wr (f : field) : code := Access f true.
Definition maybe (a : code) : code := Choice a Skip.
Definition one_of (l : list code) : code := foldr Choice Skip l.

(** [auto stack = acquire_stack()]: a [StackUse] to the end of the scope. *)
Definition stack_use (scope : code) : code := Guard GlobalMutex scope.
Definition acquire_stack (scope : code) : code := stack_use scope.

(* ------------------------------------------------------------------ *)
(** ** From lwIP to OpenVPN *)

Section Instance.
Variable (k : nat).

Definition tun_inject_sync : code := rd (Connected k).
Definition core_inject_sync : code :=
  Guard (CoreMutex k) (rd (MemoryTun k));; maybe tun_inject_sync.
Definition send_l3_packet_sync : code :=
  maybe (Guard (ImplMutex k) (rd (ImplPtr k);; maybe core_inject_sync)).
Definition emit_packet_sync : code :=
  acquire_stack (rd (PacketOutput k);; maybe send_l3_packet_sync).

(** A call of lwIP for a pcb of the instance, which may send packets. *)
Definition lwip_call : code := wr Stack;; Star emit_packet_sync.

(* ------------------------------------------------------------------ *)
(** ** The end of a TCP connection *)

Definition detach_pcb_callbacks_sync : code := rd (Sessions k);; maybe (wr Stack).
Definition tcp_dtor_sync : code :=
  rd (Sessions k);;
  maybe (acquire_stack (detach_pcb_callbacks_sync;; lwip_call;; wr (Sessions k))).
(** The session may be destroyed with its last owner. *)
Definition release_active_self_sync : code := wr (Sessions k);; maybe tcp_dtor_sync.
Definition close_client_only_sync : code :=
  rd (Sessions k);; maybe (wr (Sessions k));; release_active_self_sync.
(** Called by lwIP when it gives up a pcb. *)
Definition on_err_sync : code := maybe (wr (Sessions k);; close_client_only_sync).

End Instance.

(** lwIP aborts connections of its own accord, of any instance: those that use
    an address that is changed or removed, and old ones when pcbs run out.  It
    may send a reset for each. *)
Definition abort_event (k : nat) : code := Choice (on_err_sync k) (emit_packet_sync k).
Definition aborted (n : nat) : code := Star (one_of (abort_event <$> seq 0 n)).

(** [n] instances, of which this is the [k]-th. *)
Section Instances.
Variable (n k : nat).

(* ------------------------------------------------------------------ *)
(** ** The lwIP runtime *)

Definition runtime_ctor_sync : code := Guard GlobalMutex (wr Stack;; wr (Netif k)).
Definition stop_runtime_sync : code :=
  wr (LwipRunning k);; rd (LifetimeToken k);; maybe (wr (TokenFlag k));; wr (LwipTimer k);;
  acquire_stack (wr (DnsQueries k);; Star (wr Stack)).
Definition runtime_dtor_sync : code :=
  stop_runtime_sync;; Guard GlobalMutex (wr Stack;; aborted n;; wr (Netif k)).
Definition arm_timer_sync : code := wr (LwipTimer k).
Definition start_runtime_sync : code :=
  rd (LwipRunning k);; maybe (wr (LwipRunning k);; arm_timer_sync).

Definition apply_tun_config_sync : code := wr (ActiveConfig k);; wr (Netif k);; Star (wr Stack;; aborted n).
Definition apply_tun_config_and_output_sync : code :=
  acquire_stack (apply_tun_config_sync;; maybe (wr (PacketOutput k))).

Definition set_packet_output_sync : code := acquire_stack (wr (PacketOutput k)).

Definition tcp_new_pcb_sync : code :=
  acquire_stack (wr Stack;; aborted n;; maybe (rd (Netif k);; wr Stack)).
Definition udp_new_pcb_sync : code := acquire_stack (wr Stack;; maybe (rd (Netif k);; wr Stack)).

Definition dns_server_sync : code := rd (ActiveConfig k).
Definition complete_dns_query_sync : code :=
  acquire_stack (wr (DnsQueries k);; maybe (wr Stack)).
Definition async_resolve_sync : code :=
  rd (LifetimeToken k);; maybe (rd (TokenFlag k));; maybe (wr (LifetimeToken k));;
  maybe (dns_server_sync;;
    maybe (acquire_stack udp_new_pcb_sync;;
      maybe (acquire_stack (wr Stack;; wr (DnsQueries k);; maybe (lwip_call k));;
        one_of [complete_dns_query_sync; rd (LifetimeToken k)]))).
Definition dns_timeout_sync : code := maybe (rd (TokenFlag k);; maybe complete_dns_query_sync).
(** Called by lwIP, as are the callbacks below. *)
Definition dns_recv_sync : code := wr Stack;; maybe complete_dns_query_sync.

Definition post_inject_sync : code := maybe (rd (LifetimeToken k)).

(* ------------------------------------------------------------------ *)
(** ** TCP relay sessions *)

Definition close_sync : code :=
  rd (Sessions k);;
  maybe (wr (Sessions k);;
    maybe (acquire_stack (detach_pcb_callbacks_sync k;; lwip_call k;; maybe (lwip_call k);; wr (Sessions k)));;
    release_active_self_sync k).
Definition connect_ip_sync : code :=
  acquire_stack (tcp_new_pcb_sync;; wr (Sessions k);;
    Choice close_sync (wr Stack;; wr (Sessions k);; lwip_call k;; maybe close_sync)).
Definition connect_target_sync : code := Choice async_resolve_sync connect_ip_sync.
Definition resolve_handler_sync : code := maybe (rd (Sessions k);; Choice close_sync connect_ip_sync).
Definition flush_to_lwip_sync : code :=
  rd (Sessions k);;
  maybe (acquire_stack (
    Star (rd (Sessions k);; rd Stack;; lwip_call k;; wr (Sessions k));;
    one_of [close_sync; wr (Sessions k);; lwip_call k; lwip_call k])).
Definition flush_to_client_sync : code := rd (Sessions k);; maybe (wr (Sessions k)).
Definition enqueue_client_payload_sync : code := maybe (wr (Sessions k);; flush_to_client_sync).
Definition read_encrypted_stream_sync : code := rd (Sessions k).
Definition process_decrypted_chunk_sync : code :=
  rd (Sessions k);;
  maybe (Choice close_sync (wr (Sessions k);; maybe connect_target_sync));; maybe (wr (Sessions k)).
Definition handle_client_eof_sync : code :=
  wr (Sessions k);;
  acquire_stack (rd (Sessions k);;
    maybe (rd Stack;; maybe (lwip_call k);;
      maybe (detach_pcb_callbacks_sync k;; lwip_call k;; wr (Sessions k);; release_active_self_sync k)));;
  rd (Sessions k);; maybe close_sync.
Definition handle_remote_fin_sync : code :=
  wr (Sessions k);;
  maybe (acquire_stack (detach_pcb_callbacks_sync k;; lwip_call k;; maybe (lwip_call k);;
    wr (Sessions k);; release_active_self_sync k));;
  rd (Sessions k);; maybe close_sync.
Definition maybe_resume_client_read_sync : code :=
  acquire_stack (rd (Sessions k);;
    maybe (rd Stack;; maybe (wr (Sessions k);; flush_to_lwip_sync;; read_encrypted_stream_sync))).

Definition start_session_sync : code := wr (Sessions k).
Definition salt_handler_sync : code :=
  Choice close_sync (wr (Sessions k);; read_encrypted_stream_sync;; maybe close_sync).
Definition read_handler_sync : code :=
  one_of [handle_client_eof_sync; close_sync;
          wr (Sessions k);; Star process_decrypted_chunk_sync;;
            maybe (maybe (wr (Sessions k));; flush_to_lwip_sync;; read_encrypted_stream_sync);;
            maybe close_sync].
Definition write_handler_sync : code :=
  wr (Sessions k);;
  Choice close_sync
    (wr (Sessions k);;
     maybe (acquire_stack (Star (lwip_call k;; wr (Sessions k))));;
     flush_to_client_sync).

Definition on_connected_sync : code := acquire_stack (Choice close_sync flush_to_lwip_sync).
Definition on_recv_sync : code :=
  acquire_stack (
    one_of [wr Stack;; close_sync; handle_remote_fin_sync;
            wr Stack;; enqueue_client_payload_sync;;
              one_of [close_sync; wr (Sessions k); lwip_call k]]).
Definition on_sent_sync : code := acquire_stack maybe_resume_client_read_sync.

(* ------------------------------------------------------------------ *)
(** ** The UDP relay *)

Definition mapping_for_sync : code :=
  rd (Sessions k);; maybe (acquire_stack (udp_new_pcb_sync;; maybe (wr Stack;; wr (Sessions k)))).
Definition send_payload_to_ip_sync : code :=
  mapping_for_sync;;
  maybe (wr (Sessions k);; acquire_stack (wr Stack;; maybe (rd (Sessions k);; lwip_call k))).
Definition send_to_lwip_sync : code :=
  maybe (one_of [rd (Sessions k);; async_resolve_sync; send_payload_to_ip_sync]).
Definition receive_loop_sync : code := rd (Sessions k);; maybe (wr (Sessions k)).
Definition receive_handler_sync : code := maybe send_to_lwip_sync;; receive_loop_sync.
Definition resolved_handler_sync : code := maybe (rd (Sessions k);; maybe send_payload_to_ip_sync).
Definition erase_mapping_sync : code :=
  rd (Sessions k);; maybe (maybe (acquire_stack (wr Stack;; wr (Sessions k)));; wr (Sessions k)).
Definition idle_handler_sync : code := maybe erase_mapping_sync.
Definition on_udp_recv_sync : code :=
  Choice (wr Stack) (rd (Sessions k);; acquire_stack (rd Stack;; rd (Sessions k);; maybe (wr Stack))).
Definition start_udp_sync : code := wr (Sessions k);; receive_loop_sync.
Definition stop_udp_sync : code :=
  wr (Sessions k);; Star (maybe (acquire_stack (wr Stack;; wr (Sessions k))));; wr (Sessions k).

(** What lwIP may call for a packet of the interface: the callbacks of the
    instance's pcbs, and its output. *)
Definition input_sync : code :=
  Star (one_of [on_connected_sync; on_recv_sync; on_sent_sync; on_err_sync k; on_udp_recv_sync;
                dns_recv_sync; emit_packet_sync k]).
Definition inject_l3_packet_sync : code :=
  acquire_stack (maybe (wr Stack;; maybe (rd (Netif k);; input_sync;; wr Stack))).
Definition run_injected_sync : code :=
  maybe (rd (TokenFlag k);; rd (LwipRunning k);; maybe inject_l3_packet_sync).

(** What lwIP's timers may call for a pcb of the instance. *)
Definition timer_event : code := one_of [on_recv_sync; on_err_sync k; emit_packet_sync k].

(* ------------------------------------------------------------------ *)
(** ** The OpenVPN client *)

Definition set_ready_handler_sync : code := Guard (HandlerMutex k) (wr (ReadyHandler k)).
Definition set_disconnect_handler_sync : code := Guard (HandlerMutex k) (wr (DisconnectHandler k)).
Definition notify_tun_ready_sync : code := Guard (HandlerMutex k) (rd (ReadyHandler k)).
Definition notify_tun_down_sync : code := Guard (HandlerMutex k) (rd (DisconnectHandler k)).

Definition set_memory_tun_sync : code := Guard (CoreMutex k) (wr (MemoryTun k)).
Definition establish_sync : code := rd (Pending k);; apply_tun_config_and_output_sync.
Definition tun_start_sync : code :=
  wr (Pending k);; Star (wr (Pending k));;
  maybe (establish_sync;; maybe (wr (Connected k);; notify_tun_ready_sync)).
Definition tun_stop_sync : code := wr (Connected k);; set_packet_output_sync;; notify_tun_down_sync.
Definition set_disconnect_sync : code := wr (Connected k);; notify_tun_down_sync.
Definition tun_send_sync : code := maybe post_inject_sync.
Definition run_core_post_sync : code := rd (Connected k).
Definition core_event_sync : code :=
  maybe (Guard (CoreMutex k) (wr (MemoryTun k);; notify_tun_down_sync)).

(** The builder's functions, which [CoreClient] passes on. *)
Definition core_builder_sync : code := one_of [wr (Pending k); establish_sync; set_packet_output_sync].

(** [connect]: openvpn3 calls the client until the session ends. *)
Definition connect_sync : code :=
  Star (one_of [set_memory_tun_sync; tun_start_sync; tun_stop_sync; set_disconnect_sync; tun_send_sync;
                run_core_post_sync; core_event_sync; core_builder_sync]).
Definition reset_impl_sync : code := Guard (ImplMutex k) (wr (ImplPtr k);; wr (MemoryTun k)).
Definition vpn_thread_sync : code :=
  Star (maybe (rd (ImplPtr k));; rd (ImplPtr k);; connect_sync;;
        maybe (maybe (rd (ImplPtr k));; reset_impl_sync;; rd (ImplPtr k))).

(** [start] evaluates the profile and starts the thread. *)
Definition start_client_sync : code :=
  maybe (Fork (vpn_tid k) (rd (ImplPtr k));; wr (VpnThread k)).

Definition stop_client_sync : code :=
  maybe (wr (VpnThread k);; Guard (ImplMutex k) (rd (ImplPtr k))).

(* ------------------------------------------------------------------ *)
(** ** The inbound *)

Definition accept_loop_sync : code := wr (Listener k).
Definition accept_handler_sync : code :=
  maybe start_session_sync;; rd (Listener k);; maybe accept_loop_sync.
Definition start_inbound_sync : code :=
  rd (Listener k);; maybe (wr (Listener k);; accept_loop_sync;; wr (Listener k);; maybe start_udp_sync).
Definition stop_inbound_sync : code := wr (Listener k);; maybe (stop_udp_sync;; wr (Listener k)).

(* ------------------------------------------------------------------ *)
(** ** Posted functions *)

Definition boot_task_sync : code := start_runtime_sync;; start_client_sync;; maybe stop_runtime_sync.
Definition ready_task_sync : code := maybe start_inbound_sync.
Definition down_task_sync : code := maybe stop_inbound_sync.
Definition shutdown_task_sync : code :=
  set_ready_handler_sync;; set_disconnect_handler_sync;; stop_inbound_sync;; stop_client_sync;;
  stop_runtime_sync.

End Instances.

(* ------------------------------------------------------------------ *)
(** ** The threads, for [n] instances *)

Section Threads.
Variable (n : nat).

(** [sys_check_timeouts]: the timers of all pcbs. *)
Definition check_timeouts_sync : code := wr Stack;; Star (one_of (timer_event <$> seq 0 n)).
Definition poll_timeouts_sync (k : nat) : code :=
  acquire_stack (check_timeouts_sync;; maybe (stop_runtime_sync k)).
Definition tick_handler_sync (k : nat) : code :=
  rd (LwipRunning k);; maybe (poll_timeouts_sync k;; arm_timer_sync k).

(** [io->run()] *)
Definition io_thread_sync (k : nat) : code :=
  Star (one_of [
    boot_task_sync k; ready_task_sync k; down_task_sync k; shutdown_task_sync k;
    tick_handler_sync k; run_injected_sync k; dns_timeout_sync k; accept_handler_sync k;
    salt_handler_sync k; read_handler_sync n k; write_handler_sync k; resolve_handler_sync n k;
    receive_handler_sync k; resolved_handler_sync k; idle_handler_sync k]).

(** [MultiInstanceManager::start] for one instance. *)
Definition start_instance_sync (k : nat) : code :=
  Fork (io_tid k) (runtime_ctor_sync k;; set_ready_handler_sync k;; set_disconnect_handler_sync k).

(** The members of the client go in the reverse order of their declaration:
    first the handlers, then [vpn_thread_], which is joined. *)
Definition client_dtor_sync (k : nat) (rest : code) : code :=
  stop_client_sync k;; wr (DisconnectHandler k);; wr (ReadyHandler k);; After (vpn_tid k) rest.

(** The end of an [InstanceRuntime]: the loop's thread is joined, then the
    inbound goes, the client, the runtime, and with the loop what its handlers
    own. *)
Definition destroy_instance_sync (k : nat) : code :=
  After (io_tid k) (wr (Listener k);; Star (stop_udp_sync k);;
    client_dtor_sync k (runtime_dtor_sync n k;; Star (Choice (tcp_dtor_sync k) (stop_udp_sync k)))).

Definition all_of (l : list code) : code := foldr Seq Skip l.
Definition main_sync : code :=
  all_of (start_instance_sync <$> seq 0 n);; all_of (destroy_instance_sync <$> seq 0 n).

(** Thread 0, then two for each instance. *)
Definition program : list code :=
  main_sync :: flat_map (fun k => [io_thread_sync k; vpn_thread_sync n k]) (seq 0 n).

End Threads.
