(* ===== verification/LockingSpec.v ===== *)
(** * The program's threads: no deadlock, and data kept apart

    The order in which mutexes are locked, and how the fields that are kept
    apart are; all for any number of instances. *)
From S2P Require Import Prelude Sync SyncFacts Locking.

(* ------------------------------------------------------------------ *)
(** ** The order of the mutexes *)

Definition rank (m : mutex) : nat :=
  match m with GlobalMutex => 0 | ImplMutex _ => 1 | CoreMutex _ => 2 | HandlerMutex _ => 3 end.

Lemma rank_top m : (rank m <= 3)%nat.
Proof. destruct m; cbn; lia. Qed.

Abbreviation ranked := (ranked recursive rank).

Lemma ranked_one_of n i h l : ranked n i h (one_of l) = forallb (ranked n i h) l.
Proof. unfold one_of. induction l as [|c l IH]; cbn; [done|by rewrite IH]. Qed.
Lemma ranked_all_of n i h l : ranked n i h (all_of l) = forallb (ranked n i h) l.
Proof. unfold all_of. induction l as [|c l IH]; cbn; [done|by rewrite IH]. Qed.

Lemma forallb_seq {A} (P : A -> bool) (g : nat -> A) n :
  (forall k, (k < n)%nat -> P (g k) = true) -> forallb P (g <$> seq 0 n) = true.
Proof.
  intros Hg. rewrite forallb_forall. intros x Hx. apply list_elem_of_In, list_elem_of_fmap in Hx as (k & -> & Hk).
  apply Hg. apply elem_of_seq in Hk. lia.
Qed.

Section Ranked.
Variable (n : nat).
Implicit Types a b c : code.

Lemma ranked_seq m i h a b : ranked m i h (Seq a b) = ranked m i h a && ranked m i h b.
Proof. done. Qed.
Lemma ranked_choice m i h a b : ranked m i h (Choice a b) = ranked m i h a && ranked m i h b.
Proof. done. Qed.
Lemma ranked_star m i h a : ranked m i h (Star a) = ranked m i h a.
Proof. done. Qed.
Lemma ranked_fork m i j h a : i <> j -> ranked m i h a = true -> ranked m i h (Fork j a) = true.
Proof. intros Hne Ha. cbn. by rewrite (proj2 (Nat.eqb_neq i j) Hne), Ha. Qed.
Lemma ranked_after m i j a :
  (i < j < m)%nat -> ranked m i [] a = true -> ranked m i [] (After j a) = true.
Proof. intros [Hi Hj] Ha. cbn [Sync.ranked]. rewrite (proj2 (Nat.ltb_lt i j) Hi), (proj2 (Nat.ltb_lt j m) Hj). done. Qed.

(** Inside lwIP the global mutex is held, and no other. *)
Definition in_stack (h : list mutex) : bool :=
  match h with [] => false | _ => forallb (fun m => bool_decide (m = GlobalMutex)) h end.

Lemma in_stack_repeat h : in_stack h = true -> exists d, h = repeat GlobalMutex (S d).
Proof.
  destruct h as [|m h]; [done|]. unfold in_stack. rewrite forallb_forall. intros Hh. exists (length h).
  change (S (length h)) with (length (m :: h)). apply Forall_eq_repeat, Forall_forall.
  intros x Hx%list_elem_of_In. symmetry. by eapply bool_decide_eq_true_1, Hh.
Qed.

Lemma may_lock_global h : GlobalMutex ∈ h -> may_lock recursive rank h GlobalMutex = true.
Proof. intros Hh. unfold may_lock. rewrite (bool_decide_eq_true_2 _ Hh). apply orb_true_r. Qed.
Lemma may_lock_behind d l m :
  (0 < rank m)%nat -> forallb (fun m' => (rank m' <? rank m)%nat) l = true ->
  may_lock recursive rank (l ++ repeat GlobalMutex d) m = true.
Proof.
  unfold may_lock. intros Hm Hl. rewrite forallb_app, Hl. apply orb_true_iff. left.
  apply forallb_forall. intros x ->%repeat_spec. by apply Nat.ltb_lt.
Qed.

Lemma aborted_ranked m i h : in_stack h = true -> ranked m i h (aborted n) = true.
Proof.
  intros [d ->]%in_stack_repeat. unfold aborted. rewrite ranked_star, ranked_one_of. apply forallb_seq. intros k _.
  cbn -[may_lock repeat]. rewrite !may_lock_global by set_solver.
  rewrite !(may_lock_behind (S d) [GlobalMutex]), !(may_lock_behind (S d) [ImplMutex k; GlobalMutex]),
    !(may_lock_behind (S d) [GlobalMutex; GlobalMutex]),
    !(may_lock_behind (S d) [ImplMutex k; GlobalMutex; GlobalMutex]) by first [done | cbn; lia].
  done.
Qed.

Ltac check_code :=
  cbn -[aborted io_tid vpn_tid]; rewrite ?aborted_ranked by (by vm_compute); by vm_compute.

Lemma tick_ranked i k : ranked (2 * n + 1) i [] (tick_handler_sync n k) = true.
Proof.
  unfold tick_handler_sync, poll_timeouts_sync, check_timeouts_sync, rd, wr. cbn -[timer_event seq fmap].
  rewrite ranked_one_of, forallb_seq; [by vm_compute|]. intros j _. by vm_compute.
Qed.

Lemma boot_ranked m k : ranked m (io_tid k) [] (boot_task_sync k) = true.
Proof.
  unfold boot_task_sync, start_client_sync, maybe. rewrite !ranked_seq.
  rewrite (ranked_choice m), ranked_seq, ranked_fork; [by vm_compute|unfold io_tid, vpn_tid; lia|done].
Qed.

Lemma io_ranked k : ranked (2 * n + 1) (io_tid k) [] (io_thread_sync n k) = true.
Proof.
  unfold io_thread_sync. rewrite ranked_star, ranked_one_of. cbn [forallb].
  rewrite boot_ranked, tick_ranked. check_code.
Qed.

Lemma vpn_ranked m i k : ranked m i [] (vpn_thread_sync n k) = true.
Proof. check_code. Qed.

Lemma destroy_ranked k : (k < n)%nat -> ranked (2 * n + 1) 0 [] (destroy_instance_sync n k) = true.
Proof.
  intros Hk. unfold destroy_instance_sync, client_dtor_sync.
  apply ranked_after; [unfold io_tid; lia|]. rewrite !ranked_seq, ranked_after; [by vm_compute| |check_code].
  unfold vpn_tid. lia.
Qed.

Lemma main_ranked : ranked (2 * n + 1) 0 [] (main_sync n) = true.
Proof.
  unfold main_sync. rewrite ranked_seq, !ranked_all_of, !forallb_seq; [done|apply destroy_ranked|].
  intros k Hk. unfold start_instance_sync. apply ranked_fork; [unfold io_tid; lia|by vm_compute].
Qed.

(** The threads of the program, by number. *)
Lemma threads_lookup m s i c :
  flat_map (fun k => [io_thread_sync n k; vpn_thread_sync n k]) (seq s m) !! i = Some c ->
  exists k, (s <= k < s + m)%nat /\
    (i + 2 * s = 2 * k /\ c = io_thread_sync n k \/ i + 2 * s = 2 * k + 1 /\ c = vpn_thread_sync n k)%nat.
Proof.
  revert s i. induction m as [|m IH]; intros s i; [done|]. cbn [seq flat_map].
  destruct i as [|[|i]]; cbn [app lookup list_lookup].
  - intros [= <-]. exists s. split; [lia|left; split; [lia|done]].
  - intros [= <-]. exists s. split; [lia|right; split; [lia|done]].
  - intros (k & ? & Hc)%IH. exists k. split; [lia|]. destruct Hc as [[? ->]|[? ->]]; [left|right]; (split; [lia|done]).
Qed.
Lemma program_lookup i c :
  program n !! i = Some c ->
  (i = O /\ c = main_sync n) \/
  exists k, (k < n)%nat /\ (i = io_tid k /\ c = io_thread_sync n k \/ i = vpn_tid k /\ c = vpn_thread_sync n k).
Proof.
  unfold program. destruct i as [|i]; cbn; [intros [= <-]; by left|]. intros Hi. right.
  destruct (threads_lookup n 0 i c Hi) as (k & ? & Hc). exists k. cbn in *. split; [lia|].
  unfold io_tid, vpn_tid. destruct Hc as [[? ->]|[? ->]]; [left|right]; (split; [lia|done]).
Qed.

Lemma program_length : length (program n) = (2 * n + 1)%nat.
Proof.
  assert (forall (g g' : nat -> code) m s, length (flat_map (fun k => [g k; g' k]) (seq s m)) = 2 * m)%nat as Hl.
  { intros g g' m. induction m as [|m IH]; intros s; cbn; [done|]. specialize (IH (S s)). cbn in IH. lia. }
  unfold program. cbn [length]. rewrite Hl. lia.
Qed.

Lemma program_ranked i c : program n !! i = Some c -> ranked (length (program n)) i [] c = true.
Proof.
  rewrite program_length. intros [[-> ->]|(k & Hk & [[-> ->]|[-> ->]])]%program_lookup.
  - apply main_ranked.
  - apply io_ranked.
  - apply vpn_ranked.
Qed.

End Ranked.

(* ------------------------------------------------------------------ *)
(** ** How fields are kept apart *)

(** Owned by a thread: the others stay away but for thread 0 while the owner
    does not run. *)
Definition owned (o me : nat) (q : list nat) : Prop := me = o \/ me = O /\ o ∈ q.

Definition complies (me : nat) (x : @access mutex field) : Prop :=
  let '(f, w, h, q) := x in
  match f with
  | Stack | Netif _ | PacketOutput _ | DnsQueries _ => GlobalMutex ∈ h
  | TokenFlag k | LwipRunning k | LwipTimer k | VpnThread k | Listener k => owned (io_tid k) me q
  | Pending k => me = vpn_tid k
  | ImplPtr k =>
      me = vpn_tid k /\ (w = false \/ ImplMutex k ∈ h) \/
      w = false /\ (ImplMutex k ∈ h \/ vpn_tid k ∈ q)
  | MemoryTun k =>
      me = vpn_tid k /\ (w = false \/ CoreMutex k ∈ h \/ ImplMutex k ∈ h) \/
      w = false /\ CoreMutex k ∈ h /\ ImplMutex k ∈ h
  | ActiveConfig _ | LifetimeToken _ | Connected _ | ReadyHandler _ | DisconnectHandler _ | Sessions _ => True
  end.

(** The fields for which that is enough. *)
Definition protected (f : field) : bool :=
  match f with
  | ActiveConfig _ | LifetimeToken _ | Connected _ | ReadyHandler _ | DisconnectHandler _ | Sessions _ => false
  | _ => true
  end.

Lemma complies_apart f i j w h q w' h' q' :
  protected f = true -> i <> j -> w || w' = true ->
  complies i (f, w, h, q) -> complies j (f, w', h', q') -> apart i j (f, w, h, q) (f, w', h', q').
Proof.
  unfold complies, owned, apart. destruct f; intros Hp Hne Hw H1 H2; try done;
    try (by left; eauto); destruct w, w'; naive_solver.
Qed.

(** [P] of every access of a piece of code. *)
Fixpoint all_accesses (P : @access mutex field -> Prop) (h : list mutex) (q : list nat) (c : code) : Prop :=
  match c with
  | Skip => True
  | Access f w => P (f, w, h, q)
  | Seq a b | Choice a b => all_accesses P h q a /\ all_accesses P h q b
  | Star a => all_accesses P h q a
  | Guard m a => all_accesses P (m :: h) q a
  | Fork j a | After j a => all_accesses P h (j :: q) a
  end.

Lemma all_accesses_elem P c h q x : all_accesses P h q c -> x ∈ accesses h q c -> P x.
Proof.
  revert h q. induction c as [|f w|a IHa b IHb|a IHa b IHb|a IHa|m a IHa|j a IHa|j a IHa]; cbn; intros h q Hc Hx; eauto.
  - by apply elem_of_nil in Hx.
  - by apply list_elem_of_singleton in Hx as ->.
  - destruct Hc, (proj1 (elem_of_app _ _ _) Hx); eauto.
  - destruct Hc, (proj1 (elem_of_app _ _ _) Hx); eauto.
Qed.
Lemma all_accesses_one_of P h q l : Forall (all_accesses P h q) l -> all_accesses P h q (one_of l).
Proof. unfold one_of. induction 1; cbn; auto. Qed.
Lemma all_accesses_all_of P h q l : Forall (all_accesses P h q) l -> all_accesses P h q (all_of l).
Proof. unfold all_of. induction 1; cbn; auto. Qed.

Ltac held := first [apply list_elem_of_here | apply list_elem_of_further; held].
Ltac settle_with tac :=
  first [exact I | reflexivity | held | assumption | tac | solve [split; settle_with tac]
        | solve [left; settle_with tac] | solve [right; settle_with tac]].
Ltac comply := cbn -[io_tid vpn_tid]; unfold owned; settle_with fail.

Section Comply.
Variable (n k : nat).

Lemma aborted_comply me h q : GlobalMutex ∈ h -> all_accesses (complies me) h q (aborted n).
Proof.
  intros Hh. unfold aborted. cbn [all_accesses]. apply all_accesses_one_of, Forall_fmap, Forall_true. intros j. comply.
Qed.

Ltac comply_all := cbn -[aborted io_tid vpn_tid]; unfold owned; settle_with ltac:(apply aborted_comply; held).

Lemma timer_comply me j : all_accesses (complies me) [GlobalMutex] [] (timer_event j).
Proof. comply. Qed.

Lemma tick_comply : all_accesses (complies (io_tid k)) [] [] (tick_handler_sync n k).
Proof.
  unfold tick_handler_sync, poll_timeouts_sync, check_timeouts_sync, maybe, rd, wr.
  cbn [all_accesses]. split; [comply|]. split; [|done]. split; [|comply]. split; [|comply]. split; [comply|].
  apply all_accesses_one_of, Forall_fmap, Forall_true. intros j. apply timer_comply.
Qed.

Lemma io_comply : all_accesses (complies (io_tid k)) [] [] (io_thread_sync n k).
Proof.
  unfold io_thread_sync. cbn [all_accesses]. apply all_accesses_one_of.
  repeat (apply Forall_cons; split; [first [apply tick_comply | comply_all]|]). done.
Qed.

Lemma vpn_comply : all_accesses (complies (vpn_tid k)) [] [] (vpn_thread_sync n k).
Proof. comply_all. Qed.

Lemma start_comply : all_accesses (complies O) [] [] (start_instance_sync k).
Proof. comply. Qed.

Lemma destroy_comply : all_accesses (complies O) [] [] (destroy_instance_sync n k).
Proof. comply_all. Qed.

End Comply.

Lemma program_complies n i c x : program n !! i = Some c -> x ∈ accesses [] [] c -> complies i x.
Proof.
  intros [[-> ->]|(k & Hk & [[-> ->]|[-> ->]])]%program_lookup; apply all_accesses_elem.
  - unfold main_sync. cbn [all_accesses]. split; apply all_accesses_all_of, Forall_fmap, Forall_true; intros k.
    + apply start_comply.
    + apply destroy_comply.
  - apply io_comply.
  - apply vpn_comply.
Qed.

Lemma program_exclusive n f : protected f = true -> exclusive f (program n).
Proof.
  intros Hf i j ci cj w h q w' h' q' Hne Hi Hj Hx Hy Hw.
  by eapply complies_apart; [..|by eapply program_complies|by eapply program_complies].
Qed.

(* ------------------------------------------------------------------ *)
(** ** The theorems *)

(** Threads started for instance [k], as far as its client's thread. *)
Definition boot (k : nat) : list (@stretch field) :=
  [Reaches 0 (DisconnectHandler k) true; Passes 0 3; Reaches (io_tid k) (VpnThread k) true].

(** C7.  The program does not deadlock: with any number of instances, and in
    whatever order the threads come to their locks, joins and callbacks, every
    thread that was started and has not ended can take a step or waits, perhaps
    through other threads that wait in turn, for one that can. *)
Theorem threads_no_deadlock n p i t :
  reach recursive (launch (program n)) p -> p !! i = Some t -> active t = true ->
  exists j, rtc (waits_for p) i j /\ can_step recursive p j.
Proof. apply (checked_progress recursive rank 3 rank_top), program_ranked. Qed.

(** With one instance started, [main] waits for the loop's thread to end. *)
Lemma threads_no_deadlock_witness :
  match p ← run_schedule recursive (launch (program 1)) (boot 0 ++ [Passes 0 1]); steps recursive p 0 [true] with
  | Some p => step_thread recursive p 0 true = None /\ exists j, rtc (waits_for p) O j /\ can_step recursive p j
  | None => False
  end.
Proof.
  destruct (p ← _; _) as [p|] eqn:Hp; [|by vm_compute in Hp].
  assert (match p ← run_schedule recursive (launch (program 1)) (boot 0 ++ [Passes 0 1]); steps recursive p 0 [true] with
    | Some p => match p !! 0%nat with Some t => active t | None => false end
                && match step_thread recursive p 0 true with None => true | Some _ => false end
    | None => false end = true) as Ht by by vm_compute.
  rewrite Hp in Ht. destruct (p !! 0%nat) as [t|] eqn:H0; [|done].
  apply andb_true_iff in Ht as [Ha Hs]. split; [by destruct (step_thread recursive p 0 true)|].
  apply bind_Some in Hp as (p1 & Hp1 & Hp).
  apply (threads_no_deadlock 1 p 0 t); [|done|done].
  eapply steps_sound; [|done]. eapply run_schedule_sound; [constructor|done].
Defined.

(** C8.  No two threads are ever about to access one of the protected fields, one of
    them writing: lwIP's state with every pcb and interface, the output of an
    interface, the resolver's table, the timer and flags of a runtime, the
    staged configuration, the pointer to the openvpn3 client, the tun it sends
    to, the listener. *)
Theorem threads_race_free n f p :
  protected f = true -> reach recursive (launch (program n)) p -> ~ race f p.
Proof.
  intros Hf. apply (checked_no_race recursive rank 3 rank_top (program n) (program_ranked n)). by apply program_exclusive.
Qed.

(** One loop inside lwIP while the other runs. *)
Lemma threads_race_free_witness :
  match run_schedule recursive (launch (program 2)) (boot 0 ++ boot 1 ++ [Reaches 1 Stack true]) with
  | Some p => next_access (p !!! 1%nat) = Some (Stack, true) /\ ~ race Stack p
  | None => False
  end.
Proof.
  destruct (run_schedule _ _ _) as [p|] eqn:Hp; [|by vm_compute in Hp]. split.
  - assert (match run_schedule recursive (launch (program 2)) (boot 0 ++ boot 1 ++ [Reaches 1 Stack true]) with
      | Some p => next_access (p !!! 1%nat) | None => None end = Some (Stack, true)) as Ht by by vm_compute.
    by rewrite Hp in Ht.
  - apply (threads_race_free 2 Stack); [done|]. eapply run_schedule_sound; [constructor|done].
Defined.
